(* ===== verification/_CoqProject ===== *)
-Q . S2P
Prelude.v
Constants.v
Bytes.v
Text.v
Order.v
Json.v
BufferPool.v
PageStore.v
Document.v
LruCache.v
Pager.v
BTreeNode.v
BTree.v
BTreeSpec.v
BTreeOnPager.v
TxBTree.v
TxBTreeSpec.v
TxBTreeInsert.v
TxBTreeRuns.v
Wal.v
Mvcc.v
DocumentOnPager.v
QueryLexer.v
QueryParser.v
QueryGrammar.v
IndexKey.v
QueryBuilder.v
QueryBuilderSpec.v
Aggregation.v
Validation.v
Metadata.v
Watch.v
DatabaseState.v
Transaction.v
TxCollection.v
Database.v
Errors.v
Collection.v
TextSearch.v
Metrics.v
WebServer.v
CommandLine.v
Samples.v
Frames.v
TransactionSpec.v
CommitSpec.v
CollectionSpec.v
CollectionTree.v
CollectionCommit.v
WebServerSpec.v
CommandLineSpec.v
TextSearchSpec.v
DatabaseRuns.v
CollectionRuns.v
TextSearchRuns.v
WebServerRuns.v
CommandLineRuns.v
