(* ===== verification/Prelude.v ===== *)
(** * A verified model of the jasonisnthappy document database

    jasonisnthappy ([src/], a Rust crate) is an embedded document database: JSON documents in
    one file of 4096-byte pages, with a page cache, copy-on-write B-trees, a write-ahead log,
    multi-version concurrency control, a query language and aggregation pipelines. This
    library translates the parts of the crate listed below into Rocq functions and proves what
    they do. A function of the model is the function of the source of the same name (a prefix
    or suffix tells overloaded names apart), with the state it mutates passed explicitly.

    ** How code is modelled

    - A [Result<T>] is an [outcome]: [Ok], [Err], [Panic] (an index or slice out of range, an
      [unwrap] of [None]) or [OutOfFuel] (below). A method on [&mut self] is a computation of
      the monad [ST], whose state survives an error.
    - [u16], [u32] and [u64] are [N], wrapped where the code computes modulo; lengths of
      buffers ([usize]) are [nat]; i64 and f64 are [Z] and the Standard Library's
      [spec_float] (IEEE binary64). Bytes are [Byte.byte], a [String] is its UTF-8 bytes.
    - A [HashMap] is a [gmap] where its order cannot be seen, and an association list with an
      arbitrary order of iteration where it can; a [BTreeMap] is its sorted list of entries.
    - A loop that the code does not bound runs on fuel. Every theorem about such a loop shows
      that the fuel given is enough: the height of the tree for descents, the length of the
      chain of leaves (with the stale ones of earlier versions) for the repair of links in a
      transaction, the page count for
      overflow chains (the code's own limit), the length of the file for the frames of the
      log, the height of the tree and the number of its entries for the scan of a collection,
      the length of the input for the lexer and 4 * (number of tokens) + 4 for the parser.
      [OutOfFuel] is never a result in these theorems.

    ** The parts of the program and the files that model them

    - [Constants.v]: constants.rs and the [Error] enumeration of errors.rs.
    - [Bytes.v], [Text.v], [Order.v], [Json.v]: what the code uses of the standard library
      and of serde_json: little-endian integers, slices, UTF-8 and characters, [Ordering] and
      the stable sort, JSON values, maps and numbers.
    - [BufferPool.v]: buffer_pool.rs, the pools of zeroed page buffers.
    - [LruCache.v]: lru_cache.rs. The slab with its index-linked list, the dirty set, eviction;
      shown to refine a list of pages in order of use.
    - [Pager.v]: pager.rs. Header, free list, cache and file; opening, closing, flushing.
    - [PageStore.v]: the interface between the pager and the components on top of it, a class
      of five operations and a class of their laws. [Pager.v] discharges the laws; documents
      and trees are proved against them.
    - [Document.v], [DocumentOnPager.v]: document.rs. Both formats of documents on a first
      page and a chain of overflow pages.
    - [BTreeNode.v], [BTree.v], [BTreeSpec.v], [BTreeOnPager.v]: btree.rs. Nodes as bytes, the
      operations and the iterator, the abstract tree they work on, and the theorems.
    - [TxBTree.v], [TxBTreeSpec.v], [TxBTreeInsert.v], [TxBTreeRuns.v]: tx_btree.rs. The
      copy-on-write tree of a transaction over a page store and its write buffer; which pages
      stand for which nodes after copies, walks and writes; insertion with splits; runs of
      operations, snapshots and commits.
    - [Wal.v]: wal.rs. The log file behind a buffered writer that shares its cursor, frames
      with CRC-32, recovery and checkpoints into the pager.
    - [Mvcc.v]: mvcc.rs. Transaction ids, snapshots, version chains and garbage collection,
      also as a step relation that interleaves the atomic steps of concurrent transactions.
    - [QueryLexer.v], [QueryParser.v], [QueryGrammar.v]: query/lexer.rs and query/parser.rs.
      Characters to tokens, tokens to a syntax tree, its evaluation, and a declarative grammar.
    - [IndexKey.v]: index_key.rs. The order and the text of simple and compound index keys.
    - [QueryBuilder.v]: query_builder.rs. Filter, sort, page, project and count; what it uses
      of a collection is the interface [CollectionReads]. [QueryBuilderSpec.v]: what a query
      and an order by fields mean, as relations, and the execution in these terms.
    - [Validation.v]: validation.rs. Collection names, schemas.
    - [Aggregation.v]: aggregation.rs. The stages of a pipeline.
    - [Metadata.v]: metadata.rs. The catalogue of collections and indexes and its page; the
      iteration order of hash maps.
    - [Watch.v]: watch.rs. Subscriptions, filters and the queues of the receivers.
    - [DatabaseState.v], [Database.v]: database.rs. The state that everything shares, and the
      operations on it: opening with recovery, catalogue updates, checkpoints, transactions
      with retries, indexes, schemas, statistics, garbage collection, backups.
    - [Transaction.v]: transaction.rs. A transaction and the database it works on as one state;
      conflicts, the queue of pending writes, rebasing, commits, rollback.
    - [TxCollection.v]: tx_collection.rs. Documents of a collection inside a transaction.
    - [Frames.v], [TransactionSpec.v], [CommitSpec.v]: what operations leave alone, and the
      theorems about batches, the leader, conflicts and rebasing.
    - [Errors.v]: the texts of errors (errors.rs).
    - [Collection.v]: collection.rs. Every operation on a collection outside a transaction of
      the caller, each in a transaction of its own: the builder and the execution of bulk
      writes, single documents, queries, upserts, distinct values, the typed operations. The
      tree is the one of btree.rs, changed in place.
    - [CollectionSpec.v]: what the reading operations return and leave alone, and the law of
      [CollectionReads], which queries and pipelines are proved against.
    - [CollectionTree.v]: the operations that change a collection, in the scope of a
      transaction, as operations of a finite map from ids to versions.
    - [CollectionCommit.v]: a deletion by id with the beginning and the end of its transaction.
    - [Metrics.v]: metrics.rs. The counters, the threads that change them, snapshots.
    - [WebServer.v], [WebServerSpec.v]: web_server.rs. The routes and the handlers, each a
      transaction of [TxCollection] or on the catalogue.
    - [CommandLine.v], [CommandLineSpec.v]: cli/src. The commands of the program, their
      dispatch and the interactive shell, on every other component.
    - [TextSearch.v], [TextSearchSpec.v]: text_search.rs, with the creation of a text index
      (database.rs) and the search in a collection (collection.rs).
    - [Samples.v], [DatabaseRuns.v], [CollectionRuns.v], [TextSearchRuns.v],
      [WebServerRuns.v], [CommandLineRuns.v]: instances of the
      parameters under which whole histories are evaluated, such histories, and the theorems
      at concrete inputs.

    The components call each other as the crate's do: [TxCollection] works on the transaction
    and its tree, [Collection] on a transaction that it begins and on the tree at the current
    root of the catalogue; a commit goes from [Transaction] to the log, the pager, the catalogue, the
    transaction manager and the watchers. Threads share one state. A transaction that commits
    puts its writes into the queue ([submit]); the one that holds the commit lock ([lead])
    takes batches from it, and what other threads append while it sleeps is a schedule
    ([wakes]) that the theorems quantify over.

    ** What the theorems show

    - The page cache never loses a dirty page and behaves as a list in order of use; reads of
      the pager return what [write_page_transfer] wrote last, along any history; flushing and closing put exactly the
      shown pages into the file, and opening gives them back ([LruCache], [Pager]).
    - A tree is a finite map under every sequence of operations with keys of at most 71 bytes,
      splits included, over every page store and so over the pager; nodes and documents survive the round trip through
      pages, with the exact limits ([BTreeOnPager], [BTreeNode], [DocumentOnPager]).
    - A transaction on a snapshot's tree behaves as a finite map, others keep reading the
      snapshot, and what it leaves is readable after the commit when no internal node of the
      snapshot was full ([TxBTreeRuns]).
    - The log gives back what was written, recovers exactly the valid frames, survives being
      cut anywhere, and a checkpoint writes the newest image of each page ([Wal]).
    - Garbage collection never frees a version that a transaction can see, in any
      interleaving ([Mvcc]).
    - Commits: a batch is a prefix of the queue without a document written twice; the leader
      leaves an empty queue and for everyone the result of its batch ([TransactionSpec]);
      validation decides exactly the conflicts that the recorded ids tell, and rebasing replays
      the writes of a transaction on the tree that others reached, when no internal node of it
      is full ([CommitSpec]); a failed validation changes nothing, a finished transaction no
      longer writes.
    - Collections: reads show the versions that the snapshot sees and change nothing; on
      versions that lie apart from each other and from the tree, every sequence of changes by
      id is that of a finite map and keeps the layout ([CollectionSpec], [CollectionTree]); a
      deletion with its commit leaves the collection without the id ([CollectionCommit]). A
      text search ranks exactly the documents that the postings name ([TextSearchSpec]).
    - The web interface: its table of routes is complete; reads and failed requests leave no
      trace; requests about collections change the catalogue in memory and nothing else
      ([WebServerSpec]). The counters are exact under every interleaving ([Metrics]).
    - The command line: no command takes a filter in JSON, which its manual asks for, and no
      line of the shell filters ([CommandLineSpec]).
    - A subscriber receives exactly the matching events ([Watch]); the catalogue survives its
      page ([Metadata]).
    - The lexer and the parser are total; the parser is sound and complete for the grammar;
      comparisons obey the laws of an order ([QueryLexer], [QueryGrammar], [QueryParser]).
    - A query returns exactly the documents that satisfy it, in the order of the sort fields
      and then of the collection ([QueryBuilderSpec]), and its count agrees; projections keep
      and remove exactly the named paths; group stages partition; validation decides
      conformance ([QueryBuilder], [Aggregation], [Validation], [IndexKey]).
    - Theorems whose statement is a defect of the code say so: the iterator that stops at the
      first empty leaf, the free list that is cut to a page, keys too long for a page, bars in
      index keys, the comparison of a sort stage that is not an order, the split of a full
      node of a snapshot that loses entries; and the histories of [DatabaseRuns]: an update
      that is lost, a failed batch that is visible, a committed document that is not found
      after a reopen, a dropped index that returns, unique indexes that accept duplicates; of
      [CollectionRuns] and [TextSearchRuns]: a failed bulk write that appears later, a deletion
      undone by a crash, a snapshot that loses documents, a text index that goes stale; of
      [WebServerRuns]: created collections that are lost and dropped ones that return.

    ** Parameters

    Code that is not part of the repository is a parameter, with the documented behaviour that
    the code relies on as a class of laws and an instance that satisfies them: the Unicode
    tables beyond ASCII ([UnicodeTables], [UnicodeLaws]), the numbers and the text format of
    serde_json ([SerdeNumber], [SerdeNumberLaws], [SerdeText]), its bytes of documents and of
    the catalogue ([SerdeBytes], [SerdeCatalogue] with [SerdeCatalogueLaws]), the typed
    documents of a caller ([Typed]), the iteration order of a HashMap ([HashOrder],
    [HashMapOrder]), the time ([Clock]) and the text of values in messages ([Messages],
    [DebugText], [DebugFields], [DebugStr]); for text search the segmentation into words
    ([Segmentation], a crate), the logarithm ([LogF32]) and the text of postings
    ([SerdePostings]); for the web interface serde_json's texts of what it lists and its two
    request types ([SerdeWeb]) and the text of its page; for the
    command line its tables, colours and other JSON texts ([CliText]). Generated ids are arguments.

    ** Not modelled

    Poisoned locks, the calls of the metrics, file permissions and locks, I/O errors of the operating system
    and the durability of [sync]; the size of the stack. Of errors.rs, the conversions from
    the errors of the standard library, which each site builds. That the commit at the end of
    an insertion or an update of a collection makes it visible is shown on runs only: the
    theorems of [CollectionTree] stop before the commit, those of [CommitSpec] treat its parts
    (a deletion, which logs nothing, is followed to its end in [CollectionCommit]).
    The reading of arguments by clap, the command watch and the text of the help; the language
    bindings, which convert arguments and call the library. *)

From stdpp Require Import base list strings gmap pretty.
From Stdlib Require Import ZArith NArith Lia.

(** ** Outcomes of Rust code

    [Ok] and [Err] are Rust's [Result]; [Panic] is a Rust panic (an index or a slice
    out of range, an [unwrap] of [None]); [OutOfFuel] appears only when the fuel of a
    loop that the code does not bound has been used up. *)
Inductive outcome (E A : Type) : Type :=
| Ok (a : A)
| Err (e : E)
| Panic
| OutOfFuel.
Arguments Ok {E A} a.
Arguments Err {E A} e.
Arguments Panic {E A}.
Arguments OutOfFuel {E A}.

Section outcome.
Context {E A B : Type}.

Definition obind (k : A -> outcome E B) (x : outcome E A) : outcome E B :=
  match x with
  | Ok a => k a
  | Err e => Err e
  | Panic => Panic
  | OutOfFuel => OutOfFuel
  end.

Definition of_option (d : outcome E A) (x : option A) : outcome E A :=
  match x with Some a => Ok a | None => d end.

Definition is_ok (x : outcome E A) : bool :=
  match x with Ok _ => true | _ => false end.
End outcome.

(** A computation over a state: the state survives an error, as the memory and the
    file of the Rust code do. *)
Definition ST (S E A : Type) : Type := S -> outcome E A * S.

Section state_monad.
Context {S E A B : Type}.

Definition st_ret (a : A) : ST S E A := fun s => (Ok a, s).

Definition st_fail (e : E) : ST S E A := fun s => (Err e, s).

Definition st_bind (k : A -> ST S E B) (m : ST S E A) : ST S E B := fun s =>
  match m s with
  | (Ok a, s') => k a s'
  | (Err e, s') => (Err e, s')
  | (Panic, s') => (Panic, s')
  | (OutOfFuel, s') => (OutOfFuel, s')
  end.

Definition st_lift (x : outcome E A) : ST S E A := fun s => (x, s).

(** Rust's [let _ = m;] on a fallible [m], and [m.ok()]: an error is dropped, a panic is
    not. *)
Definition st_ok (m : ST S E A) : ST S E (option A) := fun s =>
  match m s with
  | (Ok a, s') => (Ok (Some a), s')
  | (Err _, s') => (Ok None, s')
  | (Panic, s') => (Panic, s')
  | (OutOfFuel, s') => (OutOfFuel, s')
  end.

(** Rust's [m.map_err(|e| h(e))] with effects in [h]: the handler runs after an error. *)
Definition st_catch (m : ST S E A) (h : E -> ST S E A) : ST S E A := fun s =>
  match m s with
  | (Err e, s') => h e s'
  | r => r
  end.

Lemma st_catch_ok (m : ST S E A) h s a s' : m s = (Ok a, s') -> st_catch m h s = (Ok a, s').
Proof. unfold st_catch. by intros ->. Qed.

Lemma st_bind_ok (m : ST S E A) (k : A -> ST S E B) s a s' :
  m s = (Ok a, s') -> st_bind k m s = k a s'.
Proof. unfold st_bind. by intros ->. Qed.

Lemma st_bind_err (m : ST S E A) (k : A -> ST S E B) s e s' :
  m s = (Err e, s') -> st_bind k m s = (Err e, s').
Proof. unfold st_bind. by intros ->. Qed.

Lemma st_bind_inv (m : ST S E A) (k : A -> ST S E B) s b s' :
  st_bind k m s = (Ok b, s') -> exists a s1, m s = (Ok a, s1) /\ k a s1 = (Ok b, s').
Proof. unfold st_bind. destruct (m s) as [[a|e| |] s1]; naive_solver. Qed.

Lemma st_bind_ext (m : ST S E A) (k k' : A -> ST S E B) s :
  (forall a s1, m s = (Ok a, s1) -> k a s1 = k' a s1) -> st_bind k m s = st_bind k' m s.
Proof. unfold st_bind. intros H. destruct (m s) as [[a|e| |] s1]; [by apply H|done..]. Qed.
End state_monad.

Lemma st_bind_id {S E} (m : ST S E bool) s :
  m s = st_bind (fun b : bool => if b then st_ret true else st_ret false) m s.
Proof. unfold st_bind. by destruct (m s) as [[[]|e| |] s1]. Qed.

Lemma st_bind_assoc {S E A B C} (m : ST S E A) (k : A -> ST S E B) (k' : B -> ST S E C) s :
  st_bind k' (st_bind k m) s = st_bind (fun a => st_bind k' (k a)) m s.
Proof. unfold st_bind. by destruct (m s) as [[a|e| |] s1]. Qed.

Definition st_get {S E A} (f : S -> A) : ST S E A := fun s => (Ok (f s), s).

Definition st_modify {S E} (f : S -> S) : ST S E unit := fun s => (Ok tt, f s).

(** Rust's [while cond { body }], for at most [fuel] rounds. *)
Fixpoint st_while {S E} (fuel : nat) (cond : S -> bool) (body : ST S E unit) : ST S E unit :=
  match fuel with
  | 0 => st_lift OutOfFuel
  | Datatypes.S fuel => fun s =>
    if cond s then st_bind (fun _ => st_while fuel cond body) body s else (Ok tt, s)
  end.

Declare Scope rust_scope.
Delimit Scope rust_scope with rust.

Notation "'let?' x := e 'in' k" := (obind (fun x => k) e)
  (at level 200, x name, e at level 99, k at level 200, right associativity,
   format "'[v' 'let?'  x  :=  e  'in'  '/' k ']'") : rust_scope.
Notation "'let?' ' p := e 'in' k" := (obind (fun p => k) e)
  (at level 200, p strict pattern, e at level 99, k at level 200, right associativity) : rust_scope.
Notation "'let!' x := e 'in' k" := (st_bind (fun x => k) e)
  (at level 200, x name, e at level 99, k at level 200, right associativity,
   format "'[v' 'let!'  x  :=  e  'in'  '/' k ']'") : rust_scope.
Notation "'let!' ' p := e 'in' k" := (st_bind (fun p => k) e)
  (at level 200, p strict pattern, e at level 99, k at level 200, right associativity) : rust_scope.
Open Scope rust_scope.

(** ** Machine integers *)
Definition wrap_u16 (n : N) : N := (n mod 2 ^ 16)%N.
Definition wrap_u32 (n : N) : N := (n mod 2 ^ 32)%N.
Definition wrap_u64 (n : N) : N := (n mod 2 ^ 64)%N.

(** ** Automation *)
Create HintDb db.

(** Appends to the right. *)
Ltac app_right := repeat first [rewrite <-app_assoc | rewrite <-app_comm_cons].

(** Case on every [if decide], boolean test and [match] that blocks the goal. *)
Ltac cases :=
  repeat (case_match || case_decide || case_bool_decide); simplify_eq.

Ltac bool_hyps :=
  repeat match goal with
  | H : _ && _ = true |- _ => apply andb_prop in H as [? ?]
  | H : _ || _ = false |- _ => apply orb_false_elim in H as [? ?]
  | H : negb _ = true |- _ => apply negb_true_iff in H
  | H : negb _ = false |- _ => apply negb_false_iff in H
  | H : N.eqb _ _ = true |- _ => apply N.eqb_eq in H
  | H : N.eqb _ _ = false |- _ => apply N.eqb_neq in H
  | H : N.leb _ _ = true |- _ => apply N.leb_le in H
  | H : N.leb _ _ = false |- _ => apply N.leb_gt in H
  | H : N.ltb _ _ = true |- _ => apply N.ltb_lt in H
  | H : N.ltb _ _ = false |- _ => apply N.ltb_ge in H
  | H : Nat.eqb _ _ = true |- _ => apply Nat.eqb_eq in H
  | H : Nat.eqb _ _ = false |- _ => apply Nat.eqb_neq in H
  | H : Nat.leb _ _ = true |- _ => apply Nat.leb_le in H
  | H : Nat.leb _ _ = false |- _ => apply Nat.leb_gt in H
  | H : Nat.ltb _ _ = true |- _ => apply Nat.ltb_lt in H
  | H : Nat.ltb _ _ = false |- _ => apply Nat.ltb_ge in H
  end.

(** ** Rust's [Vec] used as a stack *)
Definition vec_push {A} (v : list A) (x : A) : list A := v ++ [x].

(** [v.pop()]: the last element and the vector without it. *)
Definition vec_pop {A} (v : list A) : option (A * list A) :=
  match reverse v with
  | [] => None
  | x :: r => Some (x, reverse r)
  end.

Lemma vec_pop_snoc {A} (v : list A) x : vec_pop (v ++ [x]) = Some (x, v).
Proof. unfold vec_pop. by rewrite reverse_snoc, reverse_involutive. Qed.

Lemma vec_pop_None {A} (v : list A) : vec_pop v = None <-> v = [].
Proof.
  unfold vec_pop. destruct v as [|x v _] using rev_ind; [done|].
  rewrite reverse_snoc. split; [done|]. by destruct v.
Qed.

Lemma vec_pop_Some {A} (v : list A) x r : vec_pop v = Some (x, r) <-> v = r ++ [x].
Proof.
  split; [|intros ->; apply vec_pop_snoc].
  unfold vec_pop. destruct v as [|y v _] using rev_ind; [done|].
  rewrite reverse_snoc, reverse_involutive. by intros [= -> ->].
Qed.

(** ** Lists *)
Lemma list_filter_all {A} (P : A -> Prop) `{!forall x, Decision (P x)} (l : list A) :
  Forall P l -> filter P l = l.
Proof. induction 1; [done|]. rewrite filter_cons_True by done. by f_equal. Qed.

Lemma forallb_Forall {A} (p : A -> bool) l : forallb p l = true <-> Forall (fun x => p x = true) l.
Proof.
  induction l as [|x l IH]; simpl; [done|]. by rewrite andb_true_iff, Forall_cons, IH.
Qed.

(** ** The byte-lexicographic order of Rust's [str] *)
Definition str_lt (a b : string) : Prop := String.compare a b = Lt.

Section strings.

Lemma str_compare_refl s : String.compare s s = Eq.
Proof.
  pose proof (String.compare_antisym s s) as H.
  by destruct (String.compare s s).
Qed.

Lemma str_compare_eq a b : String.compare a b = Eq <-> a = b.
Proof. split; [apply String.compare_eq_iff|intros ->; apply str_compare_refl]. Qed.

Lemma str_compare_gt a b : String.compare a b = Gt <-> str_lt b a.
Proof.
  unfold str_lt. rewrite (String.compare_antisym a b).
  by destruct (String.compare b a).
Qed.

Lemma str_lt_trans a b c : str_lt a b -> str_lt b c -> str_lt a c.
Proof.
  unfold str_lt. revert b c.
  induction a as [|x a IH]; intros [|y b] [|z c]; simpl; try done.
  destruct (Ascii.compare x y) eqn:Hxy, (Ascii.compare y z) eqn:Hyz; try done;
    unfold Ascii.compare in *;
    rewrite ?N.compare_eq_iff, ?N.compare_lt_iff in *; intros ??.
  - rewrite Hxy, Hyz, N.compare_refl. eauto.
  - rewrite Hxy. by apply N.compare_lt_iff in Hyz as ->.
  - rewrite <-Hyz. by apply N.compare_lt_iff in Hxy as ->.
  - assert ((Ascii.N_of_ascii x < Ascii.N_of_ascii z)%N) as H3 by lia.
    by apply N.compare_lt_iff in H3 as ->.
Qed.

Lemma str_lt_irrefl a : ~ str_lt a a.
Proof. unfold str_lt. by rewrite str_compare_refl. Qed.

#[global] Instance str_lt_strict : StrictOrder str_lt.
Proof. split; [exact str_lt_irrefl|exact str_lt_trans]. Qed.

#[global] Instance str_lt_dec : RelDecision str_lt.
Proof. intros a b. unfold str_lt. solve_decision. Defined.

Lemma str_lt_trichotomy a b : str_lt a b \/ a = b \/ str_lt b a.
Proof.
  destruct (String.compare a b) eqn:H.
  - right; left. by apply str_compare_eq.
  - by left.
  - right; right. by apply str_compare_gt.
Qed.

Lemma str_ltb_lt a b : String.ltb a b = true <-> str_lt a b.
Proof. unfold String.ltb, str_lt. by destruct (String.compare a b). Qed.

Lemma str_ltb_ge a b : String.ltb a b = false <-> ~ str_lt a b.
Proof. rewrite <-not_true_iff_false, str_ltb_lt. done. Qed.

Lemma str_not_lt_ne a b : ~ str_lt a b -> a <> b -> str_lt b a.
Proof. destruct (str_lt_trichotomy a b) as [?|[?|?]]; naive_solver. Qed.

Lemma str_le_lt_trans a b c : ~ str_lt b a -> str_lt b c -> str_lt a c.
Proof. destruct (str_lt_trichotomy a b) as [?|[->|?]]; [|done|done]. eauto using str_lt_trans. Qed.

Lemma str_lt_le_trans a b c : str_lt a b -> ~ str_lt c b -> str_lt a c.
Proof. destruct (str_lt_trichotomy b c) as [?|[->|?]]; [|done|done]. eauto using str_lt_trans. Qed.

Lemma str_le_trans a b c : ~ str_lt b a -> ~ str_lt c b -> ~ str_lt c a.
Proof. intros H1 H2 H3. apply H2. destruct (str_lt_trichotomy c b) as [?|[->|?]]; [done|done|]. eauto using str_lt_le_trans. Qed.

Lemma str_lt_le a b : str_lt a b -> ~ str_lt b a.
Proof. intros H1 H2. by destruct (str_lt_irrefl a (str_lt_trans _ _ _ H1 H2)). Qed.
End strings.

(** Closes goals about [str_lt] that follow by transitivity and irreflexivity. *)
Ltac str_order :=
  subst;
  solve [ eauto using str_lt_trans
        | exfalso; eapply str_lt_irrefl; eauto using str_lt_trans ].

#[export] Hint Resolve str_lt_trans : db.
