(* ===== verification/Constants.v ===== *)
(** * Constants and errors

    [src/src/core/constants.rs] and the [Error] enumeration of
    [src/src/core/errors.rs]. Sizes that the code uses as lengths of buffers ([usize]) are
    of type [nat]. *)

From stdpp Require Import base list strings gmap pretty.
From Stdlib Require Import NArith Lia.
From S2P Require Import Prelude.

Definition PAGE_SIZE : nat := N.to_nat 4096.
Definition VERSION : N := 1.
Definition MAGIC : list Byte.byte := String.list_byte_of_string "DEVI".
Definition WAL_MAGIC : list Byte.byte := String.list_byte_of_string "WLOG".
Definition DEFAULT_CACHE_SIZE : nat := N.to_nat 1000.
Definition BTREE_ORDER : nat := 50.
Definition MIN_KEYS : nat := BTREE_ORDER / 2.
Definition WAL_HEADER_SIZE : nat := 32.
Definition WAL_FRAME_SIZE : nat := PAGE_SIZE + 28.
Definition DOC_ID_LEN_SIZE : nat := 2.
Definition DATA_LEN_SIZE : nat := 4.
Definition OVERFLOW_SIZE : nat := 8.
Definition XMIN_SIZE : nat := 8.
Definition XMAX_SIZE : nat := 8.
Definition FIRST_PAGE_META : nat := DOC_ID_LEN_SIZE + DATA_LEN_SIZE + OVERFLOW_SIZE.
Definition VERSIONED_FIRST_PAGE_META : nat :=
  XMIN_SIZE + XMAX_SIZE + DOC_ID_LEN_SIZE + DATA_LEN_SIZE + OVERFLOW_SIZE.
Definition MAX_FIRST_PAGE_DATA : nat := PAGE_SIZE - FIRST_PAGE_META - 256.
Definition MAX_OVERFLOW_DATA : nat := PAGE_SIZE - OVERFLOW_SIZE.
Definition MAX_VERSIONED_FIRST_PAGE_DATA : nat :=
  PAGE_SIZE - VERSIONED_FIRST_PAGE_META - 256.
Definition MAX_OVERFLOW_CHAIN_LENGTH : N := 250000.

(** [TransactionID] and [PageNum] are [u64]. *)
Notation TransactionID := N (only parsing).
Notation PageNum := N (only parsing).

#[global] Arguments PAGE_SIZE : simpl never.
#[global] Arguments DEFAULT_CACHE_SIZE : simpl never.
#[global] Arguments BTREE_ORDER : simpl never.
#[global] Arguments WAL_FRAME_SIZE : simpl never.
#[global] Arguments MAX_OVERFLOW_DATA : simpl never.

(** Linear arithmetic that knows the constants. *)
Ltac size_lia :=
  unfold WAL_FRAME_SIZE, MAX_OVERFLOW_DATA, WAL_HEADER_SIZE, DOC_ID_LEN_SIZE, DATA_LEN_SIZE,
    OVERFLOW_SIZE, XMIN_SIZE, XMAX_SIZE, PAGE_SIZE, BTREE_ORDER in *; lia.

Inductive Error : Type :=
| TxNotActive
| TxAlreadyDone
| TxConflict
| DatabaseAlreadyOpen
| DatabaseClosed
| DatabaseReadOnly (operation : string)
| DatabaseReferenceNotSet
| CollectionNameEmpty
| CollectionNameTooLong
| CollectionNameInvalidStart
| CollectionNameInvalidChar
| CollectionNameReserved
| CollectionAlreadyExists (name : string)
| CollectionDoesNotExist (name : string)
| DocumentNotFound (collection id : string)
| DocumentAlreadyExists (collection id : string)
| DocumentTooLarge
| BulkOperationTooLarge (count limit : nat)
| InvalidDocument
| InvalidDocumentFormat (reason : string) (collection : option string)
| Conflict (collection document_id operation : string)
| Validation (field value reason : string)
| SchemaValidation (msg : string)
| SerializationError (context error : string)
| DeserializationError (context error : string)
| InvalidIndexKey (format expected : string)
| Corruption (component : string) (page_num : N) (details : string)
| LockPoisoned (lock_name : string)
| DataCorruption (details : string)
| ContextCancelled (operation error : string)
| InvalidMagic
| InvalidVersion
| InvalidPageNum
| InvalidPageSize
| WALCorrupted
| WALInvalidTx
| WALChecksumFail
| NotFound
| Io (msg : string)
| Other (msg : string).

#[global] Instance Error_eq_dec : EqDecision Error.
Proof. solve_decision. Defined.

(** The codebase's [Result<T>]. *)
Notation Result := (outcome Error).

(** [read_exact] past the end of a file. *)
Definition unexpected_eof : Error := Io "failed to fill whole buffer".
