(* ===== verification/Bytes.v ===== *)
(** * Byte buffers

    What the code uses of Rust's [to_le_bytes] / [from_le_bytes], of slices of a [Vec<u8>]
    ([buf[a..b]], [copy_from_slice]) and of [String::from_utf8] / [as_bytes]. Out-of-range
    slices panic: reading them gives [None] here. *)

From stdpp Require Import base list strings gmap.
From Stdlib Require Import ZArith NArith Lia Strings.Byte.
From S2P Require Import Prelude Constants.

Notation byte := Byte.byte.

#[global] Instance byte_eq_dec : EqDecision byte := Byte.byte_eq_dec.

Definition byte_of_N (n : N) : byte :=
  match Byte.of_N (n mod 256) with Some b => b | None => x00 end.

Lemma to_N_byte_of_N n : Byte.to_N (byte_of_N n) = (n mod 256)%N.
Proof.
  unfold byte_of_N. destruct (Byte.of_N (n mod 256)) eqn:H.
  - by apply Byte.to_of_N in H.
  - apply Byte.of_N_None_iff in H. pose proof (N.mod_lt n 256). lia.
Qed.

Lemma byte_of_to_N b : byte_of_N (Byte.to_N b) = b.
Proof.
  unfold byte_of_N. pose proof (Byte.to_N_bounded b).
  rewrite N.mod_small by lia. by rewrite Byte.of_to_N.
Qed.

(** ** Little-endian integers *)

(** [v.to_le_bytes()] of an integer of [n] bytes. *)
Fixpoint to_le_bytes (n : nat) (v : N) : list byte :=
  match n with
  | 0 => []
  | S n => byte_of_N v :: to_le_bytes n (v / 256)
  end.

(** [from_le_bytes(bs)]. *)
Fixpoint from_le_bytes (bs : list byte) : N :=
  match bs with
  | [] => 0
  | b :: bs => Byte.to_N b + 256 * from_le_bytes bs
  end%N.

Lemma length_to_le_bytes n v : length (to_le_bytes n v) = n.
Proof. revert v. induction n; simpl; auto. Qed.

Lemma from_to_le_bytes n v :
  from_le_bytes (to_le_bytes n v) = (v mod 2 ^ (8 * N.of_nat n))%N.
Proof.
  revert v. induction n as [|n IH]; intros v.
  - simpl. by rewrite N.mod_1_r.
  - simpl to_le_bytes. simpl from_le_bytes. rewrite IH, to_N_byte_of_N.
    replace (8 * N.of_nat (S n))%N with (8 + 8 * N.of_nat n)%N by lia.
    rewrite N.pow_add_r, N.Div0.mod_mul_r. done.
Qed.

Lemma from_to_le_bytes_small n v :
  (v < 2 ^ (8 * N.of_nat n))%N -> from_le_bytes (to_le_bytes n v) = v.
Proof. intros. by rewrite from_to_le_bytes, N.mod_small. Qed.

Lemma from_le_bytes_bound bs : (from_le_bytes bs < 2 ^ (8 * N.of_nat (length bs)))%N.
Proof.
  induction bs as [|b bs IH]; [done|].
  simpl length. replace (8 * N.of_nat (S (length bs)))%N
    with (8 + 8 * N.of_nat (length bs))%N by lia.
  rewrite N.pow_add_r. simpl from_le_bytes.
  pose proof (Byte.to_N_bounded b). change (2 ^ 8)%N with 256%N. lia.
Qed.

Lemma from_le_bytes_zeros n : from_le_bytes (replicate n x00) = 0%N.
Proof. induction n as [|n IH]; simpl; [done|]. rewrite IH. done. Qed.

(** ** Slices *)

(** [&buf[off..off + len]]. *)
Definition slice (off len : nat) (buf : list byte) : option (list byte) :=
  if decide (off + len <= length buf) then Some (take len (drop off buf)) else None.

(** [buf[off..off + src.len()].copy_from_slice(src)]. *)
Definition put_slice (off : nat) (src buf : list byte) : option (list byte) :=
  if decide (off + length src <= length buf)
  then Some (take off buf ++ src ++ drop (off + length src) buf) else None.

(** [u16::from_le_bytes] and its siblings on [buf[off..off + n]]. *)
Definition read_le (n off : nat) (buf : list byte) : option N :=
  from_le_bytes <$> slice off n buf.

Lemma length_slice off len buf d : slice off len buf = Some d -> length d = len.
Proof.
  unfold slice. case_decide; intros; simplify_eq.
  rewrite length_take, length_drop. lia.
Qed.

Lemma length_put_slice off src buf d :
  put_slice off src buf = Some d -> length d = length buf.
Proof.
  unfold put_slice. case_decide; intros; simplify_eq.
  rewrite !length_app, length_take, length_drop. lia.
Qed.

Lemma slice_mid (a b c : list byte) off len :
  length a = off -> length b = len -> slice off len (a ++ b ++ c) = Some b.
Proof.
  intros <- <-. unfold slice. rewrite !length_app, decide_True by lia.
  by rewrite drop_app_length, take_app_length.
Qed.

(** Writes at increasing offsets: a buffer whose first bytes are known keeps them and gains
    the bytes just written. *)
Lemma put_slice_append off src pre suf :
  length pre = off -> length src <= length suf ->
  put_slice off src (pre ++ suf) = Some ((pre ++ src) ++ drop (length src) suf).
Proof.
  intros <- H. unfold put_slice. rewrite length_app, decide_True by lia.
  rewrite take_app_length, <-app_assoc. do 3 f_equal.
  rewrite drop_app_ge by lia. f_equal. lia.
Qed.

(** ** UTF-8 *)

Definition byte_in (lo hi : N) (b : byte) : bool :=
  ((lo <=? Byte.to_N b) && (Byte.to_N b <=? hi))%N.

(** The well-formed byte sequences of the Unicode standard (table 3-7), which
    [String::from_utf8] accepts. *)
Fixpoint utf8_valid (bs : list byte) : bool :=
  match bs with
  | [] => true
  | b0 :: r0 =>
    if byte_in 0 127 b0 then utf8_valid r0 else
    match r0 with
    | [] => false
    | b1 :: r1 =>
      if byte_in 194 223 b0 then byte_in 128 191 b1 && utf8_valid r1 else
      match r1 with
      | [] => false
      | b2 :: r2 =>
        if byte_in 224 239 b0 then
          byte_in (if (Byte.to_N b0 =? 224)%N then 160 else 128)
                  (if (Byte.to_N b0 =? 237)%N then 159 else 191) b1
          && byte_in 128 191 b2 && utf8_valid r2
        else
        match r2 with
        | [] => false
        | b3 :: r3 =>
          byte_in 240 244 b0
          && byte_in (if (Byte.to_N b0 =? 240)%N then 144 else 128)
                     (if (Byte.to_N b0 =? 244)%N then 143 else 191) b1
          && byte_in 128 191 b2 && byte_in 128 191 b3 && utf8_valid r3
        end
      end
    end
  end.

(** A Rust [String] is a [string] whose bytes are valid UTF-8. *)
Definition as_bytes (s : string) : list byte := String.list_byte_of_string s.

Definition from_utf8 (bs : list byte) : option string :=
  if utf8_valid bs then Some (String.string_of_list_byte bs) else None.

Definition rust_string (s : string) : Prop := utf8_valid (as_bytes s) = true.

#[global] Instance rust_string_dec s : Decision (rust_string s).
Proof. unfold rust_string. apply _. Defined.

Lemma from_utf8_as_bytes s : rust_string s -> from_utf8 (as_bytes s) = Some s.
Proof.
  unfold from_utf8, rust_string, as_bytes. intros ->.
  by rewrite String.string_of_list_byte_of_string.
Qed.

Lemma from_utf8_Some bs s : from_utf8 bs = Some s -> as_bytes s = bs /\ rust_string s.
Proof.
  unfold from_utf8, rust_string, as_bytes. destruct (utf8_valid bs) eqn:H; [|done].
  intros [= <-]. by rewrite String.list_byte_of_string_of_list_byte.
Qed.

#[global] Arguments slice : simpl never.
#[global] Arguments put_slice : simpl never.
#[global] Opaque to_le_bytes from_le_bytes.

(** ** Cursors

    The code fills a zeroed buffer with [buf[offset..offset + n].copy_from_slice(src);
    offset += n], and reads one with [&data[offset..offset + n]]; a write cursor is the pair
    of the offset and the buffer. *)
Definition wcursor : Type := nat * list byte.

Definition w_bytes (src : list byte) (w : wcursor) : option wcursor :=
  (fun b => (w.1 + length src, b)) <$> put_slice w.1 src w.2.

Definition w_le (n : nat) (v : N) (w : wcursor) : option wcursor := w_bytes (to_le_bytes n v) w.

(** The cursor after [pre] was written at the start of a zeroed buffer of [total] bytes. *)
Definition zbuf (total : nat) (pre : list byte) : list byte :=
  pre ++ replicate (total - length pre) x00.

Definition wrote (total : nat) (pre : list byte) : wcursor := (length pre, zbuf total pre).

Lemma wrote_nil total : wrote total [] = (0, replicate total x00).
Proof. unfold wrote, zbuf. simpl. by rewrite Nat.sub_0_r. Qed.

Lemma w_bytes_wrote total pre src :
  length pre + length src <= total ->
  w_bytes src (wrote total pre) = Some (wrote total (pre ++ src)).
Proof.
  intros H. unfold w_bytes, wrote, zbuf. simpl.
  rewrite put_slice_append by (rewrite ?length_replicate; lia). simpl.
  rewrite length_app, drop_replicate. do 3 f_equal. f_equal. lia.
Qed.

Lemma w_bytes_panic total pre src :
  length pre <= total -> total < length pre + length src -> w_bytes src (wrote total pre) = None.
Proof.
  intros H1 H2. unfold w_bytes, wrote, zbuf, put_slice. simpl.
  rewrite length_app, length_replicate, decide_False by lia. done.
Qed.

Lemma w_le_wrote total pre n v :
  length pre + n <= total -> w_le n v (wrote total pre) = Some (wrote total (pre ++ to_le_bytes n v)).
Proof. intros. apply w_bytes_wrote. by rewrite length_to_le_bytes. Qed.

Lemma length_zbuf total pre : length pre <= total -> length (zbuf total pre) = total.
Proof. unfold zbuf. rewrite length_app, length_replicate. lia. Qed.

(** The bytes of [data] from [off] on are [rest]. *)
Definition reads (data : list byte) (off : nat) (rest : list byte) : Prop :=
  off <= length data /\ drop off data = rest.

Lemma reads_start data : reads data 0 data.
Proof. split; [lia|done]. Qed.

Lemma reads_length data off rest : reads data off rest -> length data = off + length rest.
Proof. intros [H <-]. rewrite length_drop. lia. Qed.

Lemma reads_slice data off n pre rest :
  reads data off (pre ++ rest) -> length pre = n ->
  slice off n data = Some pre /\ reads data (off + n) rest.
Proof.
  intros Hr <-. pose proof (reads_length _ _ _ Hr) as Hl. rewrite length_app in Hl. destruct Hr as [H Hd].
  unfold slice. rewrite decide_True by lia. rewrite Hd, take_app_length. split; [done|].
  split; [lia|]. by rewrite <-drop_drop, Hd, drop_app_length.
Qed.

Lemma reads_le data off n v rest :
  reads data off (to_le_bytes n v ++ rest) -> (v < 2 ^ (8 * N.of_nat n))%N ->
  read_le n off data = Some v /\ reads data (off + n) rest.
Proof.
  intros Hr Hv. destruct (reads_slice _ _ n _ _ Hr (length_to_le_bytes _ _)) as [Hs Hr'].
  unfold read_le. rewrite Hs. simpl. by rewrite from_to_le_bytes_small.
Qed.

#[global] Arguments w_bytes : simpl never.
#[global] Arguments w_le : simpl never.
#[global] Arguments read_le : simpl never.

(** ** Files

    The content of a file as the operating system returns it; every call to the operating
    system succeeds. [file_write] is [seek(Start(off)); write_all(d)], which fills a gap
    after the end of the file with zeros; [file_read] is [seek; read_exact]. *)
Definition file_write (off : nat) (d f : list byte) : list byte :=
  resize off x00 f ++ d ++ drop (off + length d) f.

Definition file_read (off len : nat) (f : list byte) : Result (list byte) :=
  of_option (Err unexpected_eof) (slice off len f).

Lemma file_write_lookup off d f i :
  d <> [] ->
  file_write off d f !! i =
    if decide (off <= i < off + length d) then d !! (i - off)
    else if decide (i < length f) then f !! i
    else if decide (i < off) then Some x00 else None.
Proof.
  intros Hd. unfold file_write. destruct (decide (i < off)) as [Hi|Hi].
  - rewrite lookup_app_l by (rewrite length_resize; lia). rewrite decide_False by lia.
    destruct (decide (i < length f)).
    + apply lookup_resize; lia.
    + apply lookup_resize_new; lia.
  - rewrite lookup_app_r by (rewrite length_resize; lia). rewrite length_resize.
    destruct (decide (i - off < length d)).
    + rewrite lookup_app_l by lia. by rewrite decide_True by lia.
    + rewrite lookup_app_r by lia. rewrite decide_False by lia. rewrite lookup_drop.
      replace (off + length d + (i - off - length d)) with i by lia.
      destruct (decide (i < length f)); [done|]. apply lookup_ge_None. lia.
Qed.

Lemma length_file_write off d f : length (file_write off d f) = max (length f) (off + length d).
Proof. unfold file_write. rewrite !length_app, length_resize, length_drop. lia. Qed.

Lemma file_write_append off d1 d2 f :
  d1 <> [] -> d2 <> [] ->
  file_write (off + length d1) d2 (file_write off d1 f) = file_write off (d1 ++ d2) f.
Proof.
  intros H1 H2. apply list_eq. intros i.
  assert (d1 ++ d2 <> []) by (by destruct d1).
  rewrite !file_write_lookup, length_file_write, length_app by done.
  destruct (decide (off + length d1 <= i < off + length d1 + length d2)).
  - rewrite decide_True by lia. rewrite lookup_app_r by lia. f_equal. lia.
  - destruct (decide (off <= i < off + length d1)).
    + rewrite decide_True by lia. rewrite decide_True by lia. by rewrite lookup_app_l by lia.
    + rewrite (decide_False (P := off <= i < off + (length d1 + length d2))) by lia.
      repeat case_decide; try done; lia.
Qed.

Lemma file_write_comm off1 off2 d1 d2 f :
  d1 <> [] -> d2 <> [] -> off1 + length d1 <= off2 \/ off2 + length d2 <= off1 ->
  file_write off1 d1 (file_write off2 d2 f) = file_write off2 d2 (file_write off1 d1 f).
Proof.
  intros H1 H2 Hd. apply list_eq. intros i.
  assert (0 < length d1 /\ 0 < length d2) as [? ?] by (destruct d1, d2; simpl; split; try done; lia).
  rewrite !file_write_lookup, !length_file_write by done.
  repeat case_decide; try done; try lia.
Qed.

Lemma slice_lookup off len (f : list byte) i : off + len <= length f -> i < len ->
  (take len (drop off f)) !! i = f !! (off + i).
Proof. intros. by rewrite lookup_take_lt, lookup_drop by lia. Qed.

Lemma file_read_write_same off d f :
  d <> [] -> slice off (length d) (file_write off d f) = Some d.
Proof.
  intros Hd. unfold slice. rewrite length_file_write, decide_True by lia. f_equal.
  unfold file_write. rewrite drop_app_ge by (rewrite length_resize; lia).
  rewrite length_resize, Nat.sub_diag, drop_0. apply take_app_length.
Qed.

Lemma file_read_write_other off off' d f n r :
  d <> [] -> off + length d <= off' \/ off' + n <= off ->
  slice off' n f = Some r -> slice off' n (file_write off d f) = Some r.
Proof.
  intros Hd Ho. unfold slice. rewrite length_file_write. case_decide; [|done]. intros [= <-].
  rewrite decide_True by lia. f_equal. apply list_eq. intros i.
  destruct (decide (i < n)).
  - rewrite !slice_lookup by (rewrite ?length_file_write; lia). rewrite file_write_lookup by done.
    rewrite decide_False by lia. by rewrite decide_True by lia.
  - rewrite !lookup_ge_None_2; [done|..]; rewrite length_take, length_drop, ?length_file_write; lia.
Qed.

#[global] Arguments file_write : simpl never.
#[global] Arguments file_read : simpl never.
