(* ===== verification/Text.v ===== *)
(** * Text: the characters of Rust strings

    A Rust [String] is a [string] of UTF-8 bytes; [chars] decodes it to Unicode scalar values
    and [collect] encodes them back. Of the character classes of the standard library the
    ASCII part is written out; the Unicode tables behind the rest are the parameter
    [UnicodeTables]. *)

From stdpp Require Import base list strings.
From Stdlib Require Import NArith Lia Ascii Strings.Byte.
From S2P Require Import Prelude Constants Bytes.
#[local] Open Scope N_scope.

(** ** UTF-8 *)
Notation bN := Byte.to_N.

Definition enc (n : N) : byte := byte_of_N n.

Definition encode_utf8 (c : N) : list byte :=
  if c <? 0x80 then [enc c]
  else if c <? 0x800 then [enc (0xC0 + c / 64); enc (0x80 + c mod 64)]
  else if c <? 0x10000 then [enc (0xE0 + c / 4096); enc (0x80 + c / 64 mod 64); enc (0x80 + c mod 64)]
  else [enc (0xF0 + c / 262144); enc (0x80 + c / 4096 mod 64); enc (0x80 + c / 64 mod 64); enc (0x80 + c mod 64)].

(** The characters of a well-formed byte sequence. *)
Fixpoint decode_utf8 (bs : list byte) : list N :=
  match bs with
  | [] => []
  | b0 :: r0 =>
    if bN b0 <? 0x80 then bN b0 :: decode_utf8 r0 else
    match r0 with
    | [] => []
    | b1 :: r1 =>
      if bN b0 <? 0xE0 then (bN b0 - 0xC0) * 64 + (bN b1 - 0x80) :: decode_utf8 r1 else
      match r1 with
      | [] => []
      | b2 :: r2 =>
        if bN b0 <? 0xF0
        then (bN b0 - 0xE0) * 4096 + (bN b1 - 0x80) * 64 + (bN b2 - 0x80) :: decode_utf8 r2 else
        match r2 with
        | [] => []
        | b3 :: r3 =>
          (bN b0 - 0xF0) * 262144 + (bN b1 - 0x80) * 4096 + (bN b2 - 0x80) * 64 + (bN b3 - 0x80)
            :: decode_utf8 r3
        end
      end
    end
  end.

(** [s.chars()], [iter.collect::<String>()] and [c.to_string()]. *)
Definition chars (s : string) : list N := decode_utf8 (as_bytes s).
Definition collect (cs : list N) : string := String.string_of_list_byte (cs ≫= encode_utf8).
Definition char_to_string (c : N) : string := collect [c].

(** Unicode scalar values. *)
Definition scalar (c : N) : Prop := c < 0xD800 \/ 0xE000 <= c < 0x110000.

Section utf8.
Implicit Types (c : N) (cs : list N) (bs : list byte).

Lemma to_N_enc n : n < 256 -> bN (enc n) = n.
Proof. intros. unfold enc. rewrite to_N_byte_of_N. by apply N.mod_small. Qed.

Lemma enc_eq n b : n = bN b -> enc n = b.
Proof. intros ->. apply byte_of_to_N. Qed.

Lemma byte_in_spec lo hi b : byte_in lo hi b = true <-> lo <= bN b <= hi.
Proof. unfold byte_in. by rewrite andb_true_iff, !N.leb_le. Qed.

Lemma byte_in_false lo hi b : byte_in lo hi b = false <-> ~ (lo <= bN b <= hi).
Proof. rewrite <-not_true_iff_false. by rewrite byte_in_spec. Qed.

(** The parts of a scalar value that its encoding holds. *)
Ltac parts c :=
  pose proof (N.div_mod' c 64); pose proof (N.mod_lt c 64 ltac:(done));
  pose proof (N.div_mod' (c / 64) 64); pose proof (N.mod_lt (c / 64) 64 ltac:(done));
  pose proof (N.div_mod' (c / 4096) 64); pose proof (N.mod_lt (c / 4096) 64 ltac:(done));
  pose proof (N.Div0.div_div c 64 64) as D1; change (64 * 64) with 4096 in D1;
  pose proof (N.Div0.div_div c 4096 64) as D2; change (4096 * 64) with 262144 in D2;
  rewrite D1, D2 in *; clear D1 D2;
  pose proof (N.le_0_l (c mod 64)); pose proof (N.le_0_l (c / 64 mod 64));
  pose proof (N.le_0_l (c / 4096 mod 64)); pose proof (N.le_0_l (c / 262144)).

Lemma decode_encode c bs : scalar c -> decode_utf8 (encode_utf8 c ++ bs) = c :: decode_utf8 bs.
Proof.
  intros Hc. unfold encode_utf8. parts c. unfold scalar in Hc.
  destruct (N.ltb_spec c 0x80); [|destruct (N.ltb_spec c 0x800); [|destruct (N.ltb_spec c 0x10000)]];
    cbn [app decode_utf8]; rewrite !to_N_enc by lia; repeat (match goal with
    | |- context [?a <? ?b] => destruct (N.ltb_spec a b) end; try lia); f_equal; lia.
Qed.

Lemma decode_encode_all cs : Forall scalar cs -> decode_utf8 (cs ≫= encode_utf8) = cs.
Proof. induction 1 as [|c cs Hc _ IH]; [done|]. by rewrite bind_cons, decode_encode, IH. Qed.

Lemma encode_1 b0 : bN b0 < 0x80 -> encode_utf8 (bN b0) = [b0].
Proof. intros H. unfold encode_utf8. apply N.ltb_lt in H as ->. by rewrite (enc_eq _ b0). Qed.

Lemma encode_2 b0 b1 :
  0xC2 <= bN b0 <= 0xDF -> 0x80 <= bN b1 <= 0xBF ->
  encode_utf8 ((bN b0 - 0xC0) * 64 + (bN b1 - 0x80)) = [b0; b1] /\
  scalar ((bN b0 - 0xC0) * 64 + (bN b1 - 0x80)).
Proof.
  intros H0 H1. unfold encode_utf8, scalar. set (c := _ + _). parts c.
  destruct (N.ltb_spec c 0x80); [lia|]. destruct (N.ltb_spec c 0x800); [|lia].
  split; [|lia]. rewrite (enc_eq _ b0), (enc_eq _ b1) by lia. done.
Qed.

Lemma encode_3 b0 b1 b2 :
  0xE0 <= bN b0 <= 0xEF -> (if bN b0 =? 0xE0 then 0xA0 else 0x80) <= bN b1 <= (if bN b0 =? 0xED then 0x9F else 0xBF) ->
  0x80 <= bN b2 <= 0xBF ->
  let c := (bN b0 - 0xE0) * 4096 + (bN b1 - 0x80) * 64 + (bN b2 - 0x80) in
  encode_utf8 c = [b0; b1; b2] /\ scalar c.
Proof.
  intros H0 H1 H2. cbv zeta. unfold encode_utf8, scalar. set (c := _ + _). parts c.
  destruct (N.eqb_spec (bN b0) 0xE0), (N.eqb_spec (bN b0) 0xED); try lia;
    (destruct (N.ltb_spec c 0x80); [lia|]; destruct (N.ltb_spec c 0x800); [lia|]; destruct (N.ltb_spec c 0x10000); [|lia];
     split; [|lia]; rewrite (enc_eq _ b0), (enc_eq _ b1), (enc_eq _ b2) by lia; done).
Qed.

Lemma encode_4 b0 b1 b2 b3 :
  0xF0 <= bN b0 <= 0xF4 -> (if bN b0 =? 0xF0 then 0x90 else 0x80) <= bN b1 <= (if bN b0 =? 0xF4 then 0x8F else 0xBF) ->
  0x80 <= bN b2 <= 0xBF -> 0x80 <= bN b3 <= 0xBF ->
  let c := (bN b0 - 0xF0) * 262144 + (bN b1 - 0x80) * 4096 + (bN b2 - 0x80) * 64 + (bN b3 - 0x80) in
  encode_utf8 c = [b0; b1; b2; b3] /\ scalar c.
Proof.
  intros H0 H1 H2 H3. cbv zeta. unfold encode_utf8, scalar. set (c := _ + _). parts c.
  destruct (N.eqb_spec (bN b0) 0xF0), (N.eqb_spec (bN b0) 0xF4); try lia;
    (destruct (N.ltb_spec c 0x80); [lia|]; destruct (N.ltb_spec c 0x800); [lia|]; destruct (N.ltb_spec c 0x10000); [lia|];
     split; [|lia]; rewrite (enc_eq _ b0), (enc_eq _ b1), (enc_eq _ b2), (enc_eq _ b3) by lia; done).
Qed.

Lemma encode_decode_valid bs :
  utf8_valid bs = true -> decode_utf8 bs ≫= encode_utf8 = bs /\ Forall scalar (decode_utf8 bs).
Proof.
  enough (forall n bs, (length bs <= n)%nat -> utf8_valid bs = true ->
    decode_utf8 bs ≫= encode_utf8 = bs /\ Forall scalar (decode_utf8 bs)) as H by (by eapply H).
  clear bs. induction n as [|n IH]; intros bs Hn.
  { destruct bs; [done|simpl in Hn; lia]. }
  destruct bs as [|b0 r0]; [done|]. cbn [utf8_valid decode_utf8]. pose proof (Byte.to_N_bounded b0).
  destruct (byte_in 0 127 b0) eqn:E0.
  { apply byte_in_spec in E0. intros Hv. destruct (N.ltb_spec (bN b0) 0x80); [|lia].
    destruct (IH r0) as [I1 I2]; [simpl in Hn; lia|done|]. rewrite bind_cons, encode_1, I1 by lia.
    split; [done|]. constructor; [left; lia|done]. }
  apply byte_in_false in E0. destruct (N.ltb_spec (bN b0) 0x80); [lia|]. destruct r0 as [|b1 r1]; [done|].
  destruct (byte_in 194 223 b0) eqn:E1.
  { apply byte_in_spec in E1. intros [Hb1%byte_in_spec Hv]%andb_prop.
    destruct (N.ltb_spec (bN b0) 0xE0); [|lia]. destruct (encode_2 b0 b1 E1 Hb1) as [He Hs].
    destruct (IH r1) as [I1 I2]; [simpl in Hn; lia|done|].
    rewrite bind_cons, He, I1. split; [done|by constructor]. }
  apply byte_in_false in E1. destruct r1 as [|b2 r2]; [done|].
  destruct (byte_in 224 239 b0) eqn:E2.
  { apply byte_in_spec in E2. intros [[Hb1%byte_in_spec Hb2%byte_in_spec]%andb_prop Hv]%andb_prop.
    destruct (N.ltb_spec (bN b0) 0xE0); [lia|]. destruct (N.ltb_spec (bN b0) 0xF0); [|lia].
    destruct (encode_3 b0 b1 b2 E2 Hb1 Hb2) as [He Hs].
    destruct (IH r2) as [I1 I2]; [simpl in Hn; lia|done|].
    rewrite bind_cons, He, I1. split; [done|by constructor]. }
  apply byte_in_false in E2. destruct r2 as [|b3 r3]; [done|].
  intros [[[[Hb0%byte_in_spec Hb1%byte_in_spec]%andb_prop Hb2%byte_in_spec]%andb_prop Hb3%byte_in_spec]%andb_prop Hv]%andb_prop.
  destruct (N.ltb_spec (bN b0) 0xE0); [lia|]. destruct (N.ltb_spec (bN b0) 0xF0); [lia|].
  destruct (encode_4 b0 b1 b2 b3 Hb0 Hb1 Hb2 Hb3) as [He Hs].
  destruct (IH r3) as [I1 I2]; [simpl in Hn; lia|done|].
  rewrite bind_cons, He, I1. split; [done|by constructor].
Qed.
End utf8.

Lemma collect_chars s : rust_string s -> collect (chars s) = s.
Proof.
  intros H. unfold collect, chars. destruct (encode_decode_valid _ H) as [-> _].
  apply String.string_of_list_byte_of_string.
Qed.

Lemma chars_collect cs : Forall scalar cs -> chars (collect cs) = cs.
Proof.
  intros H. unfold collect, chars, as_bytes. rewrite String.list_byte_of_string_of_list_byte.
  by apply decode_encode_all.
Qed.

Lemma chars_scalar s : rust_string s -> Forall scalar (chars s).
Proof. intros H. by destruct (encode_decode_valid _ H). Qed.

(** ** Character classes *)
Class UnicodeTables := {
  wide_alphabetic : N -> bool;
  wide_numeric : N -> bool;
  wide_whitespace : N -> bool;
  wide_lowercase : N -> list N }.

(** No letter or digit is white space. *)
Class UnicodeLaws `{!UnicodeTables} : Prop := {
  alphabetic_not_white c : wide_alphabetic c = true -> wide_whitespace c = false;
  numeric_not_white c : wide_numeric c = true -> wide_whitespace c = false }.

Section classes.
Context {tables : UnicodeTables}.

Definition in_range (lo hi c : N) : bool := (lo <=? c) && (c <=? hi).

Definition is_alphabetic (c : N) : bool :=
  if c <? 128 then in_range 65 90 c || in_range 97 122 c else wide_alphabetic c.

Definition is_numeric (c : N) : bool := if c <? 128 then in_range 48 57 c else wide_numeric c.

Definition is_alphanumeric (c : N) : bool := is_alphabetic c || is_numeric c.

Definition is_whitespace (c : N) : bool :=
  if c <? 128 then in_range 9 13 c || (c =? 32) else wide_whitespace c.

(** [s.to_lowercase()], character by character. *)
Definition char_lowercase (c : N) : list N :=
  if c <? 128 then [if in_range 65 90 c then c + 32 else c] else wide_lowercase c.

Definition to_lowercase (s : string) : string := collect (chars s ≫= char_lowercase).
End classes.

(** Tables that know no character beyond ASCII. *)
Definition ascii_tables : UnicodeTables :=
  {| wide_alphabetic _ := false; wide_numeric _ := false; wide_whitespace _ := false;
     wide_lowercase c := [c] |}.

Lemma ascii_tables_laws : @UnicodeLaws ascii_tables.
Proof. by split. Qed.
