(* ===== verification/Order.v ===== *)
(** * Comparison functions and sorting

    Rust's [Ordering], the total orders that [sort_by] asks of its comparison function,
    lexicographic combinations of them, and the stable sort. *)

From stdpp Require Import base list strings sorting.
From Stdlib Require Import NArith ZArith Lia.
From S2P Require Import Prelude.

(** [Ordering::then]. *)
Definition cmp_then (c d : comparison) : comparison := match c with Eq => d | _ => c end.

(** The laws of a total order (up to the equivalence "compares Equal") at the element [a],
    among the elements of [P]. *)
Record ord_at {A} (P : A -> Prop) (cmp : A -> A -> comparison) (a : A) : Prop := {
  ord_refl : cmp a a = Eq;
  ord_antisym b : P b -> cmp b a = CompOpp (cmp a b);
  ord_trans b c : P b -> P c -> cmp a b <> Gt -> cmp b c <> Gt ->
    cmp a c <> Gt /\ (cmp a c = Eq -> cmp a b = Eq /\ cmp b c = Eq) }.

Definition total_order {A} (P : A -> Prop) (cmp : A -> A -> comparison) : Prop :=
  forall a, P a -> ord_at P cmp a.

(** [a.iter().zip(b.iter())], comparing until an element differs. *)
Section lex.
Context {A : Type} (f : A -> A -> comparison).

Fixpoint lex_zip (xs ys : list A) : comparison :=
  match xs, ys with
  | x :: xs', y :: ys' => match f x y with Eq => lex_zip xs' ys' | c => c end
  | _, _ => Eq
  end.

(** The same, then the lengths. *)
Definition lex_list (xs ys : list A) : comparison :=
  cmp_then (lex_zip xs ys) (Nat.compare (length xs) (length ys)).
End lex.

(** ** The stable sort *)
Section sort.
Context {A : Type} (cmp : A -> A -> comparison).

Fixpoint insert_sorted (x : A) (l : list A) : list A :=
  match l with
  | [] => [x]
  | y :: l' => match cmp x y with Gt => y :: insert_sorted x l' | _ => x :: l end
  end.

Definition stable_sort (l : list A) : list A := foldr insert_sorted [] l.

Definition leb_cmp (c : comparison) : bool := match c with Gt => false | _ => true end.

(** The laws of a total order, tested on the elements of a list. *)
Definition orders (l : list A) : bool :=
  forallb (fun a =>
    match cmp a a with Eq => true | _ => false end &&
    forallb (fun b =>
      bool_decide (cmp b a = CompOpp (cmp a b)) &&
      forallb (fun c =>
        negb (leb_cmp (cmp a b) && leb_cmp (cmp b c)) ||
        (leb_cmp (cmp a c) &&
         (bool_decide (cmp a c <> Eq) || bool_decide (cmp a b = Eq) && bool_decide (cmp b c = Eq)))) l) l) l.

(** [slice.sort_by(cmp)]: Rust leaves the order unspecified and may panic when [cmp] is not
    a total order of the elements; that case is [Panic] here. *)
Definition sort_by {E} (l : list A) : outcome E (list A) :=
  if orders l then Ok (stable_sort l) else Panic.
End sort.

(** ** Building orders *)
Section laws.
Context {A B : Type}.
Implicit Types (P : A -> Prop) (f g : A -> A -> comparison).

Lemma ord_at_then P f g a :
  ord_at P f a -> ord_at P g a -> ord_at P (fun x y => cmp_then (f x y) (g x y)) a.
Proof.
  intros [Rf Af Tf] [Rg Ag Tg]. split.
  - by rewrite Rf, Rg.
  - intros b Hb. rewrite (Af b Hb), (Ag b Hb). by destruct (f a b), (g a b).
  - intros b c Hb Hc H1 H2.
    assert (f a b <> Gt) as F1 by (intros E; by rewrite E in H1).
    assert (f b c <> Gt) as F2 by (intros E; by rewrite E in H2).
    destruct (Tf b c Hb Hc F1 F2) as [F3 F4].
    destruct (f a c) eqn:E; [|done|done].
    destruct (F4 eq_refl) as [E1 E2]. rewrite E1, E2 in *. by apply Tg.
Qed.

Lemma ord_at_map P (Q : B -> Prop) (h : B -> A) f b :
  (forall x, Q x -> P (h x)) -> ord_at P f (h b) -> ord_at Q (fun x y => f (h x) (h y)) b.
Proof. intros HQ [R0 A0 T0]. split; eauto. Qed.

Lemma ord_at_ext P f g a :
  P a -> ord_at P f a -> (forall x y, P x -> P y -> f x y = g x y) -> ord_at P g a.
Proof.
  intros Ha [R0 A0 T0] Hfg. split.
  - by rewrite <-Hfg.
  - intros b Hb. rewrite <-!Hfg by done. auto.
  - intros b c Hb Hc. rewrite <-!Hfg by done. by apply T0.
Qed.

Lemma ord_at_rev P f a : total_order P f -> P a -> ord_at P (fun x y => CompOpp (f x y)) a.
Proof.
  intros T Ha. split.
  - by rewrite (ord_refl _ _ _ (T a Ha)).
  - intros b Hb. f_equal. by apply (ord_antisym _ _ _ (T a Ha)).
  - intros b c Hb Hc. rewrite <-(ord_antisym _ _ _ (T a Ha) b Hb), <-(ord_antisym _ _ _ (T a Ha) c Hc),
      <-(ord_antisym _ _ _ (T b Hb) c Hc). intros H1 H2.
    destruct (ord_trans _ _ _ (T c Hc) b a Hb Ha H2 H1) as [H3 H4]. split; [done|]. intros E.
    by destruct (H4 E).
Qed.

Lemma lex_list_cons f x y xs ys :
  lex_list f (x :: xs) (y :: ys) = cmp_then (f x y) (lex_list f xs ys).
Proof. unfold lex_list. simpl. by destruct (f x y). Qed.

Lemma ord_at_lex P f xs : Forall (ord_at P f) xs -> ord_at (Forall P) (lex_list f) xs.
Proof.
  induction 1 as [|x xs [R0 A0 T0] _ [R1 A1 T1]].
  - split; [done| |].
    + intros [|b bs] _; done.
    + intros [|b bs] [|c cs] _ _; try done.
  - split.
    + by rewrite lex_list_cons, R0.
    + intros [|y ys]; [done|]. intros [Hy Hys]%Forall_cons. rewrite !lex_list_cons, (A0 y Hy), (A1 ys Hys).
      by destruct (f x y).
    + intros [|y ys] [|z zs]; try done. intros [Hy Hys]%Forall_cons [Hz Hzs]%Forall_cons.
      rewrite !lex_list_cons. intros H1 H2.
      assert (f x y <> Gt) as F1 by (intros E; by rewrite E in H1).
      assert (f y z <> Gt) as F2 by (intros E; by rewrite E in H2).
      destruct (T0 y z Hy Hz F1 F2) as [F3 F4].
      destruct (f x z) eqn:E; [|done|done].
      destruct (F4 eq_refl) as [E1 E2]. rewrite E1, E2 in *. by apply T1.
Qed.

(** Elements of different rank are ordered by their rank. *)
Lemma ord_at_rank (rank : A -> nat) f a :
  (forall x y, rank x < rank y -> f x y = Lt /\ f y x = Gt) ->
  ord_at (fun x => rank x = rank a) f a -> ord_at (fun _ => True) f a.
Proof.
  intros Hr [R0 A0 T0].
  assert (forall x y, f x y <> Gt -> rank x <= rank y) as Hle.
  { intros x y H. destruct (le_lt_dec (rank x) (rank y)) as [|Hlt]; [done|]. by destruct (Hr _ _ Hlt) as [_ ?]. }
  split; [done| |].
  - intros b _. destruct (lt_eq_lt_dec (rank a) (rank b)) as [[H|H]|H].
    + by destruct (Hr _ _ H) as [-> ->].
    + by apply A0.
    + by destruct (Hr _ _ H) as [-> ->].
  - intros b c _ _ H1 H2. pose proof (Hle _ _ H1). pose proof (Hle _ _ H2).
    destruct (decide (rank c = rank a)); [apply T0; [lia|done..]|].
    destruct (Hr a c) as [-> _]; [lia|done].
Qed.

(** [None] before [Some], as in the order of Rust's [Option]. *)
Definition opt_cmp f (x y : option A) : comparison :=
  match x, y with
  | Some x, Some y => f x y
  | Some _, None => Gt
  | None, Some _ => Lt
  | None, None => Eq
  end.

Lemma total_order_Z : total_order (fun _ => True) Z.compare.
Proof.
  intros a _. split; intros.
  - apply Z.compare_refl.
  - apply Z.compare_antisym.
  - rewrite Z.compare_gt_iff, !Z.compare_eq_iff in *. lia.
Qed.

Lemma total_order_nat : total_order (fun _ => True) Nat.compare.
Proof.
  intros a _. split; intros.
  - apply Nat.compare_refl.
  - apply Nat.compare_antisym.
  - rewrite Nat.compare_gt_iff, !Nat.compare_eq_iff in *. lia.
Qed.

Lemma total_order_bool : total_order (fun _ => True) Bool.compare.
Proof. intros a _. split; [by destruct a|by destruct a; intros []|]. by destruct a; intros [] []. Qed.

Lemma total_order_str : total_order (fun _ => True) String.compare.
Proof.
  intros a _. split.
  - by apply str_compare_eq.
  - intros b _. apply String.compare_antisym.
  - intros b c _ _ H1 H2. rewrite str_compare_gt in *. split; [eauto using str_le_trans|].
    rewrite !str_compare_eq. intros ->.
    assert (c = b) as ->; [|done]. destruct (str_lt_trichotomy c b) as [?|[?|?]]; done.
Qed.
End laws.

Lemma total_order_option {A} (f : A -> A -> comparison) :
  total_order (fun _ => True) f -> total_order (fun _ => True) (opt_cmp f).
Proof.
  intros T x _. apply (ord_at_rank (fun o : option A => match o with None => 0 | Some _ => 1 end)).
  - intros [] []; simpl; by (lia || done).
  - destruct x as [x|]; [destruct (T x I) as [R0 A0 T0]|]; split; try done;
      try (intros []; try done; intros _; by apply A0);
      intros [] []; try done; intros _ _; by apply T0.
Qed.

(** ** What sorting gives *)
Section sorted.
Context {A : Type} (P : A -> Prop) (cmp : A -> A -> comparison) (T : total_order P cmp).
Implicit Types (x y : A) (l : list A).

Lemma insert_sorted_Permutation x l : insert_sorted cmp x l ≡ₚ x :: l.
Proof.
  induction l as [|y l IH]; simpl; [done|]. destruct (cmp x y); try done.
  rewrite IH. by constructor.
Qed.

Lemma stable_sort_Permutation l : stable_sort cmp l ≡ₚ l.
Proof. induction l as [|x l IH]; simpl; [done|]. by rewrite insert_sorted_Permutation, IH. Qed.

Lemma insert_sorted_sorted x l :
  P x -> Forall P l -> Sorted (fun a b => cmp a b <> Gt) l ->
  Sorted (fun a b => cmp a b <> Gt) (insert_sorted cmp x l).
Proof.
  intros Hx Hl. induction 1 as [|y l Hs IH Hd]; simpl; [by repeat constructor|].
  apply Forall_cons in Hl as [Hy Hl]. specialize (IH Hl).
  destruct (cmp x y) eqn:E; try (constructor; [by constructor|constructor; by rewrite E]).
  constructor; [done|]. assert (cmp y x <> Gt) as Hyx.
  { by rewrite (ord_antisym _ _ _ (T x Hx) y Hy), E. }
  destruct l as [|z l]; simpl; [by constructor|].
  destruct (cmp x z); constructor; try done; by inversion Hd.
Qed.

Lemma stable_sort_sorted l : Forall P l -> Sorted (fun a b => cmp a b <> Gt) (stable_sort cmp l).
Proof.
  induction 1 as [|x l Hx Hl IH]; simpl; [constructor|]. apply insert_sorted_sorted; [done| |done].
  by rewrite stable_sort_Permutation.
Qed.

(** Elements that compare equal to [z] keep their order. *)
Lemma insert_sorted_stable z x l :
  P z -> P x -> Forall P l ->
  filter (fun y => cmp z y = Eq) (insert_sorted cmp x l) = filter (fun y => cmp z y = Eq) (x :: l).
Proof.
  intros Hz Hx. induction 1 as [|y l Hy Hl IH]; simpl; [done|].
  destruct (cmp x y) eqn:E; try done. rewrite filter_cons, IH, !filter_cons.
  destruct (decide (cmp z y = Eq)) as [E1|], (decide (cmp z x = Eq)) as [E2|]; try done.
  exfalso. assert (cmp x z = Eq) as E3 by (by rewrite (ord_antisym _ _ _ (T z Hz) x Hx), E2).
  assert (cmp x y <> Gt) as H; [|done].
  apply (ord_trans _ _ _ (T x Hx) z y); [done|done|by rewrite E3|by rewrite E1].
Qed.

Lemma stable_sort_stable z l :
  P z -> Forall P l ->
  filter (fun y => cmp z y = Eq) (stable_sort cmp l) = filter (fun y => cmp z y = Eq) l.
Proof.
  intros Hz. induction 1 as [|x l Hx Hl IH]; simpl; [done|].
  rewrite insert_sorted_stable; [|done|done|by rewrite stable_sort_Permutation].
  rewrite !filter_cons, IH. done.
Qed.

Lemma orders_total l : Forall P l -> orders cmp l = true.
Proof.
  intros Hl. rewrite Forall_forall in Hl. apply forallb_forall. intros a Ha%list_elem_of_In.
  destruct (T a (Hl a Ha)) as [R0 A0 T0]. rewrite R0. simpl.
  apply forallb_forall. intros b Hb%list_elem_of_In. apply andb_true_intro. split.
  { by apply bool_decide_eq_true, A0, Hl. }
  apply forallb_forall. intros c Hc%list_elem_of_In.
  specialize (T0 b c (Hl b Hb) (Hl c Hc)).
  destruct (cmp a b), (cmp b c), (cmp a c); try done; simpl in *;
    destruct T0 as [T1 T2]; try done; by destruct (T2 eq_refl).
Qed.

Lemma orders_trans l a b c :
  orders cmp l = true -> a ∈ l -> b ∈ l -> c ∈ l -> cmp a b <> Gt -> cmp b c <> Gt -> cmp a c <> Gt.
Proof.
  intros Ho Ha%list_elem_of_In Hb%list_elem_of_In Hc%list_elem_of_In H1 H2 H3. unfold orders in Ho.
  rewrite forallb_forall in Ho. specialize (Ho a Ha). apply andb_prop in Ho as [_ Ho].
  rewrite forallb_forall in Ho. specialize (Ho b Hb). apply andb_prop in Ho as [_ Ho].
  rewrite forallb_forall in Ho. specialize (Ho c Hc). rewrite H3 in Ho.
  by destruct (cmp a b), (cmp b c).
Qed.

Lemma sort_by_ok {E} l : Forall P l -> sort_by (E := E) cmp l = Ok (stable_sort cmp l).
Proof. intros H. unfold sort_by. by rewrite orders_total. Qed.
End sorted.
