(* ===== verification/Json.v ===== *)
(** * JSON values

    The data of the crate serde_json that the code inspects: the [Value] enumeration, objects
    as the sorted association lists that a BTreeMap iterates over, and f64 as IEEE binary64
    (the Standard Library's [spec_float]). The numbers of the crate and its text format are
    not code of the repository: they are the parameters [SerdeNumber] and [SerdeText], with
    what the code relies on as laws. *)

From stdpp Require Import base list strings sorting.
From Stdlib Require Import NArith ZArith Lia Ascii Floats.SpecFloat.
From S2P Require Import Prelude Constants Bytes Order.

(** ** f64 *)
Notation f64 := spec_float.

Definition f64_of_Z (z : Z) : f64 := binary_normalize 53 1024 z 0 false.
Definition f64_add : f64 -> f64 -> f64 := SFadd 53 1024.
Definition f64_div : f64 -> f64 -> f64 := SFdiv 53 1024.
Definition f64_zero : f64 := S754_zero false.

Definition f64_finite (x : f64) : bool :=
  match x with S754_zero _ | S754_finite _ _ _ => true | _ => false end.

(** [a == b], [a < b], [a > b] and [a.partial_cmp(b)]. *)
Definition f64_eqb (a b : f64) : bool := SFeqb a b.
Definition f64_ltb (a b : f64) : bool := SFltb a b.
Definition f64_gtb (a b : f64) : bool := SFltb b a.
Definition f64_partial_cmp (a b : f64) : option comparison := SFcompare a b.

Definition not_nan (x : f64) : Prop := match x with S754_nan => False | _ => True end.

(** The order of f64 is the lexicographic order of class, exponent and mantissa. *)
Definition f64_key (x : f64) : Z * Z * Z :=
  match x with
  | S754_infinity true => (-2, 0, 0)
  | S754_finite true m e => (-1, -e, Z.neg m)
  | S754_zero _ | S754_nan => (0, 0, 0)
  | S754_finite false m e => (1, e, Z.pos m)
  | S754_infinity false => (2, 0, 0)
  end%Z.

Definition key_compare (a b : Z * Z * Z) : comparison :=
  cmp_then (a.1.1 ?= b.1.1)%Z (cmp_then (a.1.2 ?= b.1.2)%Z (a.2 ?= b.2)%Z).

Definition f64_cmp (a b : f64) : comparison := default Eq (f64_partial_cmp a b).

Lemma f64_compare_key a b :
  not_nan a -> not_nan b -> f64_partial_cmp a b = Some (key_compare (f64_key a) (f64_key b)).
Proof.
  unfold f64_partial_cmp, SFcompare, key_compare.
  destruct a as [[]|[]| |[] m e], b as [[]|[]| |[] m' e']; intros; simpl in *; try done; f_equal.
  - rewrite Z.compare_opp, (Z.compare_antisym e e'). by destruct (e ?= e')%Z.
  - by destruct (e ?= e')%Z.
Qed.

Lemma f64_total_order : total_order not_nan f64_cmp.
Proof.
  intros x Hx. apply (ord_at_ext _ (fun a b => key_compare (f64_key a) (f64_key b))); [done| |].
  - apply (ord_at_map (fun _ => True) _ f64_key key_compare); [done|].
    apply (ord_at_then _ (fun a b => (a.1.1 ?= b.1.1)%Z)
      (fun a b => cmp_then (a.1.2 ?= b.1.2)%Z (a.2 ?= b.2)%Z));
      [|apply (ord_at_then _ (fun a b => (a.1.2 ?= b.1.2)%Z) (fun a b => (a.2 ?= b.2)%Z))].
    + by apply (ord_at_map (fun _ => True) _ (fun a : Z * Z * Z => a.1.1) Z.compare), total_order_Z.
    + by apply (ord_at_map (fun _ => True) _ (fun a : Z * Z * Z => a.1.2) Z.compare), total_order_Z.
    + by apply (ord_at_map (fun _ => True) _ (fun a : Z * Z * Z => a.2) Z.compare), total_order_Z.
  - intros a b Ha Hb. unfold f64_cmp. by rewrite f64_compare_key.
Qed.

(** ** Numbers *)
Class SerdeNumber := {
  number : Type;
  number_eqb : number -> number -> bool;
  as_f64 : number -> option f64;
  from_f64 : f64 -> option number;
  from_usize : nat -> number;
  is_i64 : number -> bool;
  is_u64 : number -> bool;
  number_to_string : number -> string }.

(** JSON has no NaN and no infinity: [as_f64] gives finite values, and [from_f64] accepts
    exactly those. *)
Class SerdeNumberLaws `{!SerdeNumber} : Prop := {
  as_f64_finite n x : as_f64 n = Some x -> f64_finite x = true;
  from_f64_finite x : f64_finite x = true -> exists n, from_f64 x = Some n /\ as_f64 n = Some x;
  from_f64_None x : f64_finite x = false -> from_f64 x = None }.

(** Numbers that are all f64, for examples. *)
Definition float_numbers : SerdeNumber := {|
  number := f64;
  number_eqb := f64_eqb;
  as_f64 x := if f64_finite x then Some x else None;
  from_f64 x := if f64_finite x then Some x else None;
  from_usize n := f64_of_Z (Z.of_nat n);
  is_i64 _ := false;
  is_u64 _ := false;
  number_to_string _ := "" |}.

Lemma float_numbers_laws : @SerdeNumberLaws float_numbers.
Proof.
  split; simpl.
  - intros n x. by destruct (f64_finite n) eqn:E; intros [= <-].
  - intros x H. rewrite H. by exists x; rewrite H.
  - by intros x ->.
Qed.

Section number.
Context `{!SerdeNumber}.

(** [n.as_f64().unwrap_or(0.0)]. *)
Definition num_f64 (n : number) : f64 := default f64_zero (as_f64 n).

Lemma num_f64_not_nan `{!SerdeNumberLaws} n : not_nan (num_f64 n).
Proof.
  unfold num_f64. destruct (as_f64 n) as [x|] eqn:E; [|done].
  apply as_f64_finite in E. by destruct x.
Qed.
End number.

(** ** Values *)
Inductive Value `{!SerdeNumber} : Type :=
| Null
| Bool (b : bool)
| Number (n : number)
| Str (s : string)
| Array (vs : list Value)
| Object (m : list (string * Value)).

(** [serde_json::Map]: the entries in the order of their keys. *)
Notation Map := (list (string * Value)).

Section value_ind.
Context `{!SerdeNumber} (P : Value -> Prop).
Hypothesis P_Null : P Null.
Hypothesis P_Bool : forall b, P (Bool b).
Hypothesis P_Number : forall n, P (Number n).
Hypothesis P_Str : forall s, P (Str s).
Hypothesis P_Array : forall vs, Forall P vs -> P (Array vs).
Hypothesis P_Object : forall m, Forall (fun kv => P kv.2) m -> P (Object m).

Fixpoint Value_nested_ind (v : Value) : P v :=
  match v with
  | Null => P_Null
  | Bool b => P_Bool b
  | Number n => P_Number n
  | Str s => P_Str s
  | Array vs =>
    P_Array vs ((fix go (vs : list Value) : Forall P vs :=
      match vs with
      | [] => Forall_nil_2 _
      | v :: vs' => Forall_cons_2 _ _ _ (Value_nested_ind v) (go vs')
      end) vs)
  | Object m =>
    P_Object m ((fix go (m : Map) : Forall (fun kv => P kv.2) m :=
      match m with
      | [] => Forall_nil_2 _
      | kv :: m' => Forall_cons_2 _ _ _ (Value_nested_ind kv.2) (go m')
      end) m)
  end.
End value_ind.

(** ** Maps: the operations of BTreeMap on the sorted entries *)
Section maps.
Context {A : Type}.
Implicit Types (k : string) (m : list (string * A)).

Fixpoint map_get k m : option A :=
  match m with
  | [] => None
  | (k', v) :: m' => if decide (k = k') then Some v else map_get k m'
  end.

Definition contains_key k m : bool := match map_get k m with Some _ => true | None => false end.

Fixpoint map_insert k (v : A) m : list (string * A) :=
  match m with
  | [] => [(k, v)]
  | (k', v') :: m' =>
    match String.compare k k' with
    | Lt => (k, v) :: m
    | Eq => (k, v) :: m'
    | Gt => (k', v') :: map_insert k v m'
    end
  end.

Fixpoint map_remove k m : list (string * A) :=
  match m with
  | [] => []
  | (k', v') :: m' => if decide (k = k') then m' else (k', v') :: map_remove k m'
  end.

(** A map collected from pairs, later ones replacing earlier ones. *)
Definition map_of (kvs : list (string * A)) : list (string * A) :=
  foldl (fun m kv => map_insert kv.1 kv.2 m) [] kvs.

Definition map_wf m : Prop := StronglySorted str_lt m.*1.

Lemma map_wf_cons k v m : map_wf ((k, v) :: m) <-> map_wf m /\ Forall (str_lt k) m.*1.
Proof.
  unfold map_wf. simpl. split.
  - intros H. by apply StronglySorted_inv in H.
  - intros [H1 H2]. by constructor.
Qed.

Lemma map_get_lt k m : Forall (str_lt k) m.*1 -> map_get k m = None.
Proof.
  induction m as [|[k' v] m IH]; simpl; [done|]. intros [H1 H2]%Forall_cons.
  rewrite decide_False; [by apply IH|]. intros ->. by apply str_lt_irrefl in H1.
Qed.

Lemma map_insert_keys k v m k' : k' ∈ (map_insert k v m).*1 <-> k' = k \/ k' ∈ m.*1.
Proof.
  induction m as [|[k1 v1] m IH]; simpl.
  - rewrite list_elem_of_singleton, elem_of_nil. naive_solver.
  - destruct (String.compare k k1) eqn:E; simpl; rewrite !elem_of_cons, ?IH; [|tauto..].
    apply str_compare_eq in E as ->. tauto.
Qed.

Lemma map_insert_wf k v m : map_wf m -> map_wf (map_insert k v m).
Proof.
  induction m as [|[k1 v1] m IH]; intros Hm; simpl; [by repeat constructor|].
  apply map_wf_cons in Hm as [Hm Hk1]. destruct (String.compare k k1) eqn:E.
  - apply str_compare_eq in E as ->. by apply map_wf_cons.
  - apply map_wf_cons. split; [by apply map_wf_cons|]. constructor; [done|].
    eapply Forall_impl; [done|]. intros x Hx. by eapply str_lt_trans.
  - apply map_wf_cons. split; [by apply IH|]. apply Forall_forall. intros x.
    rewrite map_insert_keys. intros [->|Hx]; [by apply str_compare_gt|].
    rewrite Forall_forall in Hk1. by apply Hk1.
Qed.

Lemma map_get_insert k v m k' :
  map_get k' (map_insert k v m) = if decide (k' = k) then Some v else map_get k' m.
Proof.
  induction m as [|[k1 v1] m IH]; simpl; [done|].
  destruct (String.compare k k1) eqn:E; simpl.
  - apply str_compare_eq in E as ->. by destruct (decide (k' = k1)).
  - done.
  - rewrite IH. destruct (decide (k' = k1)) as [->|]; [|done].
    rewrite decide_False; [done|]. intros ->. by rewrite str_compare_refl in E.
Qed.

Lemma map_remove_sub k m : Forall (fun k' => k' ∈ m.*1) (map_remove k m).*1.
Proof.
  induction m as [|[k1 v1] m IH]; simpl; [constructor|]. destruct (decide (k = k1)).
  - apply Forall_forall. intros. by right.
  - constructor; [by left|]. eapply Forall_impl; [done|]. intros. by right.
Qed.

Lemma map_remove_wf k m : map_wf m -> map_wf (map_remove k m).
Proof.
  induction m as [|[k1 v1] m IH]; intros Hm; simpl; [done|].
  apply map_wf_cons in Hm as [Hm Hk1]. destruct (decide (k = k1)); [done|].
  apply map_wf_cons. split; [by apply IH|]. pose proof (map_remove_sub k m) as Hs.
  rewrite Forall_forall in Hk1, Hs. apply Forall_forall. auto.
Qed.

Lemma map_get_remove k m k' :
  map_wf m -> map_get k' (map_remove k m) = if decide (k' = k) then None else map_get k' m.
Proof.
  induction m as [|[k1 v1] m IH]; intros Hm; simpl; [by destruct (decide (k' = k))|].
  apply map_wf_cons in Hm as [Hm Hk1]. destruct (decide (k = k1)) as [->|].
  - destruct (decide (k' = k1)) as [->|]; [by apply map_get_lt|done].
  - simpl. rewrite IH by done. destruct (decide (k' = k1)) as [->|]; [|done].
    by rewrite decide_False.
Qed.

Lemma map_get_Some k v m : map_get k m = Some v -> (k, v) ∈ m.
Proof.
  induction m as [|[k1 v1] m IH]; simpl; [done|]. destruct (decide (k = k1)) as [->|].
  - intros [= ->]. by left.
  - intros. right. by apply IH.
Qed.

Lemma map_get_In k v m : map_wf m -> (k, v) ∈ m -> map_get k m = Some v.
Proof.
  induction m as [|[k1 v1] m IH]; [by intros _ ?%elem_of_nil|].
  intros [Hm Hk1]%map_wf_cons [[= -> ->]|Hin]%elem_of_cons; simpl.
  - by rewrite decide_True.
  - rewrite decide_False; [by apply IH|]. intros ->. rewrite Forall_forall in Hk1.
    apply (str_lt_irrefl k1), Hk1. apply list_elem_of_fmap. by exists (k1, v).
Qed.

(** Maps with the same entries are equal. *)
Lemma map_ext m1 m2 :
  map_wf m1 -> map_wf m2 -> (forall k, map_get k m1 = map_get k m2) -> m1 = m2.
Proof.
  revert m2. induction m1 as [|[k1 v1] m1 IH]; intros [|[k2 v2] m2] H1 H2 Hg; [done| | |].
  { specialize (Hg k2). simpl in Hg. by rewrite decide_True in Hg. }
  { specialize (Hg k1). simpl in Hg. by rewrite decide_True in Hg. }
  pose proof H1 as [H1' F1]%map_wf_cons. pose proof H2 as [H2' F2]%map_wf_cons.
  assert (k1 = k2) as ->.
  { destruct (str_lt_trichotomy k1 k2) as [H|[H|H]]; [exfalso|done|exfalso].
    - specialize (Hg k1). simpl in Hg. rewrite (decide_True _ _ eq_refl), decide_False in Hg;
        [|intros ->; by apply str_lt_irrefl in H].
      rewrite map_get_lt in Hg; [done|]. eapply Forall_impl; [done|]. intros. by eapply str_lt_trans.
    - specialize (Hg k2). simpl in Hg. rewrite (decide_True _ _ eq_refl), decide_False in Hg;
        [|intros ->; by apply str_lt_irrefl in H].
      rewrite map_get_lt in Hg; [done|]. eapply Forall_impl; [done|]. intros. by eapply str_lt_trans. }
  pose proof (Hg k2) as Hv. simpl in Hv. rewrite !decide_True in Hv by done. injection Hv as ->.
  f_equal. apply IH; [done..|]. intros k. specialize (Hg k). simpl in Hg.
  destruct (decide (k = k2)) as [->|]; [|done]. by rewrite !map_get_lt.
Qed.

Lemma map_insert_same k v m : map_wf m -> map_get k m = Some v -> map_insert k v m = m.
Proof.
  intros Hm Hg. apply map_ext; [by apply map_insert_wf|done|].
  intros k'. rewrite map_get_insert. by case_decide; subst.
Qed.

Lemma contains_key_spec k m : contains_key k m = true <-> is_Some (map_get k m).
Proof. unfold contains_key, is_Some. destruct (map_get k m); naive_solver. Qed.

Lemma map_of_wf kvs : map_wf (map_of kvs).
Proof.
  unfold map_of. assert (map_wf []) as H by constructor. revert H. generalize (@nil (string * A)).
  induction kvs as [|kv kvs IH]; intros m Hm; simpl; [done|]. by apply IH, map_insert_wf.
Qed.
End maps.

Section values.
Context `{!SerdeNumber}.
Implicit Types (v : Value) (m : Map).

Definition as_object v : option Map := match v with Object m => Some m | _ => None end.
Definition as_array v : option (list Value) := match v with Array vs => Some vs | _ => None end.
Definition as_str v : option string := match v with Str s => Some s | _ => None end.
Definition is_null v : bool := match v with Null => true | _ => false end.

(** [v.as_f64()]. *)
Definition value_as_f64 v : option f64 := match v with Number n => as_f64 n | _ => None end.

(** [v.get(key)]: only objects have keys. *)
Definition value_get (key : string) v : option Value := as_object v ≫= map_get key.

(** [json!(x)] of an f64: what is not a JSON number becomes null. *)
Definition json_f64 (x : f64) : Value := match from_f64 x with Some n => Number n | None => Null end.

(** The position of a value's type in the orders of values. *)
Definition value_rank v : nat :=
  match v with
  | Null => 0 | Bool _ => 1 | Number _ => 2 | Str _ => 3 | Array _ => 4 | Object _ => 5
  end.

(** [a == b]. *)
Fixpoint Value_eqb a b : bool :=
  match a, b with
  | Null, Null => true
  | Bool x, Bool y => Bool.eqb x y
  | Number x, Number y => number_eqb x y
  | Str x, Str y => bool_decide (x = y)
  | Array xs, Array ys =>
    (fix go xs ys :=
      match xs, ys with
      | [], [] => true
      | x :: xs', y :: ys' => Value_eqb x y && go xs' ys'
      | _, _ => false
      end) xs ys
  | Object xs, Object ys =>
    (fix go xs ys :=
      match xs, ys with
      | [], [] => true
      | (k, x) :: xs', (l, y) :: ys' => bool_decide (k = l) && Value_eqb x y && go xs' ys'
      | _, _ => false
      end) xs ys
  | _, _ => false
  end.

(** Values that the crate can hold: strings are UTF-8 and the keys of an object are sorted
    and distinct. *)
Fixpoint value_wf v : Prop :=
  match v with
  | Null | Bool _ | Number _ => True
  | Str s => rust_string s
  | Array vs => (fix go vs := match vs with [] => True | v :: vs' => value_wf v /\ go vs' end) vs
  | Object m =>
    map_wf m /\
    (fix go m := match m with [] => True | (k, v) :: m' => rust_string k /\ value_wf v /\ go m' end) m
  end.

Lemma value_wf_Array vs : value_wf (Array vs) <-> Forall value_wf vs.
Proof.
  simpl. induction vs as [|v vs IH]; [split; [constructor|done]|]. rewrite IH. by rewrite Forall_cons.
Qed.

Lemma value_wf_Object m :
  value_wf (Object m) <-> map_wf m /\ Forall (fun kv => rust_string kv.1 /\ value_wf kv.2) m.
Proof.
  simpl. apply and_iff_compat_l. induction m as [|[k v] m IH]; [split; [constructor|done]|].
  rewrite IH, Forall_cons. simpl. tauto.
Qed.

Lemma value_wf_get m k v : value_wf (Object m) -> map_get k m = Some v -> value_wf v.
Proof.
  intros [_ Hm]%value_wf_Object Hg%map_get_Some. rewrite Forall_forall in Hm.
  by destruct (Hm _ Hg).
Qed.
End values.

(** ** Paths: [s.split(sep)] at a character, [parts.join(sep)] and [s.contains(sep)] *)
Fixpoint split_at (sep : ascii) (s : string) : list string :=
  match s with
  | EmptyString => [""]
  | String c s' =>
    match split_at sep s' with
    | [] => [""]
    | w :: ws => if decide (c = sep) then "" :: w :: ws else String c w :: ws
    end
  end.

Fixpoint join (sep : string) (ws : list string) : string :=
  match ws with
  | [] => ""
  | [w] => w
  | w :: ws' => w +:+ sep +:+ join sep ws'
  end.

Fixpoint contains_char (c : ascii) (s : string) : bool :=
  match s with
  | EmptyString => false
  | String c' s' => bool_decide (c' = c) || contains_char c s'
  end.

Section paths.
Implicit Types (s w : string) (ws : list string).

Lemma split_at_cons sep s : exists w ws, split_at sep s = w :: ws.
Proof.
  destruct s as [|c s]; simpl; [by do 2 eexists|].
  destruct (split_at sep s); [by do 2 eexists|]. case_decide; by do 2 eexists.
Qed.

Lemma join_cons sep w ws : ws <> [] -> join sep (w :: ws) = w +:+ sep +:+ join sep ws.
Proof. by destruct ws. Qed.

Lemma join_split c s : join (String c EmptyString) (split_at c s) = s.
Proof.
  induction s as [|c' s IH]; [done|]. simpl. destruct (split_at_cons c s) as (w & ws & E).
  rewrite E in *. case_decide as Hc.
  - subst c'. rewrite join_cons by done. simpl in *. by rewrite IH.
  - destruct ws as [|w' ws]; simpl in *; by rewrite <-IH.
Qed.

Lemma split_at_none c s : contains_char c s = false -> split_at c s = [s].
Proof.
  induction s as [|c' s IH]; simpl; [done|]. intros [H1 H2]%orb_false_elim.
  rewrite IH by done. by apply bool_decide_eq_false in H1; rewrite decide_False.
Qed.

Lemma split_at_app c w s :
  contains_char c w = false -> split_at c (w +:+ String c s) = w :: split_at c s.
Proof.
  induction w as [|c' w IH]; simpl.
  - intros _. destruct (split_at_cons c s) as (w & ws & E). by rewrite E, decide_True.
  - intros [H1 H2]%orb_false_elim. rewrite IH by done.
    by apply bool_decide_eq_false in H1; rewrite decide_False.
Qed.

Lemma split_join c ws :
  ws <> [] -> Forall (fun w => contains_char c w = false) ws -> split_at c (join (String c EmptyString) ws) = ws.
Proof.
  intros Hne H. induction H as [|w ws Hw Hws IH]; [done|]. destruct ws as [|w' ws].
  - simpl. by apply split_at_none.
  - rewrite join_cons by done. change (String c "" +:+ ?x) with (String c x).
    rewrite split_at_app by done. by rewrite IH.
Qed.
End paths.

(** ** The text format *)
Class SerdeText `{!SerdeNumber} := {
  (** [v.to_string()] *)
  value_to_string : Value -> string;
  (** [serde_json::to_string(v)] and [serde_json::from_str(s)]; the error as text *)
  json_to_string : Value -> string + string;
  json_from_str : string -> Value + string }.
