(* ===== verification/BufferPool.v ===== *)
(** * The pools of page buffers (buffer_pool.rs)

    [BufferPool] is a stack of page buffers under a mutex; [get] pops one or makes one, [put]
    takes a buffer back. The pager's clients fill a buffer that [get] returned and rely on it
    being a zeroed page. A lock that a panic poisoned, where [get] makes a new buffer and
    [put] drops its argument, is not modelled. *)

From stdpp Require Import base list.
From Stdlib Require Import NArith Lia.
From S2P Require Import Prelude Constants Bytes.

Record BufferPool := mk_pool { buffers : list (list byte); max_size : nat }.

Definition pool_new (size : nat) : BufferPool := mk_pool [] size.

Definition zeroed_page : list byte := replicate PAGE_SIZE Byte.x00.

Definition pool_get (pool : BufferPool) : list byte * BufferPool :=
  match vec_pop (buffers pool) with
  | Some (b, rest) => (b, mk_pool rest (max_size pool))
  | None => (zeroed_page, pool)
  end.

(** [buf.fill(0)] *)
Definition fill_zero (buf : list byte) : list byte := replicate (length buf) Byte.x00.

Definition pool_put (buf : list byte) (pool : BufferPool) : BufferPool :=
  if decide (length buf <> PAGE_SIZE) then pool
  else if length (buffers pool) <? max_size pool
  then mk_pool (vec_push (buffers pool) (fill_zero buf)) (max_size pool)
  else pool.

Definition pool_len (pool : BufferPool) : nat := length (buffers pool).
Definition pool_is_empty (pool : BufferPool) : bool := pool_len pool =? 0.
Definition pool_capacity (pool : BufferPool) : nat := max_size pool.

(** The two pools of the process. *)
Definition NODE_SERIALIZE_POOL : BufferPool := pool_new 128.
Definition PAGE_BUFFER_POOL : BufferPool := pool_new (N.to_nat 256).

(** A history of calls: [None] is a [get], [Some buf] a [put] of [buf]; the buffers that the
    [get]s returned, newest first, and the pool. *)
Fixpoint pool_run (calls : list (option (list byte))) (pool : BufferPool) : list (list byte) * BufferPool :=
  match calls with
  | [] => ([], pool)
  | None :: calls =>
      let '(b, pool) := pool_get pool in
      let '(bs, pool) := pool_run calls pool in (b :: bs, pool)
  | Some buf :: calls => pool_run calls (pool_put buf pool)
  end.

Section pool.
Implicit Types (pool : BufferPool).

Record pool_ok pool : Prop := {
  pool_zeroed : Forall (eq zeroed_page) (buffers pool);
  pool_bounded : length (buffers pool) <= max_size pool }.

Lemma pool_new_ok n : pool_ok (pool_new n).
Proof. split; simpl; [constructor|lia]. Qed.

Lemma pool_get_ok pool : pool_ok pool ->
  fst (pool_get pool) = zeroed_page /\ pool_ok (snd (pool_get pool)) /\
  max_size (snd (pool_get pool)) = max_size pool.
Proof.
  intros [Hz Hb]. unfold pool_get. destruct (vec_pop (buffers pool)) as [[b r]|] eqn:E; [|done].
  apply vec_pop_Some in E. rewrite E in *. apply Forall_app in Hz as [Hr [Hb' _]%Forall_cons].
  rewrite length_app in Hb. simpl in *. split_and!; [done| |done]. split; [done|simpl; lia].
Qed.

Lemma pool_put_ok buf pool : pool_ok pool ->
  pool_ok (pool_put buf pool) /\ max_size (pool_put buf pool) = max_size pool.
Proof.
  intros [Hz Hb]. unfold pool_put. case_decide as Hl; [done|]. destruct (Nat.ltb_spec (length (buffers pool)) (max_size pool)); [|done].
  split; [|done]. split; simpl; unfold vec_push.
  - apply Forall_app. split; [done|]. constructor; [|constructor]. unfold fill_zero. by rewrite Hl.
  - rewrite length_app. simpl. lia.
Qed.

Lemma pool_run_ok calls pool : pool_ok pool ->
  Forall (eq zeroed_page) (pool_run calls pool).1 /\ pool_ok (pool_run calls pool).2 /\
  max_size (pool_run calls pool).2 = max_size pool.
Proof.
  revert pool. induction calls as [|[buf|] calls IH]; intros pool Hp; simpl; [done| |].
  - destruct (pool_put_ok buf _ Hp) as [Hp' Hm]. rewrite <-Hm. by apply IH.
  - destruct (pool_get_ok _ Hp) as (Hz & Hp' & Hm). destruct (pool_get pool) as [b pool']. simpl in *.
    destruct (IH _ Hp') as (H1 & H2 & H3). destruct (pool_run calls pool') as [bs pool'']. simpl in *.
    split_and!; [by constructor|done|congruence].
Qed.
End pool.

(** Whatever buffers are put back, in any order, every buffer that a pool hands out is a
    page of zeros, and the pool never keeps more than its capacity. *)
Lemma pool_hands_out_zeroed_pages size calls :
  Forall (fun b => b = replicate PAGE_SIZE Byte.x00) (pool_run calls (pool_new size)).1 /\
  pool_len (pool_run calls (pool_new size)).2 <= size.
Proof.
  destruct (pool_run_ok calls _ (pool_new_ok size)) as (Hz & [_ Hb] & Hm). simpl in Hm. rewrite Hm in Hb.
  split; [|done]. by eapply Forall_impl; [exact Hz|].
Qed.
