(* ===== verification/PageStore.v ===== *)
(** * The interface between the page store and its clients

    The B-trees and the documents call the pager through five operations. [PageStore] names
    them and [PageStoreLaws] is what the clients' theorems rely on; [Pager.v] discharges the
    laws for the pager. *)

From stdpp Require Import base list strings gmap.
From Stdlib Require Import NArith Lia.
From S2P Require Import Prelude Constants Bytes.

Class PageStore (S : Type) := {
  ps_read : N -> ST S Error (list byte);
  ps_write : N -> list byte -> ST S Error unit;
  ps_alloc : ST S Error N;
  ps_alloc_min : N -> ST S Error N;
  ps_free : N -> ST S Error unit }.

(** [ps_view s p] is what a read of page [p] returns; [ps_used s p] says that the store will
    not hand out [p]; [ps_room s n] says that [n] more pages can be allocated. *)
Class PageStoreLaws (S : Type) `{!PageStore S} := {
  ps_inv : S -> Prop;
  ps_view : S -> N -> option (list byte);
  ps_used : S -> N -> Prop;
  ps_room : S -> nat -> Prop;
  ps_room_le s m n : ps_room s m -> n <= m -> ps_room s n;
  ps_used_small s p : ps_inv s -> ps_used s p -> (p < 2 ^ 64)%N;
  ps_read_law s p d :
    ps_inv s -> ps_used s p -> ps_view s p = Some d ->
    exists s', ps_read p s = (Ok d, s') /\ ps_inv s' /\
      (forall q, ps_view s' q = ps_view s q) /\ (forall q, ps_used s' q <-> ps_used s q) /\
      (forall n, ps_room s n -> ps_room s' n);
  ps_write_law s p d :
    ps_inv s -> ps_used s p -> length d = PAGE_SIZE ->
    exists s', ps_write p d s = (Ok tt, s') /\ ps_inv s' /\
      (forall q, ps_view s' q = if decide (q = p) then Some d else ps_view s q) /\
      (forall q, ps_used s' q <-> ps_used s q) /\ (forall n, ps_room s n -> ps_room s' n);
  ps_alloc_law s n :
    ps_inv s -> ps_room s (Datatypes.S n) ->
    exists p s', ps_alloc s = (Ok p, s') /\ ps_inv s' /\
      ~ ps_used s p /\ ps_used s' p /\ p <> 0%N /\
      (forall q, ps_used s q -> ps_used s' q) /\
      (forall q, ps_used s q -> ps_view s' q = ps_view s q) /\ ps_room s' n;
  ps_alloc_min_law s m n :
    ps_inv s -> ps_used s m -> ps_room s (Datatypes.S n) ->
    exists p s', ps_alloc_min m s = (Ok p, s') /\ ps_inv s' /\
      ~ ps_used s p /\ ps_used s' p /\ p <> 0%N /\ (m <= p)%N /\
      (forall q, ps_used s q -> ps_used s' q) /\
      (forall q, ps_used s q -> ps_view s' q = ps_view s q) /\ ps_room s' n;
  ps_alloc_only s p s' :
    ps_inv s -> (exists n, ps_room s (Datatypes.S n)) -> ps_alloc s = (Ok p, s') ->
    forall q, ps_used s' q -> ps_used s q \/ q = p;
  ps_free_law s p :
    ps_inv s -> ps_used s p -> p <> 0%N ->
    exists s', ps_free p s = (Ok tt, s') /\ ps_inv s' /\
      (forall q, ps_used s' q <-> ps_used s q /\ q <> p) /\
      (forall q, q <> p -> ps_view s' q = ps_view s q) /\ (forall n, ps_room s n -> ps_room s' n) }.
