(* ===== verification/Document.v ===== *)
(** * Documents on pages (document.rs)

    A document is a first page (its header and the first bytes of its data) and, when it does
    not fit, a chain of overflow pages that ends with a zero link. [write_document] /
    [read_document] are the plain format, [write_versioned_document] /
    [read_versioned_document] the one that transactions use, which also collects the written
    pages in the write buffer of the transaction. The pages are those of any [PageStore]. *)

From stdpp Require Import base list strings gmap pretty.
From Stdlib Require Import NArith Lia.
From S2P Require Import Prelude Constants Bytes BufferPool PageStore.

Record Document := mk_doc { d_id : string; d_data : list byte }.

Record VersionedDocument := mk_vdoc {
  vd_id : string;
  vd_data : list byte;
  vd_xmin : N;
  vd_xmax : N
}.

Definition vdoc_is_visible (d : VersionedDocument) (snapshot_id : N) : bool :=
  if (snapshot_id <? vd_xmin d)%N then false
  else if (negb (vd_xmax d =? 0) && (vd_xmax d <=? snapshot_id))%N then false
  else true.

Definition MAX_DOCUMENT_SIZE : N := 1024 * 1024 * 1024.

(** The write buffer of a transaction. *)
Notation tx_writes := (gmap N (list byte)).

(** [while !remaining.is_empty()]: the pieces of at most [n] bytes; the fuel is the length of
    the data, since every piece takes at least one byte. *)
Fixpoint chunk_loop (fuel n : nat) (remaining : list byte) : list (list byte) :=
  match fuel, remaining with
  | S fuel, _ :: _ => take n remaining :: chunk_loop fuel n (drop n remaining)
  | _, _ => []
  end.

Definition chunks_of (n : nat) (data : list byte) : list (list byte) := chunk_loop (length data) n data.

(** [overflow_buf[..chunk.len()]] and [overflow_buf[PAGE_SIZE - 8..]] filled in a zeroed page. *)
Definition overflow_page (chunk : list byte) (next : N) : option (list byte) :=
  b ← put_slice 0 chunk zeroed_page; put_slice (PAGE_SIZE - 8) (to_le_bytes 8 next) b.

Section documents.
Context {S : Type} `{!PageStore S}.
Notation M := (ST S Error).

Definition index {A} (x : option A) : M A := st_lift (of_option Panic x).

(** ** The plain format *)
Definition write_single_page (doc_id : string) (data : list byte) : M N :=
  let! page_num := ps_alloc in
  let id_bytes := as_bytes doc_id in
  let! buf := index (w ← w_le 2 (N.of_nat (length id_bytes)) (0, zeroed_page);
                     w ← w_bytes id_bytes w;
                     w ← w_le 4 (N.of_nat (length data)) w;
                     w ← w_bytes data w;
                     snd <$> w_le 8 0 w) in
  let! _ := ps_write page_num buf in
  st_ret page_num.

(** The loop over [chunks.iter().rev()]. *)
Fixpoint write_overflow (rchunks : list (list byte)) (next_overflow : N) : M N :=
  match rchunks with
  | [] => st_ret next_overflow
  | chunk :: rchunks =>
      let! page := ps_alloc in
      let! buf := index (overflow_page chunk next_overflow) in
      let! _ := ps_write page buf in
      write_overflow rchunks page
  end.

(** [first_page_available] would underflow for an id longer than a page, and the slices that
    follow would be out of range. *)
Definition write_multi_page (doc_id : string) (data : list byte) : M N :=
  let! first_page := ps_alloc in
  let id_bytes := as_bytes doc_id in
  let header := DOC_ID_LEN_SIZE + length id_bytes + DATA_LEN_SIZE + OVERFLOW_SIZE in
  if PAGE_SIZE <? header then st_lift Panic else
  let first_chunk_size := min (PAGE_SIZE - header) (length data) in
  let chunks := chunks_of MAX_OVERFLOW_DATA (drop first_chunk_size data) in
  let! next_overflow := write_overflow (reverse chunks) 0 in
  let! buf := index (w ← w_le 2 (N.of_nat (length id_bytes)) (0, zeroed_page);
                     w ← w_bytes id_bytes w;
                     w ← w_le 4 (N.of_nat (length data)) w;
                     w ← w_bytes (take first_chunk_size data) w;
                     put_slice (PAGE_SIZE - 8) (to_le_bytes 8 next_overflow) w.2) in
  let! _ := ps_write first_page buf in
  st_ret first_page.

Definition write_document (doc_id : string) (data : list byte) : M N :=
  let total_size := DOC_ID_LEN_SIZE + length (as_bytes doc_id) + DATA_LEN_SIZE + length data + OVERFLOW_SIZE in
  if total_size <=? PAGE_SIZE then write_single_page doc_id data else write_multi_page doc_id data.

Definition cycle_error (p : N) (what : string) : Error :=
  Other ("Overflow chain cycle detected at page " +:+ pretty p +:+ what).

Definition too_long_error (what : string) : Error :=
  Other ("Overflow chain too long (>" +:+ pretty MAX_OVERFLOW_CHAIN_LENGTH +:+ " pages)" +:+ what).

Definition mismatch_error (kind : string) (want got : N) : Error :=
  Other (kind +:+ " size mismatch: expected " +:+ pretty want +:+ " bytes, got " +:+ pretty got
         +:+ " bytes. Document may be corrupted.").

(** The link of a page: its last eight bytes. *)
Definition next_link (page : list byte) : M N := index (read_le 8 (PAGE_SIZE - 8) page).

(** The loop over an overflow chain: [fetch] reads a page; [budget] is what remains of
    [MAX_OVERFLOW_CHAIN_LENGTH]; [data] is what was read so far, which ends the loop when it
    reaches [data_len]. *)
Fixpoint read_chain (fetch : N -> M (list byte)) (ecycle : N -> Error) (elong : Error) (budget : nat)
    (visited : gset N) (current : N) (data_len : N) (data : list byte) : M (list byte) :=
  if (current =? 0)%N || (data_len <=? N.of_nat (length data))%N then st_ret data else
  if decide (current ∈ visited) then st_fail (ecycle current) else
  match budget with
  | 0 => st_fail elong
  | Datatypes.S budget =>
      let! page := fetch current in
      let chunk_size := N.min (data_len - N.of_nat (length data)) (N.of_nat MAX_OVERFLOW_DATA) in
      let! chunk := index (slice 0 (N.to_nat chunk_size) page) in
      let! next := next_link page in
      read_chain fetch ecycle elong budget ({[current]} ∪ visited) next data_len (data ++ chunk)
  end.

Definition chain_limit : nat := N.to_nat MAX_OVERFLOW_CHAIN_LENGTH.

Definition invalid {A} : M A := st_fail InvalidDocument.

Definition read_document (page_num : N) : M Document :=
  let! page := ps_read page_num in
  let! id_len := index (read_le 2 0 page) in
  if (id_len =? 0)%N || (255 <? id_len)%N then invalid else
  let id_len := N.to_nat id_len in
  if length page <? 2 + id_len then invalid else
  let! id_bytes := index (slice 2 id_len page) in
  match from_utf8 id_bytes with
  | None => invalid
  | Some doc_id =>
    let offset := 2 + id_len in
    if length page <? offset + 4 then invalid else
    let! data_len := index (read_le 4 offset page) in
    let offset := offset + 4 in
    if (MAX_DOCUMENT_SIZE <? data_len)%N then invalid else
    let! overflow := next_link page in
    if (overflow =? 0)%N then
      if (N.of_nat (length page) <? N.of_nat offset + data_len)%N then invalid else
      let! data := index (slice offset (N.to_nat data_len) page) in
      st_ret (mk_doc doc_id data)
    else
      let first_chunk_size := PAGE_SIZE - DOC_ID_LEN_SIZE - id_len - DATA_LEN_SIZE - OVERFLOW_SIZE in
      let first_data_len := N.min (N.of_nat first_chunk_size) data_len in
      let! first := index (slice offset (N.to_nat first_data_len) page) in
      let! data := read_chain ps_read (fun p => cycle_error p ". Document is corrupted.")
        (too_long_error ". Document may be corrupted.") chain_limit ∅ overflow data_len first in
      if decide (N.of_nat (length data) <> data_len)
      then st_fail (mismatch_error "Document" data_len (N.of_nat (length data)))
      else st_ret (mk_doc doc_id data)
  end.

(** The loop of [delete_document] over the overflow chain. *)
Fixpoint free_chain (budget : nat) (visited : gset N) (overflow : N) : M unit :=
  if (overflow =? 0)%N then st_ret tt else
  if decide (overflow ∈ visited) then st_fail (cycle_error overflow " during delete. Document is corrupted.") else
  match budget with
  | 0 => st_fail (too_long_error " during delete. Document may be corrupted.")
  | Datatypes.S budget =>
      let! page := ps_read overflow in
      let! next := next_link page in
      let! _ := ps_free overflow in
      free_chain budget ({[overflow]} ∪ visited) next
  end.

Definition delete_document (page_num : N) : M unit :=
  let! page := ps_read page_num in
  let! overflow := next_link page in
  let! _ := free_chain chain_limit ∅ overflow in
  let! _ := ps_free page_num in
  st_ret tt.

(** ** The versioned format *)
Notation VM := (ST (S * tx_writes) Error).

Definition on_pages {A} (m : M A) : VM A := fun w => let '(x, s) := m w.1 in (x, (s, w.2)).

(** [tx_writes.insert(page, buf)] *)
Definition record_write (page : N) (buf : list byte) : VM unit :=
  st_modify (fun w => (w.1, <[page := buf]> w.2)).

(** The loop that frees the allocated pages and drops the errors. *)
Fixpoint free_pages (ps : list N) : M unit :=
  match ps with
  | [] => st_ret tt
  | p :: ps => let! _ := st_ok (ps_free p) in free_pages ps
  end.

(** The [map_err] of every allocation and every write: the pages allocated so far are given
    back before the error is returned. *)
Definition or_free {A} (allocated : list N) (m : M A) : VM A :=
  on_pages (st_catch m (fun e => let! _ := free_pages allocated in st_fail e)).

Definition vindex {A} (x : option A) : VM A := st_lift (of_option Panic x).

(** The [while data_offset < data.len()] loop: [rest] is [data[data_offset..]], and the link of
    the previous page, at [prev_offset], is set when the next page is known. The result: the
    allocated pages, the previous page and its buffer, and the first page's buffer. *)
Fixpoint write_versioned_loop (fuel : nat) (first_page : N) (rest : list byte) (allocated : list N)
    (prev_page : N) (prev_offset : nat) (prev_buf : option (list byte)) (first_buf : list byte) :
    VM (list N * N * option (list byte) * list byte) :=
  match rest, fuel with
  | [], _ => st_ret (allocated, prev_page, prev_buf, first_buf)
  | _, 0 => st_lift OutOfFuel
  | _, Datatypes.S fuel =>
      let! page := or_free allocated ps_alloc in
      let allocated := vec_push allocated page in
      let! buf := vindex (overflow_page (take MAX_OVERFLOW_DATA rest) 0) in
      let! first_buf :=
        if (prev_page =? first_page)%N then vindex (put_slice prev_offset (to_le_bytes 8 page) first_buf)
        else match prev_buf with
             | Some b =>
                 let! b := vindex (put_slice prev_offset (to_le_bytes 8 page) b) in
                 let! _ := record_write prev_page b in
                 let! _ := or_free allocated (ps_write prev_page b) in
                 st_ret first_buf
             | None => st_ret first_buf
             end in
      write_versioned_loop fuel first_page (drop MAX_OVERFLOW_DATA rest) allocated
        page (PAGE_SIZE - OVERFLOW_SIZE) (Some buf) first_buf
  end.

Definition versioned_header (id_len : nat) : nat :=
  XMIN_SIZE + XMAX_SIZE + DOC_ID_LEN_SIZE + id_len + DATA_LEN_SIZE + OVERFLOW_SIZE.

Definition write_versioned_document (doc_id : string) (data : list byte) (xmin xmax : N) : VM (N * list byte) :=
  let id_bytes := as_bytes doc_id in
  if 255 <? length id_bytes then st_fail InvalidDocument else
  let capacity := PAGE_SIZE - versioned_header (length id_bytes) in
  let! first_page := on_pages ps_alloc in
  let chunk_size := min capacity (length data) in
  let! w := vindex (w ← w_le 8 xmin (0, zeroed_page);
                    w ← w_le 8 xmax w;
                    w ← w_le 2 (N.of_nat (length id_bytes)) w;
                    w ← w_bytes id_bytes w;
                    w ← w_le 4 (N.of_nat (length data)) w;
                    w_bytes (take chunk_size data) w) in
  let '(overflow_offset, first_buf) := w : wcursor in
  let! first_buf := vindex (put_slice overflow_offset (to_le_bytes 8 0) first_buf) in
  let! r := write_versioned_loop (length data) first_page (drop chunk_size data) [first_page]
              first_page overflow_offset None first_buf in
  let '(allocated, prev_page, prev_buf, first_buf) := r : list N * N * option (list byte) * list byte in
  let! _ := match prev_buf with
            | Some b => let! _ := record_write prev_page b in or_free allocated (ps_write prev_page b)
            | None => st_ret tt
            end in
  let! _ := record_write first_page first_buf in
  let! _ := or_free allocated (ps_write first_page first_buf) in
  st_ret (first_page, first_buf).

(** A page from the write buffer of the transaction, or else from the store. *)
Definition fetch_page (writes : tx_writes) (page : N) : M (list byte) :=
  match writes !! page with Some d => st_ret d | None => ps_read page end.

(** The bytes of [data] that the loop has filled are kept as a list of that length. With an id
    of more than 4066 bytes [first_page_capacity] underflows and the link lies outside the
    page: a panic in every build. *)
Definition read_versioned_document (page_num : N) (writes : tx_writes) : M VersionedDocument :=
  let! page := fetch_page writes page_num in
  let! xmin := index (read_le 8 0 page) in
  let! xmax := index (read_le 8 8 page) in
  let! id_len := index (read_le 2 16 page) in
  if (id_len =? 0)%N || (N.of_nat (length page - 18) <? id_len)%N then invalid else
  let id_len := N.to_nat id_len in
  let! id_bytes := index (slice 18 id_len page) in
  match from_utf8 id_bytes with
  | None => invalid
  | Some doc_id =>
    let offset := 18 + id_len in
    let! data_len := index (read_le 4 offset page) in
    let offset := offset + 4 in
    if (MAX_DOCUMENT_SIZE <? data_len)%N then invalid else
    if PAGE_SIZE <? versioned_header id_len then st_lift Panic else
    let first_page_capacity := PAGE_SIZE - versioned_header id_len in
    let first_chunk_size := N.to_nat (N.min (N.of_nat first_page_capacity) data_len) in
    let! first := index (slice offset first_chunk_size page) in
    let offset := offset + first_chunk_size in
    let! overflow := index (read_le 8 offset page) in
    let! data := read_chain (fetch_page writes)
      (fun p => cycle_error p ". Versioned document is corrupted.")
      (too_long_error ". Versioned document may be corrupted.") chain_limit ∅ overflow data_len first in
    if decide (N.of_nat (length data) <> data_len)
    then st_fail (mismatch_error "Versioned document" data_len (N.of_nat (length data)))
    else st_ret (mk_vdoc doc_id data xmin xmax)
  end.
End documents.

(** ** What the pages of a document hold *)
Section page_contents.
Implicit Types (data rest chunk pre : list byte).

Lemma zeroed_zbuf : zeroed_page = zbuf PAGE_SIZE [].
Proof. done. Qed.

(** Overwriting bytes of the same length. *)
Lemma put_slice_over off pre src mid suf :
  length pre = off -> length src = length mid ->
  put_slice off src (pre ++ mid ++ suf) = Some (pre ++ src ++ suf).
Proof.
  intros <- H. unfold put_slice. rewrite !length_app, decide_True by lia.
  rewrite take_app_length. do 3 f_equal. rewrite drop_app_ge by lia.
  replace (length pre + length src - length pre) with (length mid) by lia. by rewrite drop_app_length.
Qed.

Lemma overflow_page_eq chunk next :
  length chunk <= MAX_OVERFLOW_DATA ->
  overflow_page chunk next =
    Some (chunk ++ replicate (MAX_OVERFLOW_DATA - length chunk) Byte.x00 ++ to_le_bytes 8 next).
Proof.
  intros H. unfold overflow_page.
  assert (put_slice 0 chunk zeroed_page = Some (zbuf PAGE_SIZE chunk)) as ->.
  { pose proof (w_bytes_wrote PAGE_SIZE [] chunk ltac:(simpl; size_lia)) as Hw.
    unfold w_bytes, wrote in Hw. simpl in Hw. rewrite zeroed_zbuf.
    destruct (put_slice 0 chunk (zbuf PAGE_SIZE [])); simpl in Hw; simplify_eq. done. }
  simpl. unfold zbuf.
  replace (PAGE_SIZE - length chunk) with ((MAX_OVERFLOW_DATA - length chunk) + 8) by size_lia.
  rewrite replicate_add, app_assoc.
  replace (chunk ++ replicate (MAX_OVERFLOW_DATA - length chunk) Byte.x00 ++ to_le_bytes 8 next)
    with ((chunk ++ replicate (MAX_OVERFLOW_DATA - length chunk) Byte.x00) ++ to_le_bytes 8 next ++ [])
    by (by rewrite app_nil_r, app_assoc).
  rewrite <-(app_nil_r (replicate 8 _)). apply put_slice_over.
  - rewrite length_app, length_replicate. size_lia.
  - by rewrite length_to_le_bytes, length_replicate.
Qed.

(** An overflow page holds its chunk and its link. *)
Lemma overflow_page_reads chunk next d :
  length chunk <= MAX_OVERFLOW_DATA -> (next < 2 ^ 64)%N -> overflow_page chunk next = Some d ->
  length d = PAGE_SIZE /\ slice 0 (length chunk) d = Some chunk /\
  read_le 8 (PAGE_SIZE - 8) d = Some next.
Proof.
  intros H Hn. rewrite overflow_page_eq by done. intros [= <-].
  assert (length (chunk ++ replicate (MAX_OVERFLOW_DATA - length chunk) Byte.x00) = PAGE_SIZE - 8) as Hl
    by (rewrite length_app, length_replicate; size_lia).
  split_and!.
  - rewrite app_assoc, length_app, Hl, length_to_le_bytes. size_lia.
  - by apply (slice_mid [] chunk).
  - unfold read_le. rewrite app_assoc.
    rewrite <-(app_nil_r (to_le_bytes 8 next)) at 1.
    rewrite (slice_mid _ (to_le_bytes 8 next) []) by (rewrite ?length_to_le_bytes; done).
    simpl. by rewrite from_to_le_bytes_small.
Qed.

(** Setting the link of an overflow page. *)
Lemma overflow_page_relink chunk next next' d :
  length chunk <= MAX_OVERFLOW_DATA -> overflow_page chunk next = Some d ->
  put_slice (PAGE_SIZE - OVERFLOW_SIZE) (to_le_bytes 8 next') d = overflow_page chunk next'.
Proof.
  intros H. rewrite !overflow_page_eq by done. intros [= <-].
  rewrite !app_assoc. rewrite <-(app_nil_r (to_le_bytes 8 next)), <-(app_nil_r (to_le_bytes 8 next')).
  apply put_slice_over; rewrite ?length_to_le_bytes; [|done].
  rewrite length_app, length_replicate. size_lia.
Qed.

(** Setting the eight zero bytes after the bytes written so far. *)
Lemma put_after_zbuf total pre n v v' :
  length pre + n <= total ->
  put_slice (length pre) (to_le_bytes n v) (zbuf total pre) = Some (zbuf total (pre ++ to_le_bytes n v)) /\
  put_slice (length pre) (to_le_bytes n v') (zbuf total (pre ++ to_le_bytes n v))
    = Some (zbuf total (pre ++ to_le_bytes n v')).
Proof.
  intros H. unfold zbuf. split.
  - rewrite put_slice_append by (rewrite ?length_replicate, ?length_to_le_bytes; lia).
    rewrite drop_replicate, length_app, length_to_le_bytes. do 3 f_equal. lia.
  - rewrite <-!app_assoc, put_slice_over by (by rewrite ?length_to_le_bytes).
    by rewrite !length_app, !length_to_le_bytes.
Qed.

Lemma chunk_loop_fuel n f1 f2 data :
  0 < n -> length data <= f1 -> length data <= f2 -> chunk_loop f1 n data = chunk_loop f2 n data.
Proof.
  intros Hn. revert f2 data. induction f1 as [|f1 IH]; intros f2 [|b data] H1 H2; simpl in H1, H2; try lia;
    destruct f2; try lia; try done.
  cbn [chunk_loop]. f_equal. apply IH; rewrite length_drop; simpl; lia.
Qed.

Lemma chunks_of_cons n data :
  0 < n -> data <> [] -> chunks_of n data = take n data :: chunks_of n (drop n data).
Proof.
  intros Hn. unfold chunks_of. destruct data as [|b data]; [done|intros _].
  cbn [length chunk_loop]. f_equal. apply chunk_loop_fuel; [done|rewrite length_drop; simpl; lia|done].
Qed.

(** The bytes of a chain are consumed [MAX_OVERFLOW_DATA] at a time. *)
Lemma chain_ind (P : list byte -> Prop) :
  P [] -> (forall rest, rest <> [] -> P (drop MAX_OVERFLOW_DATA rest) -> P rest) -> forall rest, P rest.
Proof.
  intros H0 HS. enough (forall n rest, length rest <= n -> P rest) as H by (intros rest; by eapply H).
  induction n as [|n IH]; intros rest Hn.
  - by destruct rest; simpl in Hn; [|lia].
  - destruct rest as [|b rest]; [done|]. apply HS; [done|]. apply IH. rewrite length_drop. simpl in *. size_lia.
Qed.

Lemma chunks_of_length rest :
  length (chunks_of MAX_OVERFLOW_DATA rest) <= length rest / MAX_OVERFLOW_DATA + 1.
Proof.
  induction rest as [|rest Hne IH] using chain_ind; [simpl; lia|].
  rewrite chunks_of_cons by (done || size_lia). cbn [length]. rewrite length_drop in IH.
  destruct (decide (length rest <= MAX_OVERFLOW_DATA)) as [Hs|Hs].
  - assert (drop MAX_OVERFLOW_DATA rest = []) as -> by (by apply drop_ge). cbn [length chunks_of chunk_loop]. lia.
  - replace (length rest) with ((length rest - MAX_OVERFLOW_DATA) + 1 * MAX_OVERFLOW_DATA) by lia.
    rewrite Nat.div_add by size_lia. lia.
Qed.

(** Eight zero bytes after the bytes written so far change nothing; they are the link of a
    page that is filled up to its last eight bytes, or less. *)
Lemma zbuf_zero_link pre :
  length pre + 8 <= PAGE_SIZE -> zbuf PAGE_SIZE (pre ++ to_le_bytes 8 0) = zbuf PAGE_SIZE pre.
Proof.
  intros H. change (to_le_bytes 8 0) with (replicate 8 Byte.x00). unfold zbuf.
  rewrite <-app_assoc, <-replicate_add, length_app, length_replicate. do 2 f_equal. lia.
Qed.

Lemma zbuf_link pre link :
  length pre + 8 <= PAGE_SIZE -> (link < 2 ^ 64)%N -> link = 0%N \/ length pre + 8 = PAGE_SIZE ->
  read_le 8 (PAGE_SIZE - 8) (zbuf PAGE_SIZE (pre ++ to_le_bytes 8 link)) = Some link.
Proof.
  intros Hp Hl [->|He].
  - rewrite zbuf_zero_link by done. unfold zbuf.
    replace (PAGE_SIZE - length pre) with ((PAGE_SIZE - 8 - length pre) + (8 + 0)) by lia.
    rewrite !replicate_add, app_assoc. unfold read_le.
    rewrite (slice_mid _ (replicate 8 Byte.x00)); [by rewrite fmap_Some; exists (replicate 8 Byte.x00)| |done].
    rewrite length_app, length_replicate. lia.
  - unfold read_le, zbuf. rewrite <-app_assoc. rewrite (slice_mid pre (to_le_bytes 8 link));
      [simpl; by rewrite from_to_le_bytes_small|lia|apply length_to_le_bytes].
Qed.
End page_contents.

(** A chain of overflow pages that holds [rest], first page first, in the pages that [look]
    finds. *)
Inductive chain_holds (look : N -> option (list byte)) : N -> list byte -> list N -> Prop :=
| chain_end : chain_holds look 0 [] []
| chain_page p d next rest ps :
    p <> 0%N -> rest <> [] -> look p = Some d -> length d = PAGE_SIZE ->
    slice 0 (min MAX_OVERFLOW_DATA (length rest)) d = Some (take MAX_OVERFLOW_DATA rest) ->
    read_le 8 (PAGE_SIZE - 8) d = Some next ->
    chain_holds look next (drop MAX_OVERFLOW_DATA rest) ps ->
    chain_holds look p rest (p :: ps).

Lemma chain_holds_mono look look' p rest ps :
  chain_holds look p rest ps -> (forall q, q ∈ ps -> look' q = look q) -> chain_holds look' p rest ps.
Proof.
  induction 1 as [|p d next rest ps Hp Hr Hl Hd Hs Hn Hc IH]; intros Heq; [constructor|].
  econstructor; try done; [rewrite Heq by (by left); done|]. apply IH. intros q Hq. apply Heq. by right.
Qed.

Lemma chain_holds_nil look p ps : chain_holds look p [] ps -> p = 0%N /\ ps = [].
Proof. by inversion 1. Qed.

(** A page filled by [overflow_page] at the front of a chain. *)
Lemma chain_holds_overflow look p rest next d ps :
  p <> 0%N -> rest <> [] -> (next < 2 ^ 64)%N ->
  overflow_page (take MAX_OVERFLOW_DATA rest) next = Some d -> look p = Some d ->
  chain_holds look next (drop MAX_OVERFLOW_DATA rest) ps -> chain_holds look p rest (p :: ps).
Proof.
  intros Hp Hr Hn Hd Hl Hc.
  destruct (overflow_page_reads (take MAX_OVERFLOW_DATA rest) next d ltac:(rewrite length_take; lia) Hn Hd) as (H1 & H2 & H3).
  rewrite length_take in H2. by econstructor.
Qed.

Lemma chain_pages_length look p rest ps :
  chain_holds look p rest ps -> length ps = length (chunks_of MAX_OVERFLOW_DATA rest).
Proof.
  induction 1 as [|p d next rest ps Hp Hr Hl Hd Hs Hn Hc IH]; [done|].
  rewrite chunks_of_cons by (done || size_lia). simpl. by rewrite IH.
Qed.

(** ** Documents in a page store *)
Section document_store.
Context {S : Type} `{HS : PageStoreLaws S}.
Implicit Types (s : S) (p q : N) (W : tx_writes) (data rest : list byte).

(** A state that differs from [s] in what it caches only. *)
Record same s s' : Prop := mk_same {
  same_inv : ps_inv s';
  same_view q : ps_view s' q = ps_view s q;
  same_used q : ps_used s' q <-> ps_used s q;
  same_room n : ps_room s n -> ps_room s' n }.

Lemma same_refl s : ps_inv s -> same s s.
Proof. by split. Qed.

Lemma same_trans s1 s2 s3 : same s1 s2 -> same s2 s3 -> same s1 s3.
Proof.
  intros [? H1 H2 H3] [? H4 H5 H6]. split; [done|..]; intros; rewrite ?H4, ?H5; auto.
Qed.

(** A state in which the pages [ps] were taken from the store, the other pages in use being
    untouched. *)
Record grows s ps s' : Prop := mk_grows {
  grows_inv : ps_inv s';
  grows_used q : ps_used s' q <-> ps_used s q \/ q ∈ ps;
  grows_view q : ps_used s q -> ps_view s' q = ps_view s q;
  grows_nodup : NoDup ps;
  grows_fresh q : q ∈ ps -> q <> 0%N /\ ~ ps_used s q }.

Lemma grows_refl s : ps_inv s -> grows s [] s.
Proof. split; [done|set_solver|done|constructor|set_solver]. Qed.

Lemma grows_trans s1 s2 s3 ps qs : grows s1 ps s2 -> grows s2 qs s3 -> grows s1 (ps ++ qs) s3.
Proof.
  intros [Hi1 Hu1 Hv1 Hn1 Hf1] [Hi2 Hu2 Hv2 Hn2 Hf2]. split; [done|..].
  - intros q. rewrite Hu2, Hu1, elem_of_app. tauto.
  - intros q Hq. rewrite Hv2 by (apply Hu1; by left). by apply Hv1.
  - apply NoDup_app. split_and!; [done| |done]. intros q Hq Hq'. apply Hf2 in Hq' as [_ []]. apply Hu1. by right.
  - intros q [Hq|Hq]%elem_of_app; [by apply Hf1|]. apply Hf2 in Hq as [? Hq]. split; [done|].
    intros Hu. apply Hq, Hu1. by left.
Qed.

Lemma alloc_grows s n :
  ps_inv s -> ps_room s (Datatypes.S n) ->
  exists p s', ps_alloc s = (Ok p, s') /\ grows s [p] s' /\ ps_room s' n /\ (p < 2 ^ 64)%N /\ p <> 0%N.
Proof.
  intros Hi Hr. destruct (ps_alloc_law s n Hi Hr) as (p & s' & Ha & Hi' & Hnu & Hu & H0 & Hk & Hv & Hr').
  exists p, s'. split; [done|]. split_and!; [|done|by eapply ps_used_small|done]. split; [done|..].
  - intros q. rewrite list_elem_of_singleton. split.
    + intros Hq. eapply ps_alloc_only; [done|by eexists|done|done].
    + intros [Hq| ->]; [by apply Hk|done].
  - done.
  - apply NoDup_singleton.
  - intros q ->%list_elem_of_singleton. done.
Qed.

Lemma write_grows s0 ps s p d :
  grows s0 ps s -> p ∈ ps -> length d = PAGE_SIZE ->
  exists s', ps_write p d s = (Ok tt, s') /\ grows s0 ps s' /\
    (forall q, ps_view s' q = if decide (q = p) then Some d else ps_view s q) /\
    (forall n, ps_room s n -> ps_room s' n).
Proof.
  intros [Hi Hu Hv Hn Hf] Hp Hd. destruct (ps_write_law s p d Hi) as (s' & Hw & Hi' & Hv' & Hu' & Hr');
    [apply Hu; by right|done|].
  exists s'. split_and!; [done| |done|done]. split; [done|..]; try done.
  - intros q. by rewrite Hu', Hu.
  - intros q Hq. rewrite Hv'. case_decide; [|by apply Hv]. subst. by apply Hf in Hp as [_ []].
Qed.

(** What a reader of a transaction with the write buffer [W] finds at a page. *)
Definition seen W s p : option (list byte) :=
  match W !! p with Some d => Some d | None => ps_view s p end.

Lemma fetch_page_ok W s p d :
  ps_inv s -> ps_used s p -> seen W s p = Some d ->
  exists s', fetch_page W p s = (Ok d, s') /\ same s s'.
Proof.
  intros Hi Hu. unfold seen, fetch_page. destruct (W !! p) as [e|].
  - intros [= ->]. exists s. split; [done|by apply same_refl].
  - intros Hv. destruct (ps_read_law s p d Hi Hu Hv) as (s' & Hr & Hi' & Hv' & Hu' & Hm'). exists s'. by split.
Qed.

(** Reading a chain appends its bytes to what was read before. *)
Lemma read_chain_ok W ec el budget visited p rest ps data s :
  chain_holds (seen W s) p rest ps -> ps_inv s -> (forall q, q ∈ ps -> ps_used s q) ->
  NoDup ps -> (forall q, q ∈ ps -> q ∉ visited) -> length ps <= budget ->
  exists s', read_chain (fetch_page W) ec el budget visited p (N.of_nat (length (data ++ rest))) data s
    = (Ok (data ++ rest), s') /\ same s s'.
Proof.
  intros Hc. revert budget visited data s Hc.
  enough (forall look, chain_holds look p rest ps -> forall budget visited data s,
    (forall q, q ∈ ps -> look q = seen W s q) -> ps_inv s -> (forall q, q ∈ ps -> ps_used s q) ->
    NoDup ps -> (forall q, q ∈ ps -> q ∉ visited) -> length ps <= budget ->
    exists s', read_chain (fetch_page W) ec el budget visited p (N.of_nat (length (data ++ rest))) data s
      = (Ok (data ++ rest), s') /\ same s s') as H.
  { intros budget visited data s Hc. by apply (H (seen W s)). }
  intros look Hc. induction Hc as [|p d next rest ps Hp Hr Hl Hd Hs Hn Hc IH];
    intros budget visited data s Hlk Hi Hu Hnd Hvis Hb.
  - exists s. rewrite app_nil_r. split; [|by apply same_refl]. destruct budget; done.
  - apply NoDup_cons in Hnd as [Hnp Hnd]. destruct budget as [|budget]; [simpl in Hb; lia|].
    destruct (fetch_page_ok W s p d Hi) as (s1 & Hf & Hsame); [apply Hu; by left|by rewrite <-Hlk by (by left)|].
    cbn [read_chain]. apply N.eqb_neq in Hp as Hp'. rewrite Hp'. cbn [orb].
    assert (length rest <> 0) as Hr0 by (by destruct rest).
    destruct (N.leb_spec (N.of_nat (length (data ++ rest))) (N.of_nat (length data))) as [Hle|_];
      [rewrite length_app in Hle; lia|].
    rewrite decide_False by (apply Hvis; by left). rewrite (st_bind_ok _ _ _ _ _ Hf).
    replace (N.to_nat (N.min (N.of_nat (length (data ++ rest)) - N.of_nat (length data)) (N.of_nat MAX_OVERFLOW_DATA)))
      with (min MAX_OVERFLOW_DATA (length rest)) by (rewrite length_app; lia).
    unfold next_link. rewrite Hs, Hn. unfold index, of_option, st_lift, st_bind at 1 2.
    destruct (IH budget ({[p]} ∪ visited) (data ++ take MAX_OVERFLOW_DATA rest) s1) as (s' & Hrun & Hsame').
    + intros q Hq. rewrite Hlk by (by right). unfold seen. by rewrite (same_view _ _ Hsame).
    + apply Hsame.
    + intros q Hq. apply (same_used _ _ Hsame), Hu. by right.
    + done.
    + intros q Hq. assert (q <> p) by (by intros ->). rewrite not_elem_of_union, not_elem_of_singleton. split; [done|]. apply Hvis. by right.
    + simpl in Hb. lia.
    + rewrite <-app_assoc, take_drop in Hrun. exists s'. split; [exact Hrun|]. by eapply same_trans.
Qed.

#[local] Instance grows_perm : Proper (eq ==> (≡ₚ) ==> eq ==> iff) grows.
Proof.
  intros s1 s ->. enough (forall ps qs s', ps ≡ₚ qs -> grows s ps s' -> grows s qs s') as H.
  { intros ps qs Hp s2 s' ->. split; by apply H. }
  intros ps qs s' Hp [? Hu ? Hn Hf]. split; [done|..]; try done.
  - intros q. by rewrite Hu, Hp.
  - by rewrite <-Hp.
  - intros q. rewrite <-Hp. apply Hf.
Qed.

(** ** The plain format *)
Definition data_limit : N := MAX_OVERFLOW_CHAIN_LENGTH * N.of_nat MAX_OVERFLOW_DATA.

Record doc_ok (id : string) data : Prop := mk_doc_ok {
  dk_utf8 : rust_string id;
  dk_id : 1 <= length (as_bytes id) <= 255;
  dk_data : (N.of_nat (length data) <= data_limit)%N }.

Definition plain_header (id : string) (data_len : nat) : list byte :=
  to_le_bytes 2 (N.of_nat (length (as_bytes id))) ++ as_bytes id ++ to_le_bytes 4 (N.of_nat data_len).

(** Page [p] and the chain [ps] hold the document. *)
Inductive plain_doc (look : N -> option (list byte)) p (id : string) data ps : Prop :=
| mk_plain_doc chunk rest link :
    doc_ok id data -> data = chunk ++ rest ->
    length chunk = min (PAGE_SIZE - 14 - length (as_bytes id)) (length data) ->
    look p = Some (zbuf PAGE_SIZE (plain_header id (length data) ++ chunk ++ to_le_bytes 8 link)) ->
    (link < 2 ^ 64)%N -> chain_holds look link rest ps -> plain_doc look p id data ps.

Lemma write_overflow_app (l1 l2 : list (list byte)) next s :
  write_overflow (l1 ++ l2) next s = st_bind (write_overflow l2) (write_overflow l1 next) s.
Proof.
  revert next s. induction l1 as [|c l1 IH]; intros next s; [done|]. cbn [write_overflow app].
  rewrite st_bind_assoc. apply st_bind_ext. intros p s1 _.
  rewrite st_bind_assoc. apply st_bind_ext. intros b s2 _.
  rewrite st_bind_assoc. apply st_bind_ext. intros _ s3 _. apply IH.
Qed.

Lemma chain_holds_small s p rest ps :
  ps_inv s -> (forall q, q ∈ ps -> ps_used s q) -> chain_holds (ps_view s) p rest ps -> (p < 2 ^ 64)%N.
Proof.
  intros Hi Hu Hc. destruct Hc; [done|]. eapply ps_used_small; [done|]. apply Hu. by left.
Qed.

(** The chain is written back to front. *)
Lemma write_overflow_ok s rest n :
  ps_inv s -> ps_room s (length (chunks_of MAX_OVERFLOW_DATA rest) + n) ->
  exists p ps s', write_overflow (reverse (chunks_of MAX_OVERFLOW_DATA rest)) 0 s = (Ok p, s') /\
    grows s ps s' /\ ps_room s' n /\ chain_holds (ps_view s') p rest ps.
Proof.
  revert n. induction rest as [|rest Hne IH] using chain_ind; intros n Hi Hr.
  { exists 0%N, [], s. split; [done|]. split; [by apply grows_refl|]. split; [done|constructor]. }
  rewrite chunks_of_cons in * by (done || size_lia). rewrite reverse_cons, write_overflow_app.
  destruct (IH (Datatypes.S n) Hi) as (next & ps & s1 & Hw & Hg & Hr1 & Hc).
  { eapply ps_room_le; [done|]. simpl. lia. }
  rewrite (st_bind_ok _ _ _ _ _ Hw). cbn [write_overflow].
  destruct (alloc_grows s1 n) as (p & s2 & Ha & Hg2 & Hr2 & Hp64 & Hp0); [apply Hg|done|].
  rewrite (st_bind_ok _ _ _ _ _ Ha).
  pose proof (overflow_page_eq (take MAX_OVERFLOW_DATA rest) next ltac:(rewrite length_take; lia)) as Hd.
  set (d := _ ++ _ ++ _) in Hd.
  assert (next < 2 ^ 64)%N as Hn.
  { eapply (chain_holds_small s1); [apply Hg| |done]. intros q Hq. apply (grows_used _ _ _ Hg). by right. }
  destruct (overflow_page_reads (take MAX_OVERFLOW_DATA rest) next d) as (Hld & _);
    [rewrite length_take; lia|done|done|].
  rewrite Hd. unfold index, of_option, st_lift. rewrite (st_bind_ok _ _ s2 d s2) by done.
  destruct (write_grows s1 [p] s2 p d Hg2) as (s3 & Hw3 & Hg3 & Hv3 & Hr3); [by left|done|].
  rewrite (st_bind_ok _ _ _ _ _ Hw3).
  exists p, (p :: ps), s3. split; [done|]. split.
  { rewrite Permutation_cons_append. by eapply grows_trans. }
  split; [by apply Hr3|]. eapply chain_holds_overflow; [done|done|exact Hn|exact Hd| |].
  - by rewrite Hv3, decide_True.
  - eapply chain_holds_mono; [done|]. intros q Hq. rewrite Hv3.
    pose proof (proj2 (grows_used _ _ _ Hg q) (or_intror Hq)) as Hqu.
    rewrite decide_False.
    + by apply (grows_view _ _ _ Hg2).
    + intros ->. by apply (grows_fresh _ _ _ Hg2 p) in Hqu; [|left].
Qed.

Lemma length_plain_header id n : length (plain_header id n) = 6 + length (as_bytes id).
Proof. unfold plain_header. rewrite !length_app, !length_to_le_bytes. lia. Qed.

Lemma plain_cursor id n chunk :
  6 + length (as_bytes id) + length chunk <= PAGE_SIZE ->
  (w ← w_le 2 (N.of_nat (length (as_bytes id))) (0, zeroed_page);
   w ← w_bytes (as_bytes id) w;
   w ← w_le 4 (N.of_nat n) w;
   w_bytes chunk w) = Some (wrote PAGE_SIZE (plain_header id n ++ chunk)).
Proof.
  intros H. unfold zeroed_page. rewrite <-wrote_nil.
  rewrite w_le_wrote by (cbn [length]; lia). cbn [mbind option_bind app].
  rewrite w_bytes_wrote by (rewrite !length_to_le_bytes; lia). cbn [mbind option_bind].
  rewrite w_le_wrote by (rewrite !length_app, !length_to_le_bytes; lia). cbn [mbind option_bind].
  rewrite w_bytes_wrote by (rewrite !length_app, !length_to_le_bytes; lia).
  unfold plain_header. by rewrite <-!app_assoc.
Qed.

Lemma index_ok {A} (x : option A) (a : A) s : x = Some a -> index x s = (Ok a, s).
Proof. by intros ->. Qed.

Lemma write_document_ok s id data :
  ps_inv s -> doc_ok id data -> ps_room s (2 + length data / MAX_OVERFLOW_DATA) ->
  exists p ps s', write_document id data s = (Ok p, s') /\ grows s (p :: ps) s' /\
    plain_doc (ps_view s') p id data ps.
Proof.
  intros Hi Hok Hr. pose proof Hok as [_ Hid _]. unfold write_document.
  destruct (Nat.leb_spec (DOC_ID_LEN_SIZE + length (as_bytes id) + DATA_LEN_SIZE + length data + OVERFLOW_SIZE) PAGE_SIZE)
    as [Hs|Hs]; unfold DOC_ID_LEN_SIZE, DATA_LEN_SIZE, OVERFLOW_SIZE in Hs.
  - unfold write_single_page.
    destruct (alloc_grows s 1) as (p & s1 & Ha & Hg & _ & _); [done|eapply ps_room_le; [done|lia]|].
    rewrite (st_bind_ok _ _ _ _ _ Ha). cbv zeta.
    assert (forall o, length (plain_header id (length data) ++ data) + 8 <= PAGE_SIZE ->
      snd <$> w_le 8 o (wrote PAGE_SIZE (plain_header id (length data) ++ data)) =
        Some (zbuf PAGE_SIZE (plain_header id (length data) ++ data ++ to_le_bytes 8 o))) as Hlink.
    { intros o Hl. rewrite w_le_wrote by done. simpl. by rewrite <-app_assoc. }
    assert (length (plain_header id (length data) ++ data) + 8 <= PAGE_SIZE) as Hfit
      by (rewrite length_app, length_plain_header; lia).
    rewrite (st_bind_ok _ _ s1 (zbuf PAGE_SIZE (plain_header id (length data) ++ data ++ to_le_bytes 8 0)) s1).
    2:{ apply index_ok. rewrite <-(Hlink 0%N) by done.
        pose proof (plain_cursor id (length data) data ltac:(lia)) as Hcur.
        destruct (w_le 2 _ _) as [w1|]; [|done]. cbn [mbind option_bind] in *.
        destruct (w_bytes _ w1) as [w2|]; [|done]. cbn [mbind option_bind] in *.
        destruct (w_le 4 _ w2) as [w3|]; [|done]. cbn [mbind option_bind] in *. by rewrite Hcur. }
    destruct (write_grows s [p] s1 p (zbuf PAGE_SIZE (plain_header id (length data) ++ data ++ to_le_bytes 8 0)) Hg)
      as (s2 & Hw & Hg2 & Hv & _);
      [by left|apply length_zbuf; rewrite app_assoc, length_app, length_to_le_bytes; lia|].
    rewrite (st_bind_ok _ _ _ _ _ Hw). exists p, [], s2. split; [done|]. split; [done|].
    apply (mk_plain_doc _ p id data [] data [] 0); [done|by rewrite app_nil_r|lia|by rewrite Hv, decide_True|done|constructor].
  - unfold write_multi_page.
    set (cap := PAGE_SIZE - (2 + length (as_bytes id) + 4 + 8)).
    set (chunk := take (min cap (length data)) data). set (rest := drop (min cap (length data)) data).
    assert (length chunk = cap) as Hlc by (unfold chunk; rewrite length_take; lia).
    pose proof (chunks_of_length rest) as Hch.
    assert (length rest / MAX_OVERFLOW_DATA <= length data / MAX_OVERFLOW_DATA) as Hdiv.
    { apply Nat.Div0.div_le_mono. unfold rest. rewrite length_drop. lia. }
    destruct (alloc_grows s (length (chunks_of MAX_OVERFLOW_DATA rest) + 0)) as (p & s1 & Ha & Hg & Hr1 & _);
      [done|eapply ps_room_le; [done|lia]|].
    rewrite (st_bind_ok _ _ _ _ _ Ha). cbv zeta. change (DOC_ID_LEN_SIZE + _ + _ + _) with (2 + length (as_bytes id) + 4 + 8).
    destruct (Nat.ltb_spec PAGE_SIZE (2 + length (as_bytes id) + 4 + 8)); [size_lia|]. fold cap. fold rest.
    destruct (write_overflow_ok s1 rest 0) as (next & ps & s2 & Hwo & Hg2 & _ & Hc); [apply Hg|done|].
    rewrite (st_bind_ok _ _ _ _ _ Hwo).
    assert (next < 2 ^ 64)%N as Hn.
    { eapply (chain_holds_small s2); [apply Hg2| |done]. intros q Hq. apply (grows_used _ _ _ Hg2). by right. }
    set (pre := plain_header id (length data) ++ chunk).
    assert (length pre = PAGE_SIZE - 8) as Hlp by (unfold pre; rewrite length_app, length_plain_header, Hlc; lia).
    rewrite (st_bind_ok _ _ s2 (zbuf PAGE_SIZE (pre ++ to_le_bytes 8 next)) s2).
    2:{ apply index_ok. rewrite <-(proj1 (put_after_zbuf PAGE_SIZE pre 8 next 0 ltac:(lia))). rewrite Hlp.
        change (zbuf PAGE_SIZE pre) with ((wrote PAGE_SIZE pre).2). fold chunk.
        pose proof (plain_cursor id (length data) chunk ltac:(lia)) as Hcur. fold pre in Hcur.
        destruct (w_le 2 _ _) as [w1|]; [|done]. cbn [mbind option_bind] in *.
        destruct (w_bytes _ w1) as [w2|]; [|done]. cbn [mbind option_bind] in *.
        destruct (w_le 4 _ w2) as [w3|]; [|done]. cbn [mbind option_bind] in *. by rewrite Hcur. }
    pose proof (grows_trans _ _ _ _ _ Hg Hg2) as Hg12.
    destruct (write_grows s ([p] ++ ps) s2 p (zbuf PAGE_SIZE (pre ++ to_le_bytes 8 next)) Hg12)
      as (s3 & Hw & Hg3 & Hv & _); [by left|by apply length_zbuf; rewrite length_app, length_to_le_bytes; lia|].
    rewrite (st_bind_ok _ _ _ _ _ Hw). exists p, ps, s3. split; [done|]. split; [done|].
    apply (mk_plain_doc _ p id data ps chunk rest next); [done|by unfold chunk, rest; rewrite take_drop|lia| |done|].
    + rewrite Hv, decide_True by done. unfold pre. by rewrite <-app_assoc.
    + eapply chain_holds_mono; [done|]. intros q Hq. rewrite Hv, decide_False; [done|].
      intros ->. pose proof (grows_nodup _ _ _ Hg3) as Hnd. by apply NoDup_cons in Hnd as [? _].
Qed.

(** The chain of a document never exceeds the limit. *)
Lemma chain_within_limit look link rest ps cap data chunk :
  data = chunk ++ rest -> length chunk = min cap (length data) -> 0 < cap ->
  (N.of_nat (length data) <= data_limit)%N -> chain_holds look link rest ps -> length ps <= chain_limit.
Proof.
  intros Hd Hc Hcap Hl Hch. rewrite (chain_pages_length _ _ _ _ Hch).
  destruct rest as [|b rest']; [simpl; lia|]. set (rest := b :: rest') in *.
  assert (length data = length chunk + length rest) as Hlen by (by rewrite Hd, length_app).
  assert (0 < length rest) by (simpl; lia).
  pose proof (chunks_of_length rest) as Hn.
  assert (length rest / MAX_OVERFLOW_DATA < chain_limit); [|lia].
  apply Nat.Div0.div_lt_upper_bound. unfold data_limit in Hl. unfold chain_limit.
  assert (length rest < length data) by lia. clear -Hl H0.
  generalize dependent MAX_OVERFLOW_DATA. intros m Hl. pose proof (N2Nat.id MAX_OVERFLOW_CHAIN_LENGTH) as Hid.
  set (k := N.to_nat MAX_OVERFLOW_CHAIN_LENGTH) in *. clearbody k. rewrite <-Hid in Hl. lia.
Qed.

Lemma read_document_ok s p id data ps :
  ps_inv s -> plain_doc (ps_view s) p id data ps -> ps_used s p -> (forall q, q ∈ ps -> ps_used s q) -> NoDup ps ->
  exists s', read_document p s = (Ok (mk_doc id data), s') /\ same s s'.
Proof.
  intros Hi [chunk rest link [Hutf Hid Hlim] Hd Hlc Hv Hl Hch] Hp Hps Hnd.
  assert (length data = length chunk + length rest) as Hlen by (by rewrite Hd, length_app).
  set (page := zbuf _ _) in Hv.
  destruct (ps_read_law s p page Hi Hp Hv) as (s1 & Hr & Hsame1).
  assert (same s s1) as Hsame by (by destruct Hsame1 as (? & ? & ? & ?)). clear Hsame1.
  assert (length (plain_header id (length data) ++ chunk) + 8 <= PAGE_SIZE) as Hfit
    by (rewrite length_app, length_plain_header; size_lia).
  assert (length page = PAGE_SIZE) as Hpl
    by (apply length_zbuf; rewrite app_assoc, length_app, length_to_le_bytes; lia).
  assert (N.of_nat (length data) < 2 ^ 30)%N as Hlt.
  { eapply N.le_lt_trans; [exact Hlim|]. vm_compute. done. }
  assert (reads page 0 (to_le_bytes 2 (N.of_nat (length (as_bytes id))) ++ as_bytes id ++
    to_le_bytes 4 (N.of_nat (length data)) ++ chunk ++ to_le_bytes 8 link ++
    replicate (PAGE_SIZE - length (plain_header id (length data) ++ chunk ++ to_le_bytes 8 link)) Byte.x00)) as Hreads.
  { split; [lia|]. unfold page, zbuf, plain_header. by rewrite drop_0, <-!app_assoc. }
  destruct (reads_le _ _ _ _ _ Hreads) as [H1 Hr1]; [cbn; lia|].
  destruct (reads_slice _ _ _ _ _ Hr1 eq_refl) as [H2 Hr2].
  destruct (reads_le _ _ _ _ _ Hr2) as [H3 Hr3]; [cbn; lia|].
  destruct (reads_slice _ _ _ _ _ Hr3 eq_refl) as [H4 _].
  unfold read_document. rewrite (st_bind_ok _ _ _ _ _ Hr).
  rewrite (st_bind_ok _ _ _ _ _ (index_ok _ _ s1 H1)).
  destruct (N.eqb_spec (N.of_nat (length (as_bytes id))) 0); [lia|].
  destruct (N.ltb_spec 255 (N.of_nat (length (as_bytes id)))); [lia|]. cbn [orb].
  rewrite Nat2N.id, Hpl. destruct (Nat.ltb_spec PAGE_SIZE (2 + length (as_bytes id))); [size_lia|].
  change (0 + 2) with 2 in *. rewrite (st_bind_ok _ _ _ _ _ (index_ok _ _ s1 H2)).
  rewrite from_utf8_as_bytes by done. cbv zeta.
  destruct (Nat.ltb_spec PAGE_SIZE (2 + length (as_bytes id) + 4)); [size_lia|].
  rewrite (st_bind_ok _ _ _ _ _ (index_ok _ _ s1 H3)).
  destruct (N.ltb_spec MAX_DOCUMENT_SIZE (N.of_nat (length data))) as [Hbig|_];
    [unfold MAX_DOCUMENT_SIZE in Hbig; lia|].
  assert (read_le 8 (PAGE_SIZE - 8) page = Some link) as Hlink.
  { unfold page. rewrite app_assoc. apply zbuf_link; [done|done|].
    destruct (decide (rest = [])) as [->|Hrne]; [left; by inversion Hch|right].
    assert (0 < length rest) by (by destruct rest; simpl; [|lia]).
    rewrite length_app, length_plain_header in *. size_lia. }
  unfold next_link. rewrite (st_bind_ok _ _ _ _ _ (index_ok _ _ s1 Hlink)).
  destruct (N.eqb_spec link 0) as [->|Hl0].
  - assert (rest = []) as -> by (inversion Hch; done). rewrite app_nil_r in Hd. subst chunk.
    destruct (N.ltb_spec (N.of_nat PAGE_SIZE) (N.of_nat (2 + length (as_bytes id) + 4) + N.of_nat (length data))) as [Hb|_].
    { rewrite length_app, length_plain_header in Hfit. lia. }
    rewrite Nat2N.id. rewrite (st_bind_ok _ _ _ _ _ (index_ok _ _ s1 H4)). by exists s1.
  - replace (N.to_nat (N.min (N.of_nat (PAGE_SIZE - DOC_ID_LEN_SIZE - length (as_bytes id) - DATA_LEN_SIZE - OVERFLOW_SIZE))
      (N.of_nat (length data)))) with (length chunk) by (rewrite Hlc; size_lia).
    rewrite (st_bind_ok _ _ _ _ _ (index_ok _ _ s1 H4)).
    change ps_read with (fetch_page ∅).
    destruct (read_chain_ok ∅ (fun p => cycle_error p ". Document is corrupted.")
      (too_long_error ". Document may be corrupted.") chain_limit ∅ link rest ps chunk s1) as (s2 & Hrun & Hsame2).
    + eapply chain_holds_mono; [done|]. intros q _. unfold seen. rewrite lookup_empty. apply (same_view _ _ Hsame).
    + apply Hsame.
    + intros q Hq. apply (same_used _ _ Hsame). by apply Hps.
    + done.
    + intros q _. apply not_elem_of_empty.
    + eapply (chain_within_limit _ _ _ _ _ _ _ Hd Hlc); [size_lia|done|done].
    + rewrite <-Hd in Hrun. rewrite (st_bind_ok _ _ _ _ _ Hrun).
      rewrite decide_False by (intros []; done). exists s2. split; [done|by eapply same_trans].
Qed.

(** A state in which the pages [ps] were given back, the other pages being untouched. *)
Record shrinks s (ps : list N) s' : Prop := mk_shrinks {
  shrinks_inv : ps_inv s';
  shrinks_used q : ps_used s' q <-> ps_used s q /\ q ∉ ps;
  shrinks_view q : q ∉ ps -> ps_view s' q = ps_view s q;
  shrinks_room n : ps_room s n -> ps_room s' n }.

Lemma same_shrinks s1 s2 s3 ps : same s1 s2 -> shrinks s2 ps s3 -> shrinks s1 ps s3.
Proof.
  intros [? Hv Hu Hr] [? Hu' Hv' Hr']. split; [done|..|auto]; intros q; rewrite ?Hu', ?Hu; [done|].
  intros Hq. by rewrite Hv', Hv.
Qed.

Lemma free_shrinks s p ps s' :
  shrinks s ps s' -> ps_used s p -> p ∉ ps -> p <> 0%N ->
  exists s2, ps_free p s' = (Ok tt, s2) /\ shrinks s (p :: ps) s2.
Proof.
  intros [Hi Hu Hv Hr] Hp Hn H0.
  destruct (ps_free_law s' p Hi ltac:(by apply Hu) H0) as (s2 & Hf & Hi2 & Hu2 & Hv2 & Hr2).
  exists s2. split; [done|]. split; [done|..|auto]; intros q; rewrite not_elem_of_cons.
  - rewrite Hu2, Hu. tauto.
  - intros [Hq Hq']. by rewrite Hv2, Hv.
Qed.

Lemma next_link_ok d link s : read_le 8 (PAGE_SIZE - 8) d = Some link -> next_link d s = (Ok link, s).
Proof. apply index_ok. Qed.

(** Freeing a chain reads each page before it gives it back. *)
Lemma free_chain_ok budget visited link rest ps s :
  chain_holds (ps_view s) link rest ps -> ps_inv s -> (forall q, q ∈ ps -> ps_used s q) ->
  NoDup ps -> (forall q, q ∈ ps -> q ∉ visited) -> length ps <= budget ->
  exists s', free_chain budget visited link s = (Ok tt, s') /\ shrinks s ps s'.
Proof.
  intros Hc. remember (ps_view s) as look eqn:Hlook.
  assert (forall q, q ∈ ps -> ps_view s q = look q) as Hl by (by rewrite Hlook). clear Hlook. revert s Hl budget visited.
  induction Hc as [|p d next rest ps Hp Hr Hd Hld Hs Hn Hc IH]; intros s Hl budget visited Hi Hu Hnd Hvis Hb.
  - exists s. split; [by destruct budget|]. split; [done|..]; [|done..]. intros q.
    split; [intros ?; split; [done|apply not_elem_of_nil]|by intros [? _]].
  - apply NoDup_cons in Hnd as [Hnp Hnd]. destruct budget as [|budget]; [simpl in Hb; lia|]. cbn [free_chain].
    apply N.eqb_neq in Hp as Hp'. rewrite Hp'. rewrite decide_False by (apply Hvis; by left).
    destruct (ps_read_law s p d Hi) as (s1 & Hrd & Hs1); [apply Hu; by left|by rewrite Hl by (by left)|].
    assert (same s s1) as Hsame by (by destruct Hs1 as (? & ? & ? & ?)).
    rewrite (st_bind_ok _ _ _ _ _ Hrd), (st_bind_ok _ _ _ _ _ (next_link_ok _ _ s1 Hn)).
    assert (ps_used s p) as Hup by (apply Hu; by left).
    destruct (free_shrinks s1 p [] s1) as (s2 & Hf & Hsh).
    { split; [apply Hsame|..]; [|done..]. intros q.
      split; [intros ?; split; [done|apply not_elem_of_nil]|by intros [? _]]. }
    { by apply (same_used _ _ Hsame). } { apply not_elem_of_nil. } { done. }
    rewrite (st_bind_ok _ _ _ _ _ Hf).
    pose proof (same_shrinks _ _ _ _ Hsame Hsh) as [Hi2 Hu2 Hv2 Hr2].
    assert (forall q, q ∈ ps -> q ∉ [p]) as Hne by (intros q Hq ->%list_elem_of_singleton; done).
    destruct (IH s2) with (budget := budget) (visited := ({[p]} ∪ visited : gset N)) as (s3 & Hrun & [Hi3 Hu3 Hv3 Hr3]).
    + intros q Hq. rewrite Hv2 by auto. apply Hl. by right.
    + done.
    + intros q Hq. apply Hu2. split; [apply Hu; by right|auto].
    + done.
    + intros q Hq. rewrite not_elem_of_union, not_elem_of_singleton.
      split; [by intros ->|]. apply Hvis. by right.
    + simpl in Hb. lia.
    + exists s3. split; [done|]. split; [done|..|auto]; intros q; rewrite not_elem_of_cons.
      * rewrite Hu3, Hu2, list_elem_of_singleton. tauto.
      * intros [Hq Hq']. rewrite Hv3, Hv2; [done|by intros ?%list_elem_of_singleton|done].
Qed.

(** A page whose last eight bytes are the link of a chain. *)
Inductive linked_page (look : N -> option (list byte)) p ps : Prop :=
| mk_linked_page d link rest :
    look p = Some d -> read_le 8 (PAGE_SIZE - 8) d = Some link -> chain_holds look link rest ps ->
    length ps <= chain_limit -> linked_page look p ps.

Lemma delete_document_ok s p ps :
  ps_inv s -> linked_page (ps_view s) p ps -> (forall q, q ∈ p :: ps -> ps_used s q /\ q <> 0%N) -> NoDup (p :: ps) ->
  exists s', delete_document p s = (Ok tt, s') /\ shrinks s (p :: ps) s'.
Proof.
  intros Hi [d link rest Hv Hn Hc Hb] Hu [Hnp Hnd]%NoDup_cons.
  destruct (Hu p ltac:(by left)) as [Hup H0].
  destruct (ps_read_law s p d Hi Hup Hv) as (s1 & Hrd & Hs1).
  assert (same s s1) as Hsame by (by destruct Hs1 as (? & ? & ? & ?)).
  unfold delete_document. rewrite (st_bind_ok _ _ _ _ _ Hrd), (st_bind_ok _ _ _ _ _ (next_link_ok _ _ s1 Hn)).
  destruct (free_chain_ok chain_limit ∅ link rest ps s1) as (s2 & Hrun & Hsh).
  - eapply chain_holds_mono; [done|]. intros q _. apply (same_view _ _ Hsame).
  - apply Hsame.
  - intros q Hq. apply (same_used _ _ Hsame), Hu. by right.
  - done.
  - intros q _. apply not_elem_of_empty.
  - done.
  - rewrite (st_bind_ok _ _ _ _ _ Hrun).
    destruct (free_shrinks s p ps s2) as (s3 & Hf & Hsh'); [by eapply same_shrinks|done|done|done|].
    rewrite (st_bind_ok _ _ _ _ _ Hf). by exists s3.
Qed.

Lemma plain_doc_linked look p id data ps : plain_doc look p id data ps -> linked_page look p ps.
Proof.
  intros [chunk rest link [Hutf Hid Hlim] Hd Hlc Hv Hl Hch].
  assert (length data = length chunk + length rest) as Hlen by (by rewrite Hd, length_app).
  econstructor; [done| |done|].
  - rewrite app_assoc. apply zbuf_link; [rewrite length_app, length_plain_header; size_lia|done|].
    destruct (decide (rest = [])) as [->|Hrne]; [left; by inversion Hch|right].
    assert (0 < length rest) by (by destruct rest; simpl; [|lia]).
    rewrite length_app, length_plain_header in *. size_lia.
  - eapply (chain_within_limit _ _ _ _ _ _ _ Hd Hlc); [size_lia|done|done].
Qed.

(** ** The versioned format *)
Lemma on_pages_ok {A} (m : ST S Error A) (a : A) s W s' :
  m s = (Ok a, s') -> on_pages m (s, W) = (Ok a, (s', W)).
Proof. unfold on_pages. simpl. by intros ->. Qed.

Lemma or_free_ok {A} al (m : ST S Error A) (a : A) s W s' :
  m s = (Ok a, s') -> or_free al m (s, W) = (Ok a, (s', W)).
Proof. intros H. apply on_pages_ok. by apply st_catch_ok. Qed.

Lemma vindex_ok {A} (x : option A) (a : A) (w : S * tx_writes) : x = Some a -> vindex x w = (Ok a, w).
Proof. by intros ->. Qed.

Lemma record_write_ok p d s W : record_write p d (s, W) = (Ok tt, (s, <[p := d]> W)).
Proof. done. Qed.

(** The pages [ps] of the write buffer are those of the store, the others are unchanged. *)
Definition buffers_pages s (ps : list N) W W' : Prop :=
  forall q, W' !! q = if decide (q ∈ ps) then ps_view s q else W !! q.

(** Writing one page of the document, to the buffer and to the store. *)
Lemma write_both s0 ps s W al p d :
  grows s0 ps s -> p ∈ ps -> length d = PAGE_SIZE ->
  exists s', (let! _ := record_write p d in or_free al (ps_write p d)) (s, W) = (Ok tt, (s', <[p := d]> W)) /\
    grows s0 ps s' /\ (forall q, ps_view s' q = if decide (q = p) then Some d else ps_view s q) /\
    (forall n, ps_room s n -> ps_room s' n).
Proof.
  intros Hg Hp Hd. destruct (write_grows s0 ps s p d Hg Hp Hd) as (s' & Hw & H).
  exists s'. split; [|done]. rewrite (st_bind_ok _ _ _ _ _ (record_write_ok p d s W)). by apply or_free_ok.
Qed.

(** The loop from the page [q] on, whose bytes [c] are in [buf] and not written yet, followed
    by the write of the last page. *)
Lemma write_versioned_loop_ok s0 rest first first_buf n :
  forall fuel al ps0 q c buf s W,
  grows s0 ps0 s -> q ∈ ps0 -> first ∈ ps0 -> q <> first -> length rest <= fuel ->
  ps_room s (length (chunks_of MAX_OVERFLOW_DATA rest) + n) ->
  overflow_page c 0 = Some buf -> c <> [] -> length c <= MAX_OVERFLOW_DATA ->
  (rest <> [] -> length c = MAX_OVERFLOW_DATA) ->
  exists ps al' lp lb s1 W1 s2 W2,
    write_versioned_loop fuel first rest al q (PAGE_SIZE - OVERFLOW_SIZE) (Some buf) first_buf (s, W)
      = (Ok (al', lp, Some lb, first_buf), (s1, W1)) /\
    (let! _ := record_write lp lb in or_free al' (ps_write lp lb)) (s1, W1) = (Ok tt, (s2, W2)) /\
    grows s0 (ps0 ++ ps) s2 /\ ps_room s2 n /\
    (forall r, ps_used s r -> r <> q -> ps_view s2 r = ps_view s r) /\
    chain_holds (ps_view s2) q (c ++ rest) (q :: ps) /\ buffers_pages s2 (q :: ps) W W2.
Proof.
  induction rest as [|rest Hne IH] using chain_ind;
    intros fuel al ps0 q c buf s W Hg Hq Hfirst Hqf Hfuel Hroom Hbuf Hc Hlc Hfull.
  - destruct (overflow_page_reads c 0 buf Hlc eq_refl Hbuf) as (Hlb & _).
    destruct (write_both s0 ps0 s W al q buf Hg Hq Hlb) as (s2 & Hw & Hg2 & Hv & Hr).
    destruct (grows_fresh _ _ _ Hg q Hq) as [Hq0 _].
    exists [], al, q, buf, s, W, s2, (<[q := buf]> W). split; [by destruct fuel|]. split; [done|].
    rewrite app_nil_r. split; [done|]. split; [apply Hr; by eapply ps_room_le; [exact Hroom|simpl; lia]|].
    split; [intros r _ Hrq; by rewrite Hv, decide_False|]. split.
    + rewrite app_nil_r. eapply (chain_holds_overflow _ _ _ 0); [done|done|done| | |].
      * rewrite take_ge by done. exact Hbuf.
      * by rewrite Hv, decide_True.
      * rewrite drop_ge by done. constructor.
    + intros r. rewrite Hv. destruct (decide (r ∈ [q])) as [->%list_elem_of_singleton|Hr'].
      * by rewrite lookup_insert_eq, decide_True.
      * rewrite lookup_insert_ne; [done|]. intros ->. apply Hr'. by left.
  - destruct fuel as [|fuel]; [destruct rest; [done|simpl in Hfuel; lia]|].
    specialize (Hfull Hne). rewrite chunks_of_cons in Hroom by (done || size_lia).
    destruct (alloc_grows s (length (chunks_of MAX_OVERFLOW_DATA (drop MAX_OVERFLOW_DATA rest)) + n))
      as (p & s1 & Ha & Hg1 & Hr1 & Hp64 & Hp0); [apply Hg|exact Hroom|].
    assert (write_versioned_loop (Datatypes.S fuel) first rest al q (PAGE_SIZE - OVERFLOW_SIZE) (Some buf) first_buf (s, W) =
      st_bind (fun buf' => st_bind (fun fb => write_versioned_loop fuel first (drop MAX_OVERFLOW_DATA rest) (vec_push al p)
          p (PAGE_SIZE - OVERFLOW_SIZE) (Some buf') fb)
        (let! b := vindex (put_slice (PAGE_SIZE - OVERFLOW_SIZE) (to_le_bytes 8 p) buf) in
         let! _ := record_write q b in
         let! _ := or_free (vec_push al p) (ps_write q b) in st_ret first_buf))
        (vindex (overflow_page (take MAX_OVERFLOW_DATA rest) 0)) (s1, W)) as Hstep.
    { destruct rest as [|b0 rest']; [done|]. cbn [write_versioned_loop].
      rewrite (st_bind_ok _ _ _ _ _ (or_free_ok al _ _ s W s1 Ha)).
      apply N.eqb_neq in Hqf as ->. done. }
    rewrite Hstep. clear Hstep.
    pose proof (overflow_page_eq (take MAX_OVERFLOW_DATA rest) 0 ltac:(rewrite length_take; lia)) as Hbuf'.
    set (buf' := _ ++ _ ++ _) in Hbuf'. clearbody buf'. rewrite Hbuf'.
    rewrite (st_bind_ok _ _ _ _ _ (vindex_ok _ buf' (s1, W) eq_refl)).
    rewrite (overflow_page_relink c 0 p buf Hlc Hbuf).
    pose proof (overflow_page_eq c p Hlc) as Hb. set (b := _ ++ _ ++ _) in Hb. clearbody b.
    destruct (overflow_page_reads c p b Hlc Hp64 Hb) as (Hlb & _). rewrite Hb.
    pose proof (grows_trans _ _ _ _ _ Hg Hg1) as Hg01.
    destruct (write_both s0 (ps0 ++ [p]) s1 W (vec_push al p) q b Hg01) as (s2 & Hw & Hg2 & Hv2 & Hr2);
      [apply elem_of_app; by left|done|].
    assert ((let! b := vindex (Some b) in let! _ := record_write q b in
      let! _ := or_free (vec_push al p) (ps_write q b) in st_ret first_buf) (s1, W)
      = (Ok (E := Error) first_buf, (s2, <[q := b]> W))) as Hmid.
    { rewrite (st_bind_ok _ _ _ _ _ (vindex_ok _ b (s1, W) eq_refl)).
      rewrite (st_bind_ok _ _ _ _ _ (record_write_ok q b s1 W)) in Hw.
      rewrite (st_bind_ok _ _ _ _ _ (record_write_ok q b s1 W)). by rewrite (st_bind_ok _ _ _ _ _ Hw). }
    rewrite (st_bind_ok _ _ _ _ _ Hmid). clear Hmid.
    destruct (grows_fresh _ _ _ Hg1 p ltac:(by left)) as [_ Hpn].
    assert (ps_used s q /\ ps_used s first) as [Hqu Hfu] by (split; apply (grows_used _ _ _ Hg); by right).
    assert (p <> first) by (by intros ->). assert (p <> q) as Hpq by (by intros ->).
    destruct (IH fuel (vec_push al p) (ps0 ++ [p]) p (take MAX_OVERFLOW_DATA rest) buf' s2 (<[q := b]> W))
      as (ps & al' & lp & lb & s3 & W3 & s4 & W4 & Hrun & Hlast & Hg4 & Hr4 & Hv4 & Hch & HW);
      [done|apply elem_of_app; right; by left|apply elem_of_app; by left|done| |by apply Hr2|done| | | |].
    { rewrite length_drop. size_lia. }
    { destruct rest; [done|]. by intros ?%(f_equal length). }
    { rewrite length_take. lia. }
    { intros Hd. rewrite length_take. destruct (decide (length rest <= MAX_OVERFLOW_DATA)); [|lia].
      by rewrite drop_ge in Hd. }
    rewrite take_drop in Hch.
    assert (ps_used s2 q) as Hqu2 by (apply (grows_used _ _ _ Hg2); right; apply elem_of_app; by left).
    exists (p :: ps), al', lp, lb, s3, W3, s4, W4. split; [done|]. split; [done|].
    split; [by rewrite <-app_assoc in Hg4|]. split; [done|]. split; [|split].
    + intros r Hr Hrq. rewrite Hv4.
      * rewrite Hv2, decide_False by done. by apply (grows_view _ _ _ Hg1).
      * apply (grows_used _ _ _ Hg2). apply (grows_used _ _ _ Hg) in Hr. rewrite elem_of_app. tauto.
      * by intros ->.
    + destruct (grows_fresh _ _ _ Hg q Hq) as [Hq0 _].
      eapply (chain_holds_overflow _ _ _ p); [done|by destruct c|done| | |].
      * rewrite <-Hfull, take_app_length. exact Hb.
      * rewrite Hv4 by done. by rewrite Hv2, decide_True.
      * by rewrite <-Hfull, drop_app_length.
    + intros r. rewrite HW. destruct (decide (r ∈ p :: ps)) as [Hin|Hin].
      * rewrite decide_True; [done|by right].
      * destruct (decide (r = q)) as [->|Hrq].
        -- rewrite lookup_insert_eq, decide_True by (by left). rewrite Hv4 by done. by rewrite Hv2, decide_True.
        -- rewrite lookup_insert_ne by done. rewrite decide_False; [done|]. by intros [?|?]%elem_of_cons.
Qed.

Definition vheader (id : string) (data_len : nat) (xmin xmax : N) : list byte :=
  to_le_bytes 8 xmin ++ to_le_bytes 8 xmax ++ to_le_bytes 2 (N.of_nat (length (as_bytes id))) ++ as_bytes id ++
  to_le_bytes 4 (N.of_nat data_len).

Lemma length_vheader id n xmin xmax : length (vheader id n xmin xmax) = 22 + length (as_bytes id).
Proof. unfold vheader. rewrite !length_app, !length_to_le_bytes. lia. Qed.

(** Page [p] and the chain [ps] hold the version of the document. *)
Inductive versioned_doc (look : N -> option (list byte)) p (id : string) data (xmin xmax : N) ps : Prop :=
| mk_versioned_doc chunk rest link :
    doc_ok id data -> (xmin < 2 ^ 64)%N -> (xmax < 2 ^ 64)%N -> data = chunk ++ rest ->
    length chunk = min (PAGE_SIZE - 30 - length (as_bytes id)) (length data) ->
    look p = Some (zbuf PAGE_SIZE ((vheader id (length data) xmin xmax ++ chunk) ++ to_le_bytes 8 link)) ->
    (link < 2 ^ 64)%N -> chain_holds look link rest ps -> versioned_doc look p id data xmin xmax ps.

Lemma versioned_cursor id n xmin xmax chunk :
  22 + length (as_bytes id) + length chunk <= PAGE_SIZE ->
  (w ← w_le 8 xmin (0, zeroed_page);
   w ← w_le 8 xmax w;
   w ← w_le 2 (N.of_nat (length (as_bytes id))) w;
   w ← w_bytes (as_bytes id) w;
   w ← w_le 4 (N.of_nat n) w;
   w_bytes chunk w) = Some (wrote PAGE_SIZE (vheader id n xmin xmax ++ chunk)).
Proof.
  intros H. unfold zeroed_page. rewrite <-wrote_nil.
  rewrite w_le_wrote by (cbn [length]; lia). cbn [mbind option_bind app].
  rewrite w_le_wrote by (rewrite !length_to_le_bytes; lia). cbn [mbind option_bind].
  rewrite w_le_wrote by (rewrite !length_app, !length_to_le_bytes; lia). cbn [mbind option_bind].
  rewrite w_bytes_wrote by (rewrite !length_app, !length_to_le_bytes; lia). cbn [mbind option_bind].
  rewrite w_le_wrote by (rewrite !length_app, !length_to_le_bytes; lia). cbn [mbind option_bind].
  rewrite w_bytes_wrote by (rewrite !length_app, !length_to_le_bytes; lia).
  unfold vheader. by rewrite <-!app_assoc.
Qed.

(** The overflow pages of a version: none, or the first page's link names the first of them.
    The first page itself is still in its buffer. *)
Lemma write_overflow_chain_ok s0 s W first pre rest n fuel :
  grows s0 [first] s -> length pre + 8 = PAGE_SIZE \/ rest = [] -> length pre + 8 <= PAGE_SIZE ->
  length rest <= fuel -> ps_room s (length (chunks_of MAX_OVERFLOW_DATA rest) + n) ->
  exists link ps al' lp ob s1 W1 s2 W2,
    write_versioned_loop fuel first rest [first] first (length pre) None (zbuf PAGE_SIZE (pre ++ to_le_bytes 8 0)) (s, W)
      = (Ok (al', lp, ob, zbuf PAGE_SIZE (pre ++ to_le_bytes 8 link)), (s1, W1)) /\
    match ob with
    | Some b => let! _ := record_write lp b in or_free al' (ps_write lp b)
    | None => st_ret tt
    end (s1, W1) = (Ok tt, (s2, W2)) /\
    grows s0 ([first] ++ ps) s2 /\ (link < 2 ^ 64)%N /\ chain_holds (ps_view s2) link rest ps /\
    buffers_pages s2 ps W W2 /\ ps_room s2 n.
Proof.
  intros Hg Hpre Hlen Hfuel Hroom. destruct (decide (rest = [])) as [->|Hne].
  - exists 0%N, [], [first], first, None, s, W, s, W.
    split; [destruct fuel; reflexivity|]. split; [reflexivity|]. split; [exact Hg|]. split; [reflexivity|].
    split; [constructor|].
    split; [intros q; by rewrite decide_False by apply not_elem_of_nil|exact Hroom].
  - destruct Hpre as [Hpre|]; [|done].
    assert (0 < length rest) as Hr0 by (destruct rest; [by destruct Hne|simpl; lia]).
    rewrite chunks_of_cons in Hroom by (done || size_lia).
    destruct (alloc_grows s _ ltac:(apply Hg) Hroom) as (p & s1 & Ha & Hg1 & Hr1 & Hp64 & Hp0).
    pose proof (overflow_page_eq (take MAX_OVERFLOW_DATA rest) 0 ltac:(rewrite length_take; lia)) as Hbuf.
    set (buf := _ ++ _ ++ _) in Hbuf. clearbody buf.
    pose proof (grows_trans _ _ _ _ _ Hg Hg1) as Hg01.
    assert (p <> first) as Hpf.
    { intros ->. destruct (grows_fresh _ _ _ Hg1 first ltac:(by left)) as [_ []].
      apply (grows_used _ _ _ Hg). right. by left. }
    assert (take MAX_OVERFLOW_DATA rest <> []) as Htake.
    { intros Ht%(f_equal length). rewrite length_take in Ht. cbn [length] in Ht. size_lia. }
    assert (length (take MAX_OVERFLOW_DATA rest) <= MAX_OVERFLOW_DATA) as Hlt by (rewrite length_take; lia).
    assert (drop MAX_OVERFLOW_DATA rest <> [] -> length (take MAX_OVERFLOW_DATA rest) = MAX_OVERFLOW_DATA) as Hfull.
    { intros Hd. rewrite length_take. destruct (decide (length rest <= MAX_OVERFLOW_DATA)); [|lia].
      by rewrite drop_ge in Hd. }
    destruct fuel as [|fuel]; [lia|].
    assert (length (drop MAX_OVERFLOW_DATA rest) <= fuel) as Hdrop by (rewrite length_drop; size_lia).
    destruct (write_versioned_loop_ok s0 (drop MAX_OVERFLOW_DATA rest) first (zbuf PAGE_SIZE (pre ++ to_le_bytes 8 p)) n
      fuel [first; p] ([first] ++ [p]) p (take MAX_OVERFLOW_DATA rest) buf s1 W)
      as (ps & al' & lp & lb & s3 & W3 & s4 & W4 & Hrun & Hlast & Hg4 & Hr4 & Hv4 & Hch & HW);
      [done|by right; left|by left|done|done|done|done|done|done|done|].
    rewrite take_drop in Hch.
    exists p, (p :: ps), al', lp, (Some lb), s3, W3, s4, W4.
    split; [|split; [exact Hlast|split; [done|split; [done|split; [done|split; [done|done]]]]]].
    destruct rest as [|b0 rest']; [by destruct Hne|]. cbn [write_versioned_loop].
    rewrite (st_bind_ok _ _ _ _ _ (or_free_ok [first] _ _ s W s1 Ha)).
    rewrite Hbuf, (st_bind_ok _ _ _ _ _ (vindex_ok _ buf (s1, W) eq_refl)).
    rewrite N.eqb_refl. destruct (put_after_zbuf PAGE_SIZE pre 8 0 p Hlen) as [_ Hput]. rewrite Hput.
    rewrite (st_bind_ok _ _ _ _ _ (vindex_ok _ _ (s1, W) eq_refl)). exact Hrun.
Qed.

Lemma write_versioned_ok s W id data xmin xmax n :
  ps_inv s -> doc_ok id data -> (xmin < 2 ^ 64)%N -> (xmax < 2 ^ 64)%N ->
  ps_room s (2 + length data / MAX_OVERFLOW_DATA + n) ->
  exists p d ps s' W', write_versioned_document id data xmin xmax (s, W) = (Ok (p, d), (s', W')) /\
    grows s (p :: ps) s' /\ versioned_doc (ps_view s') p id data xmin xmax ps /\
    ps_view s' p = Some d /\ buffers_pages s' (p :: ps) W W' /\ ps_room s' n.
Proof.
  intros Hi Hok Hx Hy Hroom. pose proof Hok as [_ Hid _]. unfold write_versioned_document.
  destruct (Nat.ltb_spec 255 (length (as_bytes id))); [lia|].
  set (cap := PAGE_SIZE - versioned_header (length (as_bytes id))).
  assert (cap = PAGE_SIZE - 30 - length (as_bytes id)) as Hcap by (unfold cap, versioned_header; size_lia).
  assert (30 + length (as_bytes id) <= PAGE_SIZE) as Hpg by size_lia.
  set (chunk := take (min cap (length data)) data). set (rest := drop (min cap (length data)) data).
  assert (length chunk = min cap (length data)) as Hlc by (unfold chunk; rewrite length_take; lia).
  pose proof (chunks_of_length rest) as Hch.
  assert (length rest <= length data) as Hlr by (unfold rest; rewrite length_drop; lia).
  assert (length rest / MAX_OVERFLOW_DATA <= length data / MAX_OVERFLOW_DATA) as Hdiv by (by apply Nat.Div0.div_le_mono).
  destruct (alloc_grows s (length (chunks_of MAX_OVERFLOW_DATA rest) + n)) as (p & s1 & Ha & Hg & Hr1 & _);
    [done|eapply ps_room_le; [done|lia]|].
  rewrite (st_bind_ok _ _ _ _ _ (on_pages_ok _ _ s W s1 Ha)). cbv zeta. fold chunk rest.
  set (pre := vheader id (length data) xmin xmax ++ chunk).
  assert (length pre + 8 <= PAGE_SIZE) as Hfit by (unfold pre; rewrite length_app, length_vheader; lia).
  rewrite (st_bind_ok _ _ _ _ _ (vindex_ok _ (wrote PAGE_SIZE pre) (s1, W)
    (versioned_cursor id (length data) xmin xmax chunk ltac:(lia)))).
  unfold wrote at 1. cbv beta iota.
  destruct (put_after_zbuf PAGE_SIZE pre 8 0 0 Hfit) as [Hput _]. rewrite Hput.
  rewrite (st_bind_ok _ _ _ _ _ (vindex_ok _ _ (s1, W) eq_refl)).
  destruct (write_overflow_chain_ok s s1 W p pre rest n (length data) Hg)
    as (link & ps & al & lp & ob & s2 & W2 & s3 & W3 & Hrun & Hlast & Hg3 & Hlink & Hchain & HW & Hr3); [|done|done|done|].
  { destruct (decide (length data <= cap)) as [Hs|Hs].
    - right. unfold rest. rewrite Nat.min_r by done. by apply drop_ge.
    - left. unfold pre. rewrite length_app, length_vheader. lia. }
  rewrite (st_bind_ok _ _ _ _ _ Hrun). cbv beta iota.
  rewrite (st_bind_ok _ _ _ _ _ Hlast).
  set (d := zbuf PAGE_SIZE (pre ++ to_le_bytes 8 link)).
  destruct (write_both s ([p] ++ ps) s3 W3 al p d Hg3) as (s4 & Hw & Hg4 & Hv & Hr4);
    [by left|by apply length_zbuf; rewrite length_app, length_to_le_bytes|].
  rewrite (st_bind_ok _ _ _ _ _ (record_write_ok p d s3 W3)) in Hw.
  rewrite (st_bind_ok _ _ _ _ _ (record_write_ok p d s3 W3)), (st_bind_ok _ _ _ _ _ Hw).
  exists p, d, ps, s4, (<[p := d]> W3).
  pose proof (grows_nodup _ _ _ Hg4) as [Hnp _]%NoDup_cons.
  assert (forall q, q ∈ ps -> ps_view s4 q = ps_view s3 q) as Hv'.
  { intros q Hq. rewrite Hv, decide_False; [done|]. by intros ->. }
  assert (ps_view s4 p = Some d) as Hvp by (rewrite Hv; apply decide_True; reflexivity).
  split; [reflexivity|]. split; [exact Hg4|]. split; [|split; [exact Hvp|split; [|by apply Hr4]]].
  - apply (mk_versioned_doc _ p id data xmin xmax ps chunk rest link); [done|done|done| | | |done|].
    + unfold chunk, rest. by rewrite take_drop.
    + by rewrite Hlc, Hcap.
    + exact Hvp.
    + by eapply chain_holds_mono.
  - intros q. destruct (decide (q = p)) as [->|Hqp].
    + rewrite lookup_insert_eq, decide_True by (by left). symmetry. exact Hvp.
    + rewrite lookup_insert_ne by done. rewrite HW. destruct (decide (q ∈ ps)) as [Hq|Hq].
      * rewrite decide_True by (by right). by rewrite Hv'.
      * rewrite decide_False; [done|]. by intros [?|?]%elem_of_cons.
Qed.

(** Reading a version, from the store or partly from a write buffer. *)
Lemma read_versioned_ok s W p id data xmin xmax ps :
  ps_inv s -> versioned_doc (seen W s) p id data xmin xmax ps -> (forall q, q ∈ p :: ps -> ps_used s q) -> NoDup ps ->
  exists s', read_versioned_document p W s = (Ok (mk_vdoc id data xmin xmax), s') /\ same s s'.
Proof.
  intros Hi [chunk rest link [Hutf Hid Hlim] Hx Hy Hd Hlc Hv Hl Hch] Hu Hnd.
  set (page := zbuf _ _) in Hv.
  destruct (fetch_page_ok W s p page Hi ltac:(apply Hu; by left) Hv) as (s1 & Hr & Hsame).
  assert (length (vheader id (length data) xmin xmax ++ chunk) + 8 <= PAGE_SIZE) as Hfit
    by (rewrite length_app, length_vheader; size_lia).
  assert (length page = PAGE_SIZE) as Hpl by (apply length_zbuf; rewrite length_app, length_to_le_bytes; lia).
  assert (N.of_nat (length data) < 2 ^ 30)%N as Hlt.
  { eapply N.le_lt_trans; [exact Hlim|]. vm_compute. done. }
  assert (reads page 0 (to_le_bytes 8 xmin ++ to_le_bytes 8 xmax ++ to_le_bytes 2 (N.of_nat (length (as_bytes id))) ++
    as_bytes id ++ to_le_bytes 4 (N.of_nat (length data)) ++ chunk ++ to_le_bytes 8 link ++
    replicate (PAGE_SIZE - length ((vheader id (length data) xmin xmax ++ chunk) ++ to_le_bytes 8 link)) Byte.x00)) as Hreads.
  { split; [lia|]. unfold page, zbuf, vheader. by rewrite drop_0, <-!app_assoc. }
  destruct (reads_le _ _ _ _ _ Hreads) as [H1 Hr1]; [done|].
  destruct (reads_le _ _ _ _ _ Hr1) as [H2 Hr2]; [done|].
  destruct (reads_le _ _ _ _ _ Hr2) as [H3 Hr3]; [cbn; lia|].
  destruct (reads_slice _ _ _ _ _ Hr3 eq_refl) as [H4 Hr4].
  destruct (reads_le _ _ _ _ _ Hr4) as [H5 Hr5]; [cbn; lia|].
  destruct (reads_slice _ _ _ _ _ Hr5 eq_refl) as [H6 Hr6].
  destruct (reads_le _ _ _ _ _ Hr6) as [H7 _]; [done|].
  change (0 + 8 + 8 + 2) with 18 in *. change (0 + 8 + 8) with 16 in *. change (0 + 8) with 8 in *.
  unfold read_versioned_document.
  rewrite (st_bind_ok _ _ _ _ _ Hr), (st_bind_ok _ _ _ _ _ (index_ok _ _ s1 H1)),
    (st_bind_ok _ _ _ _ _ (index_ok _ _ s1 H2)), (st_bind_ok _ _ _ _ _ (index_ok _ _ s1 H3)), Hpl.
  destruct (N.eqb_spec (N.of_nat (length (as_bytes id))) 0); [lia|].
  destruct (N.ltb_spec (N.of_nat (PAGE_SIZE - 18)) (N.of_nat (length (as_bytes id)))); [size_lia|]. cbn [orb].
  rewrite Nat2N.id. rewrite (st_bind_ok _ _ _ _ _ (index_ok _ _ s1 H4)).
  rewrite from_utf8_as_bytes by done. cbv zeta.
  rewrite (st_bind_ok _ _ _ _ _ (index_ok _ _ s1 H5)).
  destruct (N.ltb_spec MAX_DOCUMENT_SIZE (N.of_nat (length data))) as [Hbig|_];
    [unfold MAX_DOCUMENT_SIZE in Hbig; lia|].
  destruct (Nat.ltb_spec PAGE_SIZE (versioned_header (length (as_bytes id)))); [unfold versioned_header in *; size_lia|].
  replace (N.to_nat (N.min (N.of_nat (PAGE_SIZE - versioned_header (length (as_bytes id)))) (N.of_nat (length data))))
    with (length chunk) by (rewrite Hlc; unfold versioned_header; size_lia).
  rewrite (st_bind_ok _ _ _ _ _ (index_ok _ _ s1 H6)), (st_bind_ok _ _ _ _ _ (index_ok _ _ s1 H7)).
  destruct (read_chain_ok W (fun p => cycle_error p ". Versioned document is corrupted.")
    (too_long_error ". Versioned document may be corrupted.") chain_limit ∅ link rest ps chunk s1) as (s2 & Hrun & Hsame2).
  - eapply chain_holds_mono; [done|]. intros q _. unfold seen. by rewrite (same_view _ _ Hsame).
  - apply Hsame.
  - intros q Hq. apply (same_used _ _ Hsame), Hu. by right.
  - done.
  - intros q _. apply not_elem_of_empty.
  - eapply (chain_within_limit _ _ _ _ _ _ _ Hd Hlc); [size_lia|done|done].
  - rewrite <-Hd in Hrun. rewrite (st_bind_ok _ _ _ _ _ Hrun).
    rewrite decide_False by (intros []; done). exists s2. split; [done|by eapply same_trans].
Qed.

Lemma versioned_doc_linked look p id data xmin xmax ps :
  versioned_doc look p id data xmin xmax ps -> linked_page look p ps.
Proof.
  intros [chunk rest link [Hutf Hid Hlim] Hx Hy Hd Hlc Hv Hl Hch].
  assert (length data = length chunk + length rest) as Hlen by (by rewrite Hd, length_app).
  econstructor; [done| |done|].
  - apply zbuf_link; [rewrite length_app, length_vheader; size_lia|done|].
    destruct (decide (rest = [])) as [->|Hrne]; [left; by inversion Hch|right].
    assert (0 < length rest) by (by destruct rest; simpl; [|lia]).
    rewrite length_app, length_vheader in *. size_lia.
  - eapply (chain_within_limit _ _ _ _ _ _ _ Hd Hlc); [size_lia|done|done].
Qed.

(** Deleting what was just written gives back exactly the pages it took. *)
Lemma delete_grown s ps s1 p :
  grows s (p :: ps) s1 -> linked_page (ps_view s1) p ps ->
  exists s2, delete_document p s1 = (Ok tt, s2) /\ ps_inv s2 /\
    (forall q, ps_used s2 q <-> ps_used s q) /\ (forall q, ps_used s q -> ps_view s2 q = ps_view s q).
Proof.
  intros [Hi Hu Hv Hn Hf] Hl.
  destruct (delete_document_ok s1 p ps Hi Hl) as (s2 & Hrun & [Hi2 Hu2 Hv2 _]).
  { intros q Hq. split; [apply Hu; by right|by apply Hf]. }
  { done. }
  exists s2. split; [done|]. split; [done|]. split; intros q.
  - rewrite Hu2, Hu. split; [tauto|]. intros Hq. split; [by left|]. intros Hq'. by apply Hf in Hq' as [_ []].
  - intros Hq. rewrite Hv2; [by apply Hv|]. intros Hq'. by apply Hf in Hq' as [_ []].
Qed.

Lemma versioned_doc_mono look look' p id data xmin xmax ps :
  versioned_doc look p id data xmin xmax ps -> (forall q, q ∈ p :: ps -> look' q = look q) ->
  versioned_doc look' p id data xmin xmax ps.
Proof.
  intros [chunk rest link Hok Hx Hy Hd Hlc Hv Hl Hch] Heq. econstructor; [done..| |done|].
  - rewrite Heq by (by left). exact Hv.
  - eapply chain_holds_mono; [exact Hch|]. intros q Hq. apply Heq. by right.
Qed.
End document_store.
