(* ===== verification/LruCache.v ===== *)
(** * The LRU page cache ([src/src/core/lru_cache.rs])

    A slab of nodes linked in a doubly linked list by index, a map from pages to indices, a
    free list of indices and the set of dirty pages. [None] is a panic (an index outside the
    slab). The second half gives the abstract cache, a list of pages from the most to the
    least recently used, and shows that every operation refines it. *)

From stdpp Require Import base list strings gmap.
From Stdlib Require Import NArith Lia.
From S2P Require Import Prelude Constants Bytes.

Record Node := mk_node {
  page_num : N;
  data : list byte;
  prev : option nat;
  next : option nat }.

Record LRUCacheInner := mk_lru {
  capacity : nat;
  cache : gmap N nat;
  nodes : list (option Node);
  head : option nat;
  tail : option nat;
  free_list : list nat;
  dirty : gmap N bool;
  failed_evictions : nat }.

Definition lru_new (capacity : nat) : LRUCacheInner :=
  mk_lru capacity ∅ [] None None [] ∅ 0.

(** Field updates. *)
Definition with_cache m c := mk_lru (capacity c) m (nodes c) (head c) (tail c) (free_list c) (dirty c) (failed_evictions c).
Definition with_nodes ns c := mk_lru (capacity c) (cache c) ns (head c) (tail c) (free_list c) (dirty c) (failed_evictions c).
Definition with_head h c := mk_lru (capacity c) (cache c) (nodes c) h (tail c) (free_list c) (dirty c) (failed_evictions c).
Definition with_tail t c := mk_lru (capacity c) (cache c) (nodes c) (head c) t (free_list c) (dirty c) (failed_evictions c).
Definition with_free fl c := mk_lru (capacity c) (cache c) (nodes c) (head c) (tail c) fl (dirty c) (failed_evictions c).
Definition with_dirty d c := mk_lru (capacity c) (cache c) (nodes c) (head c) (tail c) (free_list c) d (failed_evictions c).
Definition with_failed n c := mk_lru (capacity c) (cache c) (nodes c) (head c) (tail c) (free_list c) (dirty c) n.

Definition set_prev p n := mk_node (page_num n) (data n) p (next n).
Definition set_next x n := mk_node (page_num n) (data n) (prev n) x.
Definition set_data d n := mk_node (page_num n) d (prev n) (next n).

(** [self.nodes[i]], which panics outside the slab. *)
Definition slot_at (c : LRUCacheInner) (i : nat) : option (option Node) := nodes c !! i.

(** [if let Some(node) = &mut self.nodes[i] { f }]. *)
Definition modify_node (i : nat) (f : Node -> Node) (c : LRUCacheInner) : option LRUCacheInner :=
  slot ← slot_at c i;
  Some (match slot with
        | Some n => with_nodes (<[i := Some (f n)]> (nodes c)) c
        | None => c
        end).

(** [if let Some(i) = oi { if let Some(node) = &mut self.nodes[i] { f } }]. *)
Definition modify_opt (oi : option nat) (f : Node -> Node) (c : LRUCacheInner) : option LRUCacheInner :=
  match oi with Some i => modify_node i f c | None => Some c end.

Definition allocate_node (pn : N) (d : list byte) (c : LRUCacheInner) : option (nat * LRUCacheInner) :=
  let node := mk_node pn d None None in
  match vec_pop (free_list c) with
  | Some (idx, fl) =>
    let c := with_free fl c in
    _ ← slot_at c idx;
    Some (idx, with_nodes (<[idx := Some node]> (nodes c)) c)
  | None => Some (length (nodes c), with_nodes (nodes c ++ [Some node]) c)
  end.

Definition move_to_front (idx : nat) (c : LRUCacheInner) : option LRUCacheInner :=
  if decide (Some idx = head c) then Some c else
  slot ← slot_at c idx;
  match slot with
  | None => Some c
  | Some node =>
    let prev_idx := prev node in
    let next_idx := next node in
    c ← modify_opt prev_idx (set_next next_idx) c;
    c ← modify_opt next_idx (set_prev prev_idx) c;
    let c := if decide (Some idx = tail c) then with_tail prev_idx c else c in
    c ← modify_node idx (fun n => set_next (head c) (set_prev None n)) c;
    c ← modify_opt (head c) (set_prev (Some idx)) c;
    let c := with_head (Some idx) c in
    Some (if tail c then c else with_tail (Some idx) c)
  end.

Definition remove_node (idx : nat) (c : LRUCacheInner) : option LRUCacheInner :=
  slot ← slot_at c idx;
  match slot with
  | None => Some c
  | Some node =>
    let prev_idx := prev node in
    let next_idx := next node in
    let c := if decide (Some idx = head c) then with_head next_idx c else c in
    let c := if decide (Some idx = tail c) then with_tail prev_idx c else c in
    c ← modify_opt prev_idx (set_next next_idx) c;
    c ← modify_opt next_idx (set_prev prev_idx) c;
    let c := with_nodes (<[idx := None]> (nodes c)) c in
    Some (with_free (vec_push (free_list c) idx) c)
  end.

Definition lru_get (pn : N) (c : LRUCacheInner) : option (option (list byte) * LRUCacheInner) :=
  match cache c !! pn with
  | Some idx =>
    c ← move_to_front idx c;
    slot ← slot_at c idx;
    Some (option_map data slot, c)
  | None => Some (None, c)
  end.

Definition lru_get_read_only (pn : N) (c : LRUCacheInner) : option (option (list byte)) :=
  match cache c !! pn with
  | Some idx => slot ← slot_at c idx; Some (option_map data slot)
  | None => Some None
  end.

Definition is_dirty (pn : N) (c : LRUCacheInner) : bool :=
  default false (dirty c !! pn).

(** The loop of [evict]: [checks] is [max_checks - checked]. *)
Fixpoint evict_loop (checks : nat) (current : option nat) (c : LRUCacheInner)
    : option (bool * LRUCacheInner) :=
  match current, checks with
  | None, _ | _, 0 => Some (false, c)
  | Some idx, S checks =>
    slot ← slot_at c idx;
    match slot with
    | None => Some (false, c)
    | Some node =>
      if is_dirty (page_num node) c then evict_loop checks (prev node) c
      else
        let c := with_cache (delete (page_num node) (cache c)) c in
        c ← remove_node idx c;
        Some (true, with_failed 0 c)
    end
  end.

Definition evict (c : LRUCacheInner) : option LRUCacheInner :=
  '(found_clean, c) ← evict_loop (size (cache c)) (tail c) c;
  Some (if found_clean : bool then c else with_failed (S (failed_evictions c)) c).

(** The code that [put] and [put_dirty_atomic] share: a new node at the front. *)
Definition add_to_front (pn : N) (d : list byte) (c : LRUCacheInner) : option LRUCacheInner :=
  '(idx, c) ← allocate_node pn d c;
  let c := with_cache (<[pn := idx]> (cache c)) c in
  c ← modify_node idx (fun n => set_next (head c) (set_prev None n)) c;
  c ← modify_opt (head c) (set_prev (Some idx)) c;
  let c := with_head (Some idx) c in
  Some (if tail c then c else with_tail (Some idx) c).

Definition lru_put (pn : N) (d : list byte) (c : LRUCacheInner) : option LRUCacheInner :=
  match cache c !! pn with
  | Some idx => c ← move_to_front idx c; modify_node idx (set_data d) c
  | None =>
    c ← add_to_front pn d c;
    if decide (capacity c < size (cache c)) then evict c else Some c
  end.

Definition mark_dirty (pn : N) (c : LRUCacheInner) : LRUCacheInner :=
  with_dirty (<[pn := true]> (dirty c)) c.

Definition put_dirty_atomic (pn : N) (d : list byte) (c : LRUCacheInner) : option LRUCacheInner :=
  match cache c !! pn with
  | Some idx =>
    c ← move_to_front idx c;
    c ← modify_node idx (set_data d) c;
    Some (mark_dirty pn c)
  | None =>
    c ← add_to_front pn d c;
    let c := mark_dirty pn c in
    if decide (capacity c < size (cache c)) then evict c else Some c
  end.

Definition lru_remove (pn : N) (c : LRUCacheInner) : option LRUCacheInner :=
  match cache c !! pn with
  | Some idx =>
    let c := with_cache (delete pn (cache c)) c in
    c ← remove_node idx c;
    Some (with_dirty (delete pn (dirty c)) c)
  | None => Some c
  end.

Definition lru_len (c : LRUCacheInner) : nat := size (cache c).

(** [LRUCache::new], [clear_dirty], [get_all_dirty] (in the map's order) and
    [clear_all_dirty]. The other methods of [LRUCache] lock and call the operation above of
    the same name. *)
Definition LRUCache_new (capacity : nat) : LRUCacheInner :=
  lru_new (if decide (capacity = 0) then DEFAULT_CACHE_SIZE else capacity).

Definition clear_dirty (pn : N) (c : LRUCacheInner) : LRUCacheInner :=
  with_dirty (delete pn (dirty c)) c.

Definition get_all_dirty (c : LRUCacheInner) : list N := (map_to_list (dirty c)).*1.

Definition clear_all_dirty (c : LRUCacheInner) : LRUCacheInner := with_dirty ∅ c.

(** ** The linked list as a sequence of cells

    A cell is a slab index with the page and the data its node holds; [dseg ns p cs n] says
    that the slab [ns] links the cells [cs], with [p] before and [n] after them. *)
Notation cell := (nat * (N * list byte))%type.

Definition first (cs : list cell) (n : option nat) : option nat :=
  match cs with [] => n | (i, _) :: _ => Some i end.

Definition final (p : option nat) (cs : list cell) : option nat :=
  match last cs with None => p | Some (i, _) => Some i end.

Fixpoint dseg (ns : list (option Node)) (p : option nat) (cs : list cell) (n : option nat) : Prop :=
  match cs with
  | [] => True
  | (i, (pg, d)) :: cs =>
    ns !! i = Some (Some (mk_node pg d p (first cs n))) /\ dseg ns (Some i) cs n
  end.

(** Two slabs agree outside the indices [I]. *)
Definition agree (I : list nat) (ns ns' : list (option Node)) : Prop :=
  length ns' = length ns /\ forall i, i ∉ I -> ns' !! i = ns !! i.

Record links (c : LRUCacheInner) (cs : list cell) : Prop := {
  links_seg : dseg (nodes c) None cs None;
  links_nodup : NoDup cs.*1;
  links_head : head c = first cs None;
  links_tail : tail c = final None cs;
  links_free_nodup : NoDup (free_list c);
  links_free : forall i, i ∈ free_list c <-> nodes c !! i = Some None }.

Definition index_map (cs : list cell) : gmap N nat :=
  list_to_map ((fun x => (x.2.1, x.1)) <$> cs).

(** The invariant of the cache: [cs] are its cells in the order of the list. *)
Record lru_inv (c : LRUCacheInner) (cs : list cell) : Prop := {
  inv_links : links c cs;
  inv_pages : NoDup (cs.*2).*1;
  inv_cache : cache c = index_map cs }.

Section segments.
Implicit Types cs a b : list cell.

Lemma final_snoc p cs x : final p (cs ++ [x]) = Some x.1.
Proof. unfold final. rewrite last_snoc. by destruct x. Qed.

Lemma final_cons p x cs : final p (x :: cs) = final (Some x.1) cs.
Proof. destruct x. unfold final. rewrite last_cons. by destruct (last cs). Qed.

Lemma final_app p a b : final p (a ++ b) = final (final p a) b.
Proof. revert p. induction a as [|x a IH]; intros p; [done|]. rewrite <-app_comm_cons, !final_cons. auto. Qed.

Lemma final_nonempty p q cs : cs <> [] -> final p cs = final q cs.
Proof. destruct cs as [|x cs _] using rev_ind; [done|]. by rewrite !final_snoc. Qed.

Lemma final_is_some p cs : cs <> [] -> exists x, final p cs = Some x.
Proof. destruct cs as [|x cs _] using rev_ind; [done|]. rewrite final_snoc. eauto. Qed.

Lemma final_not_in cs i p : i ∉ cs.*1 -> final p cs = Some i -> cs = [].
Proof.
  destruct cs as [|x cs _] using rev_ind; [done|]. rewrite final_snoc, fmap_app.
  intros Hi [= <-]. destruct Hi. apply elem_of_app. right. by left.
Qed.

Lemma first_not_in cs i n : i ∉ cs.*1 -> first cs n = Some i -> cs = [].
Proof. destruct cs as [|[j e] cs]; [done|]. simpl. intros Hi [= ->]. destruct Hi. by left. Qed.

Lemma first_nonempty cs : cs <> [] -> exists j, j ∈ cs.*1 /\ forall n, first cs n = Some j.
Proof. destruct cs as [|[j e] cs]; [done|]. exists j. split; [by left|done]. Qed.

Lemma first_app a b n : first (a ++ b) n = first a (first b n).
Proof. by destruct a as [|[]]. Qed.

Lemma dseg_app ns p a b n :
  dseg ns p (a ++ b) n <-> dseg ns p a (first b n) /\ dseg ns (final p a) b n.
Proof.
  revert p. induction a as [|[i [pg d]] a IH]; intros p; simpl; [by intuition|].
  rewrite IH, first_app, final_cons. simpl. tauto.
Qed.

Lemma dseg_agree I ns ns' p cs n :
  agree I ns ns' -> (forall i, i ∈ cs.*1 -> i ∉ I) -> dseg ns p cs n -> dseg ns' p cs n.
Proof.
  intros [_ Hag]. revert p. induction cs as [|[i [pg d]] cs IH]; intros p Hi; simpl; [done|].
  intros [H1 H2]. rewrite Hag by (apply Hi; left). split; [done|].
  apply IH; [|done]. intros j Hj. apply Hi. by right.
Qed.

Lemma dseg_grow ns x p cs n : dseg ns p cs n -> dseg (ns ++ [x]) p cs n.
Proof.
  revert p. induction cs as [|[i [pg d]] cs IH]; intros p; simpl; [done|].
  intros [Hi Hs]. split; [|auto]. rewrite lookup_app_l; [done|]. by eapply lookup_lt_Some.
Qed.

Lemma dseg_lookup ns p cs n i : dseg ns p cs n -> i ∈ cs.*1 -> exists nd, ns !! i = Some (Some nd).
Proof.
  revert p. induction cs as [|[j [pg d]] cs IH]; intros p; simpl.
  - by intros _ ?%elem_of_nil.
  - intros [H1 H2] [->|Hi]%elem_of_cons; eauto.
Qed.

Lemma with_nodes_id c : with_nodes (nodes c) c = c.
Proof. by destruct c. Qed.

Lemma agree_insert (ns : list (option Node)) i x (I : list nat) :
  i ∈ I -> agree I ns (<[i := x]> ns).
Proof.
  intros Hi. split; [apply length_insert|].
  intros j Hj. apply list_lookup_insert_ne. by intros ->.
Qed.

Lemma agree_refl I ns : agree I ns ns.
Proof. done. Qed.

Lemma modify_final c p a n x :
  dseg (nodes c) p a n -> NoDup a.*1 ->
  exists ns', modify_opt (final None a) (set_next x) c = Some (with_nodes ns' c) /\
    dseg ns' p a x /\ agree a.*1 (nodes c) ns'.
Proof.
  destruct a as [|[i [pg d]] a _] using rev_ind.
  - exists (nodes c). by rewrite with_nodes_id.
  - rewrite dseg_app, fmap_app, final_snoc. simpl. intros (Ha & Hi & _) (_ & Hni & _)%NoDup_app.
    unfold modify_node, slot_at. rewrite Hi. simpl.
    eexists; split; [done|]. assert (agree (a.*1 ++ [i]) (nodes c)
      (<[i:=Some (set_next x (mk_node pg d (final p a) n))]> (nodes c))) as Hag.
    { apply agree_insert. set_solver. }
    split; [|done]. rewrite dseg_app. simpl. split_and!; [..|done].
    + eapply (dseg_agree [i]); [apply agree_insert; set_solver| |done]. set_solver.
    + by rewrite list_lookup_insert_eq by (eapply lookup_lt_Some; eauto).
Qed.

Lemma modify_first c p b n x :
  dseg (nodes c) p b n -> NoDup b.*1 ->
  exists ns', modify_opt (first b None) (set_prev x) c = Some (with_nodes ns' c) /\
    dseg ns' x b n /\ agree b.*1 (nodes c) ns'.
Proof.
  destruct b as [|[i [pg d]] b]; simpl.
  - intros _ _. exists (nodes c). by rewrite with_nodes_id.
  - intros [Hi Hb] [Hni Hnd]%NoDup_cons. unfold modify_node, slot_at. rewrite Hi. simpl.
    eexists; split; [done|]. split; [split|].
    + by rewrite list_lookup_insert_eq by (eapply lookup_lt_Some; eauto).
    + eapply (dseg_agree [i]); [apply agree_insert; set_solver| |done]. set_solver.
    + apply agree_insert. set_solver.
Qed.

Lemma agree_trans I J ns1 ns2 ns3 :
  agree I ns1 ns2 -> agree J ns2 ns3 -> agree (I ++ J) ns1 ns3.
Proof.
  intros [Hl1 H1] [Hl2 H2]. split; [congruence|]. intros i Hi.
  rewrite H2, H1; set_solver.
Qed.

Lemma free_agree I (ns ns' : list (option Node)) (fl : list nat) :
  agree I ns ns' ->
  (forall i, i ∈ I -> exists nd, ns !! i = Some (Some nd)) ->
  (forall i, i ∈ I -> exists nd, ns' !! i = Some (Some nd)) ->
  (forall i, i ∈ fl <-> ns !! i = Some None) ->
  (forall i, i ∈ fl <-> ns' !! i = Some None).
Proof.
  intros [_ Hag] H1 H2 Hf i. rewrite Hf. destruct (decide (i ∈ I)) as [Hi|Hi].
  - destruct (H1 i Hi), (H2 i Hi). naive_solver.
  - by rewrite Hag.
Qed.
End segments.

Section linking.
Implicit Types (c : LRUCacheInner) (cs a b : list cell).

Lemma unlink c a i e b :
  dseg (nodes c) None (a ++ (i, e) :: b) None -> NoDup (a ++ (i, e) :: b).*1 ->
  exists ns1 ns2,
    modify_opt (final None a) (set_next (first b None)) c = Some (with_nodes ns1 c) /\
    modify_opt (first b None) (set_prev (final None a)) (with_nodes ns1 c) = Some (with_nodes ns2 c) /\
    dseg ns2 None (a ++ b) None /\ agree (a.*1 ++ b.*1) (nodes c) ns2.
Proof.
  destruct e as [pg d]. rewrite dseg_app, fmap_app. simpl.
  intros (Ha & Hi & Hb) (Hnda & Hdisj & [Hib Hndb]%NoDup_cons)%NoDup_app.
  destruct (modify_final c None a _ (first b None) Ha Hnda) as (ns1 & H1 & Ha1 & Hag1).
  assert (dseg ns1 (Some i) b None) as Hb1.
  { eapply dseg_agree; [done| |done]. set_solver. }
  destruct (modify_first (with_nodes ns1 c) (Some i) b None (final None a)) as (ns2 & H2 & Hb2 & Hag2);
    [done..|].
  exists ns1, ns2. split_and!; [done|done| |by eapply agree_trans].
  rewrite dseg_app. split; [|done].
  eapply dseg_agree; [done| |done]. set_solver.
Qed.

Lemma link_front c cs i pg d p n :
  dseg (nodes c) None cs None -> NoDup (i :: cs.*1) ->
  nodes c !! i = Some (Some (mk_node pg d p n)) -> head c = first cs None ->
  exists ns1 ns2,
    modify_node i (fun nd => set_next (head c) (set_prev None nd)) c = Some (with_nodes ns1 c) /\
    modify_opt (head c) (set_prev (Some i)) (with_nodes ns1 c) = Some (with_nodes ns2 c) /\
    dseg ns2 None ((i, (pg, d)) :: cs) None /\ agree (i :: cs.*1) (nodes c) ns2.
Proof.
  intros Hs [Hni Hnd]%NoDup_cons Hi Hh. unfold modify_node, slot_at. rewrite Hi. simpl.
  set (ns1 := <[i := _]> (nodes c)).
  assert (agree [i] (nodes c) ns1) as Hag1 by (apply agree_insert; set_solver).
  assert (dseg ns1 None cs None) as Hs1 by (eapply dseg_agree; [done| |done]; set_solver).
  destruct (modify_first (with_nodes ns1 c) None cs None (Some i)) as (ns2 & H2 & Hs2 & Hag2); [done..|].
  exists ns1, ns2. rewrite Hh. split; [done|]. split; [done|].
  split; [|by eapply (agree_trans [i])].
  split; [|done]. destruct Hag2 as [_ Hag2]. rewrite Hag2 by done. simpl. subst ns1.
  rewrite list_lookup_insert_eq by (eapply lookup_lt_Some; eauto). unfold set_prev, set_next. simpl. by rewrite Hh.
Qed.

(** After an update that agrees outside cells whose slots are occupied, the free list is
    still the list of the empty slots. *)
Lemma links_free_after c cs ns' cs' I :
  links c cs -> agree I (nodes c) ns' -> dseg ns' None cs' None ->
  (forall i, i ∈ I -> i ∈ cs.*1) -> (forall i, i ∈ I -> i ∈ cs'.*1) ->
  forall i, i ∈ free_list c <-> ns' !! i = Some None.
Proof.
  intros Hl Hag Hs HI HI'. eapply free_agree; [done|..|apply Hl]; intros i Hi.
  - eapply dseg_lookup; [apply Hl|]. auto.
  - eapply dseg_lookup; [done|]. auto.
Qed.

Lemma move_to_front_spec c a i e b :
  links c (a ++ (i, e) :: b) ->
  exists c', move_to_front i c = Some c' /\ links c' ((i, e) :: a ++ b) /\
    cache c' = cache c /\ dirty c' = dirty c /\ capacity c' = capacity c.
Proof.
  intros Hl. destruct Hl as [Hs Hnd Hh Ht Hfn Hf] eqn:HL. clear HL. destruct e as [pg d].
  unfold move_to_front. destruct (decide (a = [])) as [->|Hne].
  { rewrite decide_True by done. by exists c. }
  rename a into l. destruct (first_nonempty l Hne) as (j & Hj & Hfst).
  assert (i ∉ l.*1 /\ i ∉ b.*1 /\ NoDup (l ++ b).*1) as (Hil & Hib & Hnd').
  { rewrite !fmap_app in *. simpl in Hnd. apply NoDup_app in Hnd as (? & Hx & [? ?]%NoDup_cons).
    split_and!; [set_solver|done|]. apply NoDup_app. set_solver. }
  rewrite decide_False by (rewrite Hh, first_app, Hfst; intros [= ->]; set_solver).
  pose proof Hs as Hi. rewrite dseg_app in Hi. destruct Hi as (_ & Hi & _).
  unfold slot_at at 1. rewrite Hi. simpl prev. simpl next.
  destruct (unlink c l i (pg, d) b Hs Hnd) as (ns1 & ns2 & H1 & H2 & Hs2 & Hag2).
  simpl mbind. rewrite H1. simpl. rewrite H2. simpl.
  set (c2 := if decide _ then _ else _).
  assert (nodes c2 = ns2 /\ head c2 = first (l ++ b) None /\ cache c2 = cache c /\ dirty c2 = dirty c
    /\ capacity c2 = capacity c /\ free_list c2 = free_list c /\ tail c2 = final None (l ++ b))
    as (Hn2 & Hh2 & Hc2 & Hd2 & Hcap2 & Hf2 & Ht2).
  { assert (tail c = final (Some i) b) as Ht' by (rewrite Ht, final_app, final_cons; done).
    assert (head c = first (l ++ b) None) as Hh' by (by rewrite Hh, !first_app, !Hfst).
    subst c2. case_decide as Hd; simpl; split_and!; try done.
    - rewrite final_app. rewrite Ht' in Hd.
      by rewrite (final_not_in b i (Some i) Hib (eq_sym Hd)).
    - rewrite Ht', final_app. destruct b as [|x b _] using rev_ind; [done|]. by rewrite !final_snoc. }
  destruct (link_front c2 (l ++ b) i pg d (final None l) (first b None)) as (ns3 & ns4 & H3 & H4 & Hs4 & Hag4).
  { by rewrite Hn2. } { rewrite fmap_app. apply NoDup_cons. rewrite <-fmap_app. set_solver. }
  { rewrite Hn2. destruct Hag2 as [_ Hag2]. by rewrite Hag2 by set_solver. } { done. }
  rewrite H3. simpl. rewrite H4. simpl. rewrite Hn2 in Hag4.
  assert (exists x, tail c2 = Some x) as [x Hx].
  { rewrite Ht2. apply final_is_some. by destruct l. }
  rewrite Hx. eexists; split; [done|]. simpl. split_and!; [|done..]. split; simpl; rewrite ?Hf2; try done.
  - apply NoDup_cons. rewrite fmap_app in *. set_solver.
  - rewrite Ht2, final_cons. apply final_nonempty. by destruct l.
  - eapply (links_free_after c _ ns4 _ ((l.*1 ++ b.*1) ++ i :: (l ++ b).*1) Hl).
    + eapply agree_trans; done.
    + done.
    + rewrite !fmap_app. simpl. set_solver.
    + simpl. rewrite !fmap_app. simpl. set_solver.
Qed.

Lemma remove_node_spec c a i e b :
  links c (a ++ (i, e) :: b) ->
  exists c', remove_node i c = Some c' /\ links c' (a ++ b) /\
    cache c' = cache c /\ dirty c' = dirty c /\ capacity c' = capacity c.
Proof.
  intros Hl. destruct Hl as [Hs Hnd Hh Ht Hfn Hf] eqn:HL. clear HL. destruct e as [pg d].
  assert (i ∉ a.*1 /\ i ∉ b.*1 /\ NoDup (a ++ b).*1) as (Hia & Hib & Hnd').
  { rewrite !fmap_app in *. simpl in Hnd. apply NoDup_app in Hnd as (? & Hx & [? ?]%NoDup_cons).
    split_and!; [set_solver|done|]. apply NoDup_app. set_solver. }
  pose proof Hs as Hi. rewrite dseg_app in Hi. destruct Hi as (_ & Hi & _).
  unfold remove_node, slot_at at 1. rewrite Hi. simpl prev. simpl next. simpl mbind.
  set (c1 := if decide (Some i = head c) then _ else _).
  set (c2 := if decide (Some i = tail c1) then _ else _).
  assert (nodes c2 = nodes c /\ head c2 = first (a ++ b) None /\ cache c2 = cache c /\ dirty c2 = dirty c
    /\ capacity c2 = capacity c /\ free_list c2 = free_list c /\ tail c2 = final None (a ++ b))
    as (Hn2 & Hh2 & Hc2 & Hd2 & Hcap2 & Hf2 & Ht2).
  { rewrite final_app in Ht. rewrite final_cons in Ht. rewrite first_app in Hh.
    assert (head c1 = first (a ++ b) None /\ tail c1 = tail c /\ nodes c1 = nodes c /\ cache c1 = cache c
      /\ dirty c1 = dirty c /\ capacity c1 = capacity c /\ free_list c1 = free_list c)
      as (?&Ht1&?&?&?&?&?).
    { subst c1. case_decide as Hd; simpl; split_and!; try done; rewrite Hh in Hd; rewrite ?Hh, first_app.
      - by rewrite (first_not_in a i _ Hia (eq_sym Hd)).
      - destruct a as [|[] ?]; [done|done]. }
    subst c2. case_decide as Hd; simpl; split_and!; try congruence; rewrite ?Ht1, Ht in *; rewrite final_app.
    - by rewrite (final_not_in b i _ Hib (eq_sym Hd)).
    - destruct b as [|x b _] using rev_ind; [done|]. by rewrite !final_snoc. }
  destruct (unlink c2 a i (pg, d) b) as (ns1 & ns2 & H1 & H2 & Hs2 & Hag2); [by rewrite Hn2|done|].
  rewrite H1. simpl. rewrite H2. simpl. rewrite Hn2 in Hag2.
  eexists; split; [done|]. simpl. split; [|done]. rewrite Hf2. split; simpl; try done.
  - eapply (dseg_agree [i]); [apply agree_insert; set_solver| |done]. rewrite fmap_app. set_solver.
  - unfold vec_push. apply NoDup_app. split; [done|]. split; [|apply NoDup_singleton].
    intros k Hk ->%list_elem_of_singleton. apply Hf in Hk. congruence.
  - intros k. unfold vec_push. rewrite elem_of_app, list_elem_of_singleton.
    assert (i < length ns2) as Hlt. { destruct Hag2 as [-> _]. by eapply lookup_lt_Some. }
    destruct (decide (k = i)) as [->|Hk].
    + rewrite list_lookup_insert_eq by done. naive_solver.
    + rewrite list_lookup_insert_ne by done. rewrite (links_free_after c _ ns2 (a ++ b) (a.*1 ++ b.*1) Hl);
        [naive_solver|done..| |]; rewrite !fmap_app; simpl; set_solver.
Qed.
End linking.

Section insertion.
Implicit Types (c : LRUCacheInner) (cs a b : list cell).

Lemma allocate_node_spec c cs pg d :
  links c cs ->
  exists i c1, allocate_node pg d c = Some (i, c1) /\
    nodes c1 !! i = Some (Some (mk_node pg d None None)) /\ i ∉ cs.*1 /\
    dseg (nodes c1) None cs None /\ NoDup (free_list c1) /\
    (forall k, k ∈ free_list c1 <-> nodes c1 !! k = Some None) /\
    head c1 = head c /\ tail c1 = tail c /\ cache c1 = cache c /\ dirty c1 = dirty c /\
    capacity c1 = capacity c.
Proof.
  intros [Hs Hnd Hh Ht Hfn Hf]. unfold allocate_node, slot_at.
  destruct (vec_pop (free_list c)) as [[idx fl]|] eqn:Hp; simpl.
  - apply vec_pop_Some in Hp.
    assert (nodes c !! idx = Some None) as Hi by (apply Hf; rewrite Hp; set_solver).
    rewrite Hi. simpl. eexists _, _; split; [done|]. simpl.
    pose proof (lookup_lt_Some _ _ _ Hi) as Hlt.
    assert (idx ∉ cs.*1) as Hni. { intros Hin. eapply dseg_lookup in Hin as [? ?]; [|done]. congruence. }
    rewrite Hp in Hfn. apply NoDup_app in Hfn as (Hfn & Hx & _).
    split_and!; try done.
    + by rewrite list_lookup_insert_eq.
    + eapply (dseg_agree [idx]); [apply agree_insert; set_solver| |done]. set_solver.
    + intros k. destruct (decide (k = idx)) as [->|Hk].
      * rewrite list_lookup_insert_eq by done. set_solver.
      * rewrite list_lookup_insert_ne, <-Hf, Hp by done. set_solver.
  - apply vec_pop_None in Hp. eexists _, _; split; [done|]. simpl.
    assert (length (nodes c) ∉ cs.*1) as Hni.
    { intros Hin. eapply dseg_lookup in Hin as [? Hin]; [|done]. apply lookup_lt_Some in Hin. lia. }
    split_and!; try done.
    + rewrite lookup_app_r, Nat.sub_diag by lia. done.
    + by apply dseg_grow.
    + intros k. rewrite Hp, elem_of_nil. split; [done|]. intros Hk.
      apply lookup_snoc_Some in Hk as [[_ Hk]|[_ Hk]]; [|done]. apply Hf in Hk. rewrite Hp in Hk. set_solver.
Qed.

Lemma add_to_front_spec c cs pg d :
  links c cs ->
  exists i c', add_to_front pg d c = Some c' /\ links c' ((i, (pg, d)) :: cs) /\
    cache c' = <[pg := i]> (cache c) /\ dirty c' = dirty c /\ capacity c' = capacity c.
Proof.
  intros Hl. destruct (allocate_node_spec c cs pg d Hl)
    as (i & c1 & H1 & Hi & Hni & Hs & Hfn & Hf & Hh & Ht & Hc & Hd & Hcap).
  destruct Hl as [_ Hnd Hh0 Ht0 _ _].
  exists i. unfold add_to_front. rewrite H1. cbn [mbind option_bind].
  set (c2 := with_cache _ c1).
  destruct (link_front c2 cs i pg d None None) as (ns1 & ns2 & H3 & H4 & Hs2 & Hag);
    [done|by apply NoDup_cons|done|by simpl; rewrite Hh|].
  rewrite H3. cbn [mbind option_bind]. change (head (with_nodes ns1 c2)) with (head c2).
  rewrite H4. simpl. rewrite Ht, Ht0.
  assert (forall k, k ∈ free_list c1 <-> ns2 !! k = Some None) as Hf2.
  { eapply free_agree; [exact Hag| | |done].
    - intros k [->|Hk]%elem_of_cons; [eauto|]. by eapply dseg_lookup.
    - intros k Hk. by eapply dseg_lookup. }
  eexists; split; [done|]. destruct (decide (cs = [])) as [->|Hne]; simpl.
  - split_and!; [|congruence..]. split; simpl; try done. by apply NoDup_cons.
  - destruct (final_is_some None cs Hne) as [x Hx]. rewrite Hx. simpl.
    split_and!; [|congruence..]. split; simpl; try done; [by apply NoDup_cons|].
    rewrite Ht, Ht0, final_cons. by apply final_nonempty.
Qed.
End insertion.

Section index_map.
Implicit Types cs a b : list cell.

Lemma index_map_pages cs : ((fun x => (x.2.1, x.1)) <$> cs).*1 = (cs.*2).*1.
Proof. by rewrite <-!list_fmap_compose. Qed.

Lemma index_map_move a x b :
  NoDup ((a ++ x :: b).*2).*1 -> index_map (x :: a ++ b) = index_map (a ++ x :: b).
Proof.
  intros Hnd. symmetry. apply list_to_map_proper; [by rewrite index_map_pages|].
  rewrite fmap_app. simpl. rewrite fmap_app. symmetry. apply Permutation_middle.
Qed.

Lemma index_map_remove a x b :
  NoDup ((a ++ x :: b).*2).*1 -> delete x.2.1 (index_map (a ++ x :: b)) = index_map (a ++ b).
Proof.
  intros Hnd. rewrite <-index_map_move by done. unfold index_map. simpl.
  apply delete_insert_id. apply not_elem_of_list_to_map_1. rewrite index_map_pages.
  rewrite !fmap_app in *. simpl in Hnd. apply NoDup_app in Hnd as (_ & H & [? _]%NoDup_cons). set_solver.
Qed.

Lemma index_map_Some cs pg i :
  index_map cs !! pg = Some i -> exists a d b, cs = a ++ (i, (pg, d)) :: b.
Proof.
  intros H%elem_of_list_to_map_2. apply list_elem_of_fmap in H as ([j [pg' d]] & [= -> ->] & H).
  apply list_elem_of_split in H as (a & b & ->). eauto.
Qed.

Lemma index_map_None cs pg : index_map cs !! pg = None <-> pg ∉ (cs.*2).*1.
Proof.
  rewrite <-index_map_pages. split.
  - apply not_elem_of_list_to_map_2.
  - apply not_elem_of_list_to_map_1.
Qed.

Lemma index_map_size cs : NoDup (cs.*2).*1 -> size (index_map cs) = length cs.
Proof.
  intros Hnd. unfold index_map. rewrite <-index_map_pages in Hnd. revert Hnd.
  induction cs as [|x cs IH]; simpl; [by rewrite map_size_empty|].
  intros [Hn Hnd]%NoDup_cons. rewrite map_size_insert_None; [f_equal; by apply IH|].
  by apply not_elem_of_list_to_map_1.
Qed.
End index_map.

(** ** The abstract cache *)
Record lru_spec := mk_spec {
  s_capacity : nat;
  s_entries : list (N * list byte);   (* most recently used first *)
  s_dirty : gmap N bool }.

Definition s_is_dirty (pg : N) (s : gmap N bool) : bool := default false (s !! pg).

Definition drop_page (pg : N) (es : list (N * list byte)) : list (N * list byte) :=
  filter (fun e => e.1 <> pg) es.

(** Drops the least recently used clean page; [None] when every page is dirty. *)
Fixpoint remove_last_clean (dt : gmap N bool) (es : list (N * list byte))
    : option (list (N * list byte)) :=
  match es with
  | [] => None
  | e :: es =>
    match remove_last_clean dt es with
    | Some r => Some (e :: r)
    | None => if s_is_dirty e.1 dt then None else Some es
    end
  end.

Definition s_evict (s : lru_spec) : lru_spec :=
  if decide (s_capacity s < length (s_entries s)) then
    mk_spec (s_capacity s)
      (default (s_entries s) (remove_last_clean (s_dirty s) (s_entries s))) (s_dirty s)
  else s.

Definition s_lookup (pg : N) (s : lru_spec) : option (list byte) :=
  (list_to_map (s_entries s) : gmap N (list byte)) !! pg.

Definition s_use (pg : N) (d : list byte) (s : lru_spec) : lru_spec :=
  mk_spec (s_capacity s) ((pg, d) :: drop_page pg (s_entries s)) (s_dirty s).

Definition s_mark_dirty (pg : N) (s : lru_spec) : lru_spec :=
  mk_spec (s_capacity s) (s_entries s) (<[pg := true]> (s_dirty s)).

Inductive lru_op :=
| OpGet (pg : N)
| OpGetReadOnly (pg : N)
| OpPut (pg : N) (d : list byte)
| OpPutDirty (pg : N) (d : list byte)
| OpMarkDirty (pg : N)
| OpClearDirty (pg : N)
| OpClearAllDirty
| OpRemove (pg : N).

Definition s_op (o : lru_op) (s : lru_spec) : option (list byte) * lru_spec :=
  match o with
  | OpGet pg =>
    (s_lookup pg s, match s_lookup pg s with Some d => s_use pg d s | None => s end)
  | OpGetReadOnly pg => (s_lookup pg s, s)
  | OpPut pg d =>
    (None, match s_lookup pg s with Some _ => s_use pg d s | None => s_evict (s_use pg d s) end)
  | OpPutDirty pg d =>
    (None, match s_lookup pg s with
           | Some _ => s_mark_dirty pg (s_use pg d s)
           | None => s_evict (s_mark_dirty pg (s_use pg d s))
           end)
  | OpMarkDirty pg => (None, s_mark_dirty pg s)
  | OpClearDirty pg => (None, mk_spec (s_capacity s) (s_entries s) (delete pg (s_dirty s)))
  | OpClearAllDirty => (None, mk_spec (s_capacity s) (s_entries s) ∅)
  | OpRemove pg =>
    (None, match s_lookup pg s with
           | Some _ => mk_spec (s_capacity s) (drop_page pg (s_entries s)) (delete pg (s_dirty s))
           | None => s
           end)
  end.

Definition run_op (o : lru_op) (c : LRUCacheInner) : option (option (list byte) * LRUCacheInner) :=
  match o with
  | OpGet pg => lru_get pg c
  | OpGetReadOnly pg => r ← lru_get_read_only pg c; Some (r, c)
  | OpPut pg d => c ← lru_put pg d c; Some (None, c)
  | OpPutDirty pg d => c ← put_dirty_atomic pg d c; Some (None, c)
  | OpMarkDirty pg => Some (None, mark_dirty pg c)
  | OpClearDirty pg => Some (None, clear_dirty pg c)
  | OpClearAllDirty => Some (None, clear_all_dirty c)
  | OpRemove pg => c ← lru_remove pg c; Some (None, c)
  end.

(** A sequence of calls, with the results of the reads. *)
Fixpoint run_ops (os : list lru_op) (c : LRUCacheInner)
    : option (list (option (list byte)) * LRUCacheInner) :=
  match os with
  | [] => Some ([], c)
  | o :: os =>
    '(r, c) ← run_op o c;
    '(rs, c) ← run_ops os c;
    Some (r :: rs, c)
  end.

Fixpoint s_ops (os : list lru_op) (s : lru_spec) : list (option (list byte)) * lru_spec :=
  match os with
  | [] => ([], s)
  | o :: os => let '(r, s) := s_op o s in let '(rs, s) := s_ops os s in (r :: rs, s)
  end.

(** The refinement relation. *)
Definition lru_rel (c : LRUCacheInner) (s : lru_spec) : Prop :=
  exists cs, lru_inv c cs /\
    s = mk_spec (capacity c) cs.*2 (dirty c).

Section refinement.
Implicit Types (c : LRUCacheInner) (cs a b : list cell).

Lemma remove_last_clean_snoc dt es e :
  remove_last_clean dt (es ++ [e]) =
    if s_is_dirty e.1 dt then (fun r => r ++ [e]) <$> remove_last_clean dt es else Some es.
Proof.
  induction es as [|x es IH]; simpl.
  - by destruct (s_is_dirty e.1 dt).
  - rewrite IH. destruct (s_is_dirty e.1 dt); [|done].
    destruct (remove_last_clean dt es); [done|]. simpl. by destruct (s_is_dirty x.1 dt).
Qed.

Lemma drop_page_cells a i pg d b :
  NoDup ((a ++ (i, (pg, d)) :: b).*2).*1 ->
  drop_page pg ((a ++ (i, (pg, d)) :: b).*2) = (a ++ b).*2.
Proof.
  intros Hnd. unfold drop_page. rewrite !fmap_app in *. simpl in *.
  apply NoDup_app in Hnd as (_ & Hx & [Hb _]%NoDup_cons).
  rewrite filter_app, filter_cons_False by naive_solver. f_equal.
  - apply list_filter_all. apply Forall_forall. intros [pg' d'] Hin ?. simpl in *. subst.
    apply (Hx pg); [|by left]. apply list_elem_of_fmap. by eexists (_, _).
  - apply list_filter_all. apply Forall_forall. intros [pg' d'] Hin ?. simpl in *. subst.
    apply Hb. apply list_elem_of_fmap. by eexists (_, _).
Qed.

Lemma drop_page_absent pg (es : list (N * list byte)) : pg ∉ es.*1 -> drop_page pg es = es.
Proof.
  intros Hn. apply list_filter_all, Forall_forall. intros [pg' d] Hin ?. simpl in *. subst.
  apply Hn. apply list_elem_of_fmap. by eexists (_, _).
Qed.

(** A page is either found in the index map and among the cells, or in neither. *)
Lemma lru_lookup c cs pg :
  lru_inv c cs ->
  (exists a i d b, cs = a ++ (i, (pg, d)) :: b /\ cache c !! pg = Some i /\
     s_lookup pg (mk_spec (capacity c) cs.*2 (dirty c)) = Some d) \/
  (pg ∉ (cs.*2).*1 /\ cache c !! pg = None /\
     s_lookup pg (mk_spec (capacity c) cs.*2 (dirty c)) = None).
Proof.
  intros [_ Hnd Hc]. destruct (cache c !! pg) as [i|] eqn:H; rewrite Hc in H.
  - left. apply index_map_Some in H as (a & d & b & ->). exists a, i, d, b. split_and!; [done|done|].
    unfold s_lookup. simpl. apply elem_of_list_to_map_1; [done|].
    rewrite fmap_app. simpl. set_solver.
  - right. apply index_map_None in H. split_and!; [done|done|].
    by apply not_elem_of_list_to_map_1.
Qed.

Lemma inv_after_front c c' a x b :
  lru_inv c (a ++ x :: b) -> links c' (x :: a ++ b) -> cache c' = cache c ->
  lru_inv c' (x :: a ++ b).
Proof.
  intros [_ Hnd Hc] Hl Hcc. split; [done| |].
  - eapply NoDup_Permutation_proper; [|exact Hnd]. do 2 apply fmap_Permutation. apply Permutation_middle.
  - by rewrite Hcc, Hc, index_map_move.
Qed.

(** A hit: the cell moves to the front, possibly with new data. *)
Lemma hit_spec c a i pg d b :
  lru_inv c (a ++ (i, (pg, d)) :: b) ->
  exists c', move_to_front i c = Some c' /\ lru_inv c' ((i, (pg, d)) :: a ++ b) /\
    capacity c' = capacity c /\ dirty c' = dirty c /\
    drop_page pg ((a ++ (i, (pg, d)) :: b).*2) = (a ++ b).*2.
Proof.
  intros Hi. destruct (move_to_front_spec c a i (pg, d) b) as (c' & H1 & H2 & H3 & H4 & H5); [apply Hi|].
  exists c'. split; [done|]. split; [by eapply inv_after_front|].
  split_and!; [done|done|]. apply drop_page_cells, Hi.
Qed.

Lemma set_data_spec c i pg d d' cs :
  lru_inv c ((i, (pg, d)) :: cs) ->
  exists c', modify_node i (set_data d') c = Some c' /\ lru_inv c' ((i, (pg, d')) :: cs) /\
    capacity c' = capacity c /\ dirty c' = dirty c.
Proof.
  intros [[[Hi Hs] Hnd Hh Ht Hfn Hf] Hpg Hc]. unfold modify_node, slot_at. rewrite Hi. simpl.
  eexists; split; [done|]. split; [|done].
  pose proof (lookup_lt_Some _ _ _ Hi) as Hlt.
  split; simpl; [|done|done]. split; simpl; try done.
  - split; [by rewrite list_lookup_insert_eq|].
    apply NoDup_cons in Hnd as [Hni Hnd].
    eapply (dseg_agree [i]); [apply agree_insert; set_solver| |done]. simpl in Hni. set_solver.
  - by rewrite Ht, !final_cons.
  - intros k. destruct (decide (k = i)) as [->|Hk].
    + rewrite list_lookup_insert_eq by done. rewrite Hf, Hi. naive_solver.
    + by rewrite list_lookup_insert_ne.
Qed.

Lemma remove_cell_spec c c0 a i e b :
  lru_inv c0 (a ++ (i, e) :: b) -> c = with_cache (delete e.1 (cache c0)) c0 ->
  exists c', remove_node i c = Some c' /\ lru_inv c' (a ++ b) /\
    capacity c' = capacity c0 /\ dirty c' = dirty c0.
Proof.
  intros [Hl Hnd Hc] ->.
  destruct (remove_node_spec (with_cache (delete e.1 (cache c0)) c0) a i e b) as (c' & H1 & H2 & H3 & H4 & H5).
  { by destruct Hl. }
  exists c'. split; [done|]. split; [|done]. split; [done| |].
  - rewrite !fmap_app in *. simpl in Hnd. apply NoDup_app in Hnd as (? & Hx & [? ?]%NoDup_cons).
    apply NoDup_app. set_solver.
  - rewrite H3. simpl. rewrite Hc. by apply (index_map_remove a (i, e) b).
Qed.

Lemma evict_loop_spec c a b n :
  lru_inv c (a ++ b) -> length a <= n ->
  match remove_last_clean (dirty c) a.*2 with
  | Some es => exists c' cs, evict_loop n (final None a) c = Some (true, c') /\ lru_inv c' cs /\
      cs.*2 = es ++ b.*2 /\ capacity c' = capacity c /\ dirty c' = dirty c
  | None => evict_loop n (final None a) c = Some (false, c)
  end.
Proof.
  revert b n. induction a as [|[i [pg d]] a IH] using rev_ind; intros b n Hinv Hn; simpl.
  { by destruct n. }
  rewrite final_snoc, fmap_app. simpl. rewrite remove_last_clean_snoc. simpl.
  rewrite length_app in Hn. simpl in Hn. destruct n as [|n]; [lia|].
  rewrite <-app_assoc in Hinv. simpl in Hinv.
  pose proof (links_seg _ _ (inv_links _ _ Hinv)) as Hs.
  rewrite dseg_app in Hs. destruct Hs as (_ & Hi & _).
  simpl. unfold slot_at. rewrite Hi. simpl. unfold is_dirty, s_is_dirty.
  destruct (default false (dirty c !! pg)) eqn:Hdt.
  - specialize (IH _ n Hinv ltac:(lia)). destruct (remove_last_clean (dirty c) a.*2) as [es|]; [|done].
    destruct IH as (c' & cs & H1 & H2 & H3 & H4). exists c', cs. split_and!; [done|done| |apply H4..].
    rewrite H3. simpl. by rewrite <-app_assoc.
  - destruct (remove_cell_spec (with_cache (delete pg (cache c)) c) c a i (pg, d) b) as (c' & H1 & H2 & H3 & H4);
      [done|done|].
    rewrite H1. simpl. eexists _, (a ++ b). split; [done|].
    split; [by destruct H2 as [[]]|]. by rewrite fmap_app.
Qed.

Lemma evict_spec c cs :
  lru_inv c cs -> capacity c < length cs ->
  exists c', evict c = Some c' /\ lru_rel c' (s_evict (mk_spec (capacity c) cs.*2 (dirty c))).
Proof.
  intros Hinv Hlt. unfold evict, s_evict. simpl. rewrite length_fmap, decide_True by done.
  pose proof (evict_loop_spec c cs [] (size (cache c))) as H. rewrite app_nil_r in H.
  rewrite (inv_cache _ _ Hinv), index_map_size in H by apply Hinv. specialize (H Hinv ltac:(lia)).
  rewrite (inv_cache _ _ Hinv), index_map_size by apply Hinv.
  rewrite (links_tail _ _ (inv_links _ _ Hinv)).
  destruct (remove_last_clean (dirty c) cs.*2) as [es|].
  - destruct H as (c' & cs' & -> & Hi & Hes & Hcap & Hd). simpl. eexists; split; [done|].
    exists cs'. split; [done|]. by rewrite Hes, app_nil_r, Hcap, Hd.
  - rewrite H. simpl. eexists; split; [done|]. exists cs. split; [|done]. by destruct Hinv as [[]].
Qed.
End refinement.

Section operations.
Implicit Types (c : LRUCacheInner) (cs a b : list cell) (s : lru_spec).

Lemma lru_new_rel cap : lru_rel (lru_new cap) (mk_spec cap [] ∅).
Proof.
  exists []. split; [|done]. split; [|constructor|done].
  split; simpl; try done; try constructor; rewrite ?elem_of_nil, ?lookup_nil; done.
Qed.

Lemma run_put_hit c a i pg d d' b :
  lru_inv c (a ++ (i, (pg, d)) :: b) ->
  exists c', (c ← move_to_front i c; modify_node i (set_data d') c) = Some c' /\
    capacity c' = capacity c /\ dirty c' = dirty c /\ lru_inv c' ((i, (pg, d')) :: a ++ b) /\
    drop_page pg ((a ++ (i, (pg, d)) :: b).*2) = (a ++ b).*2.
Proof.
  intros Hi. destruct (hit_spec _ _ _ _ _ _ Hi) as (c1 & H1 & Hi1 & Hcap1 & Hd1 & Hdrop).
  destruct (set_data_spec _ _ _ _ d' _ Hi1) as (c2 & H2 & Hi2 & Hcap2 & Hd2).
  exists c2. rewrite H1. simpl. rewrite H2. split_and!; try done; congruence.
Qed.

Lemma run_put_miss c cs pg d :
  lru_inv c cs -> pg ∉ (cs.*2).*1 ->
  exists i c', add_to_front pg d c = Some c' /\ lru_inv c' ((i, (pg, d)) :: cs) /\
    capacity c' = capacity c /\ dirty c' = dirty c /\ size (cache c') = S (length cs).
Proof.
  intros [Hl Hnd Hc] Hpg. destruct (add_to_front_spec c cs pg d Hl) as (i & c' & H1 & H2 & H3 & H4 & H5).
  assert (lru_inv c' ((i, (pg, d)) :: cs)) as Hinv.
  { split; [done|by apply NoDup_cons|]. by rewrite H3, Hc. }
  exists i, c'. split_and!; try done. rewrite (inv_cache _ _ Hinv). by rewrite index_map_size by apply Hinv.
Qed.

Lemma set_dirty_inv c cs d : lru_inv c cs -> lru_inv (with_dirty d c) cs.
Proof. by intros [[] ? ?]. Qed.

(** The eviction that ends an insertion. *)
Lemma insert_evict c cs :
  lru_inv c cs -> size (cache c) = length cs ->
  exists c', (if decide (capacity c < size (cache c)) then evict c else Some c) = Some c' /\
    lru_rel c' (s_evict (mk_spec (capacity c) cs.*2 (dirty c))).
Proof.
  intros Hinv Hsz. rewrite Hsz. case_decide as Hlt; [by apply evict_spec|].
  exists c. split; [done|]. unfold s_evict. simpl. rewrite length_fmap, decide_False by done.
  by exists cs.
Qed.

Lemma run_op_refines o c s :
  lru_rel c s -> exists c', run_op o c = Some ((s_op o s).1, c') /\ lru_rel c' (s_op o s).2.
Proof.
  intros (cs & Hi & ->). destruct o as [pg|pg|pg d|pg d|pg|pg| |pg]; simpl;
    try (eexists; split; [done|]; exists cs; split; [by apply set_dirty_inv|done]).
  - unfold lru_get. destruct (lru_lookup _ _ pg Hi) as [(a & i & d & b & -> & -> & ->)|(_ & -> & ->)].
    + destruct (hit_spec _ _ _ _ _ _ Hi) as (c1 & -> & Hi1 & Hcap & Hd & Hdrop). simpl.
      destruct (links_seg _ _ (inv_links _ _ Hi1)) as [Hn _]. unfold slot_at. rewrite Hn. simpl.
      eexists; split; [done|]. eexists; split; [exact Hi1|]. unfold s_use. simpl. by rewrite Hdrop, Hcap, Hd.
    + eexists; split; [done|]. by exists cs.
  - unfold lru_get_read_only. destruct (lru_lookup _ _ pg Hi) as [(a & i & d & b & -> & -> & ->)|(_ & -> & ->)].
    + pose proof (links_seg _ _ (inv_links _ _ Hi)) as Hs. rewrite dseg_app in Hs.
      destruct Hs as (_ & Hn & _). unfold slot_at. rewrite Hn. simpl. eexists; split; [done|]. by eexists.
    + eexists; split; [done|]. by exists cs.
  - unfold lru_put. destruct (lru_lookup _ _ pg Hi) as [(a & i & d' & b & -> & -> & ->)|(Hpg & -> & ->)].
    + destruct (run_put_hit _ _ _ _ _ d _ Hi) as (c1 & -> & Hcap & Hd & Hi1 & Hdrop). simpl.
      eexists; split; [done|]. eexists; split; [exact Hi1|]. unfold s_use. simpl. by rewrite Hdrop, Hcap, Hd.
    + destruct (run_put_miss _ _ _ d Hi Hpg) as (i & c1 & -> & Hi1 & Hcap & Hd & Hsz). simpl.
      destruct (insert_evict _ _ Hi1 Hsz) as (c2 & -> & Hr). simpl. eexists; split; [done|].
      unfold s_use. simpl. rewrite drop_page_absent by done. by rewrite <-Hcap, <-Hd.
  - unfold put_dirty_atomic. destruct (lru_lookup _ _ pg Hi) as [(a & i & d' & b & -> & -> & ->)|(Hpg & -> & ->)].
    + destruct (run_put_hit _ _ _ _ _ d _ Hi) as (c1 & H1 & Hcap & Hd & Hi1 & Hdrop).
      destruct (move_to_front i c) as [c0|]; [|done]. simpl in *. rewrite H1. simpl.
      eexists; split; [done|]. eexists; split; [by apply set_dirty_inv, Hi1|].
      unfold s_use, s_mark_dirty. simpl. by rewrite Hdrop, Hcap, Hd.
    + destruct (run_put_miss _ _ _ d Hi Hpg) as (i & c1 & -> & Hi1 & Hcap & Hd & Hsz). simpl.
      assert (lru_inv (mark_dirty pg c1) ((i, (pg, d)) :: cs)) as Hi2 by (by apply set_dirty_inv).
      destruct (insert_evict _ _ Hi2 Hsz) as (c2 & H2 & Hr). simpl in H2. rewrite H2. simpl. eexists; split; [done|].
      unfold s_use, s_mark_dirty. simpl in *. rewrite drop_page_absent by done. by rewrite <-Hcap, <-Hd.
  - unfold lru_remove. destruct (lru_lookup _ _ pg Hi) as [(a & i & d & b & -> & -> & ->)|(_ & -> & ->)].
    + destruct (remove_cell_spec _ c a i (pg, d) b Hi eq_refl) as (c1 & H1 & Hi1 & Hcap & Hd).
      simpl in H1. rewrite H1. simpl. eexists; split; [done|].
      eexists; split; [by apply set_dirty_inv, Hi1|]. simpl.
      rewrite drop_page_cells by apply Hi. by rewrite Hcap, Hd.
    + eexists; split; [done|]. by exists cs.
Qed.

Lemma run_ops_refines os c s :
  lru_rel c s -> exists c', run_ops os c = Some ((s_ops os s).1, c') /\ lru_rel c' (s_ops os s).2.
Proof.
  revert c s. induction os as [|o os IH]; intros c s Hr; simpl; [by exists c|].
  destruct (run_op_refines o c s Hr) as (c1 & H1 & Hr1). rewrite H1. simpl.
  destruct (s_op o s) as [r s1] eqn:Ho. simpl in *.
  destruct (IH c1 s1 Hr1) as (c2 & H2 & Hr2). rewrite H2. simpl.
  destruct (s_ops os s1) as [rs s2]. by exists c2.
Qed.
End operations.

(** ** Dirty pages are never evicted *)
Section dirty_pages.
Implicit Types (c : LRUCacheInner) (s : lru_spec).

(** The operations that write, clean or drop page [pg]. *)
Definition op_touches (pg : N) (o : lru_op) : bool :=
  match o with
  | OpGet _ | OpGetReadOnly _ | OpMarkDirty _ => false
  | OpPut p _ | OpPutDirty p _ | OpClearDirty p | OpRemove p => bool_decide (p = pg)
  | OpClearAllDirty => true
  end.

Definition s_holds (pg : N) (d : list byte) (s : lru_spec) : Prop :=
  (pg, d) ∈ s_entries s /\ NoDup (s_entries s).*1 /\ s_is_dirty pg (s_dirty s) = true.

Lemma remove_last_clean_keeps dt es r pg d :
  remove_last_clean dt es = Some r -> (pg, d) ∈ es -> s_is_dirty pg dt = true -> (pg, d) ∈ r.
Proof.
  revert r. induction es as [|e es IH]; intros r; simpl; [done|]. intros Hr Hin Hd.
  destruct (remove_last_clean dt es) as [r'|].
  - simplify_eq. apply elem_of_cons in Hin as [->|?]; [by left|right; auto].
  - destruct (s_is_dirty e.1 dt) eqn:He; simplify_eq.
    apply elem_of_cons in Hin as [<-|?]; [|done]. simpl in He. congruence.
Qed.

Lemma remove_last_clean_sublist dt es r : remove_last_clean dt es = Some r -> r `sublist_of` es.
Proof.
  revert r. induction es as [|e es IH]; intros r; simpl; [done|].
  destruct (remove_last_clean dt es) as [r'|]; [intros [= <-]; constructor; auto|].
  destruct (s_is_dirty e.1 dt); intros [= <-]. by constructor.
Qed.

Lemma drop_page_holds pg pg' d (es : list (N * list byte)) :
  (pg, d) ∈ es -> pg' <> pg -> (pg, d) ∈ drop_page pg' es.
Proof. intros. apply list_elem_of_filter. naive_solver. Qed.

Lemma drop_page_NoDup pg (es : list (N * list byte)) :
  NoDup es.*1 -> NoDup (drop_page pg es).*1 /\ pg ∉ (drop_page pg es).*1.
Proof.
  intros Hnd. split.
  - eapply sublist_NoDup; [exact Hnd|]. apply fmap_sublist, sublist_filter.
  - unfold drop_page. intros ((p & d) & -> & Hin)%list_elem_of_fmap.
    apply list_elem_of_filter in Hin. naive_solver.
Qed.

Lemma s_use_holds pg d pg' d' s :
  s_holds pg d s -> (pg' = pg -> d' = d) -> s_holds pg d (s_use pg' d' s).
Proof.
  intros (Hin & Hnd & Hd) Heq. unfold s_use. split_and!; simpl; [| |done].
  - destruct (decide (pg' = pg)) as [->|Hne]; [rewrite Heq by done; by left|].
    right. by apply drop_page_holds.
  - apply NoDup_cons. apply and_comm. by apply drop_page_NoDup.
Qed.

Lemma s_mark_holds pg d pg' s : s_holds pg d s -> s_holds pg d (s_mark_dirty pg' s).
Proof.
  intros (Hin & Hnd & Hd). split_and!; [done..|]. unfold s_is_dirty, s_mark_dirty in *. simpl.
  rewrite lookup_insert. by case_decide.
Qed.

Lemma s_evict_holds pg d s : s_holds pg d s -> s_holds pg d (s_evict s).
Proof.
  intros (Hin & Hnd & Hd). unfold s_evict. case_decide; [|done].
  destruct (remove_last_clean (s_dirty s) (s_entries s)) as [r|] eqn:Hr; simpl; [|done].
  split_and!; simpl; [by eapply remove_last_clean_keeps| |done].
  eapply sublist_NoDup; [exact Hnd|]. apply fmap_sublist. by eapply remove_last_clean_sublist.
Qed.

Lemma s_lookup_In pg d s : s_holds pg d s -> s_lookup pg s = Some d.
Proof. intros (Hin & Hnd & _). by apply elem_of_list_to_map_1. Qed.

Lemma s_op_holds pg d o s :
  op_touches pg o = false -> s_holds pg d s -> s_holds pg d (s_op o s).2.
Proof.
  intros Ht Hh. destruct o as [p|p|p d'|p d'|p|p| |p]; simpl in *; try done;
    try (apply bool_decide_eq_false in Ht).
  - destruct (s_lookup p s) as [dp|] eqn:Hp; [|done]. apply s_use_holds; [done|]. intros ->.
    rewrite (s_lookup_In pg d s Hh) in Hp. congruence.
  - destruct (s_lookup p s); [|apply s_evict_holds]; apply s_use_holds; naive_solver.
  - destruct (s_lookup p s); [|apply s_evict_holds]; apply s_mark_holds, s_use_holds; naive_solver.
  - by apply s_mark_holds.
  - destruct Hh as (? & ? & Hd). split_and!; [done..|]. unfold s_is_dirty in *. simpl. by rewrite lookup_delete_ne.
  - destruct (s_lookup p s); [|done]. destruct Hh as (? & ? & Hd). split_and!; simpl.
    + by apply drop_page_holds.
    + by apply drop_page_NoDup.
    + unfold s_is_dirty in *. by rewrite lookup_delete_ne.
Qed.

Lemma s_ops_holds pg d os s :
  forallb (fun o => negb (op_touches pg o)) os = true ->
  s_holds pg d s -> s_holds pg d (s_ops os s).2.
Proof.
  revert s. induction os as [|o os IH]; intros s; simpl; [done|]. intros [Ho Hos]%andb_prop Hh.
  apply negb_true_iff in Ho. pose proof (s_op_holds pg d o s Ho Hh) as H1.
  destruct (s_op o s) as [r s1]. specialize (IH s1 Hos H1). by destruct (s_ops os s1).
Qed.
End dirty_pages.

Section cache_theorems.
Implicit Types (c : LRUCacheInner) (s : lru_spec).

Definition s_new (cap : nat) : lru_spec :=
  mk_spec (if decide (cap = 0) then DEFAULT_CACHE_SIZE else cap) [] ∅.

Lemma s_ops_app os os' s :
  s_ops (os ++ os') s =
    ((s_ops os s).1 ++ (s_ops os' (s_ops os s).2).1, (s_ops os' (s_ops os s).2).2).
Proof.
  revert s. induction os as [|o os IH]; intros s; simpl; [by destruct (s_ops os' s)|].
  destruct (s_op o s) as [r s1]. rewrite IH. by destruct (s_ops os s1) as [rs s2].
Qed.

Lemma lru_rel_nodup c s : lru_rel c s -> NoDup (s_entries s).*1.
Proof. intros (cs & [_ Hnd _] & ->). done. Qed.

Lemma lru_rel_len c s : lru_rel c s -> lru_len c = length (s_entries s) /\ capacity c = s_capacity s.
Proof.
  intros (cs & Hi & ->). unfold lru_len. simpl.
  by rewrite (inv_cache _ _ Hi), index_map_size, length_fmap by apply Hi.
Qed.

Lemma lru_rel_all_dirty c s :
  lru_rel c s -> Forall (fun e => s_is_dirty e.1 (s_dirty s) = true) (s_entries s) ->
  forall pg i, cache c !! pg = Some i -> is_dirty pg c = true.
Proof.
  intros (cs & Hi & ->) Hf pg i Hc. simpl in Hf. rewrite (inv_cache _ _ Hi) in Hc.
  apply index_map_Some in Hc as (a & d & b & ->).
  rewrite fmap_app, Forall_app in Hf. destruct Hf as [_ Hf]. simpl in Hf.
  by apply Forall_cons in Hf as [? _].
Qed.

Lemma put_dirty_holds pg d s : NoDup (s_entries s).*1 -> s_holds pg d (s_op (OpPutDirty pg d) s).2.
Proof.
  intros Hnd. assert (s_holds pg d (s_mark_dirty pg (s_use pg d s))) as H.
  { split_and!; simpl.
    - by left.
    - apply NoDup_cons, and_comm. by apply drop_page_NoDup.
    - unfold s_is_dirty. by rewrite lookup_insert_eq. }
  simpl. destruct (s_lookup pg s); [done|by apply s_evict_holds].
Qed.

Lemma remove_last_clean_length dt es r :
  remove_last_clean dt es = Some r -> length es = S (length r).
Proof.
  revert r. induction es as [|e es IH]; intros r; simpl; [done|].
  destruct (remove_last_clean dt es) as [r'|]; [intros [= <-]; simpl; by rewrite <-(IH r')|].
  by destruct (s_is_dirty e.1 dt); intros [= <-].
Qed.

Lemma remove_last_clean_None dt es :
  remove_last_clean dt es = None -> Forall (fun e => s_is_dirty e.1 dt = true) es.
Proof.
  induction es as [|e es IH]; simpl; [by constructor|].
  destruct (remove_last_clean dt es); [done|]. destruct (s_is_dirty e.1 dt) eqn:H; [|done].
  intros _. constructor; auto.
Qed.

Lemma drop_page_length pg d (es : list (N * list byte)) :
  NoDup es.*1 -> (pg, d) ∈ es -> length es = S (length (drop_page pg es)).
Proof.
  intros Hnd (a & b & ->)%list_elem_of_split. unfold drop_page. rewrite filter_app, filter_cons_False by naive_solver.
  change (filter _ a) with (drop_page pg a). change (filter _ b) with (drop_page pg b).
  rewrite fmap_app in Hnd. simpl in Hnd. apply NoDup_app in Hnd as (_ & Hx & [Hb _]%NoDup_cons).
  rewrite !drop_page_absent by set_solver. rewrite !length_app. simpl. lia.
Qed.

Lemma s_lookup_elem pg s d : s_lookup pg s = Some d -> (pg, d) ∈ s_entries s.
Proof. apply elem_of_list_to_map_2. Qed.

Lemma s_evict_length s n :
  length (s_entries s) <= S n -> s_capacity s <= n ->
  length (s_entries (s_evict s)) <= n \/
  length (s_entries (s_evict s)) = S n /\
    Forall (fun e => s_is_dirty e.1 (s_dirty s) = true) (s_entries s) /\ s_evict s = s.
Proof.
  intros Hn Hc. unfold s_evict. case_decide as Hd; [|left; lia].
  destruct (remove_last_clean (s_dirty s) (s_entries s)) as [r|] eqn:Hr; simpl.
  - apply remove_last_clean_length in Hr. left. lia.
  - destruct (decide (length (s_entries s) <= n)); [by left|]. right.
    split_and!; [lia|by apply remove_last_clean_None|by destruct s].
Qed.

(** C28: for every sequence of calls on a new cache, the slab implementation never panics,
    returns exactly what the abstract recency list returns, and ends in a state that
    represents the list's state. *)
Theorem lru_refines_recency_list cap os :
  exists c, run_ops os (LRUCache_new cap) = Some ((s_ops os (s_new cap)).1, c) /\
    lru_rel c (s_ops os (s_new cap)).2.
Proof. apply run_ops_refines. unfold LRUCache_new, s_new. case_decide; apply lru_new_rel. Qed.

(** A page written with [put_dirty] is never evicted: after any calls before and after
    (other than a write, a clean or a removal of that page), reading it from the cache gives
    the bytes that were written. *)
Theorem dirty_page_survives cap os pg d os'
    (Hos : forallb (fun o => negb (op_touches pg o)) os' = true) :
  exists outs c,
    run_ops (os ++ OpPutDirty pg d :: os' ++ [OpGetReadOnly pg]) (LRUCache_new cap) = Some (outs, c) /\
    last outs = Some (Some d).
Proof.
  destruct (run_ops_refines (os ++ OpPutDirty pg d :: os' ++ [OpGetReadOnly pg]) (LRUCache_new cap) (s_new cap))
    as (c & H & _); [unfold LRUCache_new, s_new; case_decide; apply lru_new_rel|].
  destruct (run_ops_refines os (LRUCache_new cap) (s_new cap)) as (c1 & _ & Hr);
    [unfold LRUCache_new, s_new; case_decide; apply lru_new_rel|].
  eexists _, c. split; [exact H|]. clear H. rewrite s_ops_app. set (s1 := (s_ops os (s_new cap)).2) in *.
  pose proof (put_dirty_holds pg d s1 (lru_rel_nodup _ _ Hr)) as Hh.
  cbn [s_ops]. destruct (s_op (OpPutDirty pg d) s1) as [r s2]. simpl in Hh.
  rewrite s_ops_app. pose proof (s_ops_holds pg d os' s2 Hos Hh) as Hh3.
  destruct (s_ops os' s2) as [rs s3]. simpl in *. rewrite (s_lookup_In pg d s3 Hh3).
  by rewrite app_comm_cons, app_assoc, last_snoc.
Qed.

Lemma dirty_page_survives_witness :
  exists outs c,
    run_ops ([OpPut 1 [Byte.x01]] ++ OpPutDirty 7 [Byte.x2a] :: [OpPut 2 []; OpPut 3 []; OpGet 1] ++ [OpGetReadOnly 7])
      (LRUCache_new 1) = Some (outs, c) /\ last outs = Some (Some [Byte.x2a]).
Proof.
  apply (dirty_page_survives 1 [OpPut 1 [Byte.x01]] 7 [Byte.x2a] [OpPut 2 []; OpPut 3 []; OpGet 1]).
  vm_compute. reflexivity.
Defined.

(** The size of the cache before and after an insertion: it grows past its capacity only by
    one page, and only when every page it then holds is dirty. *)
Definition bounded_growth (c c' : LRUCacheInner) : Prop :=
  lru_len c' <= max (capacity c) (lru_len c) \/
  lru_len c' = S (max (capacity c) (lru_len c)) /\
  forall p i, cache c' !! p = Some i -> is_dirty p c' = true.

Lemma s_insert_bounded pg (f : lru_spec -> lru_spec) d c s c' :
  lru_rel c s -> (forall t, s_entries (f t) = s_entries t /\ s_capacity (f t) = s_capacity t) ->
  lru_rel c' (match s_lookup pg s with
              | Some _ => f (s_use pg d s)
              | None => s_evict (f (s_use pg d s))
              end) ->
  bounded_growth c c'.
Proof.
  intros Hr Hf Hr'. destruct (lru_rel_len _ _ Hr) as [Hl Hc]. pose proof (lru_rel_nodup _ _ Hr) as Hnd.
  destruct (lru_rel_len _ _ Hr') as [Hl' _]. pose proof (lru_rel_all_dirty _ _ Hr') as Hall.
  unfold bounded_growth. rewrite Hl', Hl, Hc. destruct (Hf (s_use pg d s)) as [He Hcap].
  destruct (s_lookup pg s) as [dp|] eqn:Hp.
  - left. rewrite He. apply s_lookup_elem in Hp. simpl. rewrite <-(drop_page_length pg dp) by done. lia.
  - destruct (s_evict_length (f (s_use pg d s)) (max (s_capacity s) (length (s_entries s)))) as [?|(Hlen & Hf' & Hee)].
    + rewrite He. simpl. pose proof (length_filter (fun e => e.1 <> pg) (s_entries s)). unfold drop_page. lia.
    + rewrite Hcap. simpl. lia.
    + by left.
    + right. split; [done|]. apply Hall. by rewrite Hee.
Qed.

(** C36: in every reachable state [put] and [put_dirty] succeed, and neither makes the cache
    larger than the larger of its capacity and its size before, except by one page and when
    every page then cached is dirty. (A cache that dirty pages have made larger than its
    capacity stays so when they are cleaned: one insertion evicts at most one page.) *)
Theorem lru_insert_bounded cap os pg d :
  match run_ops os (LRUCache_new cap) with
  | Some (_, c) =>
    (exists c', lru_put pg d c = Some c' /\ bounded_growth c c') /\
    (exists c', put_dirty_atomic pg d c = Some c' /\ bounded_growth c c')
  | None => False
  end.
Proof.
  destruct (run_ops_refines os (LRUCache_new cap) (s_new cap)) as (c & -> & Hr);
    [unfold LRUCache_new, s_new; case_decide; apply lru_new_rel|].
  split.
  - destruct (run_op_refines (OpPut pg d) c _ Hr) as (c' & H1 & Hr'). simpl in H1, Hr'.
    destruct (lru_put pg d c) as [c0|]; simplify_eq/=. exists c'. split; [done|].
    by eapply (s_insert_bounded pg id d c _ c').
  - destruct (run_op_refines (OpPutDirty pg d) c _ Hr) as (c' & H1 & Hr'). simpl in H1, Hr'.
    destruct (put_dirty_atomic pg d c) as [c0|]; simplify_eq/=. exists c'. split; [done|].
    by eapply (s_insert_bounded pg (s_mark_dirty pg) d c _ c').
Qed.
End cache_theorems.
