(* ===== verification/Pager.v ===== *)
(** * The pager ([src/src/core/pager.rs])

    The header page, the free list, the page cache and the database file. Metrics and locks
    carry no state of the pager and are left out; the file is the bytes the operating system
    returns for it, and its calls succeed. *)

From stdpp Require Import base list strings gmap sorting pretty.
From Stdlib Require Import NArith Lia.
From S2P Require Import Prelude Constants Bytes PageStore LruCache.

Record Header := mk_header {
  h_magic : list byte;
  h_version : N;
  h_page_size : N;
  h_num_pages : N;
  h_free_count : N;
  h_metadata_page : N;
  h_next_tx_id : N;
  h_free_list : list N }.

(** The loop that writes the free list and stops at the end of the page. *)
Fixpoint w_free_list (fl : list N) (w : wcursor) : option wcursor :=
  match fl with
  | [] => Some w
  | p :: fl => if decide (PAGE_SIZE < w.1 + 8) then Some w else w ← w_le 8 p w; w_free_list fl w
  end.

(** [Header::serialize]; [None] is a panic. *)
Definition header_serialize (h : Header) : option (list byte) :=
  w ← w_bytes (h_magic h) (0, replicate PAGE_SIZE Byte.x00);
  w ← w_le 4 (h_version h) w;
  w ← w_le 4 (h_page_size h) w;
  w ← w_le 8 (h_num_pages h) w;
  w ← w_le 4 (h_free_count h) w;
  w ← w_le 8 (h_metadata_page h) w;
  w ← w_le 8 (h_next_tx_id h) w;
  w ← w_free_list (h_free_list h) w;
  Some w.2.

(** The loop that reads [count] entries of the free list or stops at the end of the page. *)
Fixpoint r_free_list (count : nat) (off : nat) (data : list byte) : option (list N) :=
  match count with
  | 0 => Some []
  | S count =>
    if decide (PAGE_SIZE < off + 8) then Some [] else
    p ← read_le 8 off data;
    fl ← r_free_list count (off + 8) data;
    Some (p :: fl)
  end.

(** [Header::deserialize]. The conversions that the code maps to [DataCorruption] cannot
    fail, since each slice has the length of its integer. *)
Definition header_deserialize (data : list byte) : Result Header :=
  if decide (length data < PAGE_SIZE) then Err InvalidPageSize else
  let? magic := of_option Panic (slice 0 4 data) in
  if decide (magic <> MAGIC) then Err InvalidMagic else
  let? version := of_option Panic (read_le 4 4 data) in
  if decide (version <> VERSION) then Err InvalidVersion else
  let? page_size := of_option Panic (read_le 4 8 data) in
  if decide (page_size <> N.of_nat PAGE_SIZE) then Err InvalidPageSize else
  let? num_pages := of_option Panic (read_le 8 12 data) in
  let? free_count := of_option Panic (read_le 4 20 data) in
  let? metadata_page := of_option Panic (read_le 8 24 data) in
  let? next_tx_id := of_option Panic (read_le 8 32 data) in
  let? free_list := of_option Panic (r_free_list (N.to_nat free_count) 40 data) in
  Ok (mk_header magic version page_size num_pages free_count metadata_page next_tx_id free_list).

Record Pager := mk_pager {
  file : list byte;
  pcache : LRUCacheInner;
  num_pages : N;
  metadata_page : N;
  next_tx_id : N;
  free_list : list N;
  read_only : bool }.

Definition with_file f s := mk_pager f (pcache s) (num_pages s) (metadata_page s) (next_tx_id s) (free_list s) (read_only s).
Definition with_pcache c s := mk_pager (file s) c (num_pages s) (metadata_page s) (next_tx_id s) (free_list s) (read_only s).
Definition with_num_pages n s := mk_pager (file s) (pcache s) n (metadata_page s) (next_tx_id s) (free_list s) (read_only s).
Definition with_free_list l s := mk_pager (file s) (pcache s) (num_pages s) (metadata_page s) (next_tx_id s) l (read_only s).

Notation PM := (ST Pager Error).

(** An operation on the cache; its panics are the pager's. *)
Definition on_cache {A} (f : LRUCacheInner -> option (A * LRUCacheInner)) : PM A := fun s =>
  match f (pcache s) with
  | Some (a, c) => (Ok a, with_pcache c s)
  | None => (Panic, s)
  end.

Definition on_cache_ (f : LRUCacheInner -> option LRUCacheInner) : PM unit :=
  on_cache (fun c => (fun c' => (tt, c')) <$> f c).

(** [page_num * PAGE_SIZE as u64], in 64 bits. *)
Definition page_offset (p : N) : nat := N.to_nat (wrap_u64 (p * 4096)).

Definition write_at (off : nat) (d : list byte) : PM unit :=
  st_modify (fun s => with_file (file_write off d (file s)) s).

Definition ro_error (what : string) : Error :=
  Other (String.append "cannot " (String.append what ": database is read-only")).

Definition guard_writable (what : string) : PM unit := fun s =>
  if read_only s then (Err (ro_error what), s) else (Ok tt, s).

Definition get_header_data : PM (list byte) := fun s =>
  (of_option Panic (header_serialize (mk_header MAGIC VERSION (N.of_nat PAGE_SIZE)
     (num_pages s) (wrap_u32 (N.of_nat (length (free_list s)))) (metadata_page s)
     (next_tx_id s) (free_list s))), s).

(** [write_header] and [write_header_no_sync] differ in [sync_all], which does not change
    what the file holds. *)
Definition write_header : PM unit :=
  let! _ := guard_writable "write header" in
  let! data := get_header_data in
  write_at 0 data.

Definition write_header_no_sync : PM unit :=
  let! _ := guard_writable "write header" in
  let! data := get_header_data in
  write_at 0 data.

Definition set_num_pages (n : N) : PM unit := st_modify (with_num_pages n).
Definition set_metadata_page (p : N) : PM unit := st_modify (fun s =>
  mk_pager (file s) (pcache s) (num_pages s) p (next_tx_id s) (free_list s) (read_only s)).
Definition set_next_transaction_id (t : N) : PM unit := st_modify (fun s =>
  mk_pager (file s) (pcache s) (num_pages s) (metadata_page s) t (free_list s) (read_only s)).

Definition allocate_transaction_id : PM N := fun s =>
  (Ok (next_tx_id s), (set_next_transaction_id (wrap_u64 (next_tx_id s + 1)) s).2).
Definition get_current_transaction_id : PM N := st_get next_tx_id.

(** The checks of [read_header] on the free list, with the index for the message. *)
Fixpoint check_free_range (i : nat) (n : N) (fl : list N) : option Error :=
  match fl with
  | [] => None
  | p :: fl =>
    if (n <=? p)%N then
      Some (DataCorruption ("invalid free_list entry at index " +:+ pretty i +:+ ": page " +:+
        pretty p +:+ " (must be < num_pages " +:+ pretty n +:+ ")"))
    else if (p =? 0)%N then
      Some (DataCorruption ("invalid free_list entry at index " +:+ pretty i +:+
        ": page 0 (header page) cannot be free"))
    else check_free_range (S i) n fl
  end.

Fixpoint check_free_dup (i : nat) (seen : gset N) (fl : list N) : Error + gset N :=
  match fl with
  | [] => inr seen
  | p :: fl =>
    if decide (p ∈ seen) then
      inl (DataCorruption ("duplicate page " +:+ pretty p +:+ " in free_list at index " +:+
        pretty i +:+ " (same page cannot be free twice)"))
    else check_free_dup (S i) ({[p]} ∪ seen) fl
  end.

(** [read_header]: the checks on the header of an existing file, then the fields. *)
Definition validate_header (file_size : N) (h : Header) : Result unit :=
  let expected_min_size := wrap_u64 (h_num_pages h * 4096) in
  if (h_num_pages h <? 1)%N then
    Err (DataCorruption ("invalid num_pages: " +:+ pretty (h_num_pages h) +:+
      " (must be at least 1 for header page)"))
  else if (file_size <? expected_min_size)%N then
    Err (DataCorruption ("file truncated: header claims " +:+ pretty (h_num_pages h) +:+ " pages (" +:+
      pretty expected_min_size +:+ " bytes) but file is only " +:+ pretty file_size +:+ " bytes"))
  else if (negb (h_metadata_page h =? 0) && (h_num_pages h <=? h_metadata_page h))%N then
    Err (DataCorruption ("invalid metadata_page: " +:+ pretty (h_metadata_page h) +:+
      " (must be < num_pages " +:+ pretty (h_num_pages h) +:+ ")"))
  else
  match check_free_range 0 (h_num_pages h) (h_free_list h) with
  | Some e => Err e
  | None =>
    match check_free_dup 0 ∅ (h_free_list h) with
    | inl e => Err e
    | inr seen =>
      if decide (h_metadata_page h <> 0%N /\ h_metadata_page h ∈ seen) then
        Err (DataCorruption ("metadata_page " +:+ pretty (h_metadata_page h) +:+
          " is in free_list (metadata page is in use, cannot be free)"))
      else Ok tt
    end
  end.

Definition read_header : PM unit :=
  let! file_size := st_get (fun s => N.of_nat (length (file s))) in
  let! buf := (fun s => (file_read 0 PAGE_SIZE (file s), s)) in
  let! h := st_lift (header_deserialize buf) in
  let! _ := st_lift (validate_header file_size h) in
  st_modify (fun s => mk_pager (file s) (pcache s) (h_num_pages h) (h_metadata_page h)
    (h_next_tx_id h) (h_free_list h) (read_only s)).

(** [Pager::open] on the file's bytes, [None] when there is no file; setting the file's
    permissions is not modelled. *)
Definition pager_open (existing : option (list byte)) (cache_size : nat) (ro : bool) : outcome Error unit * Pager :=
  let new f := mk_pager f (LRUCache_new cache_size) 1 0 1 [] ro in
  match existing with
  | Some f => read_header (new f)
  | None => if ro then (Err (Io "No such file or directory (os error 2)"), new [])
            else write_header (new [])
  end.

(** [read_page]: a hit moves the page to the front of the cache; a miss reads the file and
    caches the page. *)
Definition read_page (p : N) : PM (list byte) :=
  let! hit := on_cache (lru_get p) in
  match hit with
  | Some data => st_ret data
  | None =>
    let! buf := (fun s => (file_read (page_offset p) PAGE_SIZE (file s), s)) in
    let! _ := on_cache_ (lru_put p buf) in
    st_ret buf
  end.

(** [read_page_shared]: a hit leaves the order of the cache alone. *)
Definition read_page_shared (p : N) : PM (list byte) :=
  let! hit := on_cache (fun c => (fun r => (r, c)) <$> lru_get_read_only p c) in
  match hit with
  | Some data => st_ret data
  | None =>
    let! buf := (fun s => (file_read (page_offset p) PAGE_SIZE (file s), s)) in
    let! _ := on_cache_ (lru_put p buf) in
    st_ret buf
  end.

Definition write_page (p : N) (data : list byte) : PM unit :=
  let! _ := guard_writable "write page" in
  if decide (length data <> PAGE_SIZE) then st_fail InvalidPageSize else
  let! _ := on_cache_ (lru_put p data) in
  on_cache_ (fun c => Some (mark_dirty p c)).

Definition write_page_transfer (p : N) (data : list byte) : PM unit :=
  let! _ := guard_writable "write page" in
  if decide (length data <> PAGE_SIZE) then st_fail InvalidPageSize else
  on_cache_ (put_dirty_atomic p data).

(** The [while let] loop of [alloc_page_minimum] over the reversed free list: pages below
    [min_page] are popped and dropped. *)
Fixpoint pop_free (min_page : N) (rfl : list N) : option N * list N :=
  match rfl with
  | [] => (None, [])
  | p :: rfl => if (min_page <=? p)%N then (Some p, rfl) else pop_free min_page rfl
  end.

Definition alloc_page_minimum (min_page : N) : PM N :=
  let! _ := guard_writable "allocate page" in
  fun s =>
    match pop_free min_page (reverse (free_list s)) with
    | (Some p, rfl) => (Ok p, with_free_list (reverse rfl) s)
    | (None, rfl) =>
      (Ok (num_pages s), with_num_pages (wrap_u64 (num_pages s + 1)) (with_free_list (reverse rfl) s))
    end.

Definition alloc_page : PM N := alloc_page_minimum 0.

Definition free_page (p : N) : PM unit :=
  let! _ := guard_writable "free page" in
  let! _ := st_modify (fun s => with_free_list (vec_push (free_list s) p) s) in
  on_cache_ (lru_remove p).

(** ** Writing pages to the file *)

(** The pages that extend a batch: consecutive page numbers after [p]. *)
Fixpoint take_batch (p : N) (rest : list (N * list byte))
    : list (N * list byte) * list (N * list byte) :=
  match rest with
  | (q, d) :: rest' =>
    if (q =? wrap_u64 (p + 1))%N then let '(b, r) := take_batch q rest' in ((q, d) :: b, r)
    else ([], rest)
  | [] => ([], [])
  end.

(** The outer loop of [write_pages_direct]: one write per batch of consecutive pages. *)
Fixpoint write_batches (fuel : nat) (pages : list (N * list byte)) : PM unit :=
  match pages, fuel with
  | [], _ => st_ret tt
  | _, 0 => fun s => (OutOfFuel, s)
  | (p, d) :: rest, S fuel =>
    let '(b, r) := take_batch p rest in
    let! _ := write_at (page_offset p) (concat (d :: b.*2)) in
    write_batches fuel r
  end.

Definition page_le (x y : N * list byte) : Prop := (x.1 <= y.1)%N.
#[global] Instance page_le_dec : RelDecision page_le.
Proof. intros x y. unfold page_le. apply _. Defined.

Definition write_pages_direct (pages : list (N * list byte)) : PM unit :=
  let! _ := guard_writable "write pages" in
  if decide (pages = []) then st_ret tt else
  let sorted_pages := merge_sort page_le pages in
  if forallb (fun x => bool_decide (length x.2 = PAGE_SIZE)) sorted_pages
  then write_batches (length sorted_pages) sorted_pages
  else st_fail InvalidPageSize.

(** The loop of [flush] and [flush_no_sync]: a dirty page that is not in the cache is
    skipped. *)
Fixpoint write_dirty (ps : list N) : PM unit :=
  match ps with
  | [] => st_ret tt
  | p :: ps =>
    let! hit := on_cache (fun c => (fun r => (r, c)) <$> lru_get_read_only p c) in
    let! _ := match hit with Some d => write_at (page_offset p) d | None => st_ret tt end in
    write_dirty ps
  end.

Definition flush : PM unit := fun s =>
  if read_only s then (Ok tt, s) else
  (let! _ := write_dirty (merge_sort N.le (get_all_dirty (pcache s))) in
   on_cache_ (fun c => Some (clear_all_dirty c))) s.

Definition flush_no_sync : PM unit := fun s =>
  if read_only s then (Ok tt, s) else
  (let! _ := write_dirty (get_all_dirty (pcache s)) in
   on_cache_ (fun c => Some (clear_all_dirty c))) s.

Definition close : PM unit := fun s =>
  if read_only s then (Ok tt, s) else (let! _ := flush in write_header) s.

(** ** The header page *)
Section header.

(** How many entries of a free list fit in the header page: 507. *)
Definition free_capacity (off : nat) : nat := (PAGE_SIZE - off) / 8.

Definition le8s (l : list N) : list byte := concat (to_le_bytes 8 <$> l).

Lemma le8s_cons p l : le8s (p :: l) = to_le_bytes 8 p ++ le8s l.
Proof. done. Qed.

Lemma w_free_list_wrote fl pre :
  length pre <= PAGE_SIZE ->
  w_free_list fl (wrote PAGE_SIZE pre) =
    Some (wrote PAGE_SIZE (pre ++ le8s (take (free_capacity (length pre)) fl))).
Proof.
  revert pre. induction fl as [|p fl IH]; intros pre Hp; unfold free_capacity; cbn [w_free_list].
  { rewrite take_nil. unfold le8s. simpl. by rewrite app_nil_r. }
  cbn [wrote fst]. case_decide as Hd.
  - rewrite Nat.div_small by lia. unfold le8s. simpl. by rewrite app_nil_r.
  - rewrite w_le_wrote by lia. cbn [mbind option_bind].
    assert (length (pre ++ to_le_bytes 8 p) = length pre + 8) as Hl.
    { by rewrite length_app, length_to_le_bytes. }
    rewrite IH by lia. do 2 f_equal. unfold free_capacity. rewrite Hl, <-app_assoc. f_equal.
    replace ((PAGE_SIZE - length pre) / 8) with (S ((PAGE_SIZE - (length pre + 8)) / 8)).
    + done.
    + replace (PAGE_SIZE - length pre) with (1 * 8 + (PAGE_SIZE - (length pre + 8))) by lia.
      by rewrite Nat.div_add_l by lia.
Qed.

Lemma r_free_list_reads data off fl rest :
  off <= PAGE_SIZE -> Forall (fun p => (p < 2 ^ 64)%N) fl ->
  reads data off (le8s (take (free_capacity off) fl) ++ rest) ->
  r_free_list (length fl) off data = Some (take (free_capacity off) fl).
Proof.
  revert off. induction fl as [|p fl IH]; intros off Ho Hf Hr; unfold free_capacity in *; cbn [r_free_list length].
  { by rewrite take_nil. }
  apply Forall_cons in Hf as [Hp Hf]. case_decide as Hd.
  { by rewrite Nat.div_small by lia. }
  assert ((PAGE_SIZE - off) / 8 = S ((PAGE_SIZE - (off + 8)) / 8)) as Hdiv.
  { replace (PAGE_SIZE - off) with (1 * 8 + (PAGE_SIZE - (off + 8))) by lia.
    by rewrite Nat.div_add_l by lia. }
  rewrite Hdiv in Hr |- *. cbn [take] in Hr |- *. rewrite le8s_cons, <-app_assoc in Hr.
  apply reads_le in Hr as [-> Hr]; [|done]. simpl. rewrite (IH (off + 8)); [done|lia|done|done].
Qed.

(** The bytes of the header before the zeros that fill the page. *)
Definition header_bytes (h : Header) : list byte :=
  h_magic h ++ to_le_bytes 4 (h_version h) ++ to_le_bytes 4 (h_page_size h) ++
  to_le_bytes 8 (h_num_pages h) ++ to_le_bytes 4 (h_free_count h) ++
  to_le_bytes 8 (h_metadata_page h) ++ to_le_bytes 8 (h_next_tx_id h) ++
  le8s (take 507 (h_free_list h)).

Lemma header_serialize_bytes h :
  length (h_magic h) = 4 -> header_serialize h = Some (zbuf PAGE_SIZE (header_bytes h)).
Proof.
  intros Hm. unfold header_serialize. rewrite <-wrote_nil.
  repeat ((rewrite w_bytes_wrote || rewrite w_le_wrote); cbn [mbind option_bind];
    [|rewrite ?length_app, ?length_to_le_bytes, ?Hm; simpl; size_lia]).
  rewrite w_free_list_wrote; cbn [mbind option_bind];
    [|rewrite ?length_app, ?length_to_le_bytes, ?Hm; simpl; size_lia].
  f_equal. unfold header_bytes. rewrite <-!app_assoc. simpl.
  replace (free_capacity _) with 507; [done|].
  rewrite !length_app, !length_to_le_bytes, Hm. unfold free_capacity, PAGE_SIZE. by vm_compute.
Qed.

Definition header_wf (h : Header) : Prop :=
  h_magic h = MAGIC /\ h_version h = VERSION /\ h_page_size h = N.of_nat PAGE_SIZE /\
  (h_num_pages h < 2 ^ 64)%N /\ h_free_count h = N.of_nat (length (h_free_list h)) /\
  (h_free_count h < 2 ^ 32)%N /\ (h_metadata_page h < 2 ^ 64)%N /\ (h_next_tx_id h < 2 ^ 64)%N /\
  Forall (fun p => (p < 2 ^ 64)%N) (h_free_list h).

(** What a header becomes after a round trip: its free list keeps 507 entries. *)
Definition header_truncated (h : Header) : Header :=
  mk_header (h_magic h) (h_version h) (h_page_size h) (h_num_pages h) (h_free_count h)
    (h_metadata_page h) (h_next_tx_id h) (take 507 (h_free_list h)).

Lemma length_le8s l : length (le8s l) = 8 * length l.
Proof.
  induction l as [|p l IH]; [done|]. rewrite le8s_cons, length_app, IH, length_to_le_bytes. simpl. lia.
Qed.

Lemma length_header_bytes h : length (h_magic h) = 4 -> length (header_bytes h) <= PAGE_SIZE.
Proof.
  intros Hm. unfold header_bytes.
  rewrite !length_app, !length_to_le_bytes, Hm, length_le8s, length_take. size_lia.
Qed.

Lemma header_deserialize_zbuf h :
  header_wf h -> header_deserialize (zbuf PAGE_SIZE (header_bytes h)) = Ok (header_truncated h).
Proof.
  intros (Hm & Hv & Hs & Hn & Hc & Hc' & Hmp & Ht & Hf).
  assert (length (h_magic h) = 4) as Hm4 by (by rewrite Hm).
  pose proof (length_header_bytes h Hm4) as Hlen.
  unfold header_deserialize. rewrite length_zbuf by done. rewrite decide_False by lia.
  pose proof (reads_start (zbuf PAGE_SIZE (header_bytes h))) as Hr.
  unfold zbuf at 2 in Hr. unfold header_bytes in Hr at 2. rewrite <-!app_assoc in Hr.
  apply (reads_slice _ _ 4) in Hr as [-> Hr]; [|done]. cbn [Nat.add] in Hr. simpl. rewrite decide_False by naive_solver.
  apply reads_le in Hr as [-> Hr]; [|by rewrite Hv]. cbn [Nat.add] in Hr. simpl. rewrite decide_False by naive_solver.
  apply reads_le in Hr as [-> Hr]; [|by rewrite Hs]. cbn [Nat.add] in Hr. simpl. rewrite decide_False by naive_solver.
  apply reads_le in Hr as [-> Hr]; [|done]. cbn [Nat.add] in Hr. simpl.
  apply reads_le in Hr as [-> Hr]; [|done]. cbn [Nat.add] in Hr. simpl.
  apply reads_le in Hr as [-> Hr]; [|done]. cbn [Nat.add] in Hr. simpl.
  apply reads_le in Hr as [-> Hr]; [|done]. cbn [Nat.add] in Hr. simpl.
  rewrite Hc, Nat2N.id. rewrite (r_free_list_reads _ 40 _ _ ltac:(size_lia) Hf Hr). simpl.
  unfold header_truncated. by rewrite Hc.
Qed.
End header.

(** ** Cache and file together *)

Definition file_page (p : N) (f : list byte) : option (list byte) :=
  slice (page_offset p) PAGE_SIZE f.

(** What a read of page [p] returns: the cached bytes, else those of the file. *)
Definition pager_view (s : Pager) (p : N) : option (list byte) :=
  match lru_get_read_only p (pcache s) with
  | Some (Some d) => Some d
  | _ => file_page p (file s)
  end.

Definition s_view (f : list byte) (c : lru_spec) (p : N) : option (list byte) :=
  match s_lookup p c with Some d => Some d | None => file_page p f end.

(** A clean cached page holds the bytes of the file. *)
Record coherent (f : list byte) (c : lru_spec) : Prop := {
  coh_nodup : NoDup (s_entries c).*1;
  coh_len p d : (p, d) ∈ s_entries c -> length d = PAGE_SIZE;
  coh_small p d : (p, d) ∈ s_entries c -> (p < 2 ^ 52)%N;
  coh_clean p d : (p, d) ∈ s_entries c -> s_is_dirty p (s_dirty c) = false -> file_page p f = Some d }.

Record pager_ok (s : Pager) : Prop := {
  ok_rw : read_only s = false;
  ok_pages : (1 <= num_pages s <= 2 ^ 52)%N;
  ok_free_nodup : NoDup (free_list s);
  ok_free p : p ∈ free_list s -> (0 < p < num_pages s)%N;
  ok_cache : exists c, lru_rel (pcache s) c /\ coherent (file s) c }.

(** A page the pager has handed out and not taken back. *)
Definition pager_used (s : Pager) (p : N) : Prop := (p < num_pages s)%N /\ p ∉ free_list s.

Definition pager_room (s : Pager) (n : nat) : Prop := (num_pages s + N.of_nat n <= 2 ^ 52)%N.

Section coherence.
Implicit Types (c : lru_spec) (f : list byte).

Lemma page_offset_small p : (p < 2 ^ 52)%N -> page_offset p = N.to_nat p * PAGE_SIZE.
Proof.
  intros H. unfold page_offset, wrap_u64, PAGE_SIZE. rewrite N.mod_small by lia. lia.
Qed.

Lemma view_eq s c p : lru_rel (pcache s) c -> pager_view s p = s_view (file s) c p.
Proof.
  intros Hr. destruct (run_op_refines (OpGetReadOnly p) _ _ Hr) as (c' & H & _). simpl in H.
  unfold pager_view, s_view. destruct (lru_get_read_only p (pcache s)) as [r|]; simplify_eq/=.
  by destruct (s_lookup p c).
Qed.

Lemma s_view_use f c p d q :
  NoDup (s_entries c).*1 ->
  s_view f (s_use p d c) q = if decide (q = p) then Some d else s_view f c q.
Proof.
  intros Hnd. unfold s_view, s_lookup, s_use. simpl. case_decide as Hq.
  - subst. by rewrite lookup_insert_eq.
  - rewrite lookup_insert_ne by done.
    assert ((list_to_map (drop_page p (s_entries c)) : gmap N (list byte)) !! q
      = (list_to_map (s_entries c) : gmap N _) !! q) as ->; [|done].
    apply option_eq. intros d'. rewrite <-!elem_of_list_to_map by (try done; by apply drop_page_NoDup).
    unfold drop_page. rewrite list_elem_of_filter. naive_solver.
Qed.

Lemma s_view_mark f c p q : s_view f (s_mark_dirty p c) q = s_view f c q.
Proof. done. Qed.

Lemma coherent_use f c p d :
  coherent f c -> length d = PAGE_SIZE -> (p < 2 ^ 52)%N ->
  s_is_dirty p (s_dirty c) = true \/ file_page p f = Some d -> coherent f (s_use p d c).
Proof.
  intros [Hnd Hl Hs Hc] Hd Hp Hx.
  assert (forall q d', (q, d') ∈ drop_page p (s_entries c) -> (q, d') ∈ s_entries c) as Hsub.
  { intros q d'. unfold drop_page. rewrite list_elem_of_filter. naive_solver. }
  split; simpl.
  - apply NoDup_cons, and_comm. by apply drop_page_NoDup.
  - intros q d' [[= -> ->]|Hin]%elem_of_cons; eauto.
  - intros q d' [[= -> ->]|Hin]%elem_of_cons; eauto.
  - intros q d' [[= -> ->]|Hin]%elem_of_cons Hq; [|eauto]. destruct Hx; [congruence|done].
Qed.

Lemma coherent_mark f c p : coherent f c -> coherent f (s_mark_dirty p c).
Proof.
  intros [Hnd Hl Hs Hc]. split; simpl; try done. intros q d Hin Hq. apply Hc; [done|].
  unfold s_is_dirty in *. rewrite lookup_insert in Hq. by case_decide.
Qed.

(** Writing a page to the cache and marking it dirty. *)
Lemma coherent_put_dirty f c p d :
  coherent f c -> length d = PAGE_SIZE -> (p < 2 ^ 52)%N -> coherent f (s_mark_dirty p (s_use p d c)).
Proof.
  intros Hc Hd Hp. change (s_mark_dirty p (s_use p d c)) with (s_use p d (s_mark_dirty p c)).
  apply coherent_use; [by apply coherent_mark|done|done|]. left.
  unfold s_is_dirty. simpl. by rewrite lookup_insert_eq.
Qed.

Lemma coherent_evict f c : coherent f c -> coherent f (s_evict c).
Proof.
  intros [Hnd Hl Hs Hc]. unfold s_evict. case_decide; [|done].
  destruct (remove_last_clean (s_dirty c) (s_entries c)) as [r|] eqn:Hr; simpl; [|done].
  apply remove_last_clean_sublist in Hr as Hsub.
  assert (forall x, x ∈ r -> x ∈ s_entries c) as Hin.
  { intros x Hx. by eapply elem_of_sublist. }
  split; simpl; [|eauto..]. eapply sublist_NoDup; [exact Hnd|]. by apply fmap_sublist.
Qed.

Lemma s_lookup_Some c p d : NoDup (s_entries c).*1 -> s_lookup p c = Some d <-> (p, d) ∈ s_entries c.
Proof. intros. unfold s_lookup. by rewrite elem_of_list_to_map. Qed.

Lemma s_view_evict f c q : coherent f c -> s_view f (s_evict c) q = s_view f c q.
Proof.
  intros Hc. pose proof (coherent_evict f c Hc) as Hce. unfold s_view.
  destruct (s_lookup q (s_evict c)) as [d|] eqn:He.
  - apply s_lookup_Some in He; [|apply Hce].
    assert (s_lookup q c = Some d) as ->; [|done]. apply s_lookup_Some; [apply Hc|].
    revert He. unfold s_evict. case_decide; [|done]. simpl.
    destruct (remove_last_clean (s_dirty c) (s_entries c)) as [r|] eqn:Hr; simpl; [|done].
    apply remove_last_clean_sublist in Hr. intros He. by eapply elem_of_sublist.
  - destruct (s_lookup q c) as [d|] eqn:Hd; [|done].
    apply s_lookup_Some in Hd; [|apply Hc].
    destruct (s_is_dirty q (s_dirty c)) eqn:Hdt; [|by apply (coh_clean _ _ Hc)].
    assert (s_holds q d c) as Hh by (split_and!; [done|apply Hc|done]).
    apply s_evict_holds, s_lookup_In in Hh. congruence.
Qed.
End coherence.

Section page_operations.
Implicit Types (s : Pager).

Lemma with_pcache_id s : with_pcache (pcache s) s = s.
Proof. by destruct s. Qed.

(** Replacing the cache by one that represents a coherent abstract cache. *)
Lemma pager_ok_cache s c' sp :
  pager_ok s -> lru_rel c' sp -> coherent (file s) sp -> pager_ok (with_pcache c' s).
Proof. intros [? ? ? ? _] Hr Hc. split; simpl; try done. by exists sp. Qed.

Lemma read_page_spec s p :
  pager_ok s -> (p < 2 ^ 52)%N ->
  match pager_view s p with
  | Some d => exists c', read_page p s = (Ok d, with_pcache c' s) /\ pager_ok (with_pcache c' s) /\
      forall q, pager_view (with_pcache c' s) q = pager_view s q
  | None => read_page p s = (Err unexpected_eof, s)
  end.
Proof.
  intros Hok Hp. destruct (ok_cache _ Hok) as (sp & Hr & Hc).
  rewrite (view_eq _ _ _ Hr). unfold s_view.
  destruct (run_op_refines (OpGet p) _ _ Hr) as (c1 & H1 & Hr1). simpl in H1, Hr1.
  assert (on_cache (lru_get p) s = (Ok (s_lookup p sp), with_pcache c1 s)) as Hg.
  { unfold on_cache. by rewrite H1. }
  unfold read_page. rewrite !(st_bind_ok _ _ _ _ _ Hg). clear Hg.
  destruct (s_lookup p sp) as [d|] eqn:Hl.
  - pose proof Hl as Hin. apply s_lookup_Some in Hin; [|apply Hc].
    assert (coherent (file s) (s_use p d sp)) as Hc1.
    { apply coherent_use; [done|by eapply coh_len|by eapply coh_small|].
      destruct (s_is_dirty p (s_dirty sp)) eqn:Hd; [by left|right; by eapply coh_clean]. }
    exists c1. split; [done|]. split; [by eapply pager_ok_cache|].
    intros q. rewrite (view_eq s _ _ Hr), (view_eq (with_pcache c1 s) _ _ Hr1). simpl.
    rewrite s_view_use by apply Hc. case_decide; [|done]. subst. unfold s_view. by rewrite Hl.
  - unfold lru_get in H1. assert (c1 = pcache s) as ->.
    { destruct Hr as (cs & Hi & ->).
      destruct (lru_lookup _ _ p Hi) as [(?&?&?&?&->&_&Hx)|(_ & Hx & _)]; [congruence|].
      rewrite Hx in H1. by simplify_eq. }
    unfold st_bind, file_read, of_option. simpl. fold (file_page p (file s)).
    destruct (file_page p (file s)) as [d|] eqn:Hf; rewrite with_pcache_id; [|done].
    destruct (run_op_refines (OpPut p d) _ _ Hr) as (c2 & H2 & Hr2). simpl in H2, Hr2.
    destruct (lru_put p d (pcache s)) as [c3|] eqn:Hput; simplify_eq/=. rewrite Hl in Hr2.
    assert (coherent (file s) (s_use p d sp)) as Hc2.
    { apply coherent_use; [done|by eapply length_slice|done|by right]. }
    unfold on_cache_, on_cache. simpl. rewrite Hput. simpl. exists c2. split; [done|].
    split; [eapply pager_ok_cache; [done..|by apply coherent_evict]|].
    intros q. rewrite (view_eq s _ _ Hr), (view_eq (with_pcache c2 s) _ _ Hr2). simpl.
    rewrite s_view_evict, s_view_use by (try done; apply Hc). case_decide; [|done]. subst.
    unfold s_view. by rewrite Hl.
Qed.

Lemma write_page_transfer_spec s p d :
  pager_ok s -> (p < 2 ^ 52)%N -> length d = PAGE_SIZE ->
  exists c', write_page_transfer p d s = (Ok tt, with_pcache c' s) /\ pager_ok (with_pcache c' s) /\
    forall q, pager_view (with_pcache c' s) q = if decide (q = p) then Some d else pager_view s q.
Proof.
  intros Hok Hp Hd. destruct (ok_cache _ Hok) as (sp & Hr & Hc).
  destruct (run_op_refines (OpPutDirty p d) _ _ Hr) as (c1 & H1 & Hr1). simpl in H1, Hr1.
  unfold write_page_transfer, guard_writable, st_bind. rewrite (ok_rw _ Hok).
  rewrite decide_False by naive_solver. unfold on_cache_, on_cache.
  destruct (put_dirty_atomic p d (pcache s)) as [c2|]; simplify_eq/=.
  pose proof (coherent_put_dirty _ _ p d Hc Hd Hp) as Hc1.
  exists c1. split; [done|]. split.
  - eapply pager_ok_cache; [done..|]. destruct (s_lookup p sp); [done|by apply coherent_evict].
  - intros q. rewrite (view_eq s _ _ Hr), (view_eq (with_pcache c1 s) _ _ Hr1). simpl.
    rewrite <-(s_view_use (file s)) by apply Hc.
    destruct (s_lookup p sp); [done|by rewrite s_view_evict].
Qed.

Lemma pop_free_app m rfl p r :
  pop_free m rfl = (Some p, r) -> exists sk, rfl = sk ++ p :: r /\ (m <= p)%N /\ Forall (fun q => q < m)%N sk.
Proof.
  induction rfl as [|q rfl IH]; simpl; [done|]. destruct (N.leb_spec m q).
  - intros [= -> ->]. by exists [].
  - intros (sk & -> & ? & ?)%IH. exists (q :: sk). split_and!; [done..|by constructor].
Qed.

Lemma pop_free_None m rfl r : pop_free m rfl = (None, r) -> r = [] /\ Forall (fun q => q < m)%N rfl.
Proof.
  induction rfl as [|q rfl IH]; simpl; [intros [= <-]; done|]. destruct (N.leb_spec m q); [done|].
  intros (-> & ?)%IH. split; [done|by constructor].
Qed.

Lemma with_num_pages_ok s n :
  pager_ok s -> (1 <= n <= 2 ^ 52)%N -> (forall p, p ∈ free_list s -> (0 < p < n)%N) ->
  pager_ok (with_num_pages n s).
Proof. intros [] ? ?. by split. Qed.

Lemma with_free_list_ok s fl :
  pager_ok s -> NoDup fl -> (forall p, p ∈ fl -> (0 < p < num_pages s)%N) ->
  pager_ok (with_free_list fl s).
Proof. intros [] ? ?. by split. Qed.

(** The allocator: the page is fresh, not page 0, at least the requested minimum, and becomes
    used; the other pages keep their status, except that free pages below the minimum may be
    dropped from the free list. *)
Lemma alloc_page_minimum_spec s m n :
  pager_ok s -> (m < num_pages s)%N -> pager_room s (S n) ->
  exists p s', alloc_page_minimum m s = (Ok p, s') /\ pager_ok s' /\
    ~ pager_used s p /\ pager_used s' p /\ p <> 0%N /\ (m <= p)%N /\
    (forall q, pager_used s q -> pager_used s' q) /\
    file s' = file s /\ pcache s' = pcache s /\ pager_room s' n /\
    (forall q, pager_used s' q -> pager_used s q \/ q = p \/ (q ∈ free_list s /\ (q < m)%N)).
Proof.
  intros Hok Hm Hroom. unfold alloc_page_minimum, guard_writable, st_bind. rewrite (ok_rw _ Hok).
  pose proof (ok_pages _ Hok) as Hn. pose proof (ok_free_nodup _ Hok) as Hfn. pose proof (ok_free _ Hok) as Hf.
  unfold pager_room, pager_used in *.
  destruct (pop_free m (reverse (free_list s))) as [[p|] r] eqn:Hpop.
  - apply pop_free_app in Hpop as (sk & Hrev & Hmp & Hsk).
    assert (free_list s = reverse r ++ p :: reverse sk) as Hfl.
    { rewrite <-(reverse_involutive (free_list s)), Hrev, reverse_app, reverse_cons, <-app_assoc. done. }
    rewrite Hfl in Hfn. apply NoDup_app in Hfn as (Hfn1 & Hfn2 & [Hfn3 _]%NoDup_cons).
    rewrite Forall_forall in Hsk.
    exists p, (with_free_list (reverse r) s). split; [done|]. split.
    { apply with_free_list_ok; [done..|]. intros q Hq. apply Hf. rewrite Hfl. set_solver. }
    assert (0 < p < num_pages s)%N as Hp by (apply Hf; rewrite Hfl; set_solver).
    simpl. rewrite Hfl. split_and!; try done; try lia.
    + set_solver.
    + intros Hin. apply (Hfn2 p Hin). by left.
    + set_solver.
    + intros q [? Hq]. destruct (decide (q ∈ reverse r ++ p :: reverse sk)) as [Hin|]; [|set_solver].
      apply elem_of_app in Hin as [?|[->|Hin]%elem_of_cons]; [set_solver|set_solver|].
      right. right. split; [set_solver|]. apply Hsk. by rewrite elem_of_reverse in Hin.
  - apply pop_free_None in Hpop as [-> Hsk]. rewrite Forall_forall in Hsk.
    unfold wrap_u64. rewrite N.mod_small by lia.
    eexists _, _. split; [done|]. split.
    { rewrite reverse_nil. apply with_num_pages_ok.
      - apply with_free_list_ok; [done|constructor|]. by intros q ?%elem_of_nil.
      - simpl. lia.
      - simpl. by intros q ?%elem_of_nil. }
    simpl. split_and!; try done; try lia.
    + by intros ?%elem_of_nil.
    + intros q [? ?]. split; [lia|]. by intros ?%elem_of_nil.
    + intros q [Hq _]. destruct (decide (q = num_pages s)); [by right; left|].
      destruct (decide (q ∈ free_list s)); [|left; split; [lia|done]].
      right; right. split; [done|]. apply Hsk. by apply elem_of_reverse.
Qed.

Lemma free_page_spec s p :
  pager_ok s -> pager_used s p -> p <> 0%N ->
  exists s', free_page p s = (Ok tt, s') /\ pager_ok s' /\ num_pages s' = num_pages s /\
    free_list s' = free_list s ++ [p] /\ file s' = file s /\
    (forall q, q <> p -> pager_view s' q = pager_view s q).
Proof.
  intros Hok [Hp Hnf] H0. unfold free_page, guard_writable, st_bind, st_modify. rewrite (ok_rw _ Hok).
  destruct (ok_cache _ Hok) as (sp & Hr & Hc).
  destruct (run_op_refines (OpRemove p) _ _ Hr) as (c1 & H1 & Hr1). simpl in H1, Hr1.
  unfold on_cache_, on_cache. simpl. destruct (lru_remove p (pcache s)) as [c2|]; simplify_eq/=.
  eexists. split; [done|]. simpl. unfold vec_push.
  assert (coherent (file s) (match s_lookup p sp with
    | Some _ => mk_spec (s_capacity sp) (drop_page p (s_entries sp)) (delete p (s_dirty sp))
    | None => sp end)) as Hc1.
  { destruct (s_lookup p sp); [|done]. destruct Hc as [Hnd Hl Hs Hcl].
    assert (forall q d', (q, d') ∈ drop_page p (s_entries sp) -> q <> p /\ (q, d') ∈ s_entries sp) as Hsub.
    { intros q d'. unfold drop_page. by rewrite list_elem_of_filter. }
    split; simpl; [by apply drop_page_NoDup|naive_solver|naive_solver|].
    intros q d [Hq Hin]%Hsub. unfold s_is_dirty. rewrite lookup_delete_ne by done. by apply Hcl. }
  split_and!; try done.
  - destruct Hok. split; simpl; try done; [| |by eexists].
    + apply NoDup_app. split; [done|]. split; [set_solver|apply NoDup_singleton].
    + intros q. rewrite elem_of_app, list_elem_of_singleton. intros [?| ->]; [auto|lia].
  - intros q Hq. rewrite (view_eq s _ _ Hr), (view_eq (with_pcache c1 (with_free_list (free_list s ++ [p]) s)) _ q Hr1).
    simpl. unfold s_view.
    destruct (s_lookup p sp); [|done]. unfold s_lookup. simpl.
    assert ((list_to_map (drop_page p (s_entries sp)) : gmap N (list byte)) !! q
      = (list_to_map (s_entries sp) : gmap N _) !! q) as ->; [|done].
    apply option_eq. intros d'. rewrite <-!elem_of_list_to_map by (try apply Hc; by apply drop_page_NoDup, Hc).
    unfold drop_page. rewrite list_elem_of_filter. naive_solver.
Qed.
End page_operations.

(** ** The pager implements the page store *)
#[global] Instance Pager_store : PageStore Pager := {
  ps_read := read_page;
  ps_write := write_page_transfer;
  ps_alloc := alloc_page;
  ps_alloc_min := alloc_page_minimum;
  ps_free := free_page }.

Lemma pager_view_pcache s s' q :
  file s' = file s -> pcache s' = pcache s -> pager_view s' q = pager_view s q.
Proof. unfold pager_view. by intros -> ->. Qed.

#[global] Program Instance Pager_laws : PageStoreLaws Pager := {
  ps_inv := pager_ok;
  ps_view := pager_view;
  ps_used := pager_used;
  ps_room := pager_room }.
Next Obligation. unfold pager_room. lia. Qed.
Next Obligation. intros s p Hok [Hp _]. pose proof (ok_pages _ Hok). lia. Qed.
Next Obligation.
  intros s p d Hok [Hp _] Hv. pose proof (ok_pages _ Hok).
  pose proof (read_page_spec s p Hok ltac:(lia)) as H1. rewrite Hv in H1.
  destruct H1 as (c' & H1 & Hok' & Hq). eexists; split; [exact H1|]. by split_and!.
Qed.
Next Obligation.
  intros s p d Hok [Hp _] Hd. pose proof (ok_pages _ Hok).
  destruct (write_page_transfer_spec s p d Hok ltac:(lia) Hd) as (c' & H1 & Hok' & Hq).
  eexists; split; [exact H1|]. by split_and!.
Qed.
Next Obligation.
  intros s n Hok Hroom. pose proof (ok_pages _ Hok).
  destruct (alloc_page_minimum_spec s 0 n Hok ltac:(lia) Hroom)
    as (p & s' & H1 & H2 & H3 & H4 & H5 & H6 & H7 & H8 & H9 & H10 & _).
  exists p, s'. split_and!; try done. intros q _. by apply pager_view_pcache.
Qed.
Next Obligation.
  intros s m n Hok [Hm _] Hroom.
  destruct (alloc_page_minimum_spec s m n Hok Hm Hroom)
    as (p & s' & H1 & H2 & H3 & H4 & H5 & H6 & H7 & H8 & H9 & H10 & _).
  exists p, s'. split_and!; try done. intros q _. by apply pager_view_pcache.
Qed.
Next Obligation.
  intros s p s' Hok [n Hroom] Ha q Hq. pose proof (ok_pages _ Hok).
  destruct (alloc_page_minimum_spec s 0 n Hok ltac:(lia) Hroom)
    as (p1 & s1 & H1 & _ & _ & _ & _ & _ & _ & _ & _ & _ & Honly).
  assert ((Ok p1, s1) = (Ok (E := Error) p, s')) as [= -> ->] by (by rewrite <-H1, <-Ha).
  destruct (Honly q Hq) as [?|[?|[_ ?]]]; [by left|by right|lia].
Qed.
Next Obligation.
  intros s p Hok Hu H0. destruct (free_page_spec s p Hok Hu H0) as (s' & He & Hok' & Hn & Hf & _ & Hv).
  exists s'. split_and!; [done|done|..].
  - intros q. unfold pager_used. rewrite Hn, Hf. unfold vec_push. set_solver.
  - done.
  - intros n. unfold pager_room. by rewrite Hn.
Qed.

(** ** Writing pages to the file *)
Section file_writes.
Implicit Types (f : list byte) (ps : list (N * list byte)).

Definition page_wf (x : N * list byte) : Prop := (x.1 < 2 ^ 52)%N /\ length x.2 = PAGE_SIZE.

(** The pages of [ps] written one by one, each at its place. *)
Definition write_each ps f : list byte :=
  foldl (fun f x => file_write (page_offset x.1) x.2 f) f ps.

Lemma page_wf_nonempty x : page_wf x -> x.2 <> [].
Proof. intros [_ H] Hx. rewrite Hx in H. by simpl in H. Qed.

Lemma pages_apart p q : (p < 2 ^ 52)%N -> (q < 2 ^ 52)%N -> p <> q ->
  page_offset p + PAGE_SIZE <= page_offset q \/ page_offset q + PAGE_SIZE <= page_offset p.
Proof. intros. rewrite !page_offset_small by done. size_lia. Qed.

Lemma write_each_same ps f p d :
  Forall page_wf ps -> NoDup ps.*1 -> (p, d) ∈ ps -> file_page p (write_each ps f) = Some d.
Proof.
  revert f. induction ps as [|[q e] ps IH] using rev_ind; intros f; [by intros _ _ ?%elem_of_nil|].
  intros [Hps [Hq _]%Forall_cons]%Forall_app. rewrite fmap_app. simpl.
  intros (Hnd & Hnq & _)%NoDup_app Hin. unfold write_each. rewrite foldl_snoc. simpl.
  apply elem_of_app in Hin as [Hin|Hin%list_elem_of_singleton]; simplify_eq.
  - assert ((p, d).1 ∈ ps.*1) as Hp by (by apply list_elem_of_fmap_2). simpl in Hp.
    rewrite Forall_forall in Hps. apply Hps in Hin as Hw.
    apply file_read_write_other.
    + by apply (page_wf_nonempty (q, e)).
    + destruct Hq as [? Hl], Hw as [? _]. simpl in *. rewrite Hl. apply pages_apart; [done..|].
      intros ->. apply (Hnq p); [done|by left].
    + apply IH; [by rewrite Forall_forall|done|done].
  - pose proof Hq as [_ Hl]. simpl in Hl. unfold file_page. rewrite <-Hl.
    apply file_read_write_same. by apply (page_wf_nonempty (q, e)).
Qed.

Lemma write_each_other ps f p d :
  Forall page_wf ps -> (p < 2 ^ 52)%N -> p ∉ ps.*1 ->
  file_page p f = Some d -> file_page p (write_each ps f) = Some d.
Proof.
  intros Hps Hp. revert f. induction Hps as [|[q e] ps [Hq Hl] Hps IH]; intros f Hn Hf; [done|].
  cbn [fmap list_fmap] in Hn. apply not_elem_of_cons in Hn as [Hne Hn]. apply (IH _ Hn). simpl in *.
  apply file_read_write_other; [|rewrite Hl; by apply pages_apart|done].
  by apply (page_wf_nonempty (q, e)).
Qed.

Lemma write_each_perm ps ps' f :
  ps ≡ₚ ps' -> Forall page_wf ps -> NoDup ps.*1 -> write_each ps f = write_each ps' f.
Proof.
  intros Hp. revert f. induction Hp as [|x ps ps' Hp IH|x y ps|ps1 ps2 ps3 H1 IH1 H2 IH2]; intros f Hw Hnd.
  - done.
  - apply Forall_cons in Hw as [_ Hw]. apply NoDup_cons in Hnd as [_ Hnd]. by apply IH.
  - apply Forall_cons in Hw as [Hy [Hx _]%Forall_cons]. cbn [fmap list_fmap] in Hnd.
    apply NoDup_cons in Hnd as [Hne _]. apply not_elem_of_cons in Hne as [Hne _].
    unfold write_each. simpl. f_equal. apply file_write_comm; [by apply page_wf_nonempty..|].
    destruct Hx as [? ->], Hy as [? ->]. by apply pages_apart.
  - rewrite IH1 by done. apply IH2; by rewrite <-H1.
Qed.

Lemma take_batch_app p rest b r : take_batch p rest = (b, r) -> rest = b ++ r.
Proof.
  revert p b r. induction rest as [|[q d] rest IH]; intros p b r; simpl; [by intros [= <- <-]|].
  case_match; [|by intros [= <- <-]]. destruct (take_batch q rest) as [b' r'] eqn:Hb.
  intros [= <- <-]. simpl. f_equal. eauto.
Qed.

(** A batch is one contiguous write. *)
Lemma take_batch_write p d rest b r f :
  take_batch p rest = (b, r) -> Forall page_wf ((p, d) :: rest) ->
  file_write (page_offset p) (concat (d :: b.*2)) f = write_each ((p, d) :: b) f.
Proof.
  revert p d b r f. induction rest as [|[q e] rest IH]; intros p d b r f Hb Hw.
  - simpl in Hb. simplify_eq/=. by rewrite app_nil_r.
  - simpl in Hb. destruct (N.eqb_spec q (wrap_u64 (p + 1))) as [Hq|]; [|simplify_eq/=; by rewrite app_nil_r].
    destruct (take_batch q rest) as [b' r'] eqn:Hb'. simplify_eq/=.
    apply Forall_cons in Hw as [[Hp Hd] Hw]. simpl in *.
    specialize (IH _ e b' r (file_write (page_offset p) d f) Hb' Hw). simpl in IH. rewrite <-IH.
    unfold wrap_u64. rewrite N.mod_small by lia.
    assert (page_offset (p + 1) = page_offset p + length d) as ->.
    { apply Forall_cons in Hw as [[Hq _] _]. unfold wrap_u64 in Hq. simpl in Hq.
      rewrite N.mod_small in Hq by lia. rewrite !page_offset_small, Hd by lia. lia. }
    assert (d <> []) by (intros ->; by simpl in Hd).
    assert (e <> []). { apply Forall_cons in Hw as [Hw _]. by apply (page_wf_nonempty _ Hw). }
    rewrite file_write_append; [done|done|by destruct e].
Qed.

Lemma write_batches_spec fuel ps s :
  length ps <= fuel -> Forall page_wf ps ->
  write_batches fuel ps s = (Ok tt, with_file (write_each ps (file s)) s).
Proof.
  revert ps s. induction fuel as [|fuel IH]; intros [|[p d] ps] s Hl Hw; simpl in Hl; try lia.
  1,2: by destruct s.
  cbn [write_batches]. destruct (take_batch p ps) as [b r] eqn:Hb.
  unfold st_bind, write_at, st_modify. apply take_batch_app in Hb as Hx. subst ps.
  rewrite IH; [|rewrite length_app in Hl; lia|by apply Forall_cons in Hw as [_ [_ ?]%Forall_app]].
  rewrite (take_batch_write _ _ _ _ _ _ Hb Hw). unfold with_file. simpl. unfold write_each.
  by rewrite <-foldl_app.
Qed.
End file_writes.

Lemma write_pages_direct_spec s pages
    (Hrw : read_only s = false) (Hw : Forall page_wf pages) (Hnd : NoDup pages.*1) :
  write_pages_direct pages s = (Ok tt, with_file (write_each pages (file s)) s).
Proof.
  unfold write_pages_direct, guard_writable, st_bind. rewrite Hrw.
  case_decide as Hp; [subst; by destruct s|].
  assert (merge_sort page_le pages ≡ₚ pages) as Hperm by apply merge_sort_Permutation.
  assert (Forall page_wf (merge_sort page_le pages)) as Hw' by (by rewrite Hperm).
  assert (forallb (fun x => bool_decide (length x.2 = PAGE_SIZE)) (merge_sort page_le pages) = true) as ->.
  { apply forallb_forall. intros x Hx%list_elem_of_In. rewrite Forall_forall in Hw'.
    apply bool_decide_eq_true_2, (Hw' x Hx). }
  rewrite write_batches_spec by done.
  by rewrite (write_each_perm _ pages (file s) Hperm) by (try done; by rewrite Hperm).
Qed.

(** Writing a set of pages to the file in batches of consecutive pages, after sorting
    them, leaves the file as writing each page on its own in the given order does; nothing
    but the file changes. *)
Theorem write_pages_direct_batches s pages
    (Hrw : read_only s = false) (Hw : Forall page_wf pages) (Hnd : NoDup pages.*1) :
  write_pages_direct pages s = (Ok tt, with_file (write_each pages (file s)) s).
Proof. by apply write_pages_direct_spec. Qed.

Lemma write_pages_direct_batches_witness :
  let d b := replicate PAGE_SIZE b in
  let s := mk_pager [] (LRUCache_new 4) 5 0 1 [] false in
  let pages := [(4%N, d Byte.x04); (2%N, d Byte.x02); (3%N, d Byte.x03)] in
  write_pages_direct pages s = (Ok tt, with_file (write_each pages []) s).
Proof.
  intros d s pages. apply (write_pages_direct_batches s pages).
  - reflexivity.
  - repeat constructor; apply length_replicate.
  - apply (bool_decide_unpack _). vm_compute. exact I.
Defined.

(** ** Flushing the cache *)
Section flushing.
Implicit Types (s : Pager) (c : lru_spec).

(** The pages [write_dirty] writes for the page numbers [ps]. *)
Definition dirty_pages c (ps : list N) : list (N * list byte) :=
  omap (fun p => (fun d => (p, d)) <$> s_lookup p c) ps.

Lemma write_dirty_spec ps s c :
  lru_rel (pcache s) c ->
  write_dirty ps s = (Ok tt, with_file (write_each (dirty_pages c ps) (file s)) s).
Proof.
  revert s. induction ps as [|p ps IH]; intros s Hr; [by destruct s|]. cbn [write_dirty dirty_pages omap list_omap].
  destruct (run_op_refines (OpGetReadOnly p) _ _ Hr) as (c' & H & _). simpl in H.
  unfold st_bind, on_cache. destruct (lru_get_read_only p (pcache s)) as [r|]; simplify_eq/=.
  rewrite with_pcache_id. destruct (s_lookup p c) as [d|]; simpl.
  - rewrite IH by done. done.
  - rewrite IH by done. done.
Qed.

Lemma dirty_pages_elem c ps p d : (p, d) ∈ dirty_pages c ps <-> p ∈ ps /\ s_lookup p c = Some d.
Proof.
  unfold dirty_pages. rewrite list_elem_of_omap. split.
  - intros (q & Hq & Hl). destruct (s_lookup q c) eqn:?; simplify_eq/=. done.
  - intros [Hp Hl]. exists p. by rewrite Hl.
Qed.

Lemma dirty_pages_fst c ps p : p ∈ (dirty_pages c ps).*1 -> p ∈ ps.
Proof. intros ([q d] & -> & Hin)%list_elem_of_fmap. by apply dirty_pages_elem in Hin as [? _]. Qed.

Lemma dirty_pages_nodup c ps : NoDup ps -> NoDup (dirty_pages c ps).*1.
Proof.
  induction 1 as [|p ps Hp Hnd IH]; [constructor|]. unfold dirty_pages in *. simpl.
  destruct (s_lookup p c); simpl; [|done]. constructor; [|done].
  by intros ?%dirty_pages_fst.
Qed.

Lemma dirty_pages_wf f c ps : coherent f c -> Forall page_wf (dirty_pages c ps).
Proof.
  intros Hc. apply Forall_forall. intros [p d] [_ Hl]%dirty_pages_elem.
  apply s_lookup_Some in Hl; [|apply Hc]. split; [by eapply coh_small|by eapply coh_len].
Qed.

Lemma dirty_pages_perm c ps ps' : ps ≡ₚ ps' -> dirty_pages c ps ≡ₚ dirty_pages c ps'.
Proof. intros H. unfold dirty_pages. by rewrite H. Qed.

Lemma get_all_dirty_nodup lc : NoDup (get_all_dirty lc).
Proof. apply NoDup_fst_map_to_list. Qed.

Lemma get_all_dirty_elem lc p : p ∈ get_all_dirty lc <-> exists b, dirty lc !! p = Some b.
Proof.
  unfold get_all_dirty. rewrite list_elem_of_fmap. split.
  - intros ([q b] & -> & H%elem_of_map_to_list). eauto.
  - intros [b H]. exists (p, b). split; [done|]. by apply elem_of_map_to_list.
Qed.

(** A page of the view that the flush does not write is in the file. *)
Lemma undirtied_page s c p d :
  lru_rel (pcache s) c -> coherent (file s) c -> p ∉ (dirty_pages c (get_all_dirty (pcache s))).*1 ->
  s_view (file s) c p = Some d -> file_page p (file s) = Some d.
Proof.
  intros Hr Hc Hin. unfold s_view.
  destruct (s_lookup p c) as [e|] eqn:Hl; [|done]. intros [= ->].
  apply (coh_clean _ _ Hc); [apply s_lookup_Some in Hl; [done|apply Hc]|].
  destruct (s_is_dirty p (s_dirty c)) eqn:Hd; [|done]. destruct Hin.
  apply (list_elem_of_fmap_2 fst _ (p, d)), dirty_pages_elem. split; [|done].
  apply get_all_dirty_elem. destruct Hr as (cs & _ & ->). simpl in Hd. unfold s_is_dirty in Hd.
  destruct (dirty (pcache s) !! p); [eauto|done].
Qed.

(** The file after a flush: every page of the view. *)
Lemma flushed_pages s c p d :
  lru_rel (pcache s) c -> coherent (file s) c -> (p < 2 ^ 52)%N -> s_view (file s) c p = Some d ->
  file_page p (write_each (dirty_pages c (get_all_dirty (pcache s))) (file s)) = Some d.
Proof.
  intros Hr Hc Hp Hv.
  pose proof (dirty_pages_wf _ _ (get_all_dirty (pcache s)) Hc) as Hw.
  pose proof (dirty_pages_nodup c _ (get_all_dirty_nodup (pcache s))) as Hnd.
  destruct (decide (p ∈ (dirty_pages c (get_all_dirty (pcache s))).*1)) as [Hin|Hin].
  - apply list_elem_of_fmap in Hin as ([q e] & -> & Hin). simpl in *.
    pose proof Hin as [_ Hl]%dirty_pages_elem. unfold s_view in Hv. rewrite Hl in Hv. simplify_eq.
    by apply write_each_same.
  - apply write_each_other; [done..|]. by eapply undirtied_page.
Qed.

Lemma clear_dirty_rel lc c : lru_rel lc c ->
  lru_rel (clear_all_dirty lc) (mk_spec (s_capacity c) (s_entries c) ∅).
Proof.
  intros Hr. destruct (run_op_refines OpClearAllDirty _ _ Hr) as (c' & H & Hr'). simpl in *.
  by simplify_eq.
Qed.

(** What [flush] and [flush_no_sync] do: both write the dirty pages, in different orders, and
    forget that they are dirty. *)
Definition flushed s c : Pager :=
  with_pcache (clear_all_dirty (pcache s))
    (with_file (write_each (dirty_pages c (get_all_dirty (pcache s))) (file s)) s).

Lemma flush_spec s c f :
  read_only s = false -> lru_rel (pcache s) c -> coherent f c ->
  flush s = (Ok tt, flushed s c) /\ flush_no_sync s = (Ok tt, flushed s c).
Proof.
  intros Hrw Hr Hc. unfold flush, flush_no_sync, st_bind. rewrite Hrw, !(write_dirty_spec _ _ c) by done.
  split; [|done]. unfold on_cache_, on_cache, flushed. simpl. do 2 f_equal.
  unfold with_file. f_equal. apply write_each_perm.
  - apply dirty_pages_perm, merge_sort_Permutation.
  - by eapply dirty_pages_wf.
  - apply dirty_pages_nodup. rewrite merge_sort_Permutation. apply get_all_dirty_nodup.
Qed.

Lemma flushed_view s c p d :
  lru_rel (pcache s) c -> coherent (file s) c -> (p < 2 ^ 52)%N ->
  pager_view s p = Some d -> pager_view (flushed s c) p = Some d /\ file_page p (file (flushed s c)) = Some d.
Proof.
  intros Hr Hc Hp. rewrite (view_eq _ _ _ Hr). intros Hv.
  pose proof (flushed_pages _ _ _ _ Hr Hc Hp Hv) as Hf.
  rewrite (view_eq _ _ p (clear_dirty_rel _ _ Hr : lru_rel (pcache (flushed s c)) _)).
  split; [|done]. revert Hv. unfold s_view, s_lookup. simpl. by case_match.
Qed.

Lemma flushed_ok s c : pager_ok s -> lru_rel (pcache s) c -> coherent (file s) c -> pager_ok (flushed s c).
Proof.
  intros [? ? ? ? _] Hr Hc. split; simpl; try done. eexists. split; [by apply clear_dirty_rel|].
  pose proof Hc as [Hnd Hl Hs Hcl]. split; simpl; try done.
  intros p d Hin _. eapply flushed_pages; [done..|by eapply Hs|]. unfold s_view.
  by apply s_lookup_Some in Hin as ->.
Qed.
End flushing.

(** C34: [flush] (which sorts the dirty pages) and [flush_no_sync] (which writes them in the
    map's order) leave the pager in the same state. That state reads every page as before,
    and its file alone now holds every page below number 2^52 that could be read. *)
Theorem flush_makes_file_hold_pages s (Hok : pager_ok s) :
  exists s', flush s = (Ok tt, s') /\ flush_no_sync s = (Ok tt, s') /\ pager_ok s' /\
    num_pages s' = num_pages s /\ free_list s' = free_list s /\
    forall p d, (p < 2 ^ 52)%N -> pager_view s p = Some d ->
      pager_view s' p = Some d /\ file_page p (file s') = Some d.
Proof.
  pose proof Hok as [Hrw _ _ _ (c & Hr & Hc)].
  destruct (flush_spec s c _ Hrw Hr Hc) as [H1 H2]. exists (flushed s c).
  split_and!; try done; [by apply flushed_ok|]. intros p d Hp Hv. by apply flushed_view.
Qed.

Lemma new_cache_rel cap : exists c, lru_rel (LRUCache_new cap) c /\ s_entries c = [] /\ s_dirty c = ∅.
Proof. eexists. split; [apply lru_new_rel|done]. Qed.

Lemma new_pager_ok f cap n m t fl :
  (1 <= n <= 2 ^ 52)%N -> NoDup fl -> (forall p, p ∈ fl -> (0 < p < n)%N) ->
  pager_ok (mk_pager f (LRUCache_new cap) n m t fl false).
Proof.
  intros Hn Hnd Hf. split; simpl; try done. destruct (new_cache_rel cap) as (c & Hr & He & Hd).
  exists c. split; [done|]. split; rewrite ?He; [constructor|..]; by intros ?? ?%elem_of_nil.
Qed.

Lemma flush_makes_file_hold_pages_witness :
  let s := mk_pager [] (LRUCache_new 4) 5 0 1 [2%N] false in
  exists s', flush s = (Ok tt, s') /\ flush_no_sync s = (Ok tt, s') /\ pager_ok s' /\
    num_pages s' = num_pages s /\ free_list s' = free_list s /\
    forall p d, (p < 2 ^ 52)%N -> pager_view s p = Some d ->
      pager_view s' p = Some d /\ file_page p (file s') = Some d.
Proof.
  intros s. apply (flush_makes_file_hold_pages s). apply new_pager_ok; [lia|apply NoDup_singleton|].
  intros p ->%list_elem_of_singleton. lia.
Defined.

(** ** The header of an existing file *)
Section header_checks.

Lemma check_free_range_None i n fl :
  check_free_range i n fl = None <-> Forall (fun p => (0 < p < n)%N) fl.
Proof.
  revert i. induction fl as [|p fl IH]; intros i; simpl; [split; [constructor|done]|].
  rewrite Forall_cons. destruct (N.leb_spec n p); [split; [done|lia]|].
  destruct (N.eqb_spec p 0); [split; [done|lia]|]. rewrite IH. intuition lia.
Qed.

Lemma check_free_dup_inr i seen fl r :
  check_free_dup i seen fl = inr r <->
    NoDup fl /\ (forall p, p ∈ fl -> p ∉ seen) /\ r = list_to_set fl ∪ seen.
Proof.
  revert i seen. induction fl as [|p fl IH]; intros i seen; simpl.
  - split; [intros [= <-]|intros (_ & _ & ->)].
    + split_and!; [constructor|by intros ? ?%elem_of_nil|]. by rewrite (left_id_L ∅ (∪)).
    + by rewrite (left_id_L ∅ (∪)).
  - case_decide as Hp.
    + split; [done|]. intros (_ & H & _). destruct (H p); [by left|done].
    + rewrite IH, NoDup_cons. split; intros (H1 & H2 & ->).
      * split_and!; [..|set_solver]; [|done|].
        -- intros Hin. apply (H2 p Hin). set_solver.
        -- intros q [->|Hq]%elem_of_cons; [done|]. apply H2 in Hq. set_solver.
      * destruct H1 as [H1 H3]. split_and!; [done| |set_solver].
        intros q Hq. assert (q <> p) by (by intros ->). assert (q ∉ seen) by (apply H2; by right).
        set_solver.
Qed.

(** What an accepted header promises. *)
Definition header_valid (file_size : N) (h : Header) : Prop :=
  (1 <= h_num_pages h)%N /\ (wrap_u64 (h_num_pages h * 4096) <= file_size)%N /\
  (h_metadata_page h < h_num_pages h \/ h_metadata_page h = 0)%N /\
  (forall p, p ∈ h_free_list h -> (0 < p < h_num_pages h)%N) /\ NoDup (h_free_list h) /\
  h_metadata_page h ∉ h_free_list h.

Lemma validate_header_valid sz h : validate_header sz h = Ok tt <-> header_valid sz h.
Proof.
  unfold validate_header, header_valid.
  destruct (N.ltb_spec (h_num_pages h) 1); [split; [done|lia]|].
  destruct (N.ltb_spec sz (wrap_u64 (h_num_pages h * 4096))); [split; [done|lia]|].
  destruct (negb (h_metadata_page h =? 0) && (h_num_pages h <=? h_metadata_page h))%N eqn:Hm.
  { bool_hyps. split; [done|lia]. }
  assert (h_metadata_page h < h_num_pages h \/ h_metadata_page h = 0)%N as Hm'.
  { apply andb_false_iff in Hm as [Hm|Hm]; bool_hyps; lia. }
  destruct (check_free_range 0 (h_num_pages h) (h_free_list h)) as [e|] eqn:Hf.
  { split; [done|]. intros (_ & _ & _ & Hx & _). apply Forall_forall in Hx.
    apply check_free_range_None with (i := 0) in Hx. congruence. }
  apply check_free_range_None in Hf. rewrite Forall_forall in Hf.
  destruct (check_free_dup 0 ∅ (h_free_list h)) as [e|seen] eqn:Hd.
  { split; [done|]. intros (_ & _ & _ & _ & Hx & _).
    assert (check_free_dup 0 ∅ (h_free_list h) = inr (list_to_set (h_free_list h) ∪ ∅)) as Hy.
    { apply check_free_dup_inr. split_and!; [done|set_solver|done]. }
    congruence. }
  apply check_free_dup_inr in Hd as (Hnd & _ & ->).
  assert (h_metadata_page h ∈ h_free_list h -> h_metadata_page h <> 0%N) as Hm0.
  { intros Hin. apply Hf in Hin. lia. }
  case_decide as Hc; rewrite elem_of_union, elem_of_list_to_set in Hc; [split; [done|]|split; [|done]].
  - intros (_ & _ & _ & _ & _ & Hx). destruct Hc as [_ [?|?]]; [done|set_solver].
  - intros _. split_and!; try done. intros Hin. apply Hc. split; [auto|by left].
Qed.
End header_checks.


Lemma pager_open_spec f cap ro s :
  pager_open (Some f) cap ro = (Ok tt, s) <->
  exists d h, file_read 0 PAGE_SIZE f = Ok d /\ header_deserialize d = Ok h /\
    header_valid (N.of_nat (length f)) h /\
    s = mk_pager f (LRUCache_new cap) (h_num_pages h) (h_metadata_page h) (h_next_tx_id h)
      (h_free_list h) ro.
Proof.
  unfold pager_open, read_header, st_bind, st_get, st_modify, st_lift. simpl.
  destruct (file_read 0 PAGE_SIZE f) as [d| | |]; [|split; [done|naive_solver]..].
  destruct (header_deserialize d) as [h| | |] eqn:Hh;
    [|split; [done|]; intros (?&?&[= <-]&?&?); congruence..].
  pose proof (validate_header_valid (N.of_nat (length f)) h) as Hv.
  destruct (validate_header (N.of_nat (length f)) h) as [[]| | |]; split.
  - intros [= <-]. exists d, h. split_and!; try done. by apply Hv.
  - intros (d' & h' & [= <-] & Hd & _ & ->). rewrite Hh in Hd. by injection Hd as <-.
  - done.
  - intros (d' & h' & [= <-] & Hd & Hx & _). rewrite Hh in Hd. injection Hd as <-. by apply Hv in Hx.
  - done.
  - intros (d' & h' & [= <-] & Hd & Hx & _). rewrite Hh in Hd. injection Hd as <-. by apply Hv in Hx.
  - done.
  - intros (d' & h' & [= <-] & Hd & Hx & _). rewrite Hh in Hd. injection Hd as <-. by apply Hv in Hx.
Qed.

(** Opening an existing file succeeds exactly when its first page decodes to a header
    whose page count is at least 1 and does not exceed the file (as computed in 64 bits),
    whose metadata page is 0 or inside the file, and whose free list has no duplicate, no
    page outside the file, not page 0 and not the metadata page; the pager then has exactly
    the header's fields, an empty cache and the file unchanged. *)
Lemma pager_open_existing f cap ro s :
  pager_open (Some f) cap ro = (Ok tt, s) <->
  exists d h, file_read 0 PAGE_SIZE f = Ok d /\ header_deserialize d = Ok h /\
    header_valid (N.of_nat (length f)) h /\
    s = mk_pager f (LRUCache_new cap) (h_num_pages h) (h_metadata_page h) (h_next_tx_id h)
      (h_free_list h) ro.
Proof. apply pager_open_spec. Qed.

Lemma header_roundtrip_lemma h (Hw : header_wf h) :
  exists data, header_serialize h = Some data /\ length data = PAGE_SIZE /\
    header_deserialize data = Ok (header_truncated h) /\
    (length (h_free_list h) <= 507 -> header_deserialize data = Ok h).
Proof.
  assert (length (h_magic h) = 4) as Hm by (destruct Hw as [-> _]; done).
  exists (zbuf PAGE_SIZE (header_bytes h)). split; [by apply header_serialize_bytes|].
  split; [by apply length_zbuf, length_header_bytes|]. rewrite header_deserialize_zbuf by done.
  split; [done|]. intros Hl. f_equal. destruct h. unfold header_truncated. simpl in *.
  by rewrite take_ge by lia.
Qed.

(** A header that fits its fields survives the round trip through its page, except that
    only the first 507 entries of the free list are kept. *)
Theorem header_roundtrip h (Hw : header_wf h) :
  exists data, header_serialize h = Some data /\ length data = PAGE_SIZE /\
    header_deserialize data = Ok (header_truncated h) /\
    (length (h_free_list h) <= 507 -> header_deserialize data = Ok h).
Proof. by apply header_roundtrip_lemma. Qed.

Lemma header_roundtrip_witness :
  let h := mk_header MAGIC VERSION (N.of_nat PAGE_SIZE) 9 2 3 17 [7%N; 5%N] in
  exists data, header_serialize h = Some data /\ length data = PAGE_SIZE /\
    header_deserialize data = Ok (header_truncated h) /\
    (length (h_free_list h) <= 507 -> header_deserialize data = Ok h).
Proof.
  intros h. apply (header_roundtrip h). unfold header_wf. split_and!; try reflexivity.
  repeat constructor.
Defined.

(** ** Closing and opening again *)
Section reopen.

Definition pager_header (s : Pager) : Header :=
  mk_header MAGIC VERSION (N.of_nat PAGE_SIZE) (num_pages s)
    (wrap_u32 (N.of_nat (length (free_list s)))) (metadata_page s) (next_tx_id s) (free_list s).

(** What makes the state of an open pager storable: the metadata page and the transaction id
    are in range and the free list fits in the header page. *)
Record storable (s : Pager) : Prop := {
  st_meta : metadata_page s = 0%N \/ pager_used s (metadata_page s);
  st_tx : (next_tx_id s < 2 ^ 64)%N;
  st_free : length (free_list s) <= 507 }.

Lemma pager_header_wf s : pager_ok s -> storable s -> header_wf (pager_header s).
Proof.
  intros Hok [Hm Ht Hf]. pose proof (ok_pages _ Hok).
  assert (wrap_u32 (N.of_nat (length (free_list s))) = N.of_nat (length (free_list s))) as Hc.
  { unfold wrap_u32. apply N.mod_small. lia. }
  unfold header_wf. simpl. rewrite Hc. split_and!; try done; try lia.
  - destruct Hm as [-> |[? _]]; lia.
  - apply Forall_forall. intros p Hp%(ok_free _ Hok). lia.
Qed.

Lemma write_header_spec s :
  read_only s = false -> pager_ok s -> storable s ->
  write_header s = (Ok tt, with_file (file_write 0 (zbuf PAGE_SIZE (header_bytes (pager_header s))) (file s)) s).
Proof.
  intros Hrw Hok Hst. unfold write_header, guard_writable, get_header_data, st_bind. rewrite Hrw.
  fold (pager_header s). by rewrite header_serialize_bytes.
Qed.

Lemma file_page_length p f d : (p < 2 ^ 52)%N -> file_page p f = Some d -> N.to_nat (p * 4096) + PAGE_SIZE <= length f.
Proof.
  intros Hp. unfold file_page, slice. rewrite page_offset_small by done. case_decide; [|done].
  intros _. size_lia.
Qed.
End reopen.

(** C35: closing a pager and opening its file again, with any cache size, gives back the page
    count, the metadata page, the next transaction id, the free list and every page but the
    header page, provided the header can be stored (the free list has at most 507 pages, the
    metadata page is in use or 0) and the last page of the file has been written. *)
Theorem close_then_open s cap (Hok : pager_ok s) (Hst : storable s)
    (Hlast : num_pages s = 1%N \/ exists d, pager_view s (num_pages s - 1) = Some d) :
  exists s1 s2, close s = (Ok tt, s1) /\ pager_open (Some (file s1)) cap false = (Ok tt, s2) /\
    pager_ok s2 /\ num_pages s2 = num_pages s /\ metadata_page s2 = metadata_page s /\
    next_tx_id s2 = next_tx_id s /\ free_list s2 = free_list s /\
    forall p d, (0 < p < 2 ^ 52)%N -> pager_view s p = Some d -> pager_view s2 p = Some d.
Proof.
  pose proof Hok as [Hrw Hn Hfn Hf (c & Hr & Hc)].
  destruct (flush_spec s c _ Hrw Hr Hc) as [H1 _].
  pose proof (flushed_ok s c Hok Hr Hc) as Hok1.
  assert (storable (flushed s c)) as Hst1 by (destruct Hst; by split).
  pose proof (write_header_spec (flushed s c) Hrw Hok1 Hst1) as H2.
  set (hb := zbuf PAGE_SIZE (header_bytes (pager_header (flushed s c)))) in *.
  assert (length hb = PAGE_SIZE) as Hhb by (by apply length_zbuf, length_header_bytes).
  assert (hb <> []) as Hne by (intros Hx; rewrite Hx in Hhb; done).
  set (f2 := file_write 0 hb (file (flushed s c))) in *.
  assert (forall p d, (0 < p < 2 ^ 52)%N -> pager_view s p = Some d -> file_page p f2 = Some d) as Hpages.
  { intros p d Hp Hv. apply (flushed_view s c) in Hv as [_ Hv]; [|done..|lia].
    apply file_read_write_other; [done| |done]. left. rewrite Hhb, page_offset_small by lia. size_lia. }
  exists (with_file f2 (flushed s c)), (mk_pager f2 (LRUCache_new cap) (num_pages s) (metadata_page s)
    (next_tx_id s) (free_list s) false).
  split. { unfold close, st_bind. rewrite Hrw, H1. exact H2. }
  split; [apply pager_open_spec|].
  - exists hb, (pager_header s). split_and!.
    + unfold file_read. simpl. rewrite <-Hhb at 1. unfold f2. by rewrite file_read_write_same.
    + destruct (header_roundtrip_lemma (pager_header s) (pager_header_wf s Hok Hst)) as (x & Hx & _ & _ & Hd).
      rewrite header_serialize_bytes in Hx by done. simplify_eq. apply Hd, Hst.
    + unfold header_valid. simpl. split_and!; try done; try lia.
      * etrans; [apply N.Div0.mod_le|]. destruct Hlast as [->|[d Hl]].
        -- unfold f2. rewrite length_file_write, Hhb. size_lia.
        -- destruct (decide (num_pages s = 1%N)) as [->|Hn1].
           ++ unfold f2. rewrite length_file_write, Hhb. size_lia.
           ++ apply Hpages, file_page_length in Hl; [|lia..]. size_lia.
      * destruct Hst as [[->|[? _]] _ _]; auto.
      * intros Hin. destruct Hst as [[Hx|[_ ?]] _ _]; [|done]. apply Hf in Hin. lia.
    + done.
  - split; [by apply new_pager_ok|]. split_and!; done.
Qed.

Lemma close_then_open_witness :
  let s := mk_pager [] (LRUCache_new 2) 1 0 7 [] false in
  exists s1 s2, close s = (Ok tt, s1) /\ pager_open (Some (file s1)) 3 false = (Ok tt, s2) /\
    pager_ok s2 /\ num_pages s2 = num_pages s /\ metadata_page s2 = metadata_page s /\
    next_tx_id s2 = next_tx_id s /\ free_list s2 = free_list s /\
    forall p d, (0 < p < 2 ^ 52)%N -> pager_view s p = Some d -> pager_view s2 p = Some d.
Proof.
  intros s. apply (close_then_open s 3).
  - apply new_pager_ok; [lia|constructor|by intros p ?%elem_of_nil].
  - split; [by left|done|simpl; lia].
  - by left.
Defined.

(** ** The contents of pages along a history of operations *)

Lemma read_page_shared_spec s p :
  pager_ok s -> (p < 2 ^ 52)%N ->
  match pager_view s p with
  | Some d => exists c', read_page_shared p s = (Ok d, with_pcache c' s) /\ pager_ok (with_pcache c' s) /\
      forall q, pager_view (with_pcache c' s) q = pager_view s q
  | None => read_page_shared p s = (Err unexpected_eof, s)
  end.
Proof.
  intros Hok Hp. destruct (ok_cache _ Hok) as (sp & Hr & Hc).
  rewrite (view_eq _ _ _ Hr). unfold s_view.
  destruct (run_op_refines (OpGetReadOnly p) _ _ Hr) as (c1 & H1 & _). simpl in H1.
  assert (on_cache (fun c => (fun r => (r, c)) <$> lru_get_read_only p c) s = (Ok (s_lookup p sp), s)) as Hg.
  { unfold on_cache. destruct (lru_get_read_only p (pcache s)); simplify_eq/=. by rewrite with_pcache_id. }
  unfold read_page_shared. rewrite !(st_bind_ok _ _ _ _ _ Hg). clear Hg.
  destruct (s_lookup p sp) as [d|] eqn:Hl.
  - exists (pcache s). by rewrite with_pcache_id.
  - unfold st_bind, file_read, of_option. simpl. fold (file_page p (file s)).
    destruct (file_page p (file s)) as [d|] eqn:Hf; [|done].
    destruct (run_op_refines (OpPut p d) _ _ Hr) as (c2 & H2 & Hr2). simpl in H2, Hr2.
    destruct (lru_put p d (pcache s)) as [c3|] eqn:Hput; simplify_eq/=. rewrite Hl in Hr2.
    assert (coherent (file s) (s_use p d sp)) as Hc2.
    { apply coherent_use; [done|by eapply length_slice|done|by right]. }
    unfold on_cache_, on_cache. simpl. rewrite Hput. simpl. exists c2. split; [done|].
    split; [eapply pager_ok_cache; [done..|by apply coherent_evict]|].
    intros q. rewrite (view_eq s _ _ Hr), (view_eq (with_pcache c2 s) _ _ Hr2). simpl.
    rewrite s_view_evict, s_view_use by (try done; apply Hc). case_decide; [|done]. subst.
    unfold s_view. by rewrite Hl.
Qed.

(** Every state an open pager reaches through its page operations, with the contents that the
    history wrote to each page since it was last allocated. *)
Inductive page_history : Pager -> gmap N (list byte) -> Prop :=
| hist_start s : pager_ok s -> page_history s ∅
| hist_read s m p d s' :
    page_history s m -> pager_used s p -> read_page p s = (Ok d, s') -> page_history s' m
| hist_read_shared s m p d s' :
    page_history s m -> pager_used s p -> read_page_shared p s = (Ok d, s') -> page_history s' m
| hist_write s m p d s' :
    page_history s m -> pager_used s p -> write_page_transfer p d s = (Ok tt, s') ->
    page_history s' (<[p := d]> m)
| hist_alloc s m lo p s' :
    page_history s m -> (lo < num_pages s)%N -> pager_room s 1 ->
    alloc_page_minimum lo s = (Ok p, s') -> page_history s' m
| hist_free s m p s' :
    page_history s m -> pager_used s p -> p <> 0%N -> free_page p s = (Ok tt, s') ->
    page_history s' (delete p m)
| hist_flush s m s' : page_history s m -> flush s = (Ok tt, s') -> page_history s' m
| hist_flush_no_sync s m s' : page_history s m -> flush_no_sync s = (Ok tt, s') -> page_history s' m.

Definition holds_pages (s : Pager) (m : gmap N (list byte)) : Prop :=
  pager_ok s /\ forall p d, m !! p = Some d -> pager_used s p /\ pager_view s p = Some d.

Lemma used_small s p : pager_ok s -> pager_used s p -> (p < 2 ^ 52)%N.
Proof. intros Hok [? _]. pose proof (ok_pages _ Hok). lia. Qed.

Lemma holds_pages_flush s m : holds_pages s m ->
  exists s', flush s = (Ok tt, s') /\ flush_no_sync s = (Ok tt, s') /\ holds_pages s' m.
Proof.
  intros [Hok Hm]. destruct (ok_cache _ Hok) as (c & Hr & Hc).
  destruct (flush_spec s c _ (ok_rw _ Hok) Hr Hc) as [H1 H2]. exists (flushed s c).
  split_and!; [done..|]. split; [by apply flushed_ok|].
  intros p d Hpd. apply Hm in Hpd as [Hu Hv]. split; [exact Hu|].
  apply flushed_view; [done..|by eapply used_small|done].
Qed.

Lemma page_history_holds s m : page_history s m -> holds_pages s m.
Proof.
  induction 1 as [s Hok|s m p d s' _ [Hok IH] Hu Hop|s m p d s' _ [Hok IH] Hu Hop|s m p d s' _ [Hok IH] Hu Hop
    |s m lo p s' _ [Hok IH] Hlo Hroom Hop|s m p s' _ [Hok IH] Hu H0 Hop|s m s' _ IH Hop|s m s' _ IH Hop].
  - split; [done|]. intros p d. by rewrite lookup_empty.
  - pose proof (read_page_spec s p Hok (used_small _ _ Hok Hu)) as H. destruct (pager_view s p) as [e|] eqn:?; [|congruence].
    destruct H as (c' & He & Hok' & Hv). rewrite He in Hop. simplify_eq. split; [done|].
    intros q e' Hq. rewrite Hv. by apply IH.
  - pose proof (read_page_shared_spec s p Hok (used_small _ _ Hok Hu)) as H. destruct (pager_view s p) as [e|] eqn:?; [|congruence].
    destruct H as (c' & He & Hok' & Hv). rewrite He in Hop. simplify_eq. split; [done|].
    intros q e' Hq. rewrite Hv. by apply IH.
  - assert (length d = PAGE_SIZE) as Hd.
    { unfold write_page_transfer, guard_writable, st_bind in Hop. rewrite (ok_rw _ Hok) in Hop.
      case_decide as Hx; [done|]. destruct (decide (length d = PAGE_SIZE)); [done|]. by destruct Hx. }
    destruct (write_page_transfer_spec s p d Hok (used_small _ _ Hok Hu) Hd) as (c' & He & Hok' & Hv).
    rewrite He in Hop. simplify_eq. split; [done|]. intros q e. rewrite lookup_insert, Hv.
    destruct (decide (p = q)) as [->|Hne].
    + rewrite decide_True by done. intros [= ->]. by split.
    + rewrite decide_False by done. apply IH.
  - destruct (alloc_page_minimum_spec s lo 0 Hok Hlo Hroom)
      as (p' & s1 & He & Hok' & _ & _ & _ & _ & Hus & Hf & Hc & _).
    rewrite He in Hop. simplify_eq. split; [done|]. intros q d Hq. apply IH in Hq as [Hq Hv].
    split; [by apply Hus|]. by rewrite (pager_view_pcache s).
  - destruct (free_page_spec s p Hok Hu H0) as (s1 & He & Hok' & Hn & Hf & _ & Hv).
    rewrite He in Hop. simplify_eq. split; [done|]. intros q d [Hne Hq]%lookup_delete_Some.
    apply IH in Hq as [[Hq1 Hq2] Hq3]. rewrite Hv by done. split; [|done]. unfold pager_used.
    rewrite Hn, Hf. set_solver.
  - destruct (holds_pages_flush s m IH) as (s1 & He & _ & Hh). rewrite He in Hop. by simplify_eq.
  - destruct (holds_pages_flush s m IH) as (s1 & _ & He & Hh). rewrite He in Hop. by simplify_eq.
Qed.

(** C27: along any history of reads, writes by [write_page_transfer], allocations, frees and
    flushes of an open pager, whatever the size of its cache, both reads of a page return the
    bytes last written to it, and an allocation never returns a page whose contents are live.
    The other way to write, [write_page], is not part of these histories, because it can lose
    what it writes ([write_page_into_dirty_cache_is_lost] below). *)
Theorem reads_return_last_write s m (Hh : page_history s m) :
  (forall p d, m !! p = Some d ->
     (exists s', read_page p s = (Ok d, s')) /\ (exists s', read_page_shared p s = (Ok d, s'))) /\
  (forall lo, (lo < num_pages s)%N -> pager_room s 1 ->
     exists p s', alloc_page_minimum lo s = (Ok p, s') /\ (lo <= p)%N /\ m !! p = None).
Proof.
  destruct (page_history_holds s m Hh) as [Hok Hm]. split.
  - intros p d Hp. apply Hm in Hp as [Hu Hv].
    pose proof (read_page_spec s p Hok (used_small _ _ Hok Hu)) as H1.
    pose proof (read_page_shared_spec s p Hok (used_small _ _ Hok Hu)) as H2.
    rewrite Hv in H1, H2. destruct H1 as (c1 & H1 & _), H2 as (c2 & H2 & _). eauto.
  - intros lo Hlo Hroom. destruct (alloc_page_minimum_spec s lo 0 Hok Hlo Hroom)
      as (p & s1 & He & _ & Hnu & _ & _ & Hle & _).
    exists p, s1. split_and!; [done..|]. destruct (m !! p) as [d|] eqn:Hp; [|done].
    by apply Hm in Hp as [? _].
Qed.

Lemma reads_return_last_write_witness :
  let d := replicate PAGE_SIZE Byte.x2a in
  let s := mk_pager [] (LRUCache_new 1) 5 0 1 [4%N] false in
  let s' := (write_page_transfer 1 d s).2 in
  (forall p e, (<[1%N := d]> ∅ : gmap N (list byte)) !! p = Some e ->
     (exists s'', read_page p s' = (Ok e, s'')) /\ (exists s'', read_page_shared p s' = (Ok e, s''))) /\
  (forall lo, (lo < num_pages s')%N -> pager_room s' 1 ->
     exists p s'', alloc_page_minimum lo s' = (Ok p, s'') /\ (lo <= p)%N /\
       (<[1%N := d]> ∅ : gmap N (list byte)) !! p = None).
Proof.
  intros d s s'. apply (reads_return_last_write s' (<[1%N := d]> ∅)).
  apply (hist_write s ∅ 1 d s').
  - apply hist_start, new_pager_ok; [lia|apply NoDup_singleton|].
    intros p ->%list_elem_of_singleton. lia.
  - split; [reflexivity|]. by intros ?%list_elem_of_singleton.
  - vm_compute. reflexivity.
Defined.

(** An allocation takes the last free page that is at least the requested minimum and
    forgets the free pages after it, which are below the minimum; when no free page
    qualifies, it forgets the whole free list and returns the page after the end of the
    file. The cache and the file do not change. *)
Theorem alloc_takes_last_suitable_page s lo (Hrw : read_only s = false) :
  (exists keep p skipped, free_list s = keep ++ p :: skipped /\ (lo <= p)%N /\
     Forall (fun q => q < lo)%N skipped /\
     alloc_page_minimum lo s = (Ok p, with_free_list keep s)) \/
  (Forall (fun q => q < lo)%N (free_list s) /\
     alloc_page_minimum lo s =
       (Ok (num_pages s), with_num_pages (wrap_u64 (num_pages s + 1)) (with_free_list [] s))).
Proof.
  unfold alloc_page_minimum, guard_writable, st_bind. rewrite Hrw.
  destruct (pop_free lo (reverse (free_list s))) as [[p|] r] eqn:Hpop.
  - left. apply pop_free_app in Hpop as (sk & Hrev & Hle & Hsk).
    exists (reverse r), p, (reverse sk). split_and!; [|done|by apply Forall_reverse|done].
    rewrite <-(reverse_involutive (free_list s)), Hrev, reverse_app, reverse_cons, <-app_assoc. done.
  - right. apply pop_free_None in Hpop as [-> Hsk]. split; [|done].
    by rewrite <-(reverse_involutive (free_list s)), Forall_reverse.
Qed.

Lemma alloc_takes_last_suitable_page_witness :
  let s := mk_pager [] (LRUCache_new 1) 9 0 1 [7%N; 3%N] false in
  (exists keep p skipped, free_list s = keep ++ p :: skipped /\ (5 <= p)%N /\
     Forall (fun q => q < 5)%N skipped /\
     alloc_page_minimum 5 s = (Ok p, with_free_list keep s)) \/
  (Forall (fun q => q < 5)%N (free_list s) /\
     alloc_page_minimum 5 s =
       (Ok (num_pages s), with_num_pages (wrap_u64 (num_pages s + 1)) (with_free_list [] s))).
Proof. intros s. exact (alloc_takes_last_suitable_page s 5 eq_refl). Defined.

(** [write_page] puts a clean page in the cache before it marks it dirty. When every other
    cached page is dirty the page is evicted in between, and the write is lost. *)
Theorem write_page_into_dirty_cache_is_lost :
  let d := replicate PAGE_SIZE Byte.x2a in
  let s := (write_page_transfer 1 d (mk_pager [] (LRUCache_new 1) 3 0 1 [] false)).2 in
  (write_page 2 d s).1 = Ok tt /\ (read_page 2 (write_page 2 d s).2).1 = Err unexpected_eof /\
  (write_page_transfer 2 d s).1 = Ok tt /\ (read_page 2 (write_page_transfer 2 d s).2).1 = Ok d.
Proof. split_and!; vm_compute; reflexivity. Qed.

(** A new pager without a file. *)
Definition new_pager (cap : nat) : Pager := (pager_open None cap false).2.

Lemma new_pager_inv cap n :
  (N.of_nat n + 1 <= 2 ^ 52)%N -> ps_inv (new_pager cap) /\ ps_room (new_pager cap) n.
Proof.
  intros Hn. assert (exists f, new_pager cap = mk_pager f (LRUCache_new cap) 1 0 1 [] false) as [f Hf].
  { unfold new_pager, pager_open, write_header, guard_writable, get_header_data, st_bind. cbn [read_only].
    rewrite header_serialize_bytes by done. by eexists. }
  rewrite Hf. split.
  - clear Hf. apply new_pager_ok; [lia|constructor|by intros ? ?%elem_of_nil].
  - unfold ps_room, Pager_laws, pager_room. simpl. lia.
Qed.
