(* ===== verification/BTreeNode.v ===== *)
(** * B-tree nodes and their pages ([src/src/core/btree.rs], first and last part)

    The node type, [serialize_node_into] and [deserialize_node]. A slice or an index out of
    range is a panic: [None] when writing, [Panic] when reading. *)

From stdpp Require Import base list strings gmap pretty.
From Stdlib Require Import NArith Lia.
From S2P Require Import Prelude Constants Bytes.

Inductive NodeType := InternalNode | LeafNode.

#[global] Instance NodeType_eq_dec : EqDecision NodeType.
Proof. solve_decision. Defined.

Definition NodeType_to_u8 (t : NodeType) : N :=
  match t with InternalNode => 0 | LeafNode => 1 end.

Definition NodeType_from_u8 (v : N) : Result NodeType :=
  if (v =? 0)%N then Ok InternalNode else
  if (v =? 1)%N then Ok LeafNode else
  Err (Other ("invalid node type: " +:+ pretty v)).

Record LeafEntry := mk_entry { key : string; value : N }.

#[global] Instance LeafEntry_eq_dec : EqDecision LeafEntry.
Proof. solve_decision. Defined.

Record BTreeNode := mk_node {
  page_num : N;
  node_type : NodeType;
  num_keys : N;
  parent : N;
  entries : list LeafEntry;
  next_leaf : N;
  keys : list string;
  children : list N }.

Definition new_leaf (p : N) : BTreeNode := mk_node p LeafNode 0 0 [] 0 [] [].
Definition new_internal (p : N) : BTreeNode := mk_node p InternalNode 0 0 [] 0 [] [].

(** ** Writing a node *)
Definition w_key (k : string) (w : wcursor) : option wcursor :=
  w ← w_le 2 (wrap_u16 (N.of_nat (length (as_bytes k)))) w;
  w_bytes (as_bytes k) w.

Definition w_entry (e : LeafEntry) (w : wcursor) : option wcursor :=
  w ← w_key (key e) w; w_le 8 (value e) w.

(** A [for] loop whose body moves the cursor. *)
Fixpoint w_each {A} (f : A -> wcursor -> option wcursor) (l : list A) (w : wcursor) : option wcursor :=
  match l with [] => Some w | x :: l => w ← f x w; w_each f l w end.

(** The body of [serialize_node_into] on a cursor. *)
Definition w_node (node : BTreeNode) (w : wcursor) : option wcursor :=
  w ← w_le 1 (NodeType_to_u8 (node_type node)) w;
  w ← w_le 2 (num_keys node) w;
  w ← w_le 8 (parent node) w;
  match node_type node with
  | LeafNode =>
    w ← w_le 8 (next_leaf node) w;
    w ← w_le 2 (wrap_u16 (N.of_nat (length (entries node)))) w;
    w_each w_entry (entries node) w
  | InternalNode =>
    w ← w_le 2 (wrap_u16 (N.of_nat (length (children node)))) w;
    w ← w_each (w_le 8) (children node) w;
    w_each w_key (keys node) w
  end.

Definition serialize_node_into (node : BTreeNode) (data : list byte) : option (list byte) :=
  w ← w_node node (0, data); Some w.2.

(** ** Reading a node *)
Definition corrupt (pg : N) (details : string) : Error := Corruption "btree" pg details.

Definition check (b : bool) (e : Error) : Result unit := if b then Ok tt else Err e.

(** [if offset + n > data.len() { return Err(..) }] and the read that follows it. *)
Definition r_int (pg : N) (n off : nat) (data : list byte) (details : string) : Result N :=
  if decide (length data < off + n) then Err (corrupt pg details)
  else of_option Panic (read_le n off data).

(** A length-prefixed key; [what] and [pre] are the parts of the messages that differ between
    the keys of a leaf and of an internal node. *)
Definition r_key (pg : N) (what pre : string) (off : nat) (data : list byte) : Result (string * nat) :=
  let? key_len := r_int pg 2 off data ("insufficient data for " +:+ what +:+ " keyLen") in
  let off := off + 2 in
  let? _ := check (key_len <=? 1000)%N
    (corrupt pg (pre +:+ "keyLen=" +:+ pretty key_len +:+ " is unreasonably large")) in
  let len := N.to_nat key_len in
  if decide (length data < off + len) then
    Err (corrupt pg ("insufficient data for " +:+ what +:+ (if decide (what = "entry") then " key" else "")))
  else
  let? bs := of_option Panic (slice off len data) in
  let? k := of_option (Err InvalidDocument) (from_utf8 bs) in
  Ok (k, off + len).

Fixpoint r_entries (n : nat) (pg : N) (off : nat) (data : list byte) : Result (list LeafEntry) :=
  match n with
  | 0 => Ok []
  | S n =>
    let? '(k, off) := r_key pg "entry" "" off data in
    let? v := r_int pg 8 off data "insufficient data for entry value" in
    let? es := r_entries n pg (off + 8) data in
    Ok (mk_entry k v :: es)
  end.

Fixpoint r_children (n : nat) (pg : N) (off : nat) (data : list byte) : Result (list N * nat) :=
  match n with
  | 0 => Ok ([], off)
  | S n =>
    let? c := r_int pg 8 off data "insufficient data for child" in
    let? '(cs, off) := r_children n pg (off + 8) data in
    Ok (c :: cs, off)
  end.

Fixpoint r_keys (n : nat) (pg : N) (off : nat) (data : list byte) : Result (list string) :=
  match n with
  | 0 => Ok []
  | S n =>
    let? '(k, off) := r_key pg "key" "key " off data in
    let? ks := r_keys n pg off data in
    Ok (k :: ks)
  end.

Definition deserialize_node (pg : N) (data : list byte) : Result BTreeNode :=
  if decide (length data < 11) then
    Err (corrupt pg ("buffer too small: " +:+ pretty (length data) +:+ " bytes")) else
  let? ty := of_option Panic (read_le 1 0 data) in
  let? node_type := NodeType_from_u8 ty in
  let? num_keys := of_option Panic (read_le 2 1 data) in
  let? parent := of_option Panic (read_le 8 3 data) in
  match node_type with
  | LeafNode =>
    let? next_leaf := r_int pg 8 11 data "insufficient data for nextLeaf" in
    let? num_entries := r_int pg 2 19 data "insufficient data for numEntries" in
    let? _ := check (num_entries <=? 1000)%N
      (corrupt pg ("numEntries=" +:+ pretty num_entries +:+ " is unreasonably large")) in
    let? entries := r_entries (N.to_nat num_entries) pg 21 data in
    Ok (mk_node pg node_type num_keys parent entries next_leaf [] [])
  | InternalNode =>
    let? num_children := r_int pg 2 11 data "insufficient data for numChildren" in
    let? _ := check (num_children <=? 1000)%N
      (corrupt pg ("numChildren=" +:+ pretty num_children +:+ " is unreasonably large")) in
    let? '(children, off) := r_children (N.to_nat num_children) pg 13 data in
    let? keys := r_keys (N.to_nat num_keys) pg off data in
    if ((0 <? num_keys) && negb (N.of_nat (length children) =? num_keys + 1))%N then
      Err (corrupt pg ("has " +:+ pretty num_keys +:+ " keys but " +:+ pretty (length children) +:+
        " children (expected " +:+ pretty (wrap_u16 (num_keys + 1)) +:+ ")"))
    else Ok (mk_node pg node_type num_keys parent [] 0 keys children)
  end.

(** ** The bytes of a node *)
Definition key_bytes (k : string) : list byte := to_le_bytes 2 (wrap_u16 (N.of_nat (length (as_bytes k)))) ++ as_bytes k.
Definition entry_bytes (e : LeafEntry) : list byte := key_bytes (key e) ++ to_le_bytes 8 (value e).

Definition node_bytes (n : BTreeNode) : list byte :=
  to_le_bytes 1 (NodeType_to_u8 (node_type n)) ++ to_le_bytes 2 (num_keys n) ++
  to_le_bytes 8 (parent n) ++
  match node_type n with
  | LeafNode =>
    to_le_bytes 8 (next_leaf n) ++ to_le_bytes 2 (wrap_u16 (N.of_nat (length (entries n)))) ++
    concat (entry_bytes <$> entries n)
  | InternalNode =>
    to_le_bytes 2 (wrap_u16 (N.of_nat (length (children n)))) ++
    concat (to_le_bytes 8 <$> children n) ++ concat (key_bytes <$> keys n)
  end.

(** How many bytes the code writes for a node. *)
Definition node_size (n : BTreeNode) : nat := length (node_bytes n).

Section writing.

(** A writer that appends the bytes [b] or panics when they do not fit. *)
Definition writes (f : wcursor -> option wcursor) (b : list byte) : Prop :=
  forall total pre, length pre <= total ->
    f (wrote total pre) = if decide (length pre + length b <= total) then Some (wrote total (pre ++ b)) else None.

Lemma writes_bytes src : writes (w_bytes src) src.
Proof.
  intros total pre H. case_decide; [by apply w_bytes_wrote|]. apply w_bytes_panic; lia.
Qed.

Lemma writes_le n v : writes (w_le n v) (to_le_bytes n v).
Proof. apply writes_bytes. Qed.

Lemma writes_seq f g b c : writes f b -> writes g c -> writes (fun w => w ← f w; g w) (b ++ c).
Proof.
  intros Hf Hg total pre H. rewrite Hf by done. rewrite length_app. case_decide; simpl.
  - rewrite Hg by (rewrite length_app; lia). rewrite length_app, app_assoc.
    by rewrite <-Nat.add_assoc.
  - rewrite decide_False by lia. done.
Qed.

Lemma writes_nil : writes Some [].
Proof. intros total pre H. rewrite app_nil_r. simpl. by rewrite decide_True by lia. Qed.

Lemma writes_each {A} (f : A -> wcursor -> option wcursor) b (l : list A) :
  (forall x, writes (f x) (b x)) -> writes (w_each f l) (concat (b <$> l)).
Proof.
  intros Hf. induction l as [|x l IH]; [apply writes_nil|].
  exact (writes_seq _ _ _ _ (Hf x) IH).
Qed.

Lemma writes_key k : writes (w_key k) (key_bytes k).
Proof. apply writes_seq; [apply writes_le|apply writes_bytes]. Qed.

Lemma writes_entry e : writes (w_entry e) (entry_bytes e).
Proof. apply writes_seq; [apply writes_key|apply writes_le]. Qed.

Lemma writes_node n : writes (w_node n) (node_bytes n).
Proof.
  unfold node_bytes, w_node. do 3 (apply writes_seq; [apply writes_le|]). destruct (node_type n).
  - apply writes_seq; [apply writes_le|]. apply writes_seq; apply writes_each.
    + intros. apply writes_le.
    + apply writes_key.
  - do 2 (apply writes_seq; [apply writes_le|]). apply writes_each, writes_entry.
Qed.

(** Serializing into a zeroed buffer writes exactly [node_bytes], or panics when they do not
    fit. *)
Lemma serialize_node_zeros n total :
  serialize_node_into n (replicate total Byte.x00) =
    if decide (node_size n <= total) then Some (zbuf total (node_bytes n)) else None.
Proof.
  unfold serialize_node_into. rewrite <-wrote_nil, (writes_node n total []) by (simpl; lia).
  change (length [] + length (node_bytes n)) with (node_size n). by case_decide.
Qed.
End writing.

(** ** Reading back *)
Section reading.
Implicit Types (data rest : list byte).

Lemma r_int_reads pg n off data v rest m :
  reads data off (to_le_bytes n v ++ rest) -> (v < 2 ^ (8 * N.of_nat n))%N ->
  r_int pg n off data m = Ok v /\ reads data (off + n) rest.
Proof.
  intros Hr Hv. pose proof (reads_length _ _ _ Hr) as Hl. rewrite length_app, length_to_le_bytes in Hl.
  apply reads_le in Hr as [Hr Hr']; [|done]. unfold r_int. rewrite decide_False by lia. by rewrite Hr.
Qed.

Definition key_ok (k : string) : Prop := rust_string k /\ length (as_bytes k) <= 1000.

#[global] Instance key_ok_dec k : Decision (key_ok k).
Proof. unfold key_ok. apply _. Defined.

Lemma length_key_bytes k : length (key_bytes k) = 2 + length (as_bytes k).
Proof. unfold key_bytes. by rewrite length_app, length_to_le_bytes. Qed.

Lemma length_entry_bytes e : length (entry_bytes e) = 10 + length (as_bytes (key e)).
Proof. unfold entry_bytes. rewrite length_app, length_key_bytes, length_to_le_bytes. lia. Qed.

Lemma r_key_reads pg what pre off data k rest :
  key_ok k -> reads data off (key_bytes k ++ rest) ->
  r_key pg what pre off data = Ok (k, off + length (key_bytes k)) /\
  reads data (off + length (key_bytes k)) rest.
Proof.
  intros [Hu Hk] Hr. rewrite length_key_bytes. unfold key_bytes in Hr. rewrite <-app_assoc in Hr.
  assert (wrap_u16 (N.of_nat (length (as_bytes k))) = N.of_nat (length (as_bytes k))) as Hw.
  { unfold wrap_u16. apply N.mod_small. change (2 ^ 16)%N with 65536%N. lia. }
  rewrite Hw in Hr. unfold r_key.
  apply (r_int_reads pg _ _ _ _ _ ("insufficient data for " +:+ what +:+ " keyLen")) in Hr as [-> Hr];
    [|change (2 ^ (8 * N.of_nat 2))%N with 65536%N; lia].
  cbn [obind]. unfold check. rewrite (proj2 (N.leb_le _ _)) by lia. cbn [obind].
  rewrite Nat2N.id. pose proof (reads_length _ _ _ Hr) as Hl. rewrite length_app in Hl.
  rewrite decide_False by lia. eapply reads_slice in Hr as [-> Hr]; [|reflexivity]. cbn [of_option obind].
  rewrite from_utf8_as_bytes by done. cbn [of_option obind]. rewrite (Nat.add_assoc off 2). done.
Qed.

Definition entry_ok (e : LeafEntry) : Prop := key_ok (key e) /\ (value e < 2 ^ 64)%N.

#[global] Instance entry_ok_dec e : Decision (entry_ok e).
Proof. unfold entry_ok. apply _. Defined.

Lemma r_entries_reads pg off data es rest :
  Forall entry_ok es -> reads data off (concat (entry_bytes <$> es) ++ rest) ->
  r_entries (length es) pg off data = Ok es.
Proof.
  intros H. revert off. induction H as [|[k v] es [Hk Hv] Hes IH]; intros off Hr; [done|].
  simpl in Hr. unfold entry_bytes in Hr at 1. simpl in Hr, Hk, Hv. rewrite <-!app_assoc in Hr.
  cbn [length r_entries]. apply (r_key_reads pg "entry" "") in Hr as [-> Hr]; [|done]. cbn [obind].
  apply (r_int_reads pg _ _ _ _ _ "insufficient data for entry value") in Hr as [-> Hr]; [|done]. cbn [obind].
  by rewrite (IH _ Hr).
Qed.

Lemma r_children_reads pg off data cs rest :
  Forall (fun c => c < 2 ^ 64)%N cs -> reads data off (concat (to_le_bytes 8 <$> cs) ++ rest) ->
  r_children (length cs) pg off data = Ok (cs, off + 8 * length cs) /\ reads data (off + 8 * length cs) rest.
Proof.
  intros H. revert off. induction H as [|c cs Hc Hcs IH]; intros off Hr.
  { simpl. by rewrite Nat.add_0_r. }
  simpl in Hr. rewrite <-!app_assoc in Hr. cbn [length r_children].
  apply (r_int_reads pg _ _ _ _ _ "insufficient data for child") in Hr as [-> Hr]; [|done]. cbn [obind].
  apply IH in Hr as [-> Hr]. cbn [obind length].
  replace (off + 8 * S (length cs)) with (off + 8 + 8 * length cs) by lia. done.
Qed.

Lemma r_keys_reads pg off data ks rest :
  Forall key_ok ks -> reads data off (concat (key_bytes <$> ks) ++ rest) ->
  r_keys (length ks) pg off data = Ok ks.
Proof.
  intros H. revert off. induction H as [|k ks Hk Hks IH]; intros off Hr; [done|].
  simpl in Hr. rewrite <-!app_assoc in Hr. cbn [length r_keys].
  apply (r_key_reads pg "key" "key ") in Hr as [-> Hr]; [|done]. cbn [obind].
  by rewrite (IH _ Hr).
Qed.
End reading.

(** The nodes that can be stored: their integers fit, their keys are strings of at most 1000
    bytes, their counts are at most 1000 and their bytes fit in a page. *)
Definition node_ok (n : BTreeNode) : Prop :=
  (parent n < 2 ^ 64)%N /\ node_size n <= PAGE_SIZE /\
  match node_type n with
  | LeafNode =>
    (num_keys n < 2 ^ 16)%N /\ (next_leaf n < 2 ^ 64)%N /\ length (entries n) <= 1000 /\
    Forall entry_ok (entries n) /\ keys n = [] /\ children n = []
  | InternalNode =>
    num_keys n = N.of_nat (length (keys n)) /\ length (children n) <= 1000 /\
    (keys n = [] \/ length (children n) = S (length (keys n))) /\ length (keys n) <= 1000 /\
    Forall key_ok (keys n) /\ Forall (fun c => c < 2 ^ 64)%N (children n) /\
    entries n = [] /\ next_leaf n = 0%N
  end.

Definition with_page (p : N) (n : BTreeNode) : BTreeNode :=
  mk_node p (node_type n) (num_keys n) (parent n) (entries n) (next_leaf n) (keys n) (children n).

Lemma wrap_u16_small n : n <= 1000 -> wrap_u16 (N.of_nat n) = N.of_nat n.
Proof. intros H. unfold wrap_u16. apply N.mod_small. change (2 ^ 16)%N with 65536%N. lia. Qed.

Lemma r_int_ok pg n off data d :
  off + n <= length data -> exists v, r_int pg n off data d = Ok v /\ read_le n off data = Some v.
Proof.
  intros H. unfold r_int, read_le, slice. rewrite decide_False by lia. rewrite decide_True by lia.
  simpl. eauto.
Qed.

Lemma leaf_bytes_read pg n data :
  node_ok n -> node_type n = LeafNode -> reads data 0 (node_bytes n ++ replicate (PAGE_SIZE - node_size n) Byte.x00) ->
  deserialize_node pg data = Ok (with_page pg n).
Proof.
  intros (Hp & Hs & Hn) Ht Hr. rewrite Ht in Hn. destruct Hn as (Hk & Hx & Hl & He & Hks & Hc).
  pose proof (reads_length _ _ _ Hr) as Hlen. rewrite length_app, length_replicate in Hlen.
  unfold node_size in Hlen, Hs.
  unfold node_bytes in Hr at 1. rewrite Ht, <-!app_assoc in Hr. unfold deserialize_node.
  rewrite decide_False by size_lia.
  apply reads_le in Hr as [-> Hr]; [|done]. cbn [Nat.add] in Hr. simpl of_option. cbn [obind NodeType_to_u8 NodeType_from_u8 N.eqb Pos.eqb].
  apply reads_le in Hr as [-> Hr]; [|done]. cbn [Nat.add of_option obind] in Hr |- *.
  apply reads_le in Hr as [-> Hr]; [|done]. cbn [Nat.add of_option obind] in Hr |- *.
  apply (r_int_reads pg _ _ _ _ _ "insufficient data for nextLeaf") in Hr as [-> Hr]; [|done].
  cbn [Nat.add of_option obind] in Hr |- *. rewrite wrap_u16_small in Hr by done.
  apply (r_int_reads pg _ _ _ _ _ "insufficient data for numEntries") in Hr as [-> Hr];
    [|change (2 ^ (8 * N.of_nat 2))%N with 65536%N; lia].
  cbn [Nat.add of_option obind] in Hr |- *. unfold check. rewrite (proj2 (N.leb_le _ _)) by lia.
  cbn [obind]. rewrite Nat2N.id, (r_entries_reads _ _ _ _ _ He Hr). simpl.
  unfold with_page. by rewrite Ht, Hks, Hc.
Qed.

Lemma internal_bytes_read pg n data :
  node_ok n -> node_type n = InternalNode -> reads data 0 (node_bytes n ++ replicate (PAGE_SIZE - node_size n) Byte.x00) ->
  deserialize_node pg data = Ok (with_page pg n).
Proof.
  intros (Hp & Hs & Hn) Ht Hr. rewrite Ht in Hn. destruct Hn as (Hk & Hcl & Hck & Hkl & Hks & Hcs & He & Hx).
  pose proof (reads_length _ _ _ Hr) as Hlen. rewrite length_app, length_replicate in Hlen.
  unfold node_size in Hlen, Hs.
  unfold node_bytes in Hr at 1. rewrite Ht, <-!app_assoc in Hr. unfold deserialize_node.
  rewrite decide_False by size_lia. rewrite Hk in Hr.
  apply reads_le in Hr as [-> Hr]; [|done]. cbn [Nat.add] in Hr. simpl of_option. cbn [obind NodeType_to_u8 NodeType_from_u8 N.eqb].
  apply reads_le in Hr as [-> Hr]; [|change (2 ^ (8 * N.of_nat 2))%N with 65536%N; lia].
  cbn [Nat.add of_option obind] in Hr |- *.
  apply reads_le in Hr as [-> Hr]; [|done]. cbn [Nat.add of_option obind] in Hr |- *.
  rewrite wrap_u16_small in Hr by done.
  apply (r_int_reads pg _ _ _ _ _ "insufficient data for numChildren") in Hr as [-> Hr];
    [|change (2 ^ (8 * N.of_nat 2))%N with 65536%N; lia].
  cbn [Nat.add of_option obind] in Hr |- *. unfold check. rewrite (proj2 (N.leb_le _ _)) by lia.
  cbn [obind]. rewrite !Nat2N.id.
  apply (r_children_reads pg) in Hr as [-> Hr]; [|done]. cbn [obind].
  rewrite (r_keys_reads _ _ _ _ _ Hks Hr). cbn [obind].
  assert (((0 <? N.of_nat (length (keys n))) && negb (N.of_nat (length (children n)) =? N.of_nat (length (keys n)) + 1))%N = false) as ->.
  { destruct Hck as [->|Hck]; [done|]. apply andb_false_iff. right. apply negb_false_iff, N.eqb_eq. lia. }
  unfold with_page. by rewrite Ht, Hk, He, Hx.
Qed.

Lemma node_roundtrip_lemma n (Hn : node_ok n) :
  exists data, serialize_node_into n (replicate PAGE_SIZE Byte.x00) = Some data /\
    length data = PAGE_SIZE /\ forall pg, deserialize_node pg data = Ok (with_page pg n).
Proof.
  assert (node_size n <= PAGE_SIZE) as Hs by (by destruct Hn as (_ & ? & _)).
  exists (zbuf PAGE_SIZE (node_bytes n)). rewrite serialize_node_zeros, decide_True by done.
  split; [done|]. split; [by apply length_zbuf|]. intros pg.
  pose proof (reads_start (zbuf PAGE_SIZE (node_bytes n))) as Hr. unfold zbuf at 2 in Hr.
  destruct (node_type n) eqn:Ht; [by apply internal_bytes_read|by apply leaf_bytes_read].
Qed.

(** C37: a node that can be stored survives the round trip through a zeroed page: it is
    written without a panic, and the page decodes to the same node under the page number it
    is read from. *)
Theorem node_roundtrip n (Hn : node_ok n) :
  exists data, serialize_node_into n (replicate PAGE_SIZE Byte.x00) = Some data /\
    length data = PAGE_SIZE /\ forall pg, deserialize_node pg data = Ok (with_page pg n).
Proof. by apply node_roundtrip_lemma. Qed.

Lemma node_roundtrip_witness :
  let n := mk_node 4 InternalNode 2 0 [] 0 ["ann"; "bob"] [7%N; 9%N; 2%N] in
  exists data, serialize_node_into n (replicate PAGE_SIZE Byte.x00) = Some data /\
    length data = PAGE_SIZE /\ forall pg, deserialize_node pg data = Ok (with_page pg n).
Proof.
  intros n. apply (node_roundtrip n). split; [done|]. split.
  { change (node_size n) with 47. size_lia. }
  simpl. split_and!; [done|lia|by right|lia|..]; [|repeat constructor|done..].
  repeat constructor; simpl; lia.
Defined.

Lemma length_entry_bytes_list (es : list LeafEntry) :
  length (concat (entry_bytes <$> es)) = sum_list_with (fun e => 10 + length (as_bytes (key e))) es.
Proof. induction es as [|e es IH]; [done|]. rewrite fmap_cons. cbn [concat sum_list_with]. by rewrite length_app, length_entry_bytes, IH. Qed.

Lemma length_key_bytes_list ks : length (concat (key_bytes <$> ks)) = sum_list_with (fun k => 2 + length (as_bytes k)) ks.
Proof. induction ks as [|k ks IH]; [done|]. rewrite fmap_cons. cbn [concat sum_list_with]. by rewrite length_app, length_key_bytes, IH. Qed.

Lemma length_child_bytes_list (cs : list N) : length (concat (to_le_bytes 8 <$> cs)) = 8 * length cs.
Proof. induction cs as [|c cs IH]; [done|]. rewrite fmap_cons. cbn [concat length]. rewrite length_app, length_to_le_bytes, IH. lia. Qed.

Lemma node_size_leaf n :
  node_type n = LeafNode -> node_size n = 21 + sum_list_with (fun e => 10 + length (as_bytes (key e))) (entries n).
Proof.
  intros Ht. unfold node_size, node_bytes.
  rewrite Ht, !length_app, !length_to_le_bytes, length_entry_bytes_list. lia.
Qed.

Lemma node_size_internal n :
  node_type n = InternalNode ->
  node_size n = 13 + 8 * length (children n) + sum_list_with (fun k => 2 + length (as_bytes k)) (keys n).
Proof.
  intros Ht. unfold node_size, node_bytes.
  rewrite Ht, !length_app, !length_to_le_bytes, length_key_bytes_list, length_child_bytes_list. lia.
Qed.

(** Writing a node into a page never panics exactly when its bytes fit: 21 bytes and 10
    more than each key for a leaf, 13 bytes, 8 for each child and 2 more than each key for an
    internal node. A full leaf whose keys have at most 71 bytes fits, and one whose keys all
    have 72 bytes panics. *)
Theorem serialize_node_panics_iff_too_big n :
  (is_Some (serialize_node_into n (replicate PAGE_SIZE Byte.x00)) <-> node_size n <= PAGE_SIZE) /\
  (node_type n = LeafNode ->
     node_size n = 21 + sum_list_with (fun e => 10 + length (as_bytes (key e))) (entries n)) /\
  (node_type n = InternalNode ->
     node_size n = 13 + 8 * length (children n) + sum_list_with (fun k => 2 + length (as_bytes k)) (keys n)) /\
  (node_type n = LeafNode -> length (entries n) <= BTREE_ORDER ->
     Forall (fun e => length (as_bytes (key e)) <= 71) (entries n) -> node_size n <= PAGE_SIZE) /\
  (node_type n = LeafNode -> length (entries n) = BTREE_ORDER ->
     Forall (fun e => length (as_bytes (key e)) = 72) (entries n) ->
     serialize_node_into n (replicate PAGE_SIZE Byte.x00) = None).
Proof.
  rewrite serialize_node_zeros. split_and!.
  - case_decide; split; done.
  - apply node_size_leaf.
  - apply node_size_internal.
  - intros Ht Hl Hk. rewrite node_size_leaf by done.
    assert (forall es, Forall (fun e => length (as_bytes (key e)) <= 71) es ->
      sum_list_with (fun e => 10 + length (as_bytes (key e))) es <= 81 * length es) as Hs.
    { induction 1; simpl in *; lia. }
    specialize (Hs _ Hk). size_lia.
  - intros Ht Hl Hk. apply decide_False. rewrite node_size_leaf by done.
    assert (forall es, Forall (fun e => length (as_bytes (key e)) = 72) es ->
      sum_list_with (fun e => 10 + length (as_bytes (key e))) es = 82 * length es) as ->.
    { induction 1; simpl in *; lia. }
    + size_lia.
    + done.
Qed.

Lemma serialize_node_panics_iff_too_big_witness :
  serialize_node_into (mk_node 1 LeafNode 50 0
    (replicate BTREE_ORDER (mk_entry "aaaaaaaaaaaabbbbbbbbbbbbccccccccccccaaaaaaaaaaaabbbbbbbbbbbbcccccccccccc" 0)) 0 [] [])
    (replicate PAGE_SIZE Byte.x00) = None.
Proof.
  apply serialize_node_panics_iff_too_big; [done|done|].
  apply Forall_replicate. reflexivity.
Defined.

Lemma r_int_no_panic pg n off data d : r_int pg n off data d <> Panic.
Proof.
  destruct (decide (length data < off + n)).
  - unfold r_int. by rewrite decide_True.
  - destruct (r_int_ok pg n off data d) as (v & -> & _); [lia|done].
Qed.

Definition no_panic {A} (x : Result A) : Prop := x <> Panic /\ x <> OutOfFuel.

Lemma no_panic_bind {A B} (x : Result A) (k : A -> Result B) :
  no_panic x -> (forall a, x = Ok a -> no_panic (k a)) -> no_panic (obind k x).
Proof. unfold no_panic. destruct x; simpl; naive_solver. Qed.

Lemma no_panic_err {A} e : no_panic (Err e : Result A).
Proof. done. Qed.

Lemma no_panic_ok {A} (a : A) : no_panic (Ok a).
Proof. done. Qed.

Lemma no_panic_int pg n off data d : no_panic (r_int pg n off data d).
Proof.
  split; [apply r_int_no_panic|]. unfold r_int. case_decide; [done|]. by destruct (read_le n off data).
Qed.

Lemma no_panic_check b e : no_panic (check b e).
Proof. by destruct b. Qed.

Lemma no_panic_read n off data : off + n <= length data -> no_panic (of_option Panic (read_le n off data) : Result N).
Proof. intros H. unfold read_le, slice. by rewrite decide_True by lia. Qed.

#[export] Hint Resolve no_panic_err no_panic_ok no_panic_int no_panic_check no_panic_read : db.

Lemma no_panic_key pg what pre off data : no_panic (r_key pg what pre off data).
Proof.
  unfold r_key. repeat (apply no_panic_bind; [auto with db|intros]). case_decide; [done|].
  apply no_panic_bind; [unfold slice; by rewrite decide_True by lia|]. intros bs _.
  apply no_panic_bind; [|done]. by destruct (from_utf8 bs).
Qed.

#[export] Hint Resolve no_panic_key : db.

Lemma no_panic_loops n pg off data :
  no_panic (r_entries n pg off data) /\ no_panic (r_children n pg off data) /\ no_panic (r_keys n pg off data).
Proof.
  revert off. induction n as [|n IH]; intros off; [done|]. split_and!; cbn [r_entries r_children r_keys].
  - apply no_panic_bind; [auto with db|intros [k o] _]. apply no_panic_bind; [auto with db|intros v _].
    apply no_panic_bind; [apply IH|auto with db].
  - apply no_panic_bind; [auto with db|intros c _]. apply no_panic_bind; [apply IH|]. by intros [].
  - apply no_panic_bind; [auto with db|intros [k o] _]. apply no_panic_bind; [apply IH|auto with db].
Qed.

(** Decoding a page never panics and never reads past its end: whatever bytes a page of
    any length holds, [deserialize_node] returns a node or an error. *)
Theorem deserialize_node_total pg data :
  (exists n, deserialize_node pg data = Ok n) \/ (exists e, deserialize_node pg data = Err e).
Proof.
  assert (no_panic (deserialize_node pg data)) as [Hp Hf]; [|destruct (deserialize_node pg data); naive_solver].
  unfold deserialize_node. case_decide; [done|].
  apply no_panic_bind; [apply no_panic_read; lia|]. intros ty _.
  apply no_panic_bind; [unfold NodeType_from_u8; by repeat case_match|]. intros nt _.
  do 2 (apply no_panic_bind; [apply no_panic_read; lia|]; intros ? _).
  destruct nt.
  - do 2 (apply no_panic_bind; [auto with db|]; intros ? _).
    apply no_panic_bind; [apply no_panic_loops|]. intros [cs off] _.
    apply no_panic_bind; [apply no_panic_loops|]. intros ks _. by case_match.
  - do 3 (apply no_panic_bind; [auto with db|]; intros ? _).
    apply no_panic_bind; [apply no_panic_loops|auto with db].
Qed.
