(* ===== verification/BTree.v ===== *)
(** * The B-tree ([src/src/core/btree.rs])

    The operations of [BTree] and of its iterator, over the page store they call. The
    recursion of [find_leaf] and the loop of [search] follow child pointers and take fuel; the
    recursion between [insert_into_parent] and [split_internal] is bounded by the path.
    [BTreeSpec.v] shows what the operations do. *)

From stdpp Require Import base list strings gmap sorting pretty.
From Stdlib Require Import NArith Lia.
From S2P Require Import Prelude Constants Bytes PageStore BTreeNode.

Record BTreeInner := mk_inner {
  root_page : N;
  tx_active : bool;
  cow_pages : gmap N N;
  new_pages : gmap N bool;
  modified_root : N }.

Definition inner_new (root : N) : BTreeInner := mk_inner root false ∅ ∅ 0.

(** The page store and the tree's own state. *)
Record bstate (S : Type) := mk_bstate { store : S; inner : BTreeInner }.
Arguments mk_bstate {S} _ _.
Arguments store {S} _.
Arguments inner {S} _.

Record BTreeIterator := mk_iter {
  current_leaf : option BTreeNode;
  index : nat;
  started : bool }.

Section btree.
Context {S : Type} `{!PageStore S}.
Notation M := (ST (bstate S) Error).

Definition on_store {A} (m : ST S Error A) : M A := fun s =>
  let '(r, s') := m (store s) in (r, mk_bstate s' (inner s)).

Definition set_inner (f : BTreeInner -> BTreeInner) : M unit :=
  st_modify (fun s => mk_bstate (store s) (f (inner s))).

Definition panic {A} : M A := fun s => (Panic, s).

Definition out_of_fuel {A} : M A := fun s => (OutOfFuel, s).

Definition of_index {A} (x : option A) : M A := st_lift (of_option Panic x).

(** [get_root_page] and [root_page]. *)
Definition get_root_page : M N := st_get (fun s =>
  if (modified_root (inner s) =? 0)%N then root_page (inner s) else modified_root (inner s)).

Definition read_node (p : N) : M BTreeNode :=
  let! actual_page := st_get (fun s =>
    if tx_active (inner s) then default p (cow_pages (inner s) !! p) else p) in
  let! data := on_store (ps_read actual_page) in
  st_lift (deserialize_node actual_page data).

Definition add_cow (p q : N) (is_root : bool) (i : BTreeInner) : BTreeInner :=
  mk_inner (root_page i) (tx_active i) (<[p := q]> (cow_pages i)) (<[q := true]> (new_pages i))
    (if is_root then q else modified_root i).

Definition add_new (q : N) (i : BTreeInner) : BTreeInner :=
  if tx_active i then
    mk_inner (root_page i) (tx_active i) (cow_pages i) (<[q := true]> (new_pages i)) (modified_root i)
  else i.

(** [write_node]: inside a transaction the first write of an old page goes to a new one. *)
Definition write_node (node : BTreeNode) : M unit :=
  let p := page_num node in
  let! root := get_root_page in
  let! i := st_get inner in
  let! target :=
    if tx_active i then
      if new_pages i !! p then st_ret p else
      match cow_pages i !! p with
      | Some existing_cow => st_ret existing_cow
      | None =>
        let! new_page := on_store ps_alloc in
        let! _ := set_inner (add_cow p new_page (bool_decide (p = root))) in
        st_ret new_page
      end
    else st_ret p in
  let! data := of_index (serialize_node_into node (replicate PAGE_SIZE Byte.x00)) in
  on_store (ps_write target data).

Definition new_btree : M unit :=
  let! root := on_store ps_alloc in
  let! _ := set_inner (fun _ => inner_new root) in
  write_node (new_leaf root).

(** ** Descending *)

(** The first index whose key is larger, as the loops of [find_child] and
    [insert_into_parent] compute it. *)
Fixpoint child_index (k : string) (ks : list string) : nat :=
  match ks with
  | [] => 0
  | k' :: ks => if String.ltb k k' then 0 else Datatypes.S (child_index k ks)
  end.

Definition find_child (node : BTreeNode) (k : string) : Result N :=
  if decide (children node = []) then
    Err (Corruption "btree" (page_num node) "internal node has no children") else
  let idx := child_index k (keys node) in
  match children node !! idx with
  | Some c => Ok c
  | None => Err (Corruption "btree" (page_num node) ("child index " +:+ pretty idx +:+
      " out of range (have " +:+ pretty (length (children node)) +:+ " children)"))
  end.

Fixpoint find_leaf (fuel : nat) (node : BTreeNode) (k : string) (path : list N) : M (BTreeNode * list N) :=
  if decide (node_type node = LeafNode) then st_ret (node, path) else
  match fuel with
  | 0 => out_of_fuel
  | Datatypes.S fuel =>
    let! child_page := st_lift (find_child node k) in
    let! child := read_node child_page in
    find_leaf fuel child k (vec_push path child_page)
  end.

(** [for entry in &entries { if entry.key == doc_id { return Ok(entry.value) } }]. *)
Fixpoint entry_value (k : string) (es : list LeafEntry) : option N :=
  match es with
  | [] => None
  | e :: es => if decide (key e = k) then Some (value e) else entry_value k es
  end.

Fixpoint search_loop (fuel : nat) (node : BTreeNode) (k : string) : M N :=
  if decide (node_type node = LeafNode) then
    st_lift (of_option (Err NotFound) (entry_value k (entries node)))
  else
  match fuel with
  | 0 => out_of_fuel
  | Datatypes.S fuel =>
    let! child_page := st_lift (find_child node k) in
    let! node := read_node child_page in
    search_loop fuel node k
  end.

Definition search (fuel : nat) (k : string) : M N :=
  let! root := get_root_page in
  let! node := read_node root in
  search_loop fuel node k.

(** ** Inserting *)

(** The first loop of [insert_into_leaf]: the value of an entry with the same key. *)
Fixpoint update_entry (x : LeafEntry) (es : list LeafEntry) : option (list LeafEntry) :=
  match es with
  | [] => None
  | e :: es =>
    if decide (key e = key x) then Some (mk_entry (key e) (value x) :: es)
    else (fun r => e :: r) <$> update_entry x es
  end.

(** The second loop: before the first entry with a larger key, or at the end. *)
Fixpoint insert_entry (x : LeafEntry) (es : list LeafEntry) : list LeafEntry :=
  match es with
  | [] => [x]
  | e :: es => if String.ltb (key x) (key e) then x :: e :: es else e :: insert_entry x es
  end.

Definition with_entries (es : list LeafEntry) (n : BTreeNode) : BTreeNode :=
  mk_node (page_num n) (node_type n) (wrap_u16 (N.of_nat (length es))) (parent n) es (next_leaf n)
    (keys n) (children n).

Definition insert_into_leaf (leaf : BTreeNode) (x : LeafEntry) : BTreeNode :=
  match update_entry x (entries leaf) with
  | Some es => mk_node (page_num leaf) (node_type leaf) (num_keys leaf) (parent leaf) es
      (next_leaf leaf) (keys leaf) (children leaf)
  | None => with_entries (insert_entry x (entries leaf)) leaf
  end.

Definition create_new_root (left_child : N) (k : string) (right_child : N) : M unit :=
  let! new_root_page := on_store ps_alloc in
  let! _ := set_inner (add_new new_root_page) in
  let! _ := write_node (mk_node new_root_page InternalNode 1 0 [] 0 [k] [left_child; right_child]) in
  set_inner (fun i =>
    if tx_active i then mk_inner (root_page i) true (cow_pages i) (new_pages i) new_root_page
    else mk_inner new_root_page false (cow_pages i) (new_pages i) (modified_root i)).

(** [for child in children { if *child == old { *child = new; break } }]. *)
Fixpoint replace_child (old new : N) (cs : list N) : list N :=
  match cs with
  | [] => []
  | c :: cs => if (c =? old)%N then new :: cs else c :: replace_child old new cs
  end.

Definition with_children (cs : list N) (n : BTreeNode) : BTreeNode :=
  mk_node (page_num n) (node_type n) (num_keys n) (parent n) (entries n) (next_leaf n) (keys n) cs.

(** [v.insert(i, x)], which panics past the end. *)
Definition vec_insert {A} (i : nat) (x : A) (l : list A) : option (list A) :=
  if decide (i <= length l) then Some (take i l ++ x :: drop i l) else None.

(** [insert_into_parent]; [split] is [split_internal]. *)
Definition insert_into_parent (split : BTreeNode -> list N -> M unit)
    (parent : BTreeNode) (k : string) (right_child : N) (path : list N) : M unit :=
  let idx := child_index k (keys parent) in
  let! ks := of_index (vec_insert idx k (keys parent)) in
  let! cs := of_index (vec_insert (idx + 1) right_child (children parent)) in
  let parent := mk_node (page_num parent) (node_type parent) (wrap_u16 (N.of_nat (length ks)))
    (BTreeNode.parent parent) (entries parent) (next_leaf parent) ks cs in
  if decide (BTREE_ORDER < length ks) then split parent path else write_node parent.

(** [v.split_off(at)]: what stays and what is returned; it panics past the end. *)
Definition split_off {A} (at_ : nat) (l : list A) : option (list A * list A) :=
  if decide (at_ <= length l) then Some (take at_ l, drop at_ l) else None.

(** [split_internal]; [promote] is its last part, which it shares with [split_leaf]. *)
Definition split_internal (promote : N -> string -> N -> list N -> M unit)
    (node : BTreeNode) (path : list N) : M unit :=
  let mid := length (keys node) / 2 in
  let! new_node_page := on_store ps_alloc in
  let! _ := set_inner (add_new new_node_page) in
  let! promote_key := of_index (keys node !! mid) in
  let! '(ks, new_keys) := of_index (split_off (mid + 1) (keys node)) in
  let ks := from_option snd [] (vec_pop ks) in
  let! '(cs, new_children) := of_index (split_off (mid + 1) (children node)) in
  let node := mk_node (page_num node) (node_type node) (wrap_u16 (N.of_nat (length ks))) (parent node)
    (entries node) (next_leaf node) ks cs in
  let! _ := write_node node in
  let! _ := write_node (mk_node new_node_page InternalNode (wrap_u16 (N.of_nat (length new_keys))) 0
    [] 0 new_keys new_children) in
  promote (page_num node) promote_key new_node_page path.

(** The common last part of [split_leaf] and [split_internal]: a new root above the root, or
    the separator goes to the parent. The fuel is the length of the path. *)
Fixpoint promote (fuel : nat) (left_page : N) (k : string) (right_page : N) (path : list N) : M unit :=
  match fuel with
  | 0 => out_of_fuel
  | Datatypes.S fuel =>
    if decide (length path = 1) then create_new_root left_page k right_page else
    let! parent_page := of_index (path !! (length path - 2)) in
    let! parent := read_node parent_page in
    let! old_page := of_index (path !! (length path - 1)) in
    let parent := if (old_page =? left_page)%N then parent
      else with_children (replace_child old_page left_page (children parent)) parent in
    insert_into_parent (split_internal (promote fuel)) parent k right_page
      (from_option snd [] (vec_pop path))
  end.

Definition split_leaf (leaf : BTreeNode) (path : list N) : M unit :=
  let mid := length (entries leaf) / 2 in
  let! new_leaf_page := on_store ps_alloc in
  let! _ := set_inner (add_new new_leaf_page) in
  let! '(es, new_entries) := of_index (split_off mid (entries leaf)) in
  let new_leaf := mk_node new_leaf_page LeafNode (wrap_u16 (N.of_nat (length new_entries))) 0
    new_entries (next_leaf leaf) [] [] in
  let leaf := mk_node (page_num leaf) (node_type leaf) (wrap_u16 (N.of_nat (length es))) (parent leaf)
    es new_leaf_page (keys leaf) (children leaf) in
  let! _ := write_node leaf in
  let! _ := write_node new_leaf in
  let! e := of_index (new_entries !! 0) in
  promote (length path) (page_num leaf) (key e) new_leaf_page path.

(** The loop of [update_path_after_modification] from the last parent to the first. *)
Fixpoint update_path (steps : list (N * N)) : M unit :=
  match steps with
  | [] => st_ret tt
  | (parent_page, old_child_page) :: steps =>
    let! parent := read_node parent_page in
    let! new_child_page := st_get (fun s => cow_pages (inner s) !! old_child_page) in
    let! _ :=
      match new_child_page with
      | Some new_child =>
        if decide (old_child_page ∈ children parent)
        then write_node (with_children (replace_child old_child_page new_child (children parent)) parent)
        else st_ret tt
      | None => st_ret tt
      end in
    update_path steps
  end.

Definition update_path_after_modification (path : list N) : M unit :=
  if decide (length path <= 1) then st_ret tt
  else update_path (reverse (zip path (tail path))).

Definition insert (fuel : nat) (k : string) (v : N) : M unit :=
  let! root := get_root_page in
  let! node := read_node root in
  let! '(leaf, path) := find_leaf fuel node k [root] in
  let leaf := insert_into_leaf leaf (mk_entry k v) in
  if decide (BTREE_ORDER < length (entries leaf)) then split_leaf leaf path else
  let! _ := write_node leaf in
  update_path_after_modification path.

(** ** Deleting *)
Fixpoint remove_entry (k : string) (es : list LeafEntry) : option (list LeafEntry) :=
  match es with
  | [] => None
  | e :: es => if decide (key e = k) then Some es else (fun r => e :: r) <$> remove_entry k es
  end.

Definition delete (fuel : nat) (k : string) : M unit :=
  let! root := get_root_page in
  let! node := read_node root in
  let! '(leaf, _) := find_leaf fuel node k [root] in
  match remove_entry k (entries leaf) with
  | None => st_fail NotFound
  | Some es => write_node (with_entries es leaf)
  end.

(** ** Iterating *)
Fixpoint leftmost (fuel : nat) (node : BTreeNode) : M BTreeNode :=
  if decide (node_type node = LeafNode) then st_ret node else
  match fuel with
  | 0 => out_of_fuel
  | Datatypes.S fuel =>
    match children node with
    | [] => st_fail (Other "internal node has no children")
    | c :: _ => let! node := read_node c in leftmost fuel node
    end
  end.

Definition iterator (fuel : nat) : M BTreeIterator :=
  let! root := get_root_page in
  let! node := read_node root in
  let! leaf := leftmost fuel node in
  st_ret (mk_iter (Some leaf) 0 false).

Definition iter_next (it : BTreeIterator) : M (bool * BTreeIterator) :=
  match current_leaf it with
  | None => st_ret (false, it)
  | Some current =>
    if started it then
      let it := mk_iter (Some current) (index it + 1) true in
      if decide (length (entries current) <= index it) then
        if (next_leaf current =? 0)%N then st_ret (false, it) else
        let! r := st_ok (read_node (next_leaf current)) in
        match r with
        | Some leaf => st_ret (bool_decide (0 < length (entries leaf)), mk_iter (Some leaf) 0 true)
        | None => st_ret (false, it)
        end
      else st_ret (true, it)
    else st_ret (bool_decide (0 < length (entries current)), mk_iter (Some current) (index it) true)
  end.

(** [entry]: [None] is the panic of [unwrap]. *)
Definition iter_entry (it : BTreeIterator) : option (string * N) :=
  current ← current_leaf it;
  Some (match entries current !! index it with
        | Some e => (key e, value e)
        | None => (EmptyString, 0%N)
        end).

(** The [while iter.next()] loops: every entry the iterator shows. *)
Fixpoint iter_all (steps : nat) (it : BTreeIterator) : M (list (string * N)) :=
  match steps with
  | 0 => out_of_fuel
  | Datatypes.S steps =>
    let! '(more, it) := iter_next it in
    if more : bool then
      let! e := of_index (iter_entry it) in
      let! es := iter_all steps it in
      st_ret (e :: es)
    else st_ret []
  end.

Definition count (fuel steps : nat) : M nat :=
  let! it := iterator fuel in
  let! es := iter_all steps it in
  st_ret (length es).

(** ** Transactions of the tree itself *)
Definition begin_transaction : M unit :=
  set_inner (fun i => mk_inner (root_page i) true ∅ ∅ 0).

Definition commit_transaction : M unit :=
  set_inner (fun i => inner_new
    (if (modified_root i =? 0)%N then root_page i else modified_root i)).

Fixpoint free_all (ps : list N) : M unit :=
  match ps with
  | [] => st_ret tt
  | p :: ps => let! _ := st_ok (on_store (ps_free p)) in free_all ps
  end.

Definition rollback_transaction : M unit :=
  let! copies := st_get (fun s => (map_to_list (cow_pages (inner s))).*2) in
  let! _ := free_all copies in
  set_inner (fun i => inner_new (root_page i)).
End btree.
