(* ===== verification/BTreeSpec.v ===== *)
(** * What the B-tree does ([src/src/core/btree.rs])

    The abstract tree with the pages of its nodes, the sorted sequence of separators and
    entries it holds, and the proof that [search], [insert] and [delete] outside a transaction
    look up, set and remove a key of the map the tree stands for, for every page store that
    satisfies [PageStoreLaws]. *)

From stdpp Require Import base list strings gmap sorting pretty.
From Stdlib Require Import NArith Lia.
From S2P Require Import Prelude Constants Bytes PageStore BTreeNode BTree.

(** ** Abstract trees *)
Inductive tree :=
| TLeaf (p : N) (es : list LeafEntry) (nx : N)
| TNode (p : N) (ks : list string) (ts : list tree).

Definition tpage (t : tree) : N := match t with TLeaf p _ _ | TNode p _ _ => p end.

Definition leaf_node (p : N) (es : list LeafEntry) (nx : N) : BTreeNode :=
  mk_node p LeafNode (wrap_u16 (N.of_nat (length es))) 0 es nx [] [].

Definition internal_node (p : N) (ks : list string) (cs : list N) : BTreeNode :=
  mk_node p InternalNode (wrap_u16 (N.of_nat (length ks))) 0 [] 0 ks cs.

Definition node_of (t : tree) : BTreeNode :=
  match t with
  | TLeaf p es nx => leaf_node p es nx
  | TNode p ks ts => internal_node p ks (tpage <$> ts)
  end.

(** The nodes of a tree with their pages. *)
Fixpoint nodes (t : tree) : list (N * BTreeNode) :=
  (tpage t, node_of t) :: match t with TLeaf _ _ _ => [] | TNode _ _ ts => concat (nodes <$> ts) end.

(** The leaves from left to right: page, entries and next leaf. *)
Fixpoint leaves (t : tree) : list (N * list LeafEntry * N) :=
  match t with TLeaf p es nx => [(p, es, nx)] | TNode _ _ ts => concat (leaves <$> ts) end.

Fixpoint height (t : tree) : nat :=
  match t with TLeaf _ _ _ => 0 | TNode _ _ ts => S (max_list (height <$> ts)) end.

(** The separators and entries of a tree in order. *)
Inductive mark := Sep (k : string) | Ent (e : LeafEntry).

Definition mark_key (m : mark) : string := match m with Sep k => k | Ent e => key e end.

(** Keys grow strictly, except that a separator may be equal to an entry after it. *)
Definition mark_lt (x y : mark) : Prop :=
  match x, y with
  | Sep k, Ent e => ~ str_lt (key e) k
  | _, _ => str_lt (mark_key x) (mark_key y)
  end.

(** Separators after subtrees, and separators before subtrees. *)
Fixpoint before (ms : list (list mark)) (ks : list string) : list mark :=
  match ms, ks with m :: ms, k :: ks => m ++ Sep k :: before ms ks | _, _ => [] end.

Fixpoint after (ks : list string) (ms : list (list mark)) : list mark :=
  match ks, ms with k :: ks, m :: ms => Sep k :: m ++ after ks ms | _, _ => [] end.

Definition weave (ms : list (list mark)) (ks : list string) : list mark :=
  match ms with [] => [] | m :: ms => m ++ after ks ms end.

Fixpoint marks (t : tree) : list mark :=
  match t with TLeaf _ es _ => Ent <$> es | TNode _ ks ts => weave (marks <$> ts) ks end.

Definition mark_entry (m : mark) : option LeafEntry := match m with Sep _ => None | Ent e => Some e end.

(** The entries of a tree in order, and the map it stands for. *)
Definition tree_entries (t : tree) : list LeafEntry := omap mark_entry (marks t).

Definition entries_map (es : list LeafEntry) : gmap string N :=
  list_to_map ((fun e => (key e, value e)) <$> es).

Definition tree_map (t : tree) : gmap string N := entries_map (tree_entries t).

Section marks.
Implicit Types (ms : list (list mark)) (ks : list string) (x y : mark).

#[global] Instance mark_lt_trans : Transitive mark_lt.
Proof.
  intros [a|a] [b|b] [c|c]; unfold mark_lt; simpl;
    eauto using str_lt_trans, str_le_lt_trans, str_lt_le_trans, str_le_trans, str_lt_le.
Qed.

Lemma weave_split ms1 m ms2 ks1 ks2 :
  length ms1 = length ks1 ->
  weave (ms1 ++ m :: ms2) (ks1 ++ ks2) = before ms1 ks1 ++ m ++ after ks2 ms2.
Proof.
  assert (forall ks1 k ms1 m, length ms1 = length ks1 ->
    after (k :: ks1 ++ ks2) (ms1 ++ m :: ms2) = Sep k :: before ms1 ks1 ++ m ++ after ks2 ms2) as Ha.
  { clear. intros ks1. induction ks1 as [|k' ks1 IH]; intros k [|m' ms1] m; try done; intros [= Hl].
    cbn [app after before]. rewrite <-(app_assoc m'). simpl. do 2 f_equal. by apply (IH k' ms1 m). }
  destruct ms1 as [|m1 ms1], ks1 as [|k1 ks1]; try done; intros [= Hl].
  cbn [app weave before]. rewrite <-app_assoc. f_equal. simpl app at 3. by apply Ha.
Qed.

Lemma before_app ms1 ms2 ks1 ks2 :
  length ms1 = length ks1 -> before (ms1 ++ ms2) (ks1 ++ ks2) = before ms1 ks1 ++ before ms2 ks2.
Proof.
  revert ks1. induction ms1 as [|m ms1 IH]; intros [|k ks1]; try done. intros [= Hl]. simpl.
  rewrite IH by done. by rewrite <-app_assoc.
Qed.

Lemma after_app ms1 ms2 ks1 ks2 :
  length ms1 = length ks1 -> after (ks1 ++ ks2) (ms1 ++ ms2) = after ks1 ms1 ++ after ks2 ms2.
Proof.
  revert ks1. induction ms1 as [|m ms1 IH]; intros [|k ks1]; try done. intros [= Hl]. simpl.
  rewrite IH by done. by rewrite <-app_assoc.
Qed.

(** Splitting an internal node leaves the sequence of marks as it was. *)
Lemma weave_halves ms1 ms2 ks1 k ks2 :
  length ms1 = S (length ks1) -> length ms2 = S (length ks2) ->
  weave (ms1 ++ ms2) (ks1 ++ k :: ks2) = weave ms1 ks1 ++ Sep k :: weave ms2 ks2.
Proof.
  destruct ms1 as [|m1 ms1]; [done|]. destruct ms2 as [|m2 ms2]; [done|]. intros [= H1] [= H2].
  cbn [app weave]. rewrite after_app by done. cbn [after]. by rewrite <-app_assoc.
Qed.

(** Inserting into a sorted sequence. *)
Lemma marks_insert x l1 l2 :
  StronglySorted mark_lt (l1 ++ l2) -> (forall y, y ∈ l1 -> mark_lt y x) -> (forall y, y ∈ l2 -> mark_lt x y) ->
  StronglySorted mark_lt (l1 ++ x :: l2).
Proof.
  intros (H1 & H2 & H3)%StronglySorted_app Hl Hr. apply StronglySorted_app. split_and!; [|done|].
  - intros y z Hy [->|Hz]%elem_of_cons; eauto.
  - constructor; [done|]. by apply Forall_forall.
Qed.

Lemma marks_remove x l1 l2 :
  StronglySorted mark_lt (l1 ++ x :: l2) -> StronglySorted mark_lt (l1 ++ l2).
Proof.
  intros (H1 & H2 & H3)%StronglySorted_app. apply StronglySorted_inv in H3 as [H3 _].
  apply StronglySorted_app. split_and!; [|done|done]. intros y z Hy Hz. apply H1; [done|by right].
Qed.

(** A separator in front of the entry with its key, between two entries. *)
Lemma marks_separate e1 e l1 l2 :
  StronglySorted mark_lt (l1 ++ Ent e1 :: Ent e :: l2) ->
  StronglySorted mark_lt (l1 ++ Ent e1 :: Sep (key e) :: Ent e :: l2).
Proof.
  intros Hs. rewrite cons_middle, app_assoc in Hs. rewrite (cons_middle (Ent e1)), app_assoc.
  pose proof Hs as (H1 & H2 & H3)%StronglySorted_app. apply marks_insert; [done|..].
  - assert (mark_lt (Ent e1) (Sep (key e))) as He.
    { apply (H1 (Ent e1) (Ent e)); [|by left]. apply elem_of_app. right. by left. }
    intros y [Hy|Hy%list_elem_of_singleton]%elem_of_app; [|by subst].
    apply (transitivity (y := Ent e1)); [|done].
    apply (StronglySorted_app_1_elem_of _ _ _ _ _ H2); [done|by left].
  - apply StronglySorted_inv in H3 as [_ H4]. intros y [->|Hy]%elem_of_cons; [apply str_lt_irrefl|].
    rewrite Forall_forall in H4. pose proof (H4 y Hy) as Hlt. destruct y; [done|by apply str_lt_le].
Qed.

(** The marks around the place of [k]. *)
Definition around (k : string) (l1 l2 : list mark) : Prop :=
  (forall y, y ∈ l1 -> mark_lt y (Ent (mk_entry k 0))) /\ (forall y, y ∈ l2 -> str_lt k (mark_key y)).

End marks.

(** ** Sorted leaves *)
Section leaves.
Implicit Types (es l : list LeafEntry).

Definition keys_below (k : string) es : Prop := forall e, e ∈ es -> str_lt (key e) k.
Definition keys_above (k : string) es : Prop := forall e, e ∈ es -> str_lt k (key e).

(** The place of a key in a sorted list of entries. *)
Lemma leaf_place k es :
  StronglySorted mark_lt (Ent <$> es) ->
  exists l1 l2, keys_below k l1 /\ keys_above k l2 /\
    (es = l1 ++ l2 \/ exists e0, key e0 = k /\ es = l1 ++ e0 :: l2).
Proof.
  induction es as [|e es IH]; intros Hs.
  - exists [], []. unfold keys_below, keys_above. split_and!; [by intros ? ?%elem_of_nil..|by left].
  - cbn [fmap list_fmap] in Hs. apply StronglySorted_inv in Hs as [Hs Hf].
    assert (forall e', e' ∈ es -> str_lt (key e) (key e')) as Hlt.
    { intros e' He'. rewrite Forall_forall in Hf. apply (Hf (Ent e')). by apply list_elem_of_fmap_2. }
    destruct (str_lt_trichotomy (key e) k) as [Hk|[Hk|Hk]].
    + destruct (IH Hs) as (l1 & l2 & H1 & H2 & H3). exists (e :: l1), l2.
      split_and!; [|done|]; [by intros e' [->|He']%elem_of_cons; [done|apply H1]|].
      destruct H3 as [->|(e0 & ? & ->)]; [by left|]. right. by exists e0.
    + exists [], es. split_and!; [by intros ? ?%elem_of_nil|by intros e' He'; rewrite <-Hk; apply Hlt|].
      right. by exists e.
    + exists [], (e :: es). split_and!; [by intros ? ?%elem_of_nil| |by left].
      intros e' [->|He']%elem_of_cons; [done|]. by eapply str_lt_trans; [|apply Hlt].
Qed.

Lemma keys_below_ne k es e : keys_below k es -> e ∈ es -> key e <> k.
Proof. intros H He Hk. apply (str_lt_irrefl k). rewrite <-Hk at 1. by apply H. Qed.

Lemma keys_above_ne k es e : keys_above k es -> e ∈ es -> key e <> k.
Proof. intros H He Hk. apply (str_lt_irrefl k). rewrite <-Hk at 2. by apply H. Qed.

Lemma keys_below_cons k e es : keys_below k (e :: es) -> str_lt (key e) k /\ key e <> k /\ keys_below k es.
Proof.
  intros H. assert (str_lt (key e) k) by (apply H; by left). split_and!; [done| |].
  - apply (keys_below_ne k (e :: es)); [done|by left].
  - intros e' He'. apply H. by right.
Qed.

Lemma update_entry_hit x l1 e0 l2 :
  keys_below (key x) l1 -> key e0 = key x -> update_entry x (l1 ++ e0 :: l2) = Some (l1 ++ x :: l2).
Proof.
  intros H1 H0. induction l1 as [|e l1 IH]; simpl.
  - rewrite decide_True by done. rewrite H0. by destruct x.
  - apply keys_below_cons in H1 as (_ & Hne & H1). rewrite decide_False by done. by rewrite IH.
Qed.

Lemma update_entry_miss x es : (forall e, e ∈ es -> key e <> key x) -> update_entry x es = None.
Proof.
  intros H. induction es as [|e es IH]; [done|]. simpl. rewrite decide_False by (apply H; by left).
  rewrite IH; [done|]. intros e' He'. apply H. by right.
Qed.

Lemma insert_entry_place x l1 l2 :
  keys_below (key x) l1 -> keys_above (key x) l2 -> insert_entry x (l1 ++ l2) = l1 ++ x :: l2.
Proof.
  intros H1 H2. induction l1 as [|e l1 IH]; simpl.
  - destruct l2 as [|e l2]; [done|]. simpl.
    by rewrite (proj2 (str_ltb_lt (key x) (key e)) (H2 e ltac:(by left))).
  - apply keys_below_cons in H1 as (Hlt & _ & H1).
    rewrite (proj2 (str_ltb_ge (key x) (key e)) (str_lt_le _ _ Hlt)). by rewrite IH.
Qed.

Lemma entry_value_hit k l1 e0 l2 :
  keys_below k l1 -> key e0 = k -> entry_value k (l1 ++ e0 :: l2) = Some (value e0).
Proof.
  intros H1 H0. induction l1 as [|e l1 IH]; simpl; [by rewrite decide_True by done|].
  apply keys_below_cons in H1 as (_ & Hne & H1). rewrite decide_False by done. auto.
Qed.

Lemma entry_value_miss k es : (forall e, e ∈ es -> key e <> k) -> entry_value k es = None.
Proof.
  intros H. induction es as [|e es IH]; [done|]. simpl. rewrite decide_False by (apply H; by left).
  apply IH. intros e' He'. apply H. by right.
Qed.

Lemma remove_entry_hit k l1 e0 l2 :
  keys_below k l1 -> key e0 = k -> remove_entry k (l1 ++ e0 :: l2) = Some (l1 ++ l2).
Proof.
  intros H1 H0. induction l1 as [|e l1 IH]; simpl; [by rewrite decide_True by done|].
  apply keys_below_cons in H1 as (_ & Hne & H1). rewrite decide_False by done. by rewrite IH.
Qed.

Lemma remove_entry_miss k es : (forall e, e ∈ es -> key e <> k) -> remove_entry k es = None.
Proof.
  intros H. induction es as [|e es IH]; [done|]. simpl. rewrite decide_False by (apply H; by left).
  rewrite IH; [done|]. intros e' He'. apply H. by right.
Qed.

Lemma around_ne k l1 l2 e : keys_below k l1 -> keys_above k l2 -> e ∈ l1 ++ l2 -> key e <> k.
Proof. intros H1 H2 [?|?]%elem_of_app; [by eapply keys_below_ne|by eapply keys_above_ne]. Qed.

(** *** The map of a list of entries *)
Lemma entries_map_None k es : (forall e, e ∈ es -> key e <> k) -> entries_map es !! k = None.
Proof.
  intros H. apply not_elem_of_list_to_map. intros Hin.
  apply list_elem_of_fmap in Hin as ([k' v] & -> & Hin).
  apply list_elem_of_fmap in Hin as (e & [= -> ->] & He). by apply (H e).
Qed.

Lemma entries_map_cons e es : entries_map (e :: es) = <[key e := value e]> (entries_map es).
Proof. done. Qed.

Lemma entries_map_insert x l1 l2 :
  keys_below (key x) l1 -> keys_above (key x) l2 ->
  entries_map (l1 ++ x :: l2) = <[key x := value x]> (entries_map (l1 ++ l2)).
Proof.
  intros H1 H2. induction l1 as [|e l1 IH]; [done|].
  apply keys_below_cons in H1 as (_ & Hne & H1).
  rewrite <-!app_comm_cons, !entries_map_cons, IH by done. by rewrite insert_insert_ne.
Qed.
End leaves.

(** The entries in a sorted sequence of marks on both sides of a key. *)
Lemma around_keys k l1 l2 :
  around k l1 l2 -> keys_below k (omap mark_entry l1) /\ keys_above k (omap mark_entry l2).
Proof.
  intros [H1 H2]. split; intros e (m & Hm & He)%list_elem_of_omap; destruct m; simplify_eq/=.
  - by apply (H1 (Ent e)).
  - by apply (H2 (Ent e)).
Qed.

Lemma omap_ents (es : list LeafEntry) : omap mark_entry (Ent <$> es) = es.
Proof. induction es as [|e es IH]; [done|]. rewrite fmap_cons. cbn [omap list_omap mark_entry]. by f_equal. Qed.

Lemma omap_sep k l : omap mark_entry (Sep k :: l) = omap mark_entry l.
Proof. done. Qed.

(** ** Trees in a context *)
Record frame := mk_frame {
  f_page : N;
  f_ks1 : list string;
  f_ts1 : list tree;
  f_ks2 : list string;
  f_ts2 : list tree }.

Definition plug1 (f : frame) (t : tree) : tree :=
  TNode (f_page f) (f_ks1 f ++ f_ks2 f) (f_ts1 f ++ t :: f_ts2 f).

(** The innermost frame comes first. *)
Fixpoint plug (fs : list frame) (t : tree) : tree :=
  match fs with [] => t | f :: fs => plug fs (plug1 f t) end.

Definition frame_ok (f : frame) : Prop :=
  length (f_ts1 f) = length (f_ks1 f) /\ length (f_ts2 f) = length (f_ks2 f).

Definition frame_node (f : frame) (p : N) : BTreeNode :=
  internal_node (f_page f) (f_ks1 f ++ f_ks2 f) ((tpage <$> f_ts1 f) ++ p :: (tpage <$> f_ts2 f)).

Definition frame_nodes (f : frame) : list (N * BTreeNode) :=
  concat (nodes <$> f_ts1 f) ++ concat (nodes <$> f_ts2 f).

(** The nodes of the context of a subtree whose page is [p]. *)
Fixpoint ctx_nodes (fs : list frame) (p : N) : list (N * BTreeNode) :=
  match fs with
  | [] => []
  | f :: fs => (f_page f, frame_node f p) :: frame_nodes f ++ ctx_nodes fs (f_page f)
  end.

Fixpoint ctx_before (fs : list frame) : list mark :=
  match fs with
  | [] => []
  | f :: fs => ctx_before fs ++ before (marks <$> f_ts1 f) (f_ks1 f)
  end.

Fixpoint ctx_after (fs : list frame) : list mark :=
  match fs with
  | [] => []
  | f :: fs => after (f_ks2 f) (marks <$> f_ts2 f) ++ ctx_after fs
  end.

Definition ctx_leaves1 (fs : list frame) : list (N * list LeafEntry * N) :=
  foldr (fun f l => l ++ concat (leaves <$> f_ts1 f)) [] fs.
Definition ctx_leaves2 (fs : list frame) : list (N * list LeafEntry * N) :=
  foldr (fun f l => concat (leaves <$> f_ts2 f) ++ l) [] fs.

Definition ctx_path (fs : list frame) : list N := reverse (f_page <$> fs).

Section contexts.
Implicit Types (t : tree) (f : frame) (fs : list frame).

Lemma nodes_plug fs t : nodes (plug fs t) ≡ₚ ctx_nodes fs (tpage t) ++ nodes t.
Proof.
  revert t. induction fs as [|f fs IH]; intros t; [done|]. cbn [plug ctx_nodes].
  rewrite IH. simpl tpage. unfold plug1 at 1. cbn [nodes]. simpl tpage. unfold frame_node, frame_nodes.
  simpl node_of. rewrite !fmap_app, !fmap_cons, !concat_app. cbn [concat]. simpl app.
  rewrite <-!app_assoc. solve_Permutation.
Qed.

Lemma marks_plug fs t : Forall frame_ok fs -> marks (plug fs t) = ctx_before fs ++ marks t ++ ctx_after fs.
Proof.
  intros H. revert t. induction H as [|f fs [H1 H2] Hfs IH]; intros t; simpl.
  { by rewrite app_nil_r. }
  rewrite IH. unfold plug1 at 1. cbn [marks]. rewrite fmap_app, fmap_cons, weave_split by (by rewrite length_fmap).
  by rewrite <-!app_assoc.
Qed.

Lemma leaves_plug fs t : leaves (plug fs t) = ctx_leaves1 fs ++ leaves t ++ ctx_leaves2 fs.
Proof.
  revert t. induction fs as [|f fs IH]; intros t; simpl; [by rewrite app_nil_r|].
  rewrite IH. unfold plug1 at 1. cbn [leaves]. rewrite fmap_app, fmap_cons, concat_app. cbn [concat].
  by rewrite <-!app_assoc.
Qed.

Lemma tpage_plug fs t t' : tpage t = tpage t' -> tpage (plug fs t) = tpage (plug fs t').
Proof. revert t t'. induction fs as [|f fs IH]; intros t t' H; [done|]. by apply IH. Qed.

Lemma ctx_nodes_page fs t t' : tpage t = tpage t' -> ctx_nodes fs (tpage t) = ctx_nodes fs (tpage t').
Proof. by intros ->. Qed.

Lemma height_child t p ks ts : t ∈ ts -> height t < height (TNode p ks ts).
Proof.
  intros Hin. simpl. assert (height t <= max_list (height <$> ts)); [|lia].
  apply max_list_elem_of_le. by apply list_elem_of_fmap_2.
Qed.
End contexts.

(** ** Trees on pages *)
Definition key_short (k : string) : Prop := rust_string k /\ length (as_bytes k) <= 71.

Definition leaf_wf (es : list LeafEntry) (nx : N) : Prop :=
  length es <= BTREE_ORDER /\ Forall (fun e => key_short (key e) /\ (value e < 2 ^ 64)%N) es /\
  (nx < 2 ^ 64)%N.

Definition internal_wf (ks : list string) (cs : list N) : Prop :=
  length ks <= BTREE_ORDER /\ length cs = S (length ks) /\ Forall key_short ks /\
  Forall (fun c => c < 2 ^ 64)%N cs.

Definition node_wf (x : N * BTreeNode) : Prop :=
  match node_type x.2 with
  | LeafNode => leaf_wf (entries x.2) (next_leaf x.2)
  | InternalNode => internal_wf (keys x.2) (children x.2)
  end.

Definition first_page (ls : list (N * list LeafEntry * N)) (last_next : N) : N :=
  match ls with [] => last_next | (p, _, _) :: _ => p end.

(** Each leaf points to the next one. *)
Fixpoint chain (ls : list (N * list LeafEntry * N)) (last_next : N) : Prop :=
  match ls with
  | [] => True
  | (_, _, nx) :: ls => nx = first_page ls last_next /\ chain ls last_next
  end.

Lemma first_page_app l1 l2 e : first_page (l1 ++ l2) e = first_page l1 (first_page l2 e).
Proof. by destruct l1 as [|[[??]?]]. Qed.

Lemma chain_app l1 l2 e : chain (l1 ++ l2) e <-> chain l1 (first_page l2 e) /\ chain l2 e.
Proof.
  induction l1 as [|[[p es] nx] l1 IH]; simpl; [tauto|]. rewrite IH, first_page_app. tauto.
Qed.

Section node_bounds.

Lemma key_short_ok k : key_short k -> key_ok k.
Proof. intros [? ?]. split; [done|lia]. Qed.

Lemma sum_keys_le {A} (f : A -> string) c (l : list A) :
  Forall (fun x => length (as_bytes (f x)) <= 71) l ->
  sum_list_with (fun x => c + length (as_bytes (f x))) l <= (c + 71) * length l.
Proof. induction 1 as [|x l Hx Hl IH]; simpl; lia. Qed.

Lemma leaf_node_ok p es nx : leaf_wf es nx -> node_ok (leaf_node p es nx).
Proof.
  intros (Hl & He & Hn). unfold BTREE_ORDER in Hl.
  assert (Forall (fun e => length (as_bytes (key e)) <= 71) es) as Hk.
  { eapply Forall_impl; [exact He|]. intros e [[_ ?] _]. done. }
  split; [done|]. split.
  - rewrite node_size_leaf by done. simpl entries. pose proof (sum_keys_le key 10 es Hk). size_lia.
  - simpl. split_and!; try done.
    + apply N.mod_lt. done.
    + lia.
    + eapply Forall_impl; [exact He|]. intros e [? ?]. split; [by apply key_short_ok|done].
Qed.

Lemma internal_node_ok p ks cs : internal_wf ks cs -> node_ok (internal_node p ks cs).
Proof.
  intros (Hl & Hc & Hk & Hcs). unfold BTREE_ORDER in Hl.
  assert (Forall (fun k => length (as_bytes (id k)) <= 71) ks) as Hk'.
  { eapply Forall_impl; [exact Hk|]. by intros k [_ ?]. }
  split; [done|]. split.
  - rewrite node_size_internal by done. simpl keys. simpl children.
    pose proof (sum_keys_le id 2 ks Hk') as Hs. unfold id in Hs. size_lia.
  - simpl. split_and!; try done; try lia.
    + apply wrap_u16_small. lia.
    + eapply Forall_impl; [exact Hk|]. apply key_short_ok.
Qed.

Lemma node_of_ok t : node_wf (tpage t, node_of t) -> node_ok (node_of t).
Proof. destruct t; [apply leaf_node_ok|apply internal_node_ok]. Qed.
End node_bounds.

Section stateful.
Context {St : Type} `{!PageStore St} `{!PageStoreLaws St}.
Implicit Types (s : bstate St) (t : tree) (fs : list frame).

(** Page [p] holds the node [n]. *)
Definition node_at (s : St) (p : N) (n : BTreeNode) : Prop :=
  ps_used s p /\ exists d, ps_view s p = Some d /\ deserialize_node p d = Ok n.

Definition holds (s : St) (l : list (N * BTreeNode)) : Prop := Forall (fun x => node_at s x.1 x.2) l.

(** The used pages outside [D] are as they were. *)
Definition touches (D : list N) (s s' : St) : Prop :=
  ps_inv s' /\ (forall q, ps_used s q -> ps_used s' q) /\
  (forall q, ps_used s q -> q ∉ D -> ps_view s' q = ps_view s q).

Lemma touches_refl s : ps_inv (store s) -> touches [] (store s) (store s).
Proof. intros. by split_and!. Qed.

Lemma touches_trans D1 D2 D σ1 σ2 σ3 :
  touches D1 σ1 σ2 -> touches D2 σ2 σ3 -> (forall q, ps_used σ1 q -> q ∈ D1 \/ q ∈ D2 -> q ∈ D) ->
  touches D σ1 σ3.
Proof.
  intros (H1 & H2 & H3) (H4 & H5 & H6) Hd. split_and!; [done|auto|].
  intros q Hq Hn. rewrite H6, H3; [done|done|..]; auto.
Qed.

Lemma node_at_touches D σ σ' p n : touches D σ σ' -> p ∉ D -> node_at σ p n -> node_at σ' p n.
Proof.
  intros (H1 & H2 & H3) Hp (Hu & d & Hd & Hn). split; [auto|]. exists d. by rewrite H3.
Qed.

Lemma holds_touches D σ σ' l : touches D σ σ' -> (forall p, p ∈ l.*1 -> p ∉ D) -> holds σ l -> holds σ' l.
Proof.
  intros Ht Hd H. unfold holds in *. rewrite Forall_forall in *. intros x Hx.
  eapply node_at_touches; [done| |by apply H]. apply Hd. by apply list_elem_of_fmap_2.
Qed.

Lemma holds_used σ l p : holds σ l -> p ∈ l.*1 -> ps_used σ p.
Proof. intros H (x & -> & Hx)%list_elem_of_fmap. unfold holds in H. rewrite Forall_forall in H. by destruct (H x Hx). Qed.

(** Outside a transaction. *)
Definition idle s : Prop :=
  tx_active (inner s) = false /\ modified_root (inner s) = 0%N /\ cow_pages (inner s) = ∅.

(** A step that keeps the tree's own state and the room of the store. *)
Definition calm (D : list N) s s' : Prop :=
  inner s' = inner s /\ touches D (store s) (store s') /\
  (forall n, ps_room (store s) n -> ps_room (store s') n).

Lemma calm_refl s : ps_inv (store s) -> calm [] s s.
Proof. intros. split_and!; [done|by apply touches_refl|done]. Qed.

Lemma calm_trans D1 D2 D s1 s2 s3 :
  calm D1 s1 s2 -> calm D2 s2 s3 -> (forall q, ps_used (store s1) q -> q ∈ D1 \/ q ∈ D2 -> q ∈ D) -> calm D s1 s3.
Proof.
  intros (H1 & H2 & H3) (H4 & H5 & H6) Hd. split_and!; [congruence|by eapply touches_trans|auto].
Qed.

Lemma calm_idle D s s' : calm D s s' -> idle s -> idle s'.
Proof. unfold idle. by intros (-> & _). Qed.

Lemma calm_inv D s s' : calm D s s' -> ps_inv (store s').
Proof. by intros (_ & (? & _) & _). Qed.

Lemma calm_holds D s s' l : calm D s s' -> (forall p, p ∈ l.*1 -> p ∉ D) -> holds (store s) l -> holds (store s') l.
Proof. intros (_ & ? & _). by apply holds_touches. Qed.

Lemma calm_nil_holds s s' l : calm [] s s' -> holds (store s) l -> holds (store s') l.
Proof. intros H. apply (calm_holds [] s s' l H). intros p _. apply not_elem_of_nil. Qed.

Lemma read_node_spec s p n :
  idle s -> ps_inv (store s) -> node_at (store s) p n ->
  exists s', read_node p s = (Ok n, s') /\ calm [] s s'.
Proof.
  intros (Ht & _) Hi (Hu & d & Hd & Hn).
  destruct (ps_read_law (store s) p d Hi Hu Hd) as (s1 & Hr & Hi1 & Hv & Hus & Hroom).
  unfold read_node, st_bind, st_get, on_store, st_lift. rewrite Ht, Hr, Hn.
  eexists. split; [done|]. split_and!; [done| |done]. split_and!; [done|intros q; by apply Hus|auto].
Qed.

Lemma write_node_spec s n :
  idle s -> ps_inv (store s) -> node_ok n -> ps_used (store s) (page_num n) ->
  exists s', write_node n s = (Ok tt, s') /\ calm [page_num n] s s' /\ node_at (store s') (page_num n) n.
Proof.
  intros (Ht & _) Hi Hn Hu. destruct (node_roundtrip_lemma n Hn) as (d & Hd & Hl & Hde).
  destruct (ps_write_law (store s) (page_num n) d Hi Hu Hl) as (s1 & Hr & Hi1 & Hv & Hus & Hroom).
  unfold write_node, get_root_page, of_index, st_bind, st_get, on_store, st_lift, st_ret.
  rewrite Ht, Hd. simpl. rewrite Hr. eexists. split; [done|]. split.
  - split_and!; [done| |done]. split_and!; [done|intros q; by apply Hus|].
    intros q _ Hq. simpl. rewrite Hv, decide_False; [done|]. intros ->. apply Hq. by left.
  - split; [by apply Hus|]. exists d. simpl. rewrite Hv, decide_True by done. split; [done|].
    rewrite Hde. by destruct n.
Qed.

(** *** Descending *)
Lemma child_index_split k ks :
  exists ks1 ks2, ks = ks1 ++ ks2 /\ child_index k ks = length ks1 /\
    Forall (fun k' => ~ str_lt k k') ks1 /\ match ks2 with [] => True | k' :: _ => str_lt k k' end.
Proof.
  induction ks as [|k' ks IH]; [by exists [], []|]. simpl.
  destruct (String.ltb k k') eqn:Hk.
  - exists [], (k' :: ks). split_and!; try done. by apply str_ltb_lt.
  - destruct IH as (ks1 & ks2 & -> & -> & H1 & H2). exists (k' :: ks1), ks2.
    split_and!; try done. constructor; [by apply str_ltb_ge|done].
Qed.

(** Choosing a child by its separators narrows the context around the key. *)
Lemma around_frame k fs f t :
  frame_ok f -> around k (ctx_before fs) (ctx_after fs) ->
  StronglySorted mark_lt (ctx_before fs ++ marks (plug1 f t) ++ ctx_after fs) ->
  Forall (fun k' => ~ str_lt k k') (f_ks1 f) ->
  match f_ks2 f with [] => True | k' :: _ => str_lt k k' end ->
  around k (ctx_before (f :: fs)) (ctx_after (f :: fs)).
Proof.
  destruct f as [p ks1 ts1 ks2 ts2]. intros [H1 H2] [Hb Ha] Hs Hk1 Hk2. simpl in H1, H2, Hk1, Hk2.
  apply StronglySorted_app_1_r, StronglySorted_app_1_l in Hs. unfold plug1 in Hs. simpl in Hs.
  rewrite fmap_app, fmap_cons, weave_split in Hs by (by rewrite length_fmap).
  split; simpl; intros y Hy.
  - apply elem_of_app in Hy as [Hy|Hy]; [by apply Hb|]. apply StronglySorted_app_1_l in Hs.
    destruct ks1 as [|kl ks1 _] using rev_ind; [by destruct ts1; apply elem_of_nil in Hy|].
    destruct ts1 as [|tl ts1 _] using rev_ind; [by rewrite length_app in H1; simpl in H1; lia|].
    rewrite !length_app in H1. simpl in H1.
    rewrite fmap_app, before_app in Hs, Hy by (rewrite length_fmap; lia). simpl in Hs, Hy.
    apply Forall_app in Hk1 as [_ [Hkl _]%Forall_cons].
    rewrite app_assoc in Hs, Hy. apply elem_of_app in Hy as [Hy|Hy%list_elem_of_singleton].
    + apply (transitivity (y := Sep kl)); [|done].
      apply (StronglySorted_app_1_elem_of _ _ _ _ _ Hs); [done|by left].
    + by subst.
  - apply elem_of_app in Hy as [Hy|Hy]; [|by apply Ha]. apply StronglySorted_app_1_r, StronglySorted_app_1_r in Hs.
    destruct ks2 as [|k2 ks2], ts2 as [|t2 ts2]; simpl in Hs, Hy; try by apply elem_of_nil in Hy.
    apply StronglySorted_inv in Hs as [_ Hs]. rewrite Forall_forall in Hs.
    apply elem_of_cons in Hy as [->|Hy]; [done|]. apply Hs in Hy. destruct y; simpl in *; eauto using str_lt_trans, str_lt_le_trans.
Qed.

Lemma holds_app σ l1 l2 : holds σ (l1 ++ l2) <-> holds σ l1 /\ holds σ l2.
Proof. apply Forall_app. Qed.

Lemma nodes_child p ks ts t : t ∈ ts -> forall x, x ∈ nodes t -> x ∈ nodes (TNode p ks ts).
Proof.
  intros Ht x Hx. cbn [nodes]. right. apply list_elem_of_In, in_concat.
  exists (nodes t). split; apply list_elem_of_In; [by apply list_elem_of_fmap_2|done].
Qed.

Lemma nodes_head t : (tpage t, node_of t) ∈ nodes t.
Proof. destruct t; by left. Qed.

Lemma holds_child σ p ks ts t : t ∈ ts -> holds σ (nodes (TNode p ks ts)) -> holds σ (nodes t).
Proof.
  unfold holds. rewrite !Forall_forall. intros Ht H x Hx. apply H. by eapply nodes_child.
Qed.

Lemma wf_child p ks ts t : t ∈ ts -> Forall node_wf (nodes (TNode p ks ts)) -> Forall node_wf (nodes t).
Proof. rewrite !Forall_forall. intros Ht H x Hx. apply H. by eapply nodes_child. Qed.

Lemma holds_head σ t : holds σ (nodes t) -> node_at σ (tpage t) (node_of t).
Proof. unfold holds. rewrite Forall_forall. intros H. apply (H _ (nodes_head t)). Qed.

(** [find_child] picks the subtree around the key. *)
Lemma find_child_spec p ks (ts : list tree) k :
  length ts = Datatypes.S (length ks) ->
  exists f t, plug1 f t = TNode p ks ts /\ f_page f = p /\ frame_ok f /\ t ∈ ts /\
    find_child (node_of (TNode p ks ts)) k = Ok (tpage t) /\
    Forall (fun k' => ~ str_lt k k') (f_ks1 f) /\
    match f_ks2 f with [] => True | k' :: _ => str_lt k k' end.
Proof.
  intros Hl. destruct (child_index_split k ks) as (ks1 & ks2 & -> & Hi & H1 & H2).
  rewrite length_app in Hl. destruct (lookup_lt_is_Some_2 ts (length ks1)) as [t Ht]; [lia|].
  pose proof (take_drop_middle ts _ _ Ht) as Hts.
  exists (mk_frame p ks1 (take (length ks1) ts) ks2 (drop (S (length ks1)) ts)), t.
  unfold plug1, frame_ok. simpl. rewrite Hts, length_take, length_drop.
  split_and!; try done; try lia; [by eapply list_elem_of_lookup_2|].
  unfold find_child. simpl. rewrite decide_False by (by destruct ts).
  rewrite Hi, list_lookup_fmap, Ht. done.
Qed.

Lemma find_leaf_spec fuel t fs s k path :
  height t <= fuel -> idle s -> ps_inv (store s) -> holds (store s) (nodes t) ->
  Forall node_wf (nodes t) -> Forall frame_ok fs ->
  StronglySorted mark_lt (ctx_before fs ++ marks t ++ ctx_after fs) ->
  around k (ctx_before fs) (ctx_after fs) -> path = ctx_path fs ++ [tpage t] ->
  exists p es nx fs' s', find_leaf fuel (node_of t) k path s = (Ok (leaf_node p es nx, ctx_path fs' ++ [p]), s') /\
    plug fs' (TLeaf p es nx) = plug fs t /\ Forall frame_ok fs' /\
    around k (ctx_before fs') (ctx_after fs') /\ calm [] s s'.
Proof.
  revert t fs s path. induction fuel as [|fuel IH]; intros [p es nx|p ks ts] fs s path Hh Hidle Hinv Hholds Hwf Hok Hs Har ->;
    try (simpl in Hh; lia).
  1,2: exists p, es, nx, fs, s; split_and!; [done..|by apply calm_refl].
  pose proof Hwf as [(_ & Hl & _) _]%Forall_cons. simpl in Hl. rewrite length_fmap in Hl.
  destruct (find_child_spec p ks ts k Hl) as (f & t & Hpl & Hpg & Hf & Ht & Hfc & Hk1 & Hk2).
  assert (node_at (store s) (tpage t) (node_of t)) as Hat by (by eapply holds_head, holds_child).
  destruct (read_node_spec s _ _ Hidle Hinv Hat) as (s1 & Hr & Hc1).
  assert (height t <= fuel) as Hht. { pose proof (height_child t p ks ts Ht). lia. }
  destruct (IH t (f :: fs) s1 (vec_push (ctx_path fs ++ [p]) (tpage t))) as (p' & es & nx & fs' & s2 & H1 & H2 & H3 & H4 & H5).
  - done.
  - by eapply calm_idle.
  - by eapply calm_inv.
  - by eapply calm_nil_holds, holds_child.
  - by eapply wf_child.
  - by constructor.
  - rewrite <-Hpl in Hs. destruct Hf as [? ?]. unfold plug1 in Hs. simpl in Hs.
    rewrite fmap_app, fmap_cons, weave_split in Hs by (by rewrite length_fmap). simpl.
    by rewrite <-!app_assoc in *.
  - eapply around_frame; [done..| |done|done]. by rewrite Hpl.
  - unfold vec_push, ctx_path. by rewrite fmap_cons, reverse_cons, Hpg.
  - exists p', es, nx, fs', s2. split_and!; [|by rewrite H2; simpl; rewrite Hpl|done..|].
    + unfold find_leaf; fold find_leaf. rewrite decide_False by done. unfold st_bind, st_lift.
      rewrite Hfc, Hr. exact H1.
    + eapply calm_trans; [done..|]. intros q _ [?|?]; done.
Qed.

(** *** Nodes on distinct pages *)
Record stored s (l : list (N * BTreeNode)) : Prop := {
  so_idle : idle s;
  so_inv : ps_inv (store s);
  so_holds : holds (store s) l;
  so_nodup : NoDup l.*1;
  so_nonzero : Forall (fun x => x.1 <> 0%N) l;
  so_wf : Forall node_wf l }.

#[global] Instance stored_proper s : Proper ((≡ₚ) ==> iff) (stored s).
Proof.
  assert (forall l l' : list (N * BTreeNode), l ≡ₚ l' -> stored s l -> stored s l') as H.
  { intros l l' Hp [H1 H2 H3 H4 H5 H6]. unfold holds in *. split; unfold holds; [done|done|by rewrite <-Hp..]. }
  intros l l' Hp. split; apply H; [done|by symmetry].
Qed.

Lemma stored_app s l1 l2 : stored s (l1 ++ l2) -> stored s l1 /\ stored s l2.
Proof.
  intros [H1 H2 H3 H4 H5 H6]. unfold holds in H3. rewrite fmap_app in H4.
  apply NoDup_app in H4 as (? & _ & ?). apply Forall_app in H3 as [? ?].
  apply Forall_app in H5 as [? ?]. apply Forall_app in H6 as [? ?]. by split; split.
Qed.

Lemma stored_cons s p n l : stored s ((p, n) :: l) ->
  stored s l /\ p ∉ l.*1 /\ ps_used (store s) p /\ p <> 0%N /\ node_at (store s) p n.
Proof.
  intros [H1 H2 H3 H4 H5 H6]. apply Forall_cons in H3 as [H3 ?], H5 as [? ?], H6 as [? ?].
  apply NoDup_cons in H4 as [? ?]. split; [by split|]. split_and!; try done. by destruct H3.
Qed.

Lemma stored_calm s s' l : stored s l -> calm [] s s' -> stored s' l.
Proof.
  intros [H1 H2 H3 H4 H5 H6] Hc. split; [by eapply calm_idle|by eapply calm_inv| |done..].
  by eapply calm_nil_holds.
Qed.

(** Writing a node to a page that the rest does not use. *)
Lemma write_stored s n l :
  stored s l -> page_num n ∉ l.*1 -> ps_used (store s) (page_num n) -> page_num n <> 0%N ->
  node_ok n -> node_wf (page_num n, n) ->
  exists s', write_node n s = (Ok tt, s') /\ calm [page_num n] s s' /\ stored s' ((page_num n, n) :: l).
Proof.
  intros [H1 H2 H3 H4 H5 H6] Hp Hu H0 Hn Hwf.
  destruct (write_node_spec s n H1 H2 Hn Hu) as (s' & Hw & Hc & Hat).
  exists s'. split_and!; [done..|]. split; [by eapply calm_idle|by eapply calm_inv|..|by constructor|by constructor].
  - constructor; [done|]. eapply calm_holds; [done| |done]. intros q Hq ->%list_elem_of_singleton. done.
  - by constructor.
Qed.

Lemma rewrite_stored s p n n' l :
  stored s ((p, n) :: l) -> page_num n' = p -> node_ok n' -> node_wf (p, n') ->
  exists s', write_node n' s = (Ok tt, s') /\ calm [p] s s' /\ stored s' ((p, n') :: l).
Proof.
  intros Hs <- Hn Hwf. apply stored_cons in Hs as (Hs & Hp & Hu & H0 & _). by apply write_stored.
Qed.

(** Allocating a page outside a transaction. *)
Lemma alloc_stored s l n :
  stored s l -> ps_room (store s) (Datatypes.S n) ->
  exists p s', on_store ps_alloc s = (Ok p, s') /\ set_inner (add_new p) s' = (Ok tt, s') /\
    stored s' l /\ inner s' = inner s /\ touches [] (store s) (store s') /\ ps_room (store s') n /\
    ~ ps_used (store s) p /\ ps_used (store s') p /\ p <> 0%N /\ p ∉ l.*1 /\ (p < 2 ^ 64)%N.
Proof.
  intros Hst Hroom. pose proof Hst as [H1 H2 H3 H4 H5 H6].
  destruct (ps_alloc_law (store s) n H2 Hroom) as (p & s1 & Ha & Hi & Hnu & Hu & H0 & Hus & Hv & Hr).
  exists p, (mk_bstate s1 (inner s)). split; [unfold on_store; by rewrite Ha|]. split.
  { unfold set_inner, st_modify, add_new. simpl. destruct H1 as (-> & _). done. }
  assert (touches [] (store s) s1) as Ht by (split_and!; [done|auto|auto]).
  split_and!; try done.
  - split; try done. eapply holds_touches; [done| |done]. intros q _. apply not_elem_of_nil.
  - intros Hp. apply Hnu. by eapply holds_used.
  - by eapply ps_used_small.
Qed.

Lemma calm_touches D s s' : calm D s s' -> touches D (store s) (store s').
Proof. by intros (_ & ? & _). Qed.

Lemma calm_room D s s' n : calm D s s' -> ps_room (store s) n -> ps_room (store s') n.
Proof. intros (_ & _ & H). apply H. Qed.

Lemma calm_inner D s s' : calm D s s' -> inner s' = inner s.
Proof. by intros (? & _). Qed.

Lemma calm_used D s s' q : calm D s s' -> ps_used (store s) q -> ps_used (store s') q.
Proof. intros (_ & (_ & H & _) & _). apply H. Qed.

(** The tree [t] outside a transaction. *)
Record tree_ok s t : Prop := {
  to_stored : stored s (nodes t);
  to_root : root_page (inner s) = tpage t;
  to_sorted : StronglySorted mark_lt (marks t);
  to_chain : chain (leaves t) 0 }.

Lemma tree_ok_moved s s' t :
  tree_ok s t -> idle s' -> root_page (inner s') = root_page (inner s) -> ps_inv (store s') ->
  (forall q, q ∈ (nodes t).*1 -> ps_used (store s) q -> ps_used (store s') q /\ ps_view (store s') q = ps_view (store s) q) ->
  tree_ok s' t.
Proof.
  intros [[Hid Hinv Hho Hnd Hnz Hwf] Hr Hso Hch] Hi' Hr' Hinv' H. split; [|by rewrite Hr'|done|done]. split; [done|done| |done..].
  apply Forall_forall. intros [p n] Hx. pose proof Hho as Hho'. unfold holds in Hho'. rewrite Forall_forall in Hho'.
  destruct (Hho' _ Hx) as [Hu (dat & Hv & Hd)]. simpl in *. destruct (H p) as [Hu' Hv']; [apply list_elem_of_fmap; by exists (p, n)|done|].
  split; [done|]. exists dat. split; [etrans; [exact Hv'|exact Hv]|exact Hd].
Qed.

Lemma calm_tree_ok s s' t : calm [] s s' -> tree_ok s t -> tree_ok s' t.
Proof.
  intros (Hi & (Hinv & Hu & Hv) & _) Ht. eapply tree_ok_moved; [exact Ht|unfold idle; rewrite Hi; apply Ht|by rewrite Hi|done|].
  intros q _ Hq. split; [by apply Hu|]. apply Hv; [done|apply not_elem_of_nil].
Qed.

Lemma tree_find_leaf s t fuel k :
  tree_ok s t -> height t <= fuel ->
  exists p es nx fs s', (let! root := get_root_page in let! node := read_node root in
      find_leaf fuel node k [root]) s = (Ok (leaf_node p es nx, ctx_path fs ++ [p]), s') /\
    t = plug fs (TLeaf p es nx) /\ Forall frame_ok fs /\
    around k (ctx_before fs) (ctx_after fs) /\ calm [] s s' /\ tree_ok s' t.
Proof.
  intros [Hst Hr Hso Hch] Hh. pose proof Hst as [H1 H2 H3 H4 H5 H6].
  destruct (read_node_spec s _ _ H1 H2 (holds_head _ _ H3)) as (s1 & Hrd & Hc1).
  destruct (find_leaf_spec fuel t [] s1 k [tpage t]) as (p & es & nx & fs & s2 & Hf & Hpl & Hfr & Har & Hc2).
  - done.
  - by eapply calm_idle.
  - by eapply calm_inv.
  - by eapply calm_nil_holds.
  - done.
  - done.
  - simpl. by rewrite app_nil_r.
  - by split; intros y ?%elem_of_nil.
  - done.
  - exists p, es, nx, fs, s2. assert (calm [] s s2) as Hc.
    { eapply calm_trans; [done..|]. by intros q _ [?|?]. }
    split_and!; try done.
    + unfold st_bind, get_root_page, st_get. destruct H1 as (_ & -> & _). simpl. rewrite Hr, Hrd. exact Hf.
    + split; [by eapply stored_calm| |done..]. by rewrite (calm_inner _ _ _ Hc).
Qed.

Lemma search_loop_find_leaf fuel n k path s leaf path' s' :
  find_leaf fuel n k path s = (Ok (leaf, path'), s') ->
  search_loop fuel n k s = (of_option (Err NotFound) (entry_value k (entries leaf)), s').
Proof.
  revert n path s. induction fuel as [|fuel IH]; intros n path s; simpl.
  - case_decide; [|done]. by intros [= <- _ <-].
  - case_decide; [by intros [= <- _ <-]|]. unfold st_bind, st_lift.
    destruct (find_child n k) as [c| | |]; [|done..]. destruct (read_node c s) as [[m| | |] s1]; [|done..]. apply IH.
Qed.

(** The entries of a tree around the leaf of a key. *)
Lemma plug_entries fs k :
  Forall frame_ok fs -> around k (ctx_before fs) (ctx_after fs) ->
  exists l1 l2, keys_below k l1 /\ keys_above k l2 /\
    forall es' p' nx', tree_map (plug fs (TLeaf p' es' nx')) = entries_map (l1 ++ es' ++ l2).
Proof.
  intros Hf Har. destruct (around_keys _ _ _ Har) as [H1 H2]. eexists _, _. split_and!; [exact H1|exact H2|].
  intros es' p' nx'. unfold tree_map, tree_entries. rewrite marks_plug by done. simpl.
  by rewrite !omap_app, omap_ents.
Qed.

Lemma keys_below_app k l1 l2 : keys_below k l1 -> keys_below k l2 -> keys_below k (l1 ++ l2).
Proof. intros H1 H2 e [?|?]%elem_of_app; auto. Qed.

Lemma keys_above_app k l1 l2 : keys_above k l1 -> keys_above k l2 -> keys_above k (l1 ++ l2).
Proof. intros H1 H2 e [?|?]%elem_of_app; auto. Qed.

Lemma leaf_sorted s fs p es nx :
  Forall frame_ok fs -> tree_ok s (plug fs (TLeaf p es nx)) ->
  StronglySorted mark_lt (ctx_before fs ++ (Ent <$> es) ++ ctx_after fs) /\
  StronglySorted mark_lt (Ent <$> es) /\ leaf_wf es nx /\
  stored s ((p, leaf_node p es nx) :: ctx_nodes fs p).
Proof.
  intros Hf [Hst _ Hso _]. rewrite marks_plug in Hso by done. split_and!; [done| | |].
  - by apply StronglySorted_app_1_r, StronglySorted_app_1_l in Hso.
  - rewrite nodes_plug in Hst. apply stored_app in Hst as [_ [_ _ _ _ _ [Hw _]%Forall_cons]]. exact Hw.
  - rewrite nodes_plug, Permutation_app_comm in Hst. exact Hst.
Qed.

(** The value of a key is the one in its leaf. *)
Lemma lookup_in_leaf fs p nx es k :
  Forall frame_ok fs -> around k (ctx_before fs) (ctx_after fs) -> StronglySorted mark_lt (Ent <$> es) ->
  tree_map (plug fs (TLeaf p es nx)) !! k = entry_value k es.
Proof.
  intros Hfr Har Hso. destruct (plug_entries fs k Hfr Har) as (a1 & a2 & Ha1 & Ha2 & ->).
  destruct (leaf_place k es Hso) as (l1 & l2 & H1 & H2 & [->|(e0 & <- & ->)]).
  - rewrite entry_value_miss by (intros e; by apply around_ne).
    rewrite entries_map_None; [done|]. intros e. rewrite <-app_assoc, app_assoc. apply around_ne;
      [by apply keys_below_app|by apply keys_above_app].
  - rewrite entry_value_hit by done. rewrite <-app_assoc, <-app_comm_cons, app_assoc.
    rewrite entries_map_insert; [|by apply keys_below_app|by apply keys_above_app]. by rewrite lookup_insert_eq.
Qed.

(** Removing the entry of a key from its leaf. *)
Lemma unset_in_leaf fs p nx e0 l1 l2 :
  Forall frame_ok fs -> around (key e0) (ctx_before fs) (ctx_after fs) ->
  StronglySorted mark_lt (ctx_before fs ++ (Ent <$> l1 ++ e0 :: l2) ++ ctx_after fs) ->
  keys_below (key e0) l1 -> keys_above (key e0) l2 ->
  tree_map (plug fs (TLeaf p (l1 ++ l2) nx)) = base.delete (key e0) (tree_map (plug fs (TLeaf p (l1 ++ e0 :: l2) nx))) /\
  StronglySorted mark_lt (ctx_before fs ++ (Ent <$> l1 ++ l2) ++ ctx_after fs).
Proof.
  intros Hfr Har Hall H1 H2. split.
  - destruct (plug_entries fs _ Hfr Har) as (a1 & a2 & Ha1 & Ha2 & Hmap). rewrite !Hmap.
    rewrite <-!app_assoc, <-app_comm_cons, !(app_assoc a1).
    rewrite entries_map_insert; [|by apply keys_below_app|by apply keys_above_app].
    rewrite delete_insert_id; [done|].
    apply entries_map_None. intros e. apply around_ne; [by apply keys_below_app|by apply keys_above_app].
  - rewrite fmap_app, fmap_cons in Hall. rewrite fmap_app.
    rewrite <-!app_assoc, <-app_comm_cons, app_assoc in Hall. apply marks_remove in Hall. by rewrite <-!app_assoc in *.
Qed.

(** [search] returns the value of the key in the map of the tree and leaves the pages as they
    are. *)
Lemma search_lemma s t fuel k :
  tree_ok s t -> height t <= fuel ->
  exists s', search fuel k s = (of_option (Err NotFound) (tree_map t !! k), s') /\
    tree_ok s' t /\ calm [] s s'.
Proof.
  intros Hok Hh. destruct (tree_find_leaf s t fuel k Hok Hh)
    as (p & es & nx & fs & s' & Hf & -> & Hfr & Har & Hc & Hok').
  exists s'. split_and!; [|done..]. unfold search.
  apply st_bind_inv in Hf as (root & s1 & Hr & Hf). apply st_bind_inv in Hf as (n & s2 & Hn & Hf).
  rewrite (st_bind_ok _ _ _ _ _ Hr), (st_bind_ok _ _ _ _ _ Hn), (search_loop_find_leaf _ _ _ _ _ _ _ _ Hf).
  do 2 f_equal. destruct (leaf_sorted _ _ _ _ _ Hfr Hok') as (_ & Hso & _). by rewrite (lookup_in_leaf fs p nx es k).
Qed.

Lemma replace_leaf s fs p es nx es' :
  Forall frame_ok fs -> tree_ok s (plug fs (TLeaf p es nx)) -> leaf_wf es' nx ->
  StronglySorted mark_lt (ctx_before fs ++ (Ent <$> es') ++ ctx_after fs) ->
  exists s', write_node (leaf_node p es' nx) s = (Ok tt, s') /\ calm [p] s s' /\
    tree_ok s' (plug fs (TLeaf p es' nx)).
Proof.
  intros Hf Hok Hwf Hs. pose proof (leaf_sorted _ _ _ _ _ Hf Hok) as (_ & _ & _ & Hst).
  destruct (rewrite_stored s p _ (leaf_node p es' nx) _ Hst) as (s' & Hw & Hc & Hst'); [done|by apply leaf_node_ok|done|].
  exists s'. split_and!; [done..|]. destruct Hok as [_ Hr _ Hch]. split.
  - rewrite nodes_plug, Permutation_app_comm. exact Hst'.
  - rewrite (calm_inner _ _ _ Hc), Hr. by apply tpage_plug.
  - by rewrite marks_plug.
  - rewrite leaves_plug in *. simpl in *. apply chain_app in Hch as [H1 H2]. apply chain_app. by split.
Qed.

Lemma page_in_plug fs t : tpage t ∈ (nodes (plug fs t)).*1.
Proof.
  rewrite nodes_plug, fmap_app. apply elem_of_app. right.
  apply (list_elem_of_fmap_2 fst _ (tpage t, node_of t)), nodes_head.
Qed.

Lemma calm_touches_in D D' s s' :
  (forall q, q ∈ D -> q ∈ D') -> calm D s s' -> touches D' (store s) (store s').
Proof.
  intros Hd (_ & (H1 & H2 & H3) & _). split_and!; [done..|]. intros q Hq Hn. apply H3; auto.
Qed.

Lemma height_plug fs t t' : height t = height t' -> height (plug fs t) = height (plug fs t').
Proof.
  revert t t'. induction fs as [|f fs IH]; intros t t' H; [done|]. apply IH. unfold plug1. simpl.
  by rewrite !fmap_app, !fmap_cons, H.
Qed.

Lemma Forall_drop_mid {A} (P : A -> Prop) l1 x l2 : Forall P (l1 ++ x :: l2) -> Forall P (l1 ++ l2).
Proof. rewrite !Forall_app, Forall_cons. tauto. Qed.

(** [delete] removes the key from the map of the tree, or reports that it is not there. *)
Lemma delete_lemma s t fuel k :
  tree_ok s t -> height t <= fuel ->
  match tree_map t !! k with
  | None => exists s', delete fuel k s = (Err NotFound, s') /\ tree_ok s' t /\ calm [] s s'
  | Some _ => exists s' t', delete fuel k s = (Ok tt, s') /\ tree_ok s' t' /\
      tree_map t' = base.delete k (tree_map t) /\ height t' = height t /\
      touches (nodes t).*1 (store s) (store s') /\ (nodes t').*1 ≡ₚ (nodes t).*1 /\
      (forall n, ps_room (store s) n -> ps_room (store s') n) /\ inner s' = inner s
  end.
Proof.
  intros Hok Hh. destruct (tree_find_leaf s t fuel k Hok Hh)
    as (p & es & nx & fs & s1 & Hf & -> & Hfr & Har & Hc & Hok').
  destruct (leaf_sorted _ _ _ _ _ Hfr Hok') as (Hall & Hso & (Hlen & Hes & Hnx) & _).
  rewrite (lookup_in_leaf fs p nx es k) by done.
  unfold delete. apply st_bind_inv in Hf as (root & s2 & Hr & Hf). apply st_bind_inv in Hf as (n & s3 & Hn & Hf).
  rewrite (st_bind_ok _ _ _ _ _ Hr), (st_bind_ok _ _ _ _ _ Hn), (st_bind_ok _ _ _ _ _ Hf). cbv beta iota.
  change (entries (leaf_node p es nx)) with es.
  destruct (leaf_place k es Hso) as (l1 & l2 & H1 & H2 & [->|(e0 & <- & ->)]).
  - assert (forall e, e ∈ l1 ++ l2 -> key e <> k) as Hne by (intros e; by apply around_ne).
    rewrite entry_value_miss by done. exists s1. by rewrite remove_entry_miss.
  - rewrite entry_value_hit, remove_entry_hit by done.
    destruct (unset_in_leaf fs p nx e0 l1 l2 Hfr Har Hall H1 H2) as [Hmap Hall'].
    destruct (replace_leaf s1 fs p (l1 ++ e0 :: l2) nx (l1 ++ l2)) as (s4 & Hw & Hc4 & Hok4); [done|done|..|done|].
    + split_and!; [|by eapply Forall_drop_mid|done]. rewrite length_app in *. simpl in Hlen. lia.
    + exists s4, (plug fs (TLeaf p (l1 ++ l2) nx)). split_and!; [exact Hw|done|done|..].
      * by apply height_plug.
      * eapply calm_touches_in; [|eapply (calm_trans [] [p] [p]); [done..|]].
        -- intros q ->%list_elem_of_singleton. apply (page_in_plug fs (TLeaf p _ nx)).
        -- intros q _ [?%elem_of_nil|?]; done.
      * by rewrite !nodes_plug, !fmap_app.
      * intros n' Hn'. by eapply calm_room; [|eapply calm_room].
      * destruct Hc4 as [-> _]. by destruct Hc as [-> _].
Qed.

(** *** Inserting *)
Lemma insert_into_leaf_spec p es nx x :
  StronglySorted mark_lt (Ent <$> es) ->
  exists l1 l2, insert_into_leaf (leaf_node p es nx) x = leaf_node p (l1 ++ x :: l2) nx /\
    keys_below (key x) l1 /\ keys_above (key x) l2 /\
    (es = l1 ++ l2 \/ exists e0, key e0 = key x /\ es = l1 ++ e0 :: l2).
Proof.
  intros Hs. destruct (leaf_place (key x) es Hs) as (l1 & l2 & H1 & H2 & H3). exists l1, l2.
  split; [|done]. unfold insert_into_leaf. destruct H3 as [->|(e0 & H0 & ->)].
  - simpl entries. rewrite update_entry_miss by (intros e; by apply around_ne).
    by rewrite insert_entry_place.
  - simpl entries. rewrite update_entry_hit by done. unfold leaf_node. simpl. by rewrite !length_app.
Qed.

Lemma update_path_spec steps s :
  idle s -> ps_inv (store s) -> (forall a b, (a, b) ∈ steps -> exists n, node_at (store s) a n) ->
  exists s', update_path steps s = (Ok tt, s') /\ calm [] s s'.
Proof.
  revert s. induction steps as [|[a b] steps IH]; intros s Hid Hinv Hn.
  { exists s. split; [done|by apply calm_refl]. }
  destruct (Hn a b) as [n Ha]; [by left|]. destruct (read_node_spec s a n Hid Hinv Ha) as (s1 & Hr & Hc1).
  destruct (IH s1) as (s2 & H2 & Hc2).
  - by eapply calm_idle.
  - by eapply calm_inv.
  - intros a' b' Hin. destruct (Hn a' b') as [n' Hn']; [by right|]. exists n'.
    eapply node_at_touches; [by eapply calm_touches|apply not_elem_of_nil|done].
  - exists s2. split; [|eapply calm_trans; [done..|]; by intros q _ [?|?]].
    cbn [update_path]. rewrite (st_bind_ok _ _ _ _ _ Hr). unfold st_bind, st_get, st_ret.
    rewrite (calm_inner _ _ _ Hc1). destruct Hid as (_ & _ & ->). by rewrite lookup_empty.
Qed.

Lemma ctx_path_in q fs p : q ∈ ctx_path fs -> q ∈ (ctx_nodes fs p).*1.
Proof.
  revert p. induction fs as [|f fs IH]; intros p; [by intros ?%elem_of_nil|].
  unfold ctx_path. rewrite fmap_cons, reverse_cons, elem_of_app, list_elem_of_singleton.
  intros [Hq| ->]; [|by left]. cbn [ctx_nodes]. rewrite fmap_cons, fmap_app. right. apply elem_of_app. right.
  by apply IH.
Qed.

Lemma zip_elem_fst {A B} (l : list A) (m : list B) a b : (a, b) ∈ zip l m -> a ∈ l.
Proof.
  revert m. induction l as [|x l IH]; intros [|y m]; simpl; try by intros ?%elem_of_nil.
  intros [[= -> ->]|H]%elem_of_cons; [by left|right; eauto].
Qed.

Lemma update_path_tree s fs p es nx :
  tree_ok s (plug fs (TLeaf p es nx)) ->
  exists s', update_path_after_modification (ctx_path fs ++ [p]) s = (Ok tt, s') /\ calm [] s s'.
Proof.
  intros [Hst _ _ _]. pose proof Hst as [Hid Hinv Hh _ _ _]. unfold update_path_after_modification.
  case_decide; [exists s; split; [done|by apply calm_refl]|]. apply update_path_spec; [done..|].
  intros a b Hin. rewrite elem_of_reverse in Hin. apply zip_elem_fst in Hin.
  assert (a ∈ (nodes (plug fs (TLeaf p es nx))).*1) as Ha.
  { apply elem_of_app in Hin as [Hin| ->%list_elem_of_singleton]; [|apply (page_in_plug fs (TLeaf p es nx))].
    rewrite nodes_plug, fmap_app. apply elem_of_app. left. by apply ctx_path_in. }
  apply list_elem_of_fmap in Ha as ([a' n] & -> & Ha). exists n.
  unfold holds in Hh. rewrite Forall_forall in Hh. apply (Hh _ Ha).
Qed.

(** The separator's place among the keys of the parent. *)
Lemma child_index_frame k ks1 ks2 :
  Forall (fun k' => ~ str_lt k k') ks1 -> match ks2 with [] => True | k' :: _ => str_lt k k' end ->
  child_index k (ks1 ++ ks2) = length ks1.
Proof.
  intros H1 H2. induction H1 as [|k' ks1 Hk H1 IH]; simpl.
  - destruct ks2 as [|k2 ks2]; [done|]. simpl. by rewrite (proj2 (str_ltb_lt k k2)).
  - by rewrite (proj2 (str_ltb_ge k k')), IH.
Qed.

Lemma before_seps k ms ks : length ms = length ks -> k ∈ ks -> Sep k ∈ before ms ks.
Proof.
  revert ks. induction ms as [|m ms IH]; intros [|k' ks]; try done.
  - by intros _ ?%elem_of_nil.
  - intros [= Hl] [->|Hk]%elem_of_cons; simpl; apply elem_of_app; right; [by left|right; auto].
Qed.

Lemma sep_place fs f k m1 m2 :
  frame_ok f ->
  StronglySorted mark_lt (ctx_before (f :: fs) ++ m1 ++ Sep k :: m2 ++ ctx_after (f :: fs)) ->
  child_index k (f_ks1 f ++ f_ks2 f) = length (f_ks1 f).
Proof.
  intros [H1 H2] Hs. apply child_index_frame.
  - apply Forall_forall. intros k' Hk'. apply str_lt_le.
    apply (StronglySorted_app_1_elem_of _ _ _ (Sep k') (Sep k) Hs).
    + simpl. apply elem_of_app. right. apply before_seps; [by rewrite length_fmap|done].
    + apply elem_of_app. right. by left.
  - apply StronglySorted_app_1_r, StronglySorted_app_1_r in Hs. apply StronglySorted_inv in Hs as [_ Hs].
    destruct (f_ks2 f) as [|k2 ks2] eqn:Hk2; [done|]. destruct (f_ts2 f) as [|t2 ts2] eqn:Ht2; [done|].
    rewrite Forall_forall in Hs. apply (Hs (Sep k2)). simpl. rewrite Hk2, Ht2. apply elem_of_app. right. by left.
Qed.

Lemma create_new_root_spec s k c1 c2 l n :
  stored s l -> ps_room (store s) (Datatypes.S n) -> key_short k -> (c1 < 2 ^ 64)%N -> (c2 < 2 ^ 64)%N ->
  exists r s', create_new_root c1 k c2 s = (Ok tt, s') /\
    stored s' ((r, internal_node r [k] [c1; c2]) :: l) /\ root_page (inner s') = r /\
    touches [] (store s) (store s') /\ ps_room (store s') n /\ ~ ps_used (store s) r.
Proof.
  intros Hst Hroom Hk Hc1 Hc2. unfold create_new_root.
  destruct (alloc_stored s l n Hst Hroom)
    as (r & s1 & Ha & Hset & Hst1 & Hin1 & Ht1 & Hr1 & Hnu & Hu & H0 & Hnl & _).
  rewrite (st_bind_ok _ _ _ _ _ Ha), (st_bind_ok _ _ _ _ _ Hset).
  assert (internal_wf [k] [c1; c2]) as Hwf.
  { split; [simpl; unfold BTREE_ORDER; lia|]. split; [done|]. split; [by apply Forall_singleton|]. by rewrite !Forall_cons. }
  destruct (write_stored s1 (internal_node r [k] [c1; c2]) l Hst1) as (s2 & Hw & Hc & Hst2);
    [done..|by apply internal_node_ok|done|].
  change (mk_node r InternalNode 1 0 [] 0 [k] [c1; c2]) with (internal_node r [k] [c1; c2]).
  rewrite (st_bind_ok _ _ _ _ _ Hw). pose proof (so_idle _ _ Hst2) as Hid.
  eexists r, _. split; [done|]. destruct Hid as (Hact & Hm & Hcow). rewrite Hact. split_and!; [|done| |exact (calm_room _ _ _ _ Hc Hr1)|done].
  - destruct Hst2. by split.
  - simpl. eapply touches_trans; [done|by eapply calm_touches|].
    simpl. intros q Hq [?| ->%list_elem_of_singleton]; done.
Qed.

Lemma vec_insert_app {A} i (x : A) l1 l2 : length l1 = i -> vec_insert i x (l1 ++ l2) = Some (l1 ++ x :: l2).
Proof.
  intros <-. unfold vec_insert. rewrite decide_True by (rewrite length_app; lia).
  by rewrite take_app_length, drop_app_length.
Qed.

Lemma split_off_app {A} i (l1 l2 : list A) : length l1 = i -> split_off i (l1 ++ l2) = Some (l1, l2).
Proof.
  intros <-. unfold split_off. rewrite decide_True by (rewrite length_app; lia).
  by rewrite take_app_length, drop_app_length.
Qed.

Lemma insert_into_parent_run split f k c1 c2 path s :
  length (f_ts1 f) = length (f_ks1 f) ->
  child_index k (f_ks1 f ++ f_ks2 f) = length (f_ks1 f) ->
  let ks := f_ks1 f ++ k :: f_ks2 f in
  let cs := (tpage <$> f_ts1 f) ++ c1 :: c2 :: (tpage <$> f_ts2 f) in
  insert_into_parent split (frame_node f c1) k c2 path s =
    if decide (BTREE_ORDER < length ks) then split (internal_node (f_page f) ks cs) path s
    else write_node (internal_node (f_page f) ks cs) s.
Proof.
  intros Hl Hi ks cs. unfold insert_into_parent, frame_node. simpl. rewrite Hi.
  unfold of_index, st_bind, st_lift. rewrite vec_insert_app by done. simpl.
  rewrite (cons_middle c1), app_assoc, vec_insert_app by (rewrite length_app, length_fmap; simpl; lia).
  simpl. rewrite <-app_assoc. fold ks. change ([c1] ++ c2 :: (tpage <$> f_ts2 f)) with (c1 :: c2 :: (tpage <$> f_ts2 f)).
  fold cs. unfold internal_node. by case_decide.
Qed.

(** [split_internal] on a node with one key too many. *)
Lemma split_internal_run pr p n0 ks cs path s l n :
  stored s ((p, n0) :: l) -> ps_room (store s) (Datatypes.S n) ->
  length ks = Datatypes.S BTREE_ORDER -> length cs = Datatypes.S (length ks) ->
  Forall key_short ks -> Forall (fun c => c < 2 ^ 64)%N cs ->
  exists q s' ka kp kb ca cb,
    split_internal pr (internal_node p ks cs) path s = pr p kp q path s' /\
    ks = ka ++ kp :: kb /\ cs = ca ++ cb /\ length ca = Datatypes.S (length ka) /\
    length cb = Datatypes.S (length kb) /\
    stored s' ((q, internal_node q kb cb) :: (p, internal_node p ka ca) :: l) /\
    inner s' = inner s /\ touches [p] (store s) (store s') /\ ps_room (store s') n /\ ~ ps_used (store s) q.
Proof.
  intros Hst Hroom Hl Hc Hks Hcs. unfold BTREE_ORDER in Hl.
  set (mid := length ks / 2). assert (mid = 25) as Hmid by (unfold mid; by rewrite Hl).
  destruct (lookup_lt_is_Some_2 ks mid) as [kp Hkp]; [lia|].
  pose proof (take_drop_middle ks _ _ Hkp) as Hk. pose proof (take_drop (mid + 1) cs) as Hcc.
  set (ka := take mid ks) in *. set (kb := drop (Datatypes.S mid) ks) in *.
  set (ca := take (mid + 1) cs) in *. set (cb := drop (mid + 1) cs) in *.
  assert (length ka = 25) as Hka by (unfold ka; rewrite length_take; lia).
  assert (length ca = 26) as Hca by (unfold ca; rewrite length_take; lia).
  assert (length kb = 25) as Hkb by (unfold kb; rewrite length_drop; lia).
  assert (length cb = 26) as Hcb by (unfold cb; rewrite length_drop; lia).
  rewrite <-Hk in Hks. apply Forall_app in Hks as [Hksa [Hkp' Hksb]%Forall_cons].
  rewrite <-Hcc in Hcs. apply Forall_app in Hcs as [Hcsa Hcsb].
  unfold split_internal. simpl keys. simpl children.
  destruct (alloc_stored s _ n Hst Hroom)
    as (q & s1 & Ha & Hset & Hst1 & Hin1 & Ht1 & Hr1 & Hnu & Hu & H0 & Hnl & Hsm).
  rewrite (st_bind_ok _ _ _ _ _ Ha), (st_bind_ok _ _ _ _ _ Hset).
  fold mid. rewrite Hkp. unfold of_index at 1. unfold st_bind at 1. simpl.
  assert (split_off (mid + 1) ks = Some (ka ++ [kp], kb)) as ->.
  { rewrite <-Hk, cons_middle, app_assoc. apply split_off_app. rewrite length_app. simpl. lia. }
  assert (split_off (mid + 1) cs = Some (ca, cb)) as ->.
  { rewrite <-Hcc. apply split_off_app. lia. }
  unfold of_index. unfold st_bind at 1. simpl. unfold st_bind at 1. simpl. rewrite vec_pop_snoc. simpl.
  change (mk_node p InternalNode (wrap_u16 (N.of_nat (length ka))) 0 [] 0 ka ca) with (internal_node p ka ca).
  change (mk_node q InternalNode (wrap_u16 (N.of_nat (length kb))) 0 [] 0 kb cb) with (internal_node q kb cb).
  assert (internal_wf ka ca) as Hwa by (split_and!; [unfold BTREE_ORDER; lia|lia|done|done]).
  assert (internal_wf kb cb) as Hwb by (split_and!; [unfold BTREE_ORDER; lia|lia|done|done]).
  destruct (rewrite_stored s1 p n0 (internal_node p ka ca) l Hst1) as (s2 & Hw2 & Hc2 & Hst2);
    [done|by apply internal_node_ok|done|].
  destruct (write_stored s2 (internal_node q kb cb) _ Hst2) as (s3 & Hw3 & Hc3 & Hst3);
    [exact Hnl|by eapply calm_used|done|by apply internal_node_ok|done|].
  rewrite (st_bind_ok _ _ _ _ _ Hw2), (st_bind_ok _ _ _ _ _ Hw3).
  exists q, s3, ka, kp, kb, ca, cb. split_and!; [done|done|done|lia|lia|done| |..].
  - by rewrite (calm_inner _ _ _ Hc3), (calm_inner _ _ _ Hc2).
  - eapply (touches_trans [] [p; q] [p]); [done| |].
    + eapply touches_trans; [by eapply calm_touches|by eapply calm_touches|].
      intros x _ Hx. simpl in Hx. clear -Hx. set_solver.
    + intros x Hx Hin. assert (x <> q) by (by intros ->). clear -Hin H. set_solver.
  - by eapply calm_room; [|eapply calm_room].
  - done.
Qed.

(** *** Splits climbing the path *)

(** The pages of [l'] are those of [l] or new. *)
Definition grown s (l l' : list (N * BTreeNode)) : Prop :=
  forall q, q ∈ l'.*1 -> q ∈ l.*1 \/ ~ ps_used (store s) q.

Lemma height_node_le p ks ts h : (forall t, t ∈ ts -> height t <= h) -> height (TNode p ks ts) <= Datatypes.S h.
Proof.
  intros H. simpl. apply le_n_S. induction ts as [|t ts IH]; simpl; [lia|].
  apply Nat.max_lub; [apply H; by left|]. apply IH. intros u Hu. apply H. by right.
Qed.

Lemma height_plug_mono fs t t' : height t <= height t' -> height (plug fs t) <= height (plug fs t').
Proof.
  revert t t'. induction fs as [|f fs IH]; intros t t' H; [done|]. apply IH. unfold plug1. simpl.
  apply le_n_S. rewrite !fmap_app, !fmap_cons. generalize (height <$> f_ts1 f). intros l1.
  induction l1 as [|n l1 IH1]; simpl; [by apply Nat.max_le_compat_r|by apply Nat.max_le_compat_l].
Qed.

Lemma height_in (ts : list tree) t : t ∈ ts -> height t <= max_list (height <$> ts).
Proof. intros Hin. apply max_list_elem_of_le. by apply list_elem_of_fmap_2. Qed.

Lemma height_plug1_le f t0 p ks ts :
  (forall t, t ∈ ts -> t ∈ f_ts1 f \/ t ∈ f_ts2 f \/ height t <= height t0) ->
  height (TNode p ks ts) <= height (plug1 f t0).
Proof.
  intros H. unfold plug1. cbn [height]. apply (height_node_le p ks). intros t Ht.
  assert (forall u, u ∈ f_ts1 f ++ t0 :: f_ts2 f -> height u <= max_list (height <$> f_ts1 f ++ t0 :: f_ts2 f)) as Hin.
  { intros u Hu. by apply height_in. }
  destruct (H t Ht) as [Ht'|[Ht'|Ht']].
  - apply Hin, elem_of_app. by left.
  - apply Hin, elem_of_app. right. by right.
  - etrans; [exact Ht'|]. apply Hin, elem_of_app. right. by left.
Qed.

(** The two halves of a node and the separator between them, in the place of a subtree. *)
Record split_state s fs t1 k t2 : Prop := {
  sp_stored : stored s (ctx_nodes fs (tpage t1) ++ nodes t1 ++ nodes t2);
  sp_frames : Forall frame_ok fs;
  sp_sorted : StronglySorted mark_lt (ctx_before fs ++ marks t1 ++ Sep k :: marks t2 ++ ctx_after fs);
  sp_key : key_short k;
  sp_chain : chain (ctx_leaves1 fs ++ leaves t1 ++ leaves t2 ++ ctx_leaves2 fs) 0;
  sp_root : root_page (inner s) = tpage (plug fs t1) }.

Lemma head_used_small s l t : stored s (l ++ nodes t) -> (tpage t < 2 ^ 64)%N.
Proof.
  intros Hst. apply stored_app in Hst as [_ [_ Hi Hh _ _ _]].
  apply (ps_used_small (store s)); [done|]. eapply holds_used; [done|].
  apply (list_elem_of_fmap_2 fst _ (tpage t, node_of t)), nodes_head.
Qed.

(** The parent of the two halves with both of them as children. *)
Definition widened f t1 k t2 : tree :=
  TNode (f_page f) (f_ks1 f ++ k :: f_ks2 f) (f_ts1 f ++ t1 :: t2 :: f_ts2 f).

Lemma widened_marks f t1 k t2 : frame_ok f ->
  marks (widened f t1 k t2) = before (marks <$> f_ts1 f) (f_ks1 f) ++ marks t1 ++ Sep k :: marks t2 ++
    after (f_ks2 f) (marks <$> f_ts2 f).
Proof.
  intros [H1 H2]. unfold widened. cbn [marks]. rewrite fmap_app, !fmap_cons, weave_split by (by rewrite length_fmap).
  done.
Qed.

Lemma widened_leaves f t1 (k : string) t2 :
  leaves (widened f t1 k t2) = concat (leaves <$> f_ts1 f) ++ leaves t1 ++ leaves t2 ++ concat (leaves <$> f_ts2 f).
Proof. unfold widened. cbn [leaves]. by rewrite fmap_app, !fmap_cons, concat_app. Qed.

Lemma widened_nodes f t1 t2 :
  concat (nodes <$> f_ts1 f ++ t1 :: t2 :: f_ts2 f) ≡ₚ frame_nodes f ++ nodes t1 ++ nodes t2.
Proof.
  rewrite fmap_app, !fmap_cons, concat_app. cbn [concat]. unfold frame_nodes. solve_Permutation.
Qed.

Lemma split_state_parent s f fs t1 k t2 :
  split_state s (f :: fs) t1 k t2 ->
  stored s ((f_page f, frame_node f (tpage t1)) :: concat (nodes <$> f_ts1 f ++ t1 :: t2 :: f_ts2 f) ++ ctx_nodes fs (f_page f)) /\
  Forall key_short (f_ks1 f ++ k :: f_ks2 f) /\
  Forall (fun c => c < 2 ^ 64)%N (tpage <$> f_ts1 f ++ t1 :: t2 :: f_ts2 f) /\
  length (tpage <$> f_ts1 f ++ t1 :: t2 :: f_ts2 f) = Datatypes.S (length (f_ks1 f ++ k :: f_ks2 f)) /\
  length (f_ks1 f ++ f_ks2 f) <= BTREE_ORDER.
Proof.
  intros [Hst [[Hf1 Hf2] Hfs]%Forall_cons _ Hk _ _]. cbn [ctx_nodes] in Hst.
  pose proof Hst as [_ _ _ _ _ [Hwf _]%Forall_cons]. destruct Hwf as (Hl & Hc & Hks & Hcs). simpl in Hl, Hks, Hcs.
  assert (tpage t2 < 2 ^ 64)%N as H2 by (eapply head_used_small; rewrite (app_assoc _ (nodes t1)) in Hst; exact Hst).
  split_and!.
  - rewrite widened_nodes by done. rewrite <-(app_assoc (frame_nodes f)).
    rewrite (Permutation_app_comm (nodes t1 ++ nodes t2)), app_assoc. cbn [app] in Hst.
    by rewrite <-app_assoc in *.
  - apply Forall_app in Hks as [? ?]. apply Forall_app. split; [done|by constructor].
  - rewrite fmap_app, !fmap_cons. apply Forall_app in Hcs as [? [? ?]%Forall_cons]. apply Forall_app.
    split; [done|]. by repeat constructor.
  - rewrite length_fmap, !length_app. simpl. lia.
  - done.
Qed.

Lemma pages_app {A} (x : N) (l1 l2 : list (N * A)) : x ∈ (l1 ++ l2).*1 <-> x ∈ l1.*1 \/ x ∈ l2.*1.
Proof. by rewrite fmap_app, elem_of_app. Qed.

Lemma pages_cons {A} (x p : N) (n : A) l : x ∈ ((p, n) :: l).*1 <-> x = p \/ x ∈ l.*1.
Proof. by rewrite fmap_cons, elem_of_cons. Qed.

Lemma widened_pages f t1 t2 x :
  x ∈ (concat (nodes <$> f_ts1 f ++ t1 :: t2 :: f_ts2 f)).*1 ->
  x ∈ (frame_nodes f).*1 \/ x ∈ (nodes t1).*1 \/ x ∈ (nodes t2).*1.
Proof. by rewrite widened_nodes, !pages_app. Qed.

(** The two halves of a parent that got too many keys. *)
Lemma halves_marks f fs t1 k t2 q ka kp kb ta tb :
  frame_ok f -> f_ks1 f ++ k :: f_ks2 f = ka ++ kp :: kb -> f_ts1 f ++ t1 :: t2 :: f_ts2 f = ta ++ tb ->
  length ta = Datatypes.S (length ka) -> length tb = Datatypes.S (length kb) ->
  ctx_before fs ++ marks (TNode (f_page f) ka ta) ++ Sep kp :: marks (TNode q kb tb) ++ ctx_after fs =
    ctx_before (f :: fs) ++ marks t1 ++ Sep k :: marks t2 ++ ctx_after (f :: fs).
Proof.
  intros Hf Hks Hts Hla Hlb. pose proof (widened_marks f t1 k t2 Hf) as Hw. unfold widened in Hw. rewrite Hks, Hts in Hw.
  cbn [marks] in Hw. rewrite fmap_app, weave_halves in Hw by (by rewrite length_fmap).
  transitivity (ctx_before fs ++ (marks (TNode (f_page f) ka ta) ++ Sep kp :: marks (TNode q kb tb)) ++ ctx_after fs).
  { by app_right. }
  cbn [marks]. rewrite Hw. cbn [ctx_before ctx_after]. by app_right.
Qed.

Lemma halves_leaves f fs t1 (k : string) t2 q ka kb ta tb :
  f_ts1 f ++ t1 :: t2 :: f_ts2 f = ta ++ tb ->
  ctx_leaves1 fs ++ leaves (TNode (f_page f) ka ta) ++ leaves (TNode q kb tb) ++ ctx_leaves2 fs =
    ctx_leaves1 (f :: fs) ++ leaves t1 ++ leaves t2 ++ ctx_leaves2 (f :: fs).
Proof.
  intros Hts. pose proof (widened_leaves f t1 k t2) as Hw. unfold widened in Hw. rewrite Hts in Hw. cbn [leaves] in *.
  rewrite fmap_app, concat_app in Hw. rewrite (app_assoc (concat (leaves <$> ta))), Hw. unfold ctx_leaves1, ctx_leaves2. simpl. by app_right.
Qed.

Lemma halves_state s s2 f fs t1 k t2 q ka kp kb ta tb :
  split_state s (f :: fs) t1 k t2 ->
  f_ks1 f ++ k :: f_ks2 f = ka ++ kp :: kb -> f_ts1 f ++ t1 :: t2 :: f_ts2 f = ta ++ tb ->
  length ta = Datatypes.S (length ka) -> length tb = Datatypes.S (length kb) ->
  stored s2 ((q, internal_node q kb (tpage <$> tb)) :: (f_page f, internal_node (f_page f) ka (tpage <$> ta)) ::
    concat (nodes <$> ta ++ tb) ++ ctx_nodes fs (f_page f)) ->
  root_page (inner s2) = root_page (inner s) -> key_short kp ->
  ctx_before fs ++ marks (TNode (f_page f) ka ta) ++ Sep kp :: marks (TNode q kb tb) ++ ctx_after fs =
    ctx_before (f :: fs) ++ marks t1 ++ Sep k :: marks t2 ++ ctx_after (f :: fs) /\
  split_state s2 fs (TNode (f_page f) ka ta) kp (TNode q kb tb).
Proof.
  intros [_ [Hf Hfs]%Forall_cons Hso Hk Hch Hr] Hks Hts Hla Hlb Hst Hroot Hkp.
  pose proof (halves_marks f fs t1 k t2 q ka kp kb ta tb Hf Hks Hts Hla Hlb) as Hm.
  split; [exact Hm|]. split; [|done|by rewrite Hm|done|..].
  - cbn [nodes node_of]. simpl tpage. rewrite fmap_app, concat_app in Hst.
    eapply stored_proper; [|exact Hst]. solve_Permutation.
  - by rewrite (halves_leaves f fs t1 k t2).
  - rewrite Hroot, Hr. cbn [plug]. by apply tpage_plug.
Qed.

Lemma of_index_bind {A B} (a : A) (k : A -> ST (bstate St) Error B) s : st_bind k (of_index (Some a)) s = k a s.
Proof. done. Qed.

Lemma promote_spec fs fuel t1 k t2 s n :
  length fs < fuel -> split_state s fs t1 k t2 -> ps_room (store s) (Datatypes.S (length fs) + n) ->
  exists t' s', promote fuel (tpage t1) k (tpage t2) (ctx_path fs ++ [tpage t1]) s = (Ok tt, s') /\
    tree_ok s' t' /\ marks t' = ctx_before fs ++ marks t1 ++ Sep k :: marks t2 ++ ctx_after fs /\
    touches (ctx_nodes fs (tpage t1)).*1 (store s) (store s') /\ ps_room (store s') n /\
    grown s (ctx_nodes fs (tpage t1) ++ nodes t1 ++ nodes t2) (nodes t') /\
    forall t0, height t1 <= height t0 -> height t2 <= height t0 -> height t' <= Datatypes.S (height (plug fs t0)).
Proof.
  revert fuel t1 k t2 s. induction fs as [|f fs IH]; intros [|fuel] t1 k t2 s Hfuel Hsp Hroom; simpl in Hfuel; try lia.
  - pose proof Hsp as [Hst _ Hso Hk Hch Hr]. simpl in Hst, Hso, Hch. cbn [promote].
    rewrite decide_True by done. rewrite app_nil_r in Hso, Hch.
    assert (tpage t1 < 2 ^ 64)%N as Hs1 by (apply (head_used_small s (nodes t2)); by rewrite Permutation_app_comm).
    assert (tpage t2 < 2 ^ 64)%N as Hs2 by (by eapply head_used_small).
    destruct (create_new_root_spec s k (tpage t1) (tpage t2) _ _ Hst Hroom Hk Hs1 Hs2) as (r & s' & Hrun & Hst' & Hr' & Ht & Hrm & Hnr).
    exists (TNode r [k] [t1; t2]), s'. split_and!; [exact Hrun| |simpl; by rewrite !app_nil_r|done|done|..].
    + split; simpl; rewrite ?app_nil_r; done.
    + intros x. cbn [nodes]. simpl. rewrite app_nil_r. intros [->|Hx]%elem_of_cons; [by right|by left].
    + intros t0 H1 H2. cbn [plug]. simpl. lia.
  - pose proof (split_state_parent _ _ _ _ _ _ Hsp) as (Hst & Hks & Hcs & Hlen & Hold).
    pose proof Hsp as [_ [Hf Hfs]%Forall_cons Hso Hk Hch Hr].
    pose proof (stored_cons _ _ _ _ Hst) as (_ & _ & _ & _ & Hat).
    destruct (read_node_spec s _ _ (so_idle _ _ Hst) (so_inv _ _ Hst) Hat) as (s1 & Hrd & Hc1).
    set (path := ctx_path (f :: fs) ++ [tpage t1]).
    assert (path = (ctx_path fs ++ [f_page f]) ++ [tpage t1]) as Hpath.
    { unfold path, ctx_path. by rewrite fmap_cons, reverse_cons. }
    assert (length path = length (ctx_path fs) + 2) as Hpl by (rewrite Hpath, !length_app; simpl; lia).
    assert (path !! (length path - 2) = Some (f_page f)) as Hp2.
    { rewrite Hpl, Hpath, <-app_assoc. apply list_lookup_middle. lia. }
    assert (path !! (length path - 1) = Some (tpage t1)) as Hp1.
    { rewrite Hpl, Hpath. apply list_lookup_middle. rewrite length_app. simpl. lia. }
    assert (from_option snd [] (vec_pop path) = ctx_path fs ++ [f_page f]) as Hpop by (by rewrite Hpath, vec_pop_snoc).
    cbn [promote]. rewrite decide_False by lia. rewrite Hp2, Hp1, Hpop. clearbody path.
    rewrite of_index_bind, (st_bind_ok _ _ _ _ _ Hrd), of_index_bind, N.eqb_refl.
    assert (child_index k (f_ks1 f ++ f_ks2 f) = length (f_ks1 f)) as Hidx by (by eapply sep_place).
    destruct Hf as [Hf1 Hf2]. rewrite (insert_into_parent_run _ f k (tpage t1) (tpage t2)) by done.
    change ((tpage <$> f_ts1 f) ++ tpage t1 :: tpage t2 :: (tpage <$> f_ts2 f)) with
      ((tpage <$> f_ts1 f) ++ (tpage <$> t1 :: t2 :: f_ts2 f)). rewrite <-fmap_app.
    pose proof (stored_calm _ _ _ Hst Hc1) as Hst1.
    assert (tpage (plug fs (widened f t1 k t2)) = tpage (plug fs (plug1 f t1))) as Htp by (by apply tpage_plug).
    case_decide as Hover.
    + assert (length (f_ks1 f ++ k :: f_ks2 f) = Datatypes.S BTREE_ORDER) as Hl51.
      { rewrite length_app in *. simpl in *. lia. }
      destruct (split_internal_run (promote fuel) (f_page f) _ _ _ (ctx_path fs ++ [f_page f]) s1 _ (Datatypes.S (length fs) + n)
        Hst1 ltac:(by eapply calm_room) Hl51 Hlen Hks Hcs)
        as (q & s2 & ka & kp & kb & ca & cb & Hrun & Hk' & Hc' & Hla & Hlb & Hst2 & Hin2 & Ht2 & Hroom2 & Hnq).
      rewrite Hrun. apply fmap_app_inv in Hc' as (ta & tb & -> & -> & Hts).
      rewrite length_fmap in Hla, Hlb. rewrite Hts in Hst2.
      assert (key_short kp) as Hkp by (rewrite Hk' in Hks; by apply Forall_app in Hks as [_ [? _]%Forall_cons]).
      rewrite (calm_inner _ _ _ Hc1) in Hin2.
      destruct (halves_state s s2 f fs t1 k t2 q ka kp kb ta tb Hsp Hk' Hts Hla Hlb Hst2 ltac:(by rewrite Hin2) Hkp)
        as [Hmarks Hsp2].
      destruct (IH fuel (TNode (f_page f) ka ta) kp (TNode q kb tb) s2) as (t' & s3 & H1 & H2 & H3 & H4 & Hrm & Hgr & H5);
        [lia|done|done|].
      exists t', s3. split_and!; [exact H1|done|by rewrite H3, Hmarks| |done|..].
      * eapply touches_trans; [eapply (touches_trans [] [f_page f] [f_page f]); [by eapply calm_touches|done|]|done|].
        -- intros x _ [?%elem_of_nil|?]; done.
        -- intros x _ [->%list_elem_of_singleton|Hx]; [by left|].
           cbn [ctx_nodes]. rewrite fmap_cons, fmap_app. right. apply elem_of_app. by right.
      * intros x [Hx|Hx]%Hgr.
        -- pose proof (widened_pages f t1 t2 x) as Hw. rewrite Hts, fmap_app, concat_app, pages_app in Hw.
           revert Hx. cbn [nodes ctx_nodes tpage app]. rewrite !pages_app, !pages_cons, !pages_app, ?pages_cons.
           destruct (decide (x = q)) as [->|]; [|tauto].
           intros _. right. intros Hu. by eapply Hnq, calm_used.
        -- right. intros Hu. apply Hx. destruct Ht2 as (_ & Hu2 & _). apply Hu2. by eapply calm_used.
      * intros t0 Hh1 Hh2. cbn [plug]. apply H5.
        -- apply height_plug1_le. intros u Hu. assert (u ∈ f_ts1 f ++ t1 :: t2 :: f_ts2 f) as Hin by (rewrite Hts; set_solver).
           set_solver.
        -- apply height_plug1_le. intros u Hu. assert (u ∈ f_ts1 f ++ t1 :: t2 :: f_ts2 f) as Hin by (rewrite Hts; set_solver).
           set_solver.
    + assert (internal_wf (f_ks1 f ++ k :: f_ks2 f) (tpage <$> f_ts1 f ++ t1 :: t2 :: f_ts2 f)) as Hwf
        by (split_and!; [lia|done..]).
      destruct (rewrite_stored s1 _ _ (node_of (widened f t1 k t2)) _ Hst1) as (s2 & Hw & Hc2 & Hst2);
        [done|by apply internal_node_ok|done|].
      exists (plug fs (widened f t1 k t2)), s2. split_and!; [exact Hw|..].
      * split; [| |rewrite marks_plug, widened_marks by done|rewrite leaves_plug, widened_leaves].
        -- rewrite nodes_plug, Permutation_app_comm. exact Hst2.
        -- by rewrite (calm_inner _ _ _ Hc2), (calm_inner _ _ _ Hc1), Hr, Htp.
        -- cbn [ctx_before ctx_after] in Hso. revert Hso. by app_right.
        -- simpl in Hch. by rewrite <-!app_assoc in *.
      * rewrite marks_plug, widened_marks by done. cbn [ctx_before ctx_after]. by app_right.
      * eapply touches_trans; [by eapply calm_touches|by eapply calm_touches|].
        intros x _ [?%elem_of_nil|Hx]; [done|]. simpl in Hx. apply list_elem_of_singleton in Hx as ->. by left.
      * eapply calm_room; [done|]. eapply calm_room; [done|]. eapply ps_room_le; [done|lia].
      * intros x Hx. left. revert Hx. rewrite nodes_plug, pages_app.
        cbn [nodes widened ctx_nodes tpage app]. rewrite ?pages_app, ?pages_cons, ?pages_app, ?pages_cons, ?pages_app.
        pose proof (widened_pages f t1 t2 x) as Hw'. cbn [tpage widened]. tauto.
      * intros t0 Hh1 Hh2. cbn [plug]. apply le_S, height_plug_mono, height_plug1_le. intros u Hu. set_solver.
Qed.

Lemma length_plug fs t : length fs + height t <= height (plug fs t).
Proof.
  revert t. induction fs as [|f fs IH]; intros t; [done|]. cbn [plug length]. etrans; [|apply IH].
  assert (height t < height (plug1 f t)); [|lia]. apply height_child, elem_of_app. right. by left.
Qed.

Lemma split_leaf_spec s fs p es nx es' n :
  Forall frame_ok fs -> tree_ok s (plug fs (TLeaf p es nx)) ->
  length es' = Datatypes.S BTREE_ORDER ->
  Forall (fun e => key_short (key e) /\ (value e < 2 ^ 64)%N) es' ->
  StronglySorted mark_lt (ctx_before fs ++ (Ent <$> es') ++ ctx_after fs) ->
  ps_room (store s) (Datatypes.S (Datatypes.S (length fs) + n)) ->
  exists s' t', split_leaf (leaf_node p es' nx) (ctx_path fs ++ [p]) s = (Ok tt, s') /\ tree_ok s' t' /\
    tree_entries t' = omap mark_entry (ctx_before fs) ++ es' ++ omap mark_entry (ctx_after fs) /\
    touches (nodes (plug fs (TLeaf p es nx))).*1 (store s) (store s') /\ ps_room (store s') n /\
    grown s (nodes (plug fs (TLeaf p es nx))) (nodes t') /\ height t' <= Datatypes.S (height (plug fs (TLeaf p es nx))).
Proof.
  intros Hf Hok Hl He Hso Hroom. unfold BTREE_ORDER in Hl.
  pose proof (leaf_sorted _ _ _ _ _ Hf Hok) as (_ & _ & (_ & _ & Hnx) & Hst).
  destruct (alloc_stored s _ _ Hst Hroom)
    as (q & s1 & Ha & Hset & Hst1 & Hin1 & Ht1 & Hr1 & Hnu & Hu & H0 & Hnl & Hsm).
  assert (exists l1 e1 e l2, es' = (l1 ++ [e1]) ++ e :: l2 /\ length (l1 ++ [e1]) = 25 /\ length l2 = 25) as
    (l1 & e1 & e & l2 & -> & Hl1 & Hl2).
  { destruct (lookup_lt_is_Some_2 es' 24) as [e1 He1]; [lia|]. destruct (lookup_lt_is_Some_2 es' 25) as [e He2]; [lia|].
    exists (take 24 es'), e1, e, (drop 26 es'). rewrite <-(take_S_r _ _ _ He1), take_drop_middle by done.
    rewrite length_take, length_drop. split_and!; [done|lia|lia]. }
  apply Forall_app in He as [He1 He2].
  assert (leaf_wf (l1 ++ [e1]) q) as Hwf1 by (split_and!; [unfold BTREE_ORDER; lia|done|done]).
  assert (leaf_wf (e :: l2) nx) as Hwf2 by (split_and!; [unfold BTREE_ORDER; simpl; lia|done|done]).
  destruct (rewrite_stored s1 _ _ (leaf_node p (l1 ++ [e1]) q) _ Hst1) as (s2 & Hw2 & Hc2 & Hst2);
    [done|by apply leaf_node_ok|done|].
  destruct (write_stored s2 (leaf_node q (e :: l2) nx) _ Hst2) as (s3 & Hw3 & Hc3 & Hst3);
    [exact Hnl|by eapply calm_used|done|by apply leaf_node_ok|done|].
  assert (split_state s3 fs (TLeaf p (l1 ++ [e1]) q) (key e) (TLeaf q (e :: l2) nx)) as Hsp.
  { destruct Hok as [_ Hr _ Hch]. split.
    - simpl. eapply stored_proper; [|exact Hst3]. solve_Permutation.
    - done.
    - simpl marks. rewrite !fmap_app, !fmap_cons in *. revert Hso. app_right. simpl.
      rewrite !(app_assoc (ctx_before fs)). apply marks_separate.
    - by inv He2 as [|?? [? _]].
    - rewrite leaves_plug in Hch. simpl in *. apply chain_app in Hch as [? [? ?]]. apply chain_app. by split.
    - rewrite (calm_inner _ _ _ Hc3), (calm_inner _ _ _ Hc2), Hin1, Hr. by apply tpage_plug. }
  destruct (promote_spec fs (length (ctx_path fs ++ [p])) _ _ _ s3 n ltac:(unfold ctx_path; rewrite length_app, length_reverse, length_fmap; simpl; lia) Hsp) as (t' & s4 & Hrun & Hok' & Hm & Ht4 & Hrm & Hgr & Hh).
  { by eapply calm_room; [|eapply calm_room]. }
  exists s4, t'. split_and!; [|done|..].
  - unfold split_leaf. rewrite (st_bind_ok _ _ _ _ _ Ha), (st_bind_ok _ _ _ _ _ Hset). simpl entries.
    rewrite Hl. change (51 / 2) with 25. rewrite split_off_app by done. rewrite of_index_bind.
    cbv beta iota zeta. simpl page_num. simpl parent. simpl next_leaf. simpl keys. simpl children.
    change (mk_node p LeafNode (wrap_u16 (N.of_nat (length (l1 ++ [e1])))) 0 (l1 ++ [e1]) q [] [])
      with (leaf_node p (l1 ++ [e1]) q).
    change (mk_node q LeafNode (wrap_u16 (N.of_nat (length (e :: l2)))) 0 (e :: l2) nx [] [])
      with (leaf_node q (e :: l2) nx).
    rewrite (st_bind_ok _ _ _ _ _ Hw2), (st_bind_ok _ _ _ _ _ Hw3). simpl lookup. exact Hrun.
  - unfold tree_entries. rewrite Hm. cbn [marks]. rewrite !omap_app, omap_sep, !omap_app, !omap_ents. by app_right.
  - assert ((nodes (plug fs (TLeaf p es nx))).*1 ≡ₚ p :: (ctx_nodes fs p).*1) as Hpg.
    { rewrite nodes_plug, Permutation_app_comm. done. }
    assert (touches [p; q] (store s1) (store s3)) as Ht3.
    { eapply touches_trans; [by eapply calm_touches|by eapply calm_touches|]. intros x _ Hx. simpl in Hx. set_solver. }
    eapply touches_trans; [eapply (touches_trans [] [p; q] [p]); [done|done|]|done|].
    + intros x Hx Hin. assert (x <> q) by (by intros ->). clear -Hin H. set_solver.
    + intros x _ Hx. rewrite Hpg. simpl in Hx. set_solver.
  - done.
  - intros x [Hx|Hx]%Hgr.
    + revert Hx. rewrite nodes_plug. cbn [nodes tpage app]. rewrite !pages_app, !pages_cons.
      destruct (decide (x = q)) as [->|]; [by right|tauto].
    + right. intros Hu'. apply Hx. eapply calm_used; [done|]. eapply calm_used; [done|].
      by destruct Ht1 as (_ & Hus & _); apply Hus.
  - apply Hh; done.
Qed.

(** Setting the value of a key in its leaf. *)
Lemma set_in_leaf fs p nx es k v l1 l2 :
  Forall frame_ok fs -> around k (ctx_before fs) (ctx_after fs) ->
  StronglySorted mark_lt (ctx_before fs ++ (Ent <$> es) ++ ctx_after fs) ->
  keys_below k l1 -> keys_above k l2 -> (es = l1 ++ l2 \/ exists e0, key e0 = k /\ es = l1 ++ e0 :: l2) ->
  let es' := l1 ++ mk_entry k v :: l2 in
  tree_map (plug fs (TLeaf p es' nx)) = <[k := v]> (tree_map (plug fs (TLeaf p es nx))) /\
  StronglySorted mark_lt (ctx_before fs ++ (Ent <$> es') ++ ctx_after fs) /\
  length es' <= Datatypes.S (length es) /\
  forall P : LeafEntry -> Prop, Forall P es -> P (mk_entry k v) -> Forall P es'.
Proof.
  intros Hfr Har Hall H1 H2 H3 es'. split_and!.
  - destruct (plug_entries fs k Hfr Har) as (a1 & a2 & Ha1 & Ha2 & Hmap). rewrite !Hmap.
    unfold es'. rewrite <-app_assoc, <-app_comm_cons, app_assoc.
    rewrite entries_map_insert; [|by apply keys_below_app|by apply keys_above_app]. simpl.
    destruct H3 as [->|(e0 & H0 & ->)]; [by rewrite <-!app_assoc|].
    rewrite <-(app_assoc l1), <-app_comm_cons, (app_assoc a1). subst k.
    rewrite (entries_map_insert e0); [|by apply keys_below_app|by apply keys_above_app].
    by rewrite insert_insert_eq.
  - assert (StronglySorted mark_lt ((ctx_before fs ++ (Ent <$> l1)) ++ ((Ent <$> l2) ++ ctx_after fs))) as Hs.
    { destruct H3 as [->|(e0 & H0 & ->)]; [rewrite fmap_app in Hall; by rewrite <-!app_assoc in *|].
      rewrite fmap_app, fmap_cons, <-!app_assoc, <-app_comm_cons, app_assoc in Hall.
      by apply marks_remove in Hall. }
    unfold es'. rewrite fmap_app, fmap_cons, <-!app_assoc, <-app_comm_cons, app_assoc.
    destruct Har as [Hb Haf]. apply marks_insert; [done|..].
    + intros y [Hy|(e & -> & He)%list_elem_of_fmap]%elem_of_app; [|by apply H1].
      specialize (Hb y Hy). by destruct y.
    + intros y [(e & -> & He)%list_elem_of_fmap|Hy]%elem_of_app; [by apply H2|by apply Haf].
  - unfold es'. destruct H3 as [->|(e0 & H0 & ->)]; rewrite !length_app; simpl; lia.
  - intros P Hes HP. unfold es'. destruct H3 as [->|(e0 & H0 & ->)]; apply Forall_app in Hes as [? Hes2]; apply Forall_app; split; try done.
    + by constructor.
    + apply Forall_cons in Hes2 as [_ ?]. by constructor.
Qed.

(** [insert] sets the key in the map of the tree. *)
Lemma insert_lemma s t fuel k v n :
  tree_ok s t -> height t <= fuel -> key_short k -> (v < 2 ^ 64)%N ->
  ps_room (store s) (Datatypes.S (Datatypes.S (height t)) + n) ->
  exists s' t', insert fuel k v s = (Ok tt, s') /\ tree_ok s' t' /\
    tree_map t' = <[k := v]> (tree_map t) /\ height t' <= Datatypes.S (height t) /\
    touches (nodes t).*1 (store s) (store s') /\ ps_room (store s') n /\ grown s (nodes t) (nodes t').
Proof.
  intros Hok Hh Hk Hv Hroom. destruct (tree_find_leaf s t fuel k Hok Hh)
    as (p & es & nx & fs & s1 & Hf & -> & Hfr & Har & Hc & Hok').
  destruct (leaf_sorted _ _ _ _ _ Hfr Hok') as (Hall & Hso & (Hlen & Hes & Hnx) & _).
  destruct (insert_into_leaf_spec p es nx (mk_entry k v) Hso) as (l1 & l2 & Hins & H1 & H2 & H3). simpl in H1, H2, H3.
  destruct (set_in_leaf fs p nx es k v l1 l2 Hfr Har Hall H1 H2 H3) as (Hmap' & Hall' & Hl0 & Hes0).
  set (es' := l1 ++ mk_entry k v :: l2) in *.
  assert (Forall (fun e => key_short (key e) /\ (value e < 2 ^ 64)%N) es') as Hes' by (by apply Hes0).
  assert (length es' <= Datatypes.S BTREE_ORDER) as Hl' by lia.
  unfold insert. apply st_bind_inv in Hf as (root & s2 & Hr & Hf). apply st_bind_inv in Hf as (nd & s3 & Hn & Hf).
  rewrite (st_bind_ok _ _ _ _ _ Hr), (st_bind_ok _ _ _ _ _ Hn), (st_bind_ok _ _ _ _ _ Hf). cbv beta iota zeta.
  rewrite Hins. change (entries (leaf_node p es' nx)) with es'.
  pose proof (length_plug fs (TLeaf p es nx)) as Hlf. simpl in Hlf.
  assert (forall D s4, (forall q, q ∈ D -> q ∈ (nodes (plug fs (TLeaf p es nx))).*1) -> touches D (store s1) (store s4) ->
    touches (nodes (plug fs (TLeaf p es nx))).*1 (store s) (store s4)) as Htr.
  { intros D s4 HD Ht. eapply touches_trans; [by eapply calm_touches|done|].
    intros q _ [?%elem_of_nil|Hq]; [done|]. by apply HD. }
  case_decide as Hover.
  - destruct (split_leaf_spec s1 fs p es nx es' n) as (s4 & t' & Hrun & Hok4 & Hent & Ht4 & Hrm & Hgr & Hh4); try done; [lia|..].
    { eapply calm_room; [done|]. eapply ps_room_le; [done|]. lia. }
    exists s4, t'. split_and!; [exact Hrun|done|..|done|by eapply Htr|done|];
      [|intros x [Hx|Hx]%Hgr; [by left|right; intros Hu; by eapply Hx, calm_used]].
    rewrite <-Hmap'. unfold tree_map, tree_entries in *. rewrite Hent.
    rewrite marks_plug, !omap_app by done. simpl marks. by rewrite omap_ents.
  - destruct (replace_leaf s1 fs p es nx es') as (s4 & Hw & Hc4 & Hok4); [done|done|by split_and!; [lia|..]|done|].
    rewrite (st_bind_ok _ _ _ _ _ Hw).
    destruct (update_path_tree s4 fs p es' nx Hok4) as (s5 & Hu & Hc5).
    exists s5, (plug fs (TLeaf p es' nx)). split_and!; [done|..].
    + destruct Hok4 as [Hst4 Hr4 Hs4 Hch4]. split; [by eapply stored_calm| |done|done].
      by rewrite (calm_inner _ _ _ Hc5).
    + done.
    + apply le_S. by rewrite (height_plug fs (TLeaf p es' nx) (TLeaf p es nx)).
    + apply (Htr [p]).
      * intros q ->%list_elem_of_singleton. apply (page_in_plug fs (TLeaf p es nx)).
      * eapply touches_trans; [by eapply calm_touches|by eapply calm_touches|]. intros q _ [?|?%elem_of_nil]; done.
    + eapply calm_room; [done|]. eapply calm_room; [done|]. eapply calm_room; [done|].
      eapply ps_room_le; [done|lia].
    + intros x Hx. left. revert Hx. by rewrite !nodes_plug, !fmap_app.
Qed.

(** *** A new tree *)
Lemma new_btree_spec s n :
  ps_inv (store s) -> ps_room (store s) (Datatypes.S n) ->
  exists p s', new_btree s = (Ok tt, s') /\ tree_ok s' (TLeaf p [] 0) /\ ps_room (store s') n.
Proof.
  intros Hi Hroom. destruct (ps_alloc_law (store s) n Hi Hroom) as (p & s1 & Ha & Hi1 & Hnu & Hu & H0 & Hus & Hv & Hr).
  set (s2 := mk_bstate s1 (inner_new p)).
  assert (stored s2 []) as Hst.
  { split; [done|done|constructor..]. }
  assert (leaf_wf [] 0) as Hwf by (split_and!; [unfold BTREE_ORDER; simpl; lia|constructor|done]).
  destruct (write_stored s2 (leaf_node p [] 0) [] Hst) as (s3 & Hw & Hc & Hst3);
    [apply not_elem_of_nil|done|done|by apply leaf_node_ok|done|].
  exists p, s3. split_and!.
  - unfold new_btree, st_bind, on_store. rewrite Ha. exact Hw.
  - split; [done|by rewrite (calm_inner _ _ _ Hc)|constructor|done].
  - by eapply calm_room.
Qed.

(** *** Sequences of operations *)
Inductive tree_op := TSearch (k : string) | TInsert (k : string) (v : N) | TDelete (k : string).

Definition tree_op_ok (o : tree_op) : Prop :=
  match o with TInsert k v => key_short k /\ (v < 2 ^ 64)%N | _ => True end.

#[global] Instance tree_op_ok_dec o : Decision (tree_op_ok o).
Proof. unfold tree_op_ok, key_short. destruct o; apply _. Defined.

Definition run_tree_op (fuel : nat) (o : tree_op) : ST (bstate St) Error (option N) :=
  match o with
  | TSearch k => let! v := search fuel k in st_ret (Some v)
  | TInsert k v => let! _ := insert fuel k v in st_ret None
  | TDelete k => let! _ := delete fuel k in st_ret None
  end.

(** Every operation of a sequence with its result, errors included. *)
Fixpoint run_tree_ops (fuel : nat) (os : list tree_op) (s : bstate St) : list (Result (option N)) * bstate St :=
  match os with
  | [] => ([], s)
  | o :: os =>
    let '(r, s) := run_tree_op fuel o s in
    let '(rs, s) := run_tree_ops fuel os s in (r :: rs, s)
  end.
End stateful.

(** The same operations on a finite map. *)
Definition map_op (o : tree_op) (m : gmap string N) : Result (option N) * gmap string N :=
  match o with
  | TSearch k => (match m !! k with Some v => Ok (Some v) | None => Err NotFound end, m)
  | TInsert k v => (Ok None, <[k := v]> m)
  | TDelete k => match m !! k with Some _ => (Ok None, base.delete k m) | None => (Err NotFound, m) end
  end.

Fixpoint map_ops (os : list tree_op) (m : gmap string N) : list (Result (option N)) * gmap string N :=
  match os with
  | [] => ([], m)
  | o :: os => let '(r, m) := map_op o m in let '(rs, m) := map_ops os m in (r :: rs, m)
  end.

Section refinement.
Context {St : Type} `{!PageStore St} `{!PageStoreLaws St}.
Implicit Types (s : bstate St) (t : tree).

Lemma run_tree_op_spec s t fuel o n :
  tree_ok s t -> tree_op_ok o -> height t <= fuel ->
  ps_room (store s) (Datatypes.S (Datatypes.S (height t)) + n) ->
  exists s' t', run_tree_op fuel o s = ((map_op o (tree_map t)).1, s') /\ tree_ok s' t' /\
    tree_map t' = (map_op o (tree_map t)).2 /\ height t' <= Datatypes.S (height t) /\
    touches (nodes t).*1 (store s) (store s') /\ ps_room (store s') n /\ grown s (nodes t) (nodes t').
Proof.
  intros Hok Ho Hh Hroom.
  assert (ps_room (store s) n) as Hroom' by (eapply ps_room_le; [done|lia]).
  assert (forall s', calm [] s s' -> touches (nodes t).*1 (store s) (store s')) as Hcalm.
  { intros s' Hc. eapply calm_touches_in; [|done]. by intros q ?%elem_of_nil. }
  assert (grown s (nodes t) (nodes t)) as Hg by (by left).
  destruct o as [k|k v|k]; simpl.
  - destruct (search_lemma s t fuel k Hok Hh) as (s' & Hs & Hok' & Hc). exists s', t.
    split_and!; [|done|by destruct (tree_map t !! k)|lia|auto|by eapply calm_room|done].
    unfold st_bind, st_ret. rewrite Hs. by destruct (tree_map t !! k).
  - destruct Ho as [Hk Hv]. destruct (insert_lemma s t fuel k v n Hok Hh Hk Hv Hroom)
      as (s' & t' & Hi & Hok' & Hm & Hh' & Ht & Hr & Hgr). exists s', t'.
    split_and!; try done. unfold st_bind, st_ret. by rewrite Hi.
  - pose proof (delete_lemma s t fuel k Hok Hh) as Hd. unfold st_bind, st_ret.
    destruct (tree_map t !! k) as [v|].
    + destruct Hd as (s' & t' & -> & Hok' & Hm & Hh' & Ht & Hp & Hr & _). exists s', t'.
      split_and!; try done; [lia|auto|]. intros q. rewrite Hp. by left.
    + destruct Hd as (s' & -> & Hok' & Hc). exists s', t. split_and!; try done; [lia|auto|by eapply calm_room].
Qed.

Lemma run_tree_ops_spec os s t fuel :
  tree_ok s t -> Forall tree_op_ok os -> height t + length os <= fuel ->
  ps_room (store s) (length os * (height t + length os + 2)) ->
  exists s' t', run_tree_ops fuel os s = ((map_ops os (tree_map t)).1, s') /\ tree_ok s' t' /\
    tree_map t' = (map_ops os (tree_map t)).2 /\ touches (nodes t).*1 (store s) (store s') /\
    grown s (nodes t) (nodes t').
Proof.
  revert s t. induction os as [|o os IH]; intros s t Hok Hos Hh Hroom.
  - exists s, t. split_and!; try done; [|by left].
    split_and!; [apply (so_inv _ _ (to_stored _ _ Hok))|done|done].
  - apply Forall_cons in Hos as [Ho Hos]. cbn [length] in Hh, Hroom.
    destruct (run_tree_op_spec s t fuel o (length os * (Datatypes.S (height t) + length os + 2)) Hok Ho)
      as (s1 & t1 & Hr1 & Hok1 & Hm1 & Hh1 & Ht1 & Hroom1 & Hg1); [lia|eapply ps_room_le; [done|lia]|].
    destruct (IH s1 t1 Hok1 Hos) as (s2 & t2 & Hr2 & Hok2 & Hm2 & Ht2 & Hg2); [lia|eapply ps_room_le; [done|nia]|].
    exists s2, t2. cbn [run_tree_ops map_ops]. rewrite Hr1, Hr2.
    destruct (map_op o (tree_map t)) as [r m] eqn:Ho1. simpl in Hm1. subst m.
    destruct (map_ops os (tree_map t1)) as [rs m] eqn:Ho2. simpl in *. split_and!; try done.
    + eapply touches_trans; [done..|]. intros q Hq [?|Hin]; [done|]. by destruct (Hg1 q Hin).
    + intros q [Hq|Hq]%Hg2; [by apply Hg1|]. right. intros Hu. apply Hq.
      destruct Ht1 as (_ & Hu1 & _). by apply Hu1.
Qed.
End refinement.

(** ** Iterating over the leaves *)

(** What the iterator shows: the entries up to the first empty leaf. *)
Fixpoint shown (ls : list (N * list LeafEntry * N)) : list LeafEntry :=
  match ls with
  | [] => []
  | (_, [], _) :: _ => []
  | (_, es, _) :: ls => es ++ shown ls
  end.

Definition entry_pair (e : LeafEntry) : string * N := (key e, value e).

Section tree_induction.
Variable P : tree -> Prop.
Hypothesis Hleaf : forall p es nx, P (TLeaf p es nx).
Hypothesis Hnode : forall p ks ts, Forall P ts -> P (TNode p ks ts).

Fixpoint tree_ind_nested (t : tree) : P t :=
  match t with
  | TLeaf p es nx => Hleaf p es nx
  | TNode p ks ts =>
    Hnode p ks ts ((fix go ts : Forall P ts :=
      match ts with [] => Forall_nil_2 _ | t :: ts => Forall_cons_2 _ _ _ (tree_ind_nested t) (go ts) end) ts)
  end.
End tree_induction.

Section iteration.
Context {St : Type} `{!PageStore St} `{!PageStoreLaws St}.
Implicit Types (s : bstate St) (t : tree).

Lemma leaf_in_nodes t p es nx : (p, es, nx) ∈ leaves t -> (p, leaf_node p es nx) ∈ nodes t.
Proof.
  induction t as [p' es' nx'|p' ks ts IH] using tree_ind_nested; simpl.
  - intros [= -> -> ->]%list_elem_of_singleton. by left.
  - intros Hin. right. rewrite Forall_forall in IH.
    apply list_elem_of_In, in_concat in Hin as (l & Hl & Hin).
    apply list_elem_of_In, list_elem_of_fmap in Hl as (t & -> & Ht).
    apply list_elem_of_In, in_concat. exists (nodes t). split; apply list_elem_of_In.
    + by apply list_elem_of_fmap_2.
    + apply IH; [done|]. by apply list_elem_of_In.
Qed.

Lemma tree_entries_leaves t :
  Forall node_wf (nodes t) -> tree_entries t = concat ((fun l => l.1.2) <$> leaves t).
Proof.
  unfold tree_entries.
  induction t as [p es nx|p ks ts IH] using tree_ind_nested; intros Hwf; simpl.
  - by rewrite omap_ents, app_nil_r.
  - pose proof Hwf as [(_ & Hl & _) _]%Forall_cons. simpl in Hl. rewrite length_fmap in Hl.
    assert (Forall (fun t => omap mark_entry (marks t) = concat ((fun l => l.1.2) <$> leaves t)) ts) as H.
    { rewrite Forall_forall in IH |- *. intros t Ht. apply IH; [done|]. by eapply wf_child. }
    clear IH Hwf.
    assert (forall ks ts, length ts = length ks ->
      Forall (fun t => omap mark_entry (marks t) = concat ((fun l => l.1.2) <$> leaves t)) ts ->
      omap mark_entry (after ks (marks <$> ts)) = concat ((fun l => l.1.2) <$> concat (leaves <$> ts))) as Ha.
    { clear. intros ks. induction ks as [|k ks IH]; intros [|t ts] Hl H; try done.
      apply Forall_cons in H as [Ht H]. cbn [after fmap list_fmap]. rewrite omap_sep, omap_app, Ht.
      cbn [concat]. rewrite fmap_app, concat_app. f_equal. apply IH; [by injection Hl|done]. }
    destruct ts as [|t ts]; [done|]. apply Forall_cons in H as [Ht H]. cbn [weave fmap list_fmap concat].
    rewrite omap_app, Ht, fmap_app, concat_app. f_equal. apply Ha; [by injection Hl|done].
Qed.

Lemma leaves_nonempty t : Forall node_wf (nodes t) -> leaves t <> [].
Proof.
  induction t as [p es nx|p ks ts IH] using tree_ind_nested; intros Hwf; [done|].
  pose proof Hwf as [(_ & Hl & _) _]%Forall_cons. simpl in Hl. rewrite length_fmap in Hl.
  destruct ts as [|t ts]; [done|]. apply Forall_cons in IH as [IH _]. cbn [leaves fmap list_fmap concat].
  intros [Hn _]%app_nil. apply IH; [|done]. eapply (wf_child p ks (t :: ts)); [by left|done].
Qed.

Lemma leftmost_spec fuel t s l ls :
  height t <= fuel -> idle s -> ps_inv (store s) -> holds (store s) (nodes t) -> Forall node_wf (nodes t) ->
  leaves t = l :: ls ->
  exists s', leftmost fuel (node_of t) s = (Ok (leaf_node l.1.1 l.1.2 l.2), s') /\ calm [] s s'.
Proof.
  revert t s ls. induction fuel as [|fuel IH]; intros [p es nx|p ks ts] s ls Hh Hid Hinv Hho Hwf Hl;
    try (simpl in Hh; lia).
  1,2: simpl in Hl; simplify_eq; exists s; split; [done|by apply calm_refl].
  pose proof Hwf as [(_ & Hlen & _) _]%Forall_cons. simpl in Hlen. rewrite length_fmap in Hlen.
  destruct ts as [|t ts]; [done|].
  assert (t ∈ t :: ts) as Ht by (by left).
  assert (node_at (store s) (tpage t) (node_of t)) as Hat by (by eapply holds_head, holds_child).
  destruct (read_node_spec s _ _ Hid Hinv Hat) as (s1 & Hr & Hc1).
  pose proof (wf_child _ _ _ _ Ht Hwf) as Hwt.
  destruct (leaves t) as [|l' ls'] eqn:Hlt; [by apply leaves_nonempty in Hwt|].
  assert (l' = l) as ->. { cbn [leaves fmap list_fmap concat] in Hl. rewrite Hlt in Hl. by injection Hl. }
  destruct (IH t s1 ls') as (s2 & H2 & Hc2); [|by eapply calm_idle|by eapply calm_inv|
    by eapply calm_nil_holds, holds_child|done|done|].
  { pose proof (height_child t p ks (t :: ts) Ht). lia. }
  exists s2. split; [|eapply calm_trans; [done..|]; by intros q _ [?|?]].
  unfold leftmost; fold leftmost. rewrite decide_False by done.
  change (children (node_of (TNode p ks (t :: ts)))) with (tpage t :: (tpage <$> ts)). cbv iota.
  rewrite (st_bind_ok _ _ _ _ _ Hr). exact H2.
Qed.

(** What an iterator is about to show: it stands on the entry [i] of a leaf, or before the first
    entry of the first leaf. *)
Definition iter_at (st : St) (it : BTreeIterator) (rest : list LeafEntry) : Prop := exists p es nx i b ls,
  it = mk_iter (Some (leaf_node p es nx)) i b /\
  (forall p es nx, (p, es, nx) ∈ ls -> p <> 0%N /\ node_at st p (leaf_node p es nx)) /\
  chain ((p, es, nx) :: ls) 0 /\
  (if b : bool then i < length es /\ rest = drop (Datatypes.S i) es ++ shown ls else i = 0 /\ rest = shown ((p, es, nx) :: ls)).

Lemma iter_at_mono st st' it rest : touches [] st st' -> iter_at st it rest -> iter_at st' it rest.
Proof.
  intros Ht (p & es & nx & i & b & ls & -> & Hls & Hch & Hb). exists p, es, nx, i, b, ls. split_and!; try done.
  intros p0 es0 nx0 Hin. destruct (Hls p0 es0 nx0 Hin) as [? Hat]. split; [done|].
  eapply node_at_touches; [done|apply not_elem_of_nil|done].
Qed.

(** The call of [next] at the end of a leaf. *)
Lemma iter_next_leaf s p es nx i p' es' nx' :
  idle s -> ps_inv (store s) -> nx = p' -> p' <> 0%N -> node_at (store s) p' (leaf_node p' es' nx') ->
  length es <= Datatypes.S i ->
  exists s1, iter_next (mk_iter (Some (leaf_node p es nx)) i true) s =
    (Ok (bool_decide (0 < length es'), mk_iter (Some (leaf_node p' es' nx')) 0 true), s1) /\ calm [] s s1.
Proof.
  intros Hid Hinv -> Hp' Hat Hend. destruct (read_node_spec s _ _ Hid Hinv Hat) as (s1 & Hr & Hc1).
  exists s1. split; [|done]. unfold iter_next. cbn [current_leaf started index].
  change (entries (leaf_node p es p')) with es. change (next_leaf (leaf_node p es p')) with p'.
  rewrite decide_True by lia. rewrite (proj2 (N.eqb_neq p' 0) Hp').
  assert (st_ok (read_node p') s = (Ok (Some (leaf_node p' es' nx')), s1)) as Hok by (unfold st_ok; by rewrite Hr).
  by rewrite (st_bind_ok _ _ _ _ _ Hok).
Qed.

(** [next] moves to the next entry to show, or tells that there is none. *)
Definition shows (r : list LeafEntry) (st : St) (it : BTreeIterator) : Prop :=
  match r with
  | [] => True
  | e :: rest => iter_entry it = Some (entry_pair e) /\ iter_at st it rest
  end.

Lemma iter_next_spec s it rest :
  idle s -> ps_inv (store s) -> iter_at (store s) it rest ->
  exists it' s', iter_next it s = (Ok (bool_decide (rest <> []), it'), s') /\ calm [] s s' /\ shows rest (store s') it'.
Proof.
  intros Hid Hinv (p & es & nx & i & b & ls & -> & Hls & Hch & Hb). destruct b.
  - destruct Hb as [Hi ->]. destruct (decide (length es <= Datatypes.S i)) as [Hend|Hend].
    + rewrite (drop_ge es) by done. cbn [app]. destruct Hch as [Hnx Hch].
      destruct ls as [|[[p' es'] nx'] ls]; cbn [first_page] in Hnx.
      * eexists _, s. split_and!; [|by apply calm_refl|done]. unfold iter_next. cbn [current_leaf started index].
        change (entries (leaf_node p es nx)) with es. rewrite decide_True by lia. simpl. by subst nx.
      * destruct (Hls p' es' nx') as [Hp' Hat]; [by left|].
        destruct (iter_next_leaf s p es nx i p' es' nx') as (s1 & Hn & Hc); [done..|].
        eexists _, s1. split_and!; [rewrite Hn|exact Hc|]; destruct es' as [|e' es']; try done.
        split; [done|]. apply (iter_at_mono (store s)); [by eapply calm_touches|].
        exists p', (e' :: es'), nx', 0, true, ls. split_and!; [done| |done|simpl; lia|done]. intros. apply Hls. by right.
    + destruct (lookup_lt_is_Some_2 es (Datatypes.S i)) as [e He]; [lia|]. rewrite (drop_S es e (Datatypes.S i)) by done.
      eexists _, s. split_and!; [|by apply calm_refl|].
      * unfold iter_next. cbn [current_leaf started index]. change (entries (leaf_node p es nx)) with es.
        rewrite decide_False by lia. by rewrite Nat.add_1_r.
      * split; [unfold iter_entry; simpl; by rewrite He|].
        exists p, es, nx, (Datatypes.S i), true, ls. split_and!; [done..|lia|done].
  - destruct Hb as [-> ->]. exists (mk_iter (Some (leaf_node p es nx)) 0 true), s.
    split_and!; [destruct es; done|by apply calm_refl|].
    destruct es as [|e es]; [done|]. split; [done|]. exists p, (e :: es), nx, 0, true, ls. split_and!; [done..|simpl; lia|done].
Qed.

Lemma iterator_spec s t fuel :
  tree_ok s t -> height t <= fuel ->
  exists it s', iterator fuel s = (Ok it, s') /\ calm [] s s' /\ iter_at (store s') it (shown (leaves t)).
Proof.
  intros [Hst Hr Hso Hch] Hh. pose proof Hst as [Hid Hinv Hho Hnd Hnz Hwf].
  destruct (read_node_spec s _ _ Hid Hinv (holds_head _ _ Hho)) as (s1 & Hrd & Hc1).
  destruct (leaves t) as [|[[p es] nx] ls] eqn:Hl; [by apply leaves_nonempty in Hwf|].
  destruct (leftmost_spec fuel t s1 (p, es, nx) ls) as (s2 & Hlm & Hc2);
    [done|by eapply calm_idle|by eapply calm_inv|by eapply calm_nil_holds|done|done|].
  assert (calm [] s s2) as Hc by (eapply calm_trans; [done..|]; by intros q _ [?|?]).
  exists (mk_iter (Some (leaf_node p es nx)) 0 false), s2. split_and!; [|done|].
  { unfold iterator, get_root_page. destruct Hid as (_ & Hm & _). unfold st_bind, st_get. rewrite Hm. simpl.
    rewrite Hr, Hrd, Hlm. done. }
  exists p, es, nx, 0, false, ls. split_and!; try done. intros p0 es0 nx0 Hin.
  assert ((p0, leaf_node p0 es0 nx0) ∈ nodes t) as Hin' by (apply leaf_in_nodes; rewrite Hl; by right).
  rewrite Forall_forall in Hnz. split; [apply (Hnz _ Hin')|]. pose proof (calm_nil_holds _ _ _ Hc Hho) as Hho2.
  unfold holds in Hho2. rewrite Forall_forall in Hho2. apply (Hho2 _ Hin').
Qed.

Lemma iter_all_spec steps s it rest :
  idle s -> ps_inv (store s) -> iter_at (store s) it rest -> length rest < steps ->
  exists s', iter_all steps it s = (Ok (entry_pair <$> rest), s') /\ calm [] s s'.
Proof.
  revert s it rest. induction steps as [|steps IH]; intros s it rest Hid Hinv Hat Hst; [lia|].
  destruct (iter_next_spec s it rest Hid Hinv Hat) as (it' & s1 & Hn & Hc & Hsh). cbn [iter_all].
  rewrite (st_bind_ok _ _ _ _ _ Hn). destruct rest as [|e rest]; [by exists s1|]. destruct Hsh as [He Hat'].
  rewrite bool_decide_eq_true_2 by done. rewrite He, of_index_bind. simpl in Hst.
  destruct (IH s1 it' rest) as (s2 & Hrun & Hc2); [by eapply calm_idle|by eapply calm_inv|done|lia|].
  exists s2. rewrite (st_bind_ok _ _ _ _ _ Hrun). split; [done|]. eapply calm_trans; [done..|]. by intros q _ [?|?].
Qed.

Lemma length_shown_entries ls : length (shown ls) <= length (concat ((fun l : N * list LeafEntry * N => l.1.2) <$> ls)).
Proof. induction ls as [|[[p [|e es]] nx] ls IH]; simpl; [lia|lia|]. rewrite !length_app. apply le_n_S, Nat.add_le_mono_l, IH. Qed.

Lemma iterate_spec s t fuel steps :
  tree_ok s t -> height t <= fuel -> length (tree_entries t) < steps ->
  exists s', (let! it := iterator fuel in iter_all steps it) s =
    (Ok (entry_pair <$> shown (leaves t)), s') /\ calm [] s s'.
Proof.
  intros Hok Hh Hsteps. destruct (iterator_spec s t fuel Hok Hh) as (it & s1 & Hit & Hc1 & Hat).
  rewrite tree_entries_leaves in Hsteps by apply Hok. pose proof (length_shown_entries (leaves t)).
  destruct (iter_all_spec steps s1 it (shown (leaves t))) as (s2 & Hrun & Hc2);
    [eapply calm_idle; [done|apply Hok]|by eapply calm_inv|done|lia|].
  exists s2. rewrite (st_bind_ok _ _ _ _ _ Hit). split; [done|]. eapply calm_trans; [done..|]. by intros q _ [?|?].
Qed.

Lemma shown_all ls : Forall (fun l : N * list LeafEntry * N => l.1.2 <> []) ls -> shown ls = concat ((fun l => l.1.2) <$> ls).
Proof. induction 1 as [|[[p [|e es]] nx] ls H Hls IH]; [done|done|]. simpl. by rewrite IH. Qed.
End iteration.
