(* ===== verification/BTreeOnPager.v ===== *)
(** * Theorems about the B-tree

    The tree is a finite map over every page store, in particular over the pager with its LRU
    cache; what its iterator shows; and the keys that do not fit in a page. *)

From stdpp Require Import base list strings gmap sorting pretty.
From Stdlib Require Import NArith Lia.
From S2P Require Import Prelude Constants Bytes PageStore LruCache Pager BTreeNode BTree BTreeSpec.

Notation pstate := (bstate Pager.Pager).

Section theorems.
Context {St : Type} `{!PageStore St} `{!PageStoreLaws St}.

(** C1: on a tree outside a transaction, over any page store that keeps its laws and with
    room for the new pages, every sequence of searches, insertions of keys of at most 71 bytes
    (longer ones can overflow a page) and deletions returns what
    the same operations on a finite map return, errors included, and leaves a tree (its nodes
    on distinct pages, its keys sorted, its leaves chained) that stands for the resulting map;
    pages in use outside the tree keep their contents and stay outside it. Fuel as large as
    the tree's height plus the number of operations is enough. *)
Theorem btree_refines_map fuel os (s : bstate St) t
    (Hok : tree_ok s t) (Hos : Forall tree_op_ok os) (Hfuel : height t + length os <= fuel)
    (Hroom : ps_room (store s) (length os * (height t + length os + 2))) :
  exists s' t', run_tree_ops fuel os s = ((map_ops os (tree_map t)).1, s') /\
    tree_ok s' t' /\ tree_map t' = (map_ops os (tree_map t)).2 /\
    forall q, ps_used (store s) q -> q ∉ (nodes t).*1 ->
      ps_view (store s') q = ps_view (store s) q /\ ps_used (store s') q /\ q ∉ (nodes t').*1.
Proof.
  destruct (run_tree_ops_spec os s t fuel Hok Hos Hfuel Hroom) as (s' & t' & H1 & H2 & H3 & (_ & H4 & H5) & H6).
  exists s', t'. split_and!; [done..|]. intros q Hq Hn. split_and!; [auto..|].
  intros Hin. by destruct (H6 q Hin).
Qed.

(** The iterator of a tree shows, in key order, the entries of its leaves up to the first
    empty leaf; so it shows every entry exactly when no entry is behind an empty leaf, and in
    particular when no leaf is empty. *)
Theorem iterator_stops_at_first_empty_leaf fuel steps (s : bstate St) t
    (Hok : tree_ok s t) (Hfuel : height t <= fuel) (Hsteps : length (tree_entries t) < steps) :
  exists s', (let! it := iterator fuel in iter_all steps it) s =
      (Ok (entry_pair <$> shown (leaves t)), s') /\ tree_ok s' t /\
    (Forall (fun l => l.1.2 <> []) (leaves t) -> shown (leaves t) = tree_entries t).
Proof.
  destruct (iterate_spec s t fuel steps Hok Hfuel Hsteps) as (s' & H1 & Hc). exists s'.
  split; [done|]. destruct Hok as [Hst Hr Hso Hch]. split.
  - split; [by eapply stored_calm| |done|done]. by rewrite (calm_inner _ _ _ Hc).
  - intros Hne. rewrite shown_all by done. by rewrite tree_entries_leaves by apply Hst.
Qed.
End theorems.

Lemma new_tree_on_pager cap n :
  (N.of_nat n + 2 <= 2 ^ 52)%N ->
  exists p s, new_btree (mk_bstate (new_pager cap) (inner_new 0)) = (Ok tt, s) /\
    tree_ok s (TLeaf p [] 0) /\ ps_room (store s) n.
Proof.
  intros Hn. destruct (new_pager_inv cap (S n)) as [Hi Hr]; [lia|].
  destruct (new_btree_spec (mk_bstate (new_pager cap) (inner_new 0)) n Hi Hr) as (p & s & H). by exists p, s.
Qed.

(** C2: a new tree on a new pager behaves as an empty finite map under every sequence of
    searches, insertions of keys of at most 71 bytes and deletions, whatever the size of the
    page cache. *)
Theorem btree_on_pager_refines_map cap fuel os
    (Hos : Forall tree_op_ok os) (Hfuel : length os <= fuel)
    (Hsmall : (N.of_nat (length os * (length os + 2)) + 2 <= 2 ^ 52)%N) :
  exists s1 s2, new_btree (mk_bstate (new_pager cap) (inner_new 0)) = (Ok tt, s1) /\
    run_tree_ops fuel os s1 = ((map_ops os ∅).1, s2).
Proof.
  destruct (new_tree_on_pager cap _ Hsmall) as (p & s1 & H1 & Hok & Hroom).
  destruct (run_tree_ops_spec os s1 _ fuel Hok Hos Hfuel Hroom) as (s2 & t & H2 & _). exists s1, s2. split; [exact H1|exact H2].
Qed.

Definition example_ops : list tree_op :=
  [TInsert "bob" 7; TInsert "ann" 5; TSearch "bob"; TDelete "bob"; TSearch "bob"; TSearch "ann"].

Lemma example_ops_ok : Forall tree_op_ok example_ops.
Proof. apply (bool_decide_unpack _). vm_compute. exact I. Qed.

Lemma btree_on_pager_refines_map_witness :
  (map_ops example_ops ∅).1 = [Ok None; Ok None; Ok (Some 7%N); Ok None; Err NotFound; Ok (Some 5%N)] /\
  exists s1 s2, new_btree (mk_bstate (new_pager 2) (inner_new 0)) = (Ok tt, s1) /\
    run_tree_ops 6 example_ops s1 = ((map_ops example_ops ∅).1, s2).
Proof.
  split; [vm_compute; reflexivity|].
  apply (btree_on_pager_refines_map 2 6 example_ops); [exact example_ops_ok|simpl; lia|vm_compute; discriminate].
Defined.

Lemma btree_refines_map_witness :
  exists (s : pstate) p s' t', run_tree_ops 6 example_ops s = ((map_ops example_ops ∅).1, s') /\
    tree_ok s' t' /\ tree_map t' = (map_ops example_ops ∅).2 /\
    forall q, ps_used (store s) q -> q ∉ [p] ->
      ps_view (store s') q = ps_view (store s) q /\ ps_used (store s') q /\ q ∉ (nodes t').*1.
Proof.
  destruct (new_tree_on_pager 2 48 ltac:(vm_compute; discriminate)) as (p & s & _ & Hok & Hroom).
  exists s, p. apply (btree_refines_map 6 example_ops s (TLeaf p [] 0) Hok example_ops_ok); [simpl; lia|exact Hroom].
Defined.

Lemma iterator_stops_at_first_empty_leaf_witness :
  exists (s : pstate) t s', (let! it := iterator 6 in iter_all 9 it) s =
      (Ok (entry_pair <$> shown (leaves t)), s') /\ tree_ok s' t /\
    (Forall (fun l => l.1.2 <> []) (leaves t) -> shown (leaves t) = tree_entries t).
Proof.
  destruct (new_tree_on_pager 2 48 ltac:(vm_compute; discriminate)) as (p & s & _ & Hok & _).
  exists s, (TLeaf p [] 0). apply (iterator_stops_at_first_empty_leaf 6 9 s (TLeaf p [] 0) Hok); simpl; lia.
Defined.
