(* ===== verification/TxBTree.v ===== *)
(** * The transactional B-tree ([src/src/core/tx_btree.rs])

    The copy-on-write tree that a transaction reads and writes through. The first write to a
    page of the snapshot goes to a new page; [cow_pages] redirects the readers of the same
    transaction, and the parents are updated where the code does so. The state is the page
    store, the write buffer of the transaction and the tree's own fields. The loops and
    recursions that follow pages take fuel; the recursion between [insert_into_parent] and
    [split_internal] is bounded by the path. [TxBTreeSpec.v] shows what the operations do. *)

From stdpp Require Import base list strings gmap.
From Stdlib Require Import NArith Lia.
From S2P Require Import Prelude Constants Bytes PageStore BTreeNode BTree.

Record TxBTree := mk_tx {
  snapshot_root : N;
  modified_root : N;
  cow_pages : gmap N N;
  new_pages : gmap N bool }.

Definition tx_new (root : N) : TxBTree := mk_tx root 0 ∅ ∅.

(** The pager, the write buffer shared with the transaction ([tx_writes]) and the tree. *)
Record txstate (S : Type) := mk_txstate { pager : S; tx_writes : gmap N (list byte); tree_ : TxBTree }.
Arguments mk_txstate {S} _ _ _.
Arguments pager {S} _.
Arguments tx_writes {S} _.
Arguments tree_ {S} _.

Record TxBTreeIterator := mk_iter {
  current_leaf : option BTreeNode;
  index : nat;
  started : bool }.

(** [get_current_root]. *)
Definition current_root (t : TxBTree) : N :=
  if (modified_root t =? 0)%N then snapshot_root t else modified_root t.

Section txbtree.
Context {S : Type} `{!PageStore S}.
Notation M := (ST (txstate S) Error).

Definition on_pager {A} (m : ST S Error A) : M A := fun s =>
  let '(r, p) := m (pager s) in (r, mk_txstate p (tx_writes s) (tree_ s)).

Definition set_tree (f : TxBTree -> TxBTree) : M unit :=
  st_modify (fun s => mk_txstate (pager s) (tx_writes s) (f (tree_ s))).

Definition buffer_write (p : N) (d : list byte) : M unit :=
  st_modify (fun s => mk_txstate (pager s) (<[p := d]> (tx_writes s)) (tree_ s)).

Definition out_of_fuel {A} : M A := st_lift OutOfFuel.

Definition of_index {A} (x : option A) : M A := st_lift (of_option Panic x).

Definition get_current_root : M N := st_get (fun s => current_root (tree_ s)).

Definition get_cow_pages : M (gmap N N) := st_get (fun s => cow_pages (tree_ s)).

Definition get_new_pages : M (gmap N bool) := st_get (fun s => new_pages (tree_ s)).

Definition read_node (p : N) : M BTreeNode :=
  let! actual_page := st_get (fun s => default p (cow_pages (tree_ s) !! p)) in
  let! write := st_get (fun s => tx_writes s !! actual_page) in
  let! data := match write with Some d => st_ret d | None => on_pager (ps_read actual_page) end in
  st_lift (deserialize_node actual_page data).

(** The fields after the first write to page [p] went to page [q]. *)
Definition copied (p q : N) (t : TxBTree) : TxBTree :=
  mk_tx (snapshot_root t) (if (p =? current_root t)%N then q else modified_root t)
    (<[p := q]> (cow_pages t)) (<[q := true]> (new_pages t)).

Definition with_new (q : N) (t : TxBTree) : TxBTree :=
  mk_tx (snapshot_root t) (modified_root t) (cow_pages t) (<[q := true]> (new_pages t)).

Definition write_node (node : BTreeNode) : M N :=
  let p := page_num node in
  let! t := st_get tree_ in
  let! target :=
    if new_pages t !! p then st_ret p else
    match cow_pages t !! p with
    | Some existing_cow => st_ret existing_cow
    | None =>
      let! new_page := on_pager (if (p =? current_root t)%N then ps_alloc_min (current_root t) else ps_alloc) in
      let! _ := set_tree (copied p new_page) in
      st_ret new_page
    end in
  let! data := of_index (serialize_node_into (with_page target node) (replicate PAGE_SIZE Byte.x00)) in
  let! _ := buffer_write target data in
  let! _ := on_pager (ps_write target data) in
  st_ret target.

(** [create_empty], on a state whose tree is not yet used. *)
Definition create_empty : M unit :=
  let! root := on_pager ps_alloc in
  let! _ := set_tree (fun _ => with_new root (tx_new root)) in
  let! _ := write_node (new_leaf root) in
  st_ret tt.

(** ** Descending *)

(** The index and the [unwrap] of the code panic on a node with too few children. *)
Definition find_child (node : BTreeNode) (k : string) : option N :=
  let i := child_index k (keys node) in
  if decide (i < length (keys node)) then children node !! i else last (children node).

Fixpoint find_leaf (fuel : nat) (node : BTreeNode) (k : string) (path : list N) : M (BTreeNode * list N) :=
  if decide (node_type node = LeafNode) then st_ret (node, path) else
  match fuel with
  | 0 => out_of_fuel
  | Datatypes.S fuel =>
    let! child_page := of_index (find_child node k) in
    let! node := read_node child_page in
    find_leaf fuel node k (vec_push path child_page)
  end.

Fixpoint search_loop (fuel : nat) (node : BTreeNode) (k : string) : M N :=
  if decide (node_type node = LeafNode) then
    st_lift (of_option (Err (DocumentNotFound "" k)) (entry_value k (entries node)))
  else
  match fuel with
  | 0 => out_of_fuel
  | Datatypes.S fuel =>
    let! child_page := of_index (find_child node k) in
    let! node := read_node child_page in
    search_loop fuel node k
  end.

Definition search (fuel : nat) (k : string) : M N :=
  let! root := get_current_root in
  let! node := read_node root in
  search_loop fuel node k.

(** ** Walks over the tree *)

(** [for x in l { if f(x)? { return Ok(true) } } Ok(false)]. *)
Fixpoint st_any {A} (f : A -> M bool) (l : list A) : M bool :=
  match l with
  | [] => st_ret false
  | x :: l => let! b := f x in if b : bool then st_ret true else st_any f l
  end.

(** [for x in l { if let Some(r) = f(x) { return Some(r) } } None]. *)
Fixpoint st_first {A B} (f : A -> M (option B)) (l : list A) : M (option B) :=
  match l with
  | [] => st_ret None
  | x :: l => let! r := f x in match r with Some r => st_ret (Some r) | None => st_first f l end
  end.

Fixpoint has_prefix_in_node (fuel : nat) (p : N) (pre : string) : M bool :=
  if (p =? 0)%N then st_ret false else
  let! node := read_node p in
  if decide (node_type node = LeafNode) then
    st_ret (existsb (fun e => String.prefix pre (key e)) (entries node))
  else
  match fuel with
  | 0 => out_of_fuel
  | Datatypes.S fuel => st_any (fun child_page => has_prefix_in_node fuel child_page pre) (children node)
  end.

Definition has_prefix (fuel : nat) (pre : string) : M bool :=
  let! root := get_current_root in has_prefix_in_node fuel root pre.

Fixpoint is_page_in_tree (fuel : nat) (node : BTreeNode) (target : N) : M bool :=
  if (page_num node =? target)%N then st_ret true else
  if decide (node_type node = LeafNode) then st_ret false else
  match fuel with
  | 0 => out_of_fuel
  | Datatypes.S fuel =>
    st_any (fun child_page =>
      let! child := st_ok (read_node child_page) in
      match child with
      | Some child => is_page_in_tree fuel child target
      | None => st_ret false
      end) (children node)
  end.

(** [s1 > s2] on strings. *)
Definition str_gtb (a b : string) : bool := String.ltb b a.

Fixpoint find_next_leaf_by_key (fuel : nat) (node : BTreeNode) (k : string) : M (option N) :=
  if decide (node_type node = LeafNode) then
    st_ret (match entries node with
            | first_entry :: _ => if str_gtb (key first_entry) k then Some (page_num node) else None
            | [] => None
            end)
  else
  match fuel with
  | 0 => out_of_fuel
  | Datatypes.S fuel =>
    let visit child_page :=
      let! child := st_ok (read_node child_page) in
      match child with
      | Some child => find_next_leaf_by_key fuel child k
      | None => st_ret None
      end in
    let i := child_index k (keys node) in
    if decide (i < length (keys node)) then st_first visit (drop i (children node))
    else let! child_page := of_index (last (children node)) in visit child_page
  end.

Definition find_correct_next_leaf (fuel : nat) (root leaf : BTreeNode) : M (option N) :=
  match last (entries leaf) with
  | None => st_ret None
  | Some last_entry => find_next_leaf_by_key fuel root (key last_entry)
  end.

(** The path to a leaf by its page; an unreadable child ends the search below its parent
    ([ok()?]). *)
Fixpoint find_any_leaf_path (fuel : nat) (node : BTreeNode) (target_leaf : N) (path : list N) : M (option (list N)) :=
  if decide (node_type node = LeafNode) then
    st_ret (if (page_num node =? target_leaf)%N then Some path else None)
  else
  match fuel with
  | 0 => out_of_fuel
  | Datatypes.S fuel =>
    (fix visit (cs : list N) : M (option (list N)) :=
      match cs with
      | [] => st_ret None
      | child_page :: cs =>
        let path := vec_push path child_page in
        let! child := st_ok (read_node child_page) in
        match child with
        | None => st_ret None
        | Some child =>
          let! result := find_any_leaf_path fuel child target_leaf path in
          match result with Some result => st_ret (Some result) | None => visit cs end
        end
      end) (children node)
  end.

(** ** Updating the ancestors *)

(** The loop of [update_path_after_modification] from the last parent to the first. *)
Fixpoint update_path (steps : list (N * N)) : M unit :=
  match steps with
  | [] => st_ret tt
  | (parent_page, old_child_page) :: steps =>
    let! parent := read_node parent_page in
    let! new_child_page := st_get (fun s => cow_pages (tree_ s) !! old_child_page) in
    let! _ :=
      match new_child_page with
      | Some new_child =>
        if decide (old_child_page ∈ children parent)
        then let! _ := write_node (with_children (replace_child old_child_page new_child (children parent)) parent) in
             st_ret tt
        else st_ret tt
      | None => st_ret tt
      end in
    update_path steps
  end.

Definition update_path_after_modification (path : list N) : M unit :=
  if decide (length path <= 1) then st_ret tt
  else update_path (reverse (zip path (tail path))).

(** ** Inserting *)

(** The loop over the entries: an equal key gets the value, the first larger key is pushed
    aside, otherwise the entry goes to the end. *)
Fixpoint upsert_entry (x : LeafEntry) (es : list LeafEntry) : list LeafEntry :=
  match es with
  | [] => [x]
  | e :: es =>
    match String.compare (key e) (key x) with
    | Eq => mk_entry (key e) (value x) :: es
    | Gt => x :: e :: es
    | Lt => e :: upsert_entry x es
    end
  end.

Definition create_new_root (left : N) (k : string) (right : N) : M unit :=
  let! root := get_current_root in
  let! new_root_page := on_pager (ps_alloc_min root) in
  let! _ := set_tree (with_new new_root_page) in
  let! actual_root_page := write_node (mk_node new_root_page InternalNode 1 0 [] 0 [k] [left; right]) in
  set_tree (fun t => mk_tx (snapshot_root t) actual_root_page (cow_pages t) (new_pages t)).

(** [insert_into_parent]; [split] is [split_internal]. *)
Definition insert_into_parent (split : BTreeNode -> list N -> M unit)
    (parent : BTreeNode) (k : string) (right_child : N) (path : list N) : M unit :=
  let insert_pos := child_index k (keys parent) in
  let! ks := of_index (vec_insert insert_pos k (keys parent)) in
  let! cs := of_index (vec_insert (insert_pos + 1) right_child (children parent)) in
  let parent := mk_node (page_num parent) (node_type parent) (wrap_u16 (N.of_nat (length ks)))
    (BTreeNode.parent parent) (entries parent) (next_leaf parent) ks cs in
  if decide (BTREE_ORDER < length ks) then split parent path else
  let! _ := write_node parent in
  update_path_after_modification path.

(** [split_internal]; [promote] is its last part, which it shares with [split_leaf]. The pages
    that [write_node] returns are dropped: the node keeps the page it was read from. *)
Definition split_internal (promote : N -> string -> N -> list N -> M unit)
    (node : BTreeNode) (path : list N) : M unit :=
  let mid := length (keys node) / 2 in
  let! new_node_page := on_pager ps_alloc in
  let! _ := set_tree (with_new new_node_page) in
  let! promote_key := of_index (keys node !! mid) in
  let! '(ks, new_keys) := of_index (split_off (mid + 1) (keys node)) in
  let! '(cs, new_children) := of_index (split_off (mid + 1) (children node)) in
  let ks := from_option snd [] (vec_pop ks) in
  let node := mk_node (page_num node) (node_type node) (wrap_u16 (N.of_nat (length ks))) (parent node)
    (entries node) (next_leaf node) ks cs in
  let! _ := write_node node in
  let! _ := write_node (mk_node new_node_page InternalNode (wrap_u16 (N.of_nat (length new_keys))) 0
    [] 0 new_keys new_children) in
  promote (page_num node) promote_key new_node_page path.

(** The common last part of [split_leaf] and [split_internal]: a new root above the root, or
    the separator goes to the parent. The fuel is the length of the path. *)
Fixpoint promote (fuel : nat) (left_page : N) (k : string) (right_page : N) (path : list N) : M unit :=
  match fuel with
  | 0 => out_of_fuel
  | Datatypes.S fuel =>
    if decide (length path = 1) then create_new_root left_page k right_page else
    let! parent_page := of_index (path !! (length path - 2)) in
    let! parent := read_node parent_page in
    let! old_page := of_index (path !! (length path - 1)) in
    let parent := if (old_page =? left_page)%N then parent
      else with_children (replace_child old_page left_page (children parent)) parent in
    insert_into_parent (split_internal (promote fuel)) parent k right_page
      (from_option snd [] (vec_pop path))
  end.

Definition split_leaf (leaf : BTreeNode) (path : list N) : M unit :=
  let mid := length (entries leaf) / 2 in
  let! right_page := on_pager ps_alloc in
  let! _ := set_tree (with_new right_page) in
  let! cow := get_cow_pages in
  let next_page := if (next_leaf leaf =? 0)%N then 0%N else default (next_leaf leaf) (cow !! next_leaf leaf) in
  let! '(es, right_entries) := of_index (split_off mid (entries leaf)) in
  let right := mk_node right_page LeafNode (wrap_u16 (N.of_nat (length right_entries))) 0
    right_entries next_page [] [] in
  let leaf := mk_node (page_num leaf) (node_type leaf) (wrap_u16 (N.of_nat (length es))) (parent leaf)
    es right_page (keys leaf) (children leaf) in
  let! e := of_index (right_entries !! 0) in
  let! actual_left_page := write_node leaf in
  let! actual_right_page := write_node right in
  promote (length path) actual_left_page (key e) actual_right_page path.

Definition with_next (p : N) (n : BTreeNode) : BTreeNode :=
  mk_node (page_num n) (node_type n) (num_keys n) (parent n) (entries n) p (keys n) (children n).

(** The inner loop that finds the first leaf; an internal node without children panics. *)
Fixpoint first_leaf (fuel : nat) (node : BTreeNode) : M BTreeNode :=
  if decide (node_type node = LeafNode) then st_ret node else
  match fuel with
  | 0 => out_of_fuel
  | Datatypes.S fuel =>
    let! first_child := of_index (children node !! 0) in
    let! node := read_node first_child in
    first_leaf fuel node
  end.

(** The loop over the chain of leaves. *)
Fixpoint update_chain (fuel steps : nat) (root_page : N) (root : BTreeNode) (old_page new_page : N)
    (current_page : N) : M unit :=
  match steps with
  | 0 => out_of_fuel
  | Datatypes.S steps =>
    let! leaf := read_node current_page in
    if (next_leaf leaf =? old_page)%N then
      let old_pred_page := page_num leaf in
      let! path := find_any_leaf_path fuel root old_pred_page [root_page] in
      match path with
      | None => st_fail (Corruption "BTree" old_pred_page "Could not find predecessor path before COW")
      | Some pred_path =>
        let! new_pred_page := write_node (with_next new_page leaf) in
        if (new_pred_page =? old_pred_page)%N then st_ret tt
        else update_path_after_modification pred_path
      end
    else if (next_leaf leaf =? 0)%N then st_ret tt
    else update_chain fuel steps root_page root old_page new_page (next_leaf leaf)
  end.

Definition update_predecessor_next_leaf (fuel : nat) (old_page new_page : N) : M unit :=
  let! root_page := get_current_root in
  let! root := read_node root_page in
  let! current_page :=
    if decide (node_type root = LeafNode) then st_ret root_page
    else let! node := first_leaf fuel root in st_ret (page_num node) in
  update_chain fuel fuel root_page root old_page new_page current_page.

(** The check of [leaf.next_leaf] before the leaf is written. *)
Definition correct_next (fuel : nat) (leaf : BTreeNode) : M BTreeNode :=
  if (next_leaf leaf =? 0)%N then st_ret leaf else
  let! root_page := get_current_root in
  let! root := read_node root_page in
  if decide (node_type root = LeafNode) then st_ret leaf else
  let! next_leaf_in_tree := is_page_in_tree fuel root (next_leaf leaf) in
  if next_leaf_in_tree : bool then st_ret leaf else
  let! correct_next := find_correct_next_leaf fuel root leaf in
  st_ret (match correct_next with Some p => with_next p leaf | None => leaf end).

Definition insert (fuel : nat) (k : string) (v : N) : M unit :=
  let! root := get_current_root in
  let! node := read_node root in
  let! '(leaf, path) := find_leaf fuel node k [root] in
  let leaf := with_entries (upsert_entry (mk_entry k v) (entries leaf)) leaf in
  if decide (BTREE_ORDER < length (entries leaf)) then split_leaf leaf path else
  let! leaf := correct_next fuel leaf in
  let! actual_page := write_node leaf in
  let! _ := if (actual_page =? page_num leaf)%N then st_ret None
    else st_ok (update_predecessor_next_leaf fuel (page_num leaf) actual_page) in
  update_path_after_modification path.

(** ** Updating and deleting *)
Definition update (fuel : nat) (k : string) (v : N) : M unit :=
  let! root := get_current_root in
  let! node := read_node root in
  let! '(leaf, path) := find_leaf fuel node k [root] in
  match update_entry (mk_entry k v) (entries leaf) with
  | None => st_fail (DocumentNotFound "" k)
  | Some es =>
    let leaf := mk_node (page_num leaf) (node_type leaf) (num_keys leaf) (parent leaf) es (next_leaf leaf)
      (keys leaf) (children leaf) in
    let! _ := write_node leaf in
    update_path_after_modification path
  end.

Definition delete (fuel : nat) (k : string) : M unit :=
  let! root := get_current_root in
  let! node := read_node root in
  let! '(leaf, path) := find_leaf fuel node k [root] in
  let es := filter (fun e => key e <> k) (entries leaf) in
  if decide (length es = length (entries leaf)) then st_fail (DocumentNotFound "" k) else
  let! _ := write_node (with_entries es leaf) in
  update_path_after_modification path.

(** ** The iterator *)
Fixpoint leftmost (fuel : nat) (node : BTreeNode) : M BTreeNode :=
  if decide (node_type node = LeafNode) then st_ret node else
  match fuel with
  | 0 => out_of_fuel
  | Datatypes.S fuel =>
    match children node with
    | [] => st_fail (Other "internal node has no children")
    | c :: _ => let! node := read_node c in leftmost fuel node
    end
  end.

Definition iterator (fuel : nat) : M TxBTreeIterator :=
  let! root := get_current_root in
  let! node := read_node root in
  let! leaf := leftmost fuel node in
  st_ret (mk_iter (Some leaf) 0 false).

(** The leaf after [current] by its last key. *)
Definition next_by_key (fuel : nat) (root current : BTreeNode) : M (option BTreeNode) :=
  match last (entries current) with
  | None => st_ret None
  | Some last_entry =>
    let! page := find_next_leaf_by_key fuel root (key last_entry) in
    match page with Some page => st_ok (read_node page) | None => st_ret None end
  end.

Definition iter_next (fuel : nat) (it : TxBTreeIterator) : M (bool * TxBTreeIterator) :=
  match current_leaf it with
  | None => st_ret (false, it)
  | Some current =>
    if started it then
      let it := mk_iter (Some current) (index it + 1) true in
      if decide (length (entries current) <= index it) then
        let! next_leaf_result :=
          if (next_leaf current =? 0)%N then st_ret None else st_ok (read_node (next_leaf current)) in
        let! root_page := get_current_root in
        let! root := st_ok (read_node root_page) in
        match root with
        | None => st_ret (false, it)
        | Some root =>
          let! next :=
            match next_leaf_result with
            | Some leaf =>
              let! b := is_page_in_tree fuel root (page_num leaf) in
              if b : bool then st_ret (Some leaf) else next_by_key fuel root current
            | None => next_by_key fuel root current
            end in
          st_ret (match next with
                  | Some next => (bool_decide (0 < length (entries next)), mk_iter (Some next) 0 true)
                  | None => (false, it)
                  end)
        end
      else st_ret (true, it)
    else st_ret (bool_decide (0 < length (entries current)), mk_iter (Some current) (index it) true)
  end.

(** [entry], [None] standing for the [unwrap] of a missing leaf. *)
Definition iter_entry (it : TxBTreeIterator) : option (string * N) :=
  match current_leaf it with
  | None => None
  | Some current =>
    Some (match entries current !! index it with Some e => (key e, value e) | None => (EmptyString, 0%N) end)
  end.
End txbtree.
