(* ===== verification/TxBTreeSpec.v ===== *)
(** * What the transactional B-tree does ([src/src/core/tx_btree.rs])

    The pages of the abstract tree are the pages as the transaction found or allocated them;
    [phys] is the page that holds the node now, after the copies the transaction made. A node
    may still point to a page that was copied: [denotes] says which pointers stand for which
    page, and [D] bounds the pointers to copied pages that are left in the tree. With [D]
    empty the tree can be read without the transaction's redirections. *)

From stdpp Require Import base list strings gmap sorting.
From Stdlib Require Import NArith Lia.
From S2P Require Import Prelude Constants Bytes PageStore BTreeNode BTree BTreeSpec TxBTree.

(** *** Every page but the root is the child of one node *)
Definition kids (l : list (N * BTreeNode)) : list N := concat ((fun x => children x.2) <$> l).

Lemma kids_app l1 l2 : kids (l1 ++ l2) = kids l1 ++ kids l2.
Proof. unfold kids. by rewrite fmap_app, concat_app. Qed.

#[global] Instance kids_proper : Proper ((≡ₚ) ==> (≡ₚ)) kids.
Proof. intros l l' H. unfold kids. by rewrite H. Qed.

Lemma kids_nodes t : kids (nodes t) ++ [tpage t] ≡ₚ (nodes t).*1.
Proof.
  induction t as [p es nx|p ks ts IH] using tree_ind_nested; [done|].
  cbn [nodes]. change (kids ((tpage (TNode p ks ts), node_of (TNode p ks ts)) :: concat (nodes <$> ts)))
    with ((tpage <$> ts) ++ kids (concat (nodes <$> ts))).
  rewrite fmap_cons, (Permutation_app_comm _ [_]). cbn [fst app tpage]. apply Permutation_skip.
  induction IH as [|t ts Ht IH' IH]; [done|].
  cbn [fmap list_fmap concat]. rewrite kids_app, fmap_app, <-Ht.
  change (list_fmap tree (list (N * BTreeNode)) nodes ts) with (nodes <$> ts) in *.
  change (list_fmap tree N tpage ts) with (tpage <$> ts). rewrite <-IH. solve_Permutation.
Qed.

Lemma child_once t p n l c :
  nodes t ≡ₚ (p, n) :: l -> NoDup (nodes t).*1 -> c ∈ children n -> c ∉ kids l.
Proof.
  intros Hp Hn Hc Hin. rewrite <-kids_nodes, Hp in Hn. apply NoDup_app in Hn as [Hn _].
  change (kids ((p, n) :: l)) with (children n ++ kids l) in Hn.
  apply NoDup_app in Hn as (_ & Hd & _). by apply (Hd c).
Qed.

Lemma root_no_child t : NoDup (nodes t).*1 -> tpage t ∉ kids (nodes t).
Proof. rewrite <-kids_nodes. intros (_ & Hd & _)%NoDup_app Hin. apply (Hd _ Hin). by left. Qed.

Lemma kids_elem l x c : x ∈ l -> c ∈ children x.2 -> c ∈ kids l.
Proof.
  intros Hx Hc. unfold kids. apply list_elem_of_In, in_concat. exists (children x.2).
  split; apply list_elem_of_In; [|done]. by apply (list_elem_of_fmap_2 (fun x => children x.2)).
Qed.

Lemma deserialize_page q d n : deserialize_node q d = Ok n -> page_num n = q.
Proof.
  unfold deserialize_node, obind. intros H. repeat (case_match; simplify_eq; try done).
Qed.

Definition leaf_pages (t : tree) : list N := (fun l => l.1.1) <$> leaves t.

(** *** The first leaf after a key *)
Fixpoint first_after (k : string) (ls : list (N * list LeafEntry * N)) : option N :=
  match ls with
  | [] => None
  | (p, es, _) :: ls =>
    match es with
    | e :: _ => if str_gtb (key e) k then Some p else first_after k ls
    | [] => first_after k ls
    end
  end.

Definition first_some {A} (l : list (option A)) : option A := head (omap id l).

Lemma first_after_app k l1 l2 :
  first_after k (l1 ++ l2) = match first_after k l1 with Some p => Some p | None => first_after k l2 end.
Proof. induction l1 as [|[[p [|e es]] nx] l1 IH]; simpl; [done|done|]. by destruct (str_gtb (key e) k). Qed.

Lemma first_after_concat k lss : first_after k (concat lss) = first_some (first_after k <$> lss).
Proof.
  induction lss as [|ls lss IH]; [done|]. cbn [concat fmap list_fmap]. rewrite first_after_app, IH. unfold first_some.
  simpl. by destruct (first_after k ls).
Qed.

Lemma first_after_Some k ls q :
  first_after k ls = Some q -> exists e es nx, (q, e :: es, nx) ∈ ls /\ str_lt k (key e).
Proof.
  induction ls as [|[[p [|e es]] nx] ls IH]; simpl; [done|..].
  - intros H. destruct (IH H) as (e & es & nx' & Hin & He). exists e, es, nx'. split; [by right|done].
  - unfold str_gtb. destruct (String.ltb k (key e)) eqn:Hlt.
    + intros [= ->]. exists e, es, nx. split; [by left|]. by apply str_ltb_lt.
    + intros H. destruct (IH H) as (e' & es' & nx' & Hin & He). exists e', es', nx'. split; [by right|done].
Qed.

Lemma first_after_None k ls :
  (forall e es p nx, (p, e :: es, nx) ∈ ls -> ~ str_lt k (key e)) -> first_after k ls = None.
Proof.
  intros H. destruct (first_after k ls) as [q|] eqn:Hq; [|done].
  destruct (first_after_Some _ _ _ Hq) as (e & es & nx & Hin & He). by destruct (H e es q nx Hin).
Qed.

Lemma leaf_entry_mark t p es nx e :
  Forall node_wf (nodes t) -> (p, es, nx) ∈ leaves t -> e ∈ es -> Ent e ∈ marks t.
Proof.
  intros Hwf Hin He. assert (e ∈ tree_entries t) as Ht.
  { rewrite tree_entries_leaves by done. apply list_elem_of_In, in_concat. exists es.
    split; apply list_elem_of_In; [|done]. by apply (list_elem_of_fmap_2 (fun l => l.1.2) _ (p, es, nx)). }
  apply list_elem_of_omap in Ht as ([k|e'] & Hm & Heq); simplify_eq/=. done.
Qed.

Lemma before_lt ms ks m x :
  StronglySorted mark_lt (before ms ks) -> length ms = length ks -> m ∈ ms -> x ∈ m -> exists k, k ∈ ks /\ mark_lt x (Sep k).
Proof.
  revert ks. induction ms as [|m' ms IH]; intros [|k ks] Hs Hl Hm Hx; try done; [by apply elem_of_nil in Hm|].
  simpl in Hs. apply elem_of_cons in Hm as [->|Hm].
  - exists k. split; [by left|]. apply (StronglySorted_app_1_elem_of _ _ _ x (Sep k) Hs); [done|by left].
  - apply StronglySorted_app_1_r, StronglySorted_inv in Hs as [Hs _].
    destruct (IH ks Hs) as (k' & Hk & Hlt); [by injection Hl|done|done|]. exists k'. split; [by right|done].
Qed.

(** The leaves on both sides of a leaf lie on both sides of its marks. *)
Lemma before_elem ms ks m x : length ms = length ks -> m ∈ ms -> x ∈ m -> x ∈ before ms ks.
Proof.
  revert ks. induction ms as [|m' ms IH]; intros [|k ks] Hl Hm Hx; try done; [by apply elem_of_nil in Hm|].
  simpl. apply elem_of_app. apply elem_of_cons in Hm as [->|Hm]; [by left|right; right].
  apply IH; [by injection Hl|done|done].
Qed.

Lemma ctx_leaves1_marks fs t q es nx e :
  Forall frame_ok fs -> Forall node_wf (nodes (plug fs t)) -> (q, es, nx) ∈ ctx_leaves1 fs -> e ∈ es ->
  Ent e ∈ ctx_before fs.
Proof.
  intros Hf. revert t. induction Hf as [|f fs [H1 H2] Hf IH]; intros t Hwf Hin He; [by apply elem_of_nil in Hin|].
  simpl in Hin |- *. apply elem_of_app in Hin as [Hin|Hin]; apply elem_of_app.
  - left. by apply (IH (plug1 f t)).
  - right. apply list_elem_of_In, in_concat in Hin as (l & Hl & Hin). apply list_elem_of_In, list_elem_of_fmap in Hl as (u & -> & Hu).
    eapply (before_elem _ _ (marks u)); [by rewrite length_fmap|by apply list_elem_of_fmap_2|].
    eapply leaf_entry_mark; [|by apply list_elem_of_In|done]. cbn [plug] in Hwf. rewrite nodes_plug in Hwf.
    apply Forall_app in Hwf as [_ Hwf]. eapply wf_child, Hwf. apply elem_of_app. by left.
Qed.

Lemma last_key_max es z e :
  StronglySorted mark_lt (Ent <$> es) -> last es = Some z -> e ∈ es -> ~ str_lt (key z) (key e).
Proof.
  intros Hs Hz He. apply last_Some in Hz as (es' & ->). rewrite fmap_app in Hs.
  apply elem_of_app in He as [He| ->%list_elem_of_singleton]; [|apply str_lt_irrefl]. apply str_lt_le.
  apply (StronglySorted_app_1_elem_of _ _ _ (Ent e) (Ent z) Hs); [by apply list_elem_of_fmap_2|by left].
Qed.

Lemma str_not_between a b : str_lt a b -> str_lt b a -> False.
Proof. intros H1 H2. by apply (str_lt_le a b). Qed.

Section spec.
Context {St : Type} `{!PageStore St} `{!PageStoreLaws St}.
Implicit Types (s : txstate St) (t : tree) (fs : list frame) (D : N -> Prop) (B : nat).

Definition cow s : gmap N N := cow_pages (tree_ s).

(** The pages the transaction has allocated. *)
Definition own s (q : N) : Prop := is_Some (new_pages (tree_ s) !! q).

Definition used s (q : N) : Prop := ps_used (pager s) q.

Definition phys s (p : N) : N := default p (cow s !! p).

Definition denotes s (r p : N) : Prop := r = p \/ cow s !! p = Some r.

(** Page [q] holds [d], for the other readers of the pager and for the transaction. *)
Definition holds_page s (q : N) (d : list byte) : Prop :=
  used s q /\ ps_view (pager s) q = Some d /\ forall d', tx_writes s !! q = Some d' -> d' = d.

Record sane s : Prop := {
  sa_inv : ps_inv (pager s);
  sa_cow p q : cow s !! p = Some q -> own s q /\ ~ own s p /\ used s p /\ q <> 0%N /\ p <> 0%N;
  sa_inj p1 p2 q : cow s !! p1 = Some q -> cow s !! p2 = Some q -> p1 = p2;
  sa_own q : own s q -> used s q }.

(** Node [n] with its own page and links. *)
Definition relinked (q nx : N) (raw : list N) (n : BTreeNode) : BTreeNode :=
  mk_node q (node_type n) (num_keys n) (parent n) (entries n) nx (keys n) raw.

Definition next_ok (n : BTreeNode) (nx : N) : Prop :=
  match node_type n with LeafNode => (nx < 2 ^ 64)%N | InternalNode => nx = 0%N end.

Definition clean_in D s (raw : list N) : Prop := forall c, c ∈ raw -> is_Some (cow s !! c) -> D c.

(** Page [p] of the tree holds [n], with the pointers [raw] and the next leaf [nx]. *)
Definition node_raw D s (p : N) (n : BTreeNode) (nx : N) (raw : list N) : Prop :=
  next_ok n nx /\ Forall2 (denotes s) raw (children n) /\ clean_in D s raw /\
  exists d, holds_page s (phys s p) d /\ deserialize_node (phys s p) d = Ok (relinked (phys s p) nx raw n).

Definition node_at D s (p : N) (n : BTreeNode) : Prop := exists nx raw, node_raw D s p n nx raw.

(** *** Reading *)

(** A step that changes nothing but the pager's cache. *)
Record calm s s' : Prop := {
  ca_tree : tree_ s' = tree_ s;
  ca_writes : tx_writes s' = tx_writes s;
  ca_inv : ps_inv (pager s');
  ca_view q : ps_view (pager s') q = ps_view (pager s) q;
  ca_used q : ps_used (pager s') q <-> ps_used (pager s) q;
  ca_room n : ps_room (pager s) n -> ps_room (pager s') n }.

Lemma tx_calm_refl s : ps_inv (pager s) -> calm s s.
Proof. by split. Qed.

Lemma tx_calm_trans s1 s2 s3 : calm s1 s2 -> calm s2 s3 -> calm s1 s3.
Proof.
  intros [H1 H2 H3 H4 H5 H6] [G1 G2 G3 G4 G5 G6].
  split; [congruence|congruence|done|by intros q; rewrite G4|by intros q; rewrite G5|auto].
Qed.

Lemma calm_cow s s' : calm s s' -> cow s' = cow s.
Proof. unfold cow. by intros [-> _]. Qed.

Lemma calm_phys s s' : calm s s' -> phys s' = phys s.
Proof. intros H. unfold phys. by rewrite (calm_cow _ _ H). Qed.

Lemma calm_own s s' q : calm s s' -> own s' q <-> own s q.
Proof. unfold own. by intros [-> _]. Qed.

Lemma calm_denotes s s' : calm s s' -> denotes s' = denotes s.
Proof. intros H. unfold denotes. by rewrite (calm_cow _ _ H). Qed.

Lemma calm_holds_page s s' q d : calm s s' -> holds_page s q d -> holds_page s' q d.
Proof. intros [_ Hw _ Hv Hu _] (H1 & H2 & H3). split_and!; [by apply Hu|by rewrite Hv|by rewrite Hw]. Qed.

Lemma calm_sane s s' : calm s s' -> sane s -> sane s'.
Proof.
  intros H [H1 H2 H3 H4]. split; [apply (ca_inv _ _ H)|..]; rewrite ?(calm_cow _ _ H).
  - intros p q Hp. rewrite !(calm_own _ _ _ H). unfold used. rewrite (ca_used _ _ H). by apply H2.
  - done.
  - intros q Hq. apply (ca_used _ _ H), H4, (calm_own _ _ _ H), Hq.
Qed.

Lemma calm_node_raw D s s' p n nx raw : calm s s' -> node_raw D s p n nx raw -> node_raw D s' p n nx raw.
Proof.
  intros H (H1 & H2 & H3 & d & Hd & Hn). unfold node_raw. rewrite (calm_denotes _ _ H), (calm_phys _ _ H).
  split_and!; [done|done| |].
  - intros c. rewrite (calm_cow _ _ H). apply H3.
  - exists d. split; [by eapply calm_holds_page|done].
Qed.

Lemma calm_node_at D s s' p n : calm s s' -> node_at D s p n -> node_at D s' p n.
Proof. intros H (nx & raw & Hn). exists nx, raw. by eapply calm_node_raw. Qed.

Lemma sane_cow_None s q : sane s -> own s q -> cow s !! q = None.
Proof.
  intros Hs Ho. destruct (cow s !! q) as [r|] eqn:Hr; [|done].
  by destruct (sa_cow _ Hs _ _ Hr) as (_ & ? & _).
Qed.

Lemma denotes_resolve s r p : sane s -> denotes s r p -> default r (cow s !! r) = phys s p.
Proof.
  intros Hs [->|Hr]; [done|]. unfold phys. rewrite Hr. simpl.
  by rewrite (sane_cow_None s r Hs (proj1 (sa_cow _ Hs _ _ Hr))).
Qed.

Lemma denotes_phys s p : denotes s (phys s p) p.
Proof. unfold phys, denotes. destruct (cow s !! p); [by right|by left]. Qed.

(** A pointer to a copied page is that page. *)
Lemma denotes_copied s r p : sane s -> denotes s r p -> is_Some (cow s !! r) -> r = p.
Proof.
  intros Hs [->|Hr] [q Hq]; [done|]. apply (sa_cow _ Hs) in Hr as [Ho _].
  by rewrite (sane_cow_None s r Hs Ho) in Hq.
Qed.

Lemma tx_read_page_spec s r d :
  sane s -> holds_page s (default r (cow s !! r)) d ->
  exists s', read_node r s = (deserialize_node (default r (cow s !! r)) d, s') /\ calm s s'.
Proof.
  intros Hs (Hu & Hv & Hw). unfold read_node. unfold st_bind at 1 2. unfold st_get at 1 2. fold (cow s).
  set (q := default r (cow s !! r)) in *. destruct (tx_writes s !! q) as [d'|] eqn:Hd.
  - rewrite (Hw d' eq_refl). exists s. split; [done|]. apply tx_calm_refl, Hs.
  - destruct (ps_read_law (pager s) q d (sa_inv _ Hs) Hu Hv) as (s1 & Hr & Hi & Hv1 & Hu1 & Hro).
    exists (mk_txstate s1 (tx_writes s) (tree_ s)). split; [|by split].
    unfold st_bind, on_pager. by rewrite Hr.
Qed.

Lemma tx_read_node_spec D s r p n nx raw :
  sane s -> denotes s r p -> node_raw D s p n nx raw ->
  exists s', read_node r s = (Ok (relinked (phys s p) nx raw n), s') /\ calm s s'.
Proof.
  intros Hs Hr (_ & _ & _ & d & Hd & Hn).
  destruct (tx_read_page_spec s r d Hs) as (s' & H & Hc); [by rewrite (denotes_resolve s r p)|].
  exists s'. split; [|done]. by rewrite H, (denotes_resolve s r p), Hn.
Qed.

(** *** Writing *)

(** What every step keeps: the pages in use, the transaction's own pages, and the contents of
    the pages of others. *)
Record later s s' : Prop := {
  la_used q : used s q -> used s' q;
  la_own q : own s q -> own s' q;
  la_new q : own s' q -> own s q \/ ~ used s q;
  la_frozen q : used s q -> ~ own s q ->
    ps_view (pager s') q = ps_view (pager s) q /\ tx_writes s' !! q = tx_writes s !! q }.

Lemma later_trans s1 s2 s3 : later s1 s2 -> later s2 s3 -> later s1 s3.
Proof.
  intros [H1 H2 H3 H4] [G1 G2 G3 G4]. split; [by auto..| |].
  - intros q [Hq|Hq]%G3; [by apply H3|]. right. by intros ?%H1.
  - intros q Hq Ho. destruct (H4 q Hq Ho) as [<- <-]. apply G4; [by apply H1|]. by intros [?|?]%H3.
Qed.

Lemma calm_later s s' : calm s s' -> later s s'.
Proof.
  intros H. split.
  - intros q. apply (ca_used _ _ H).
  - intros q. apply (calm_own _ _ _ H).
  - intros q. rewrite (calm_own _ _ _ H). by left.
  - intros q _ _. by rewrite (ca_view _ _ H), (ca_writes _ _ H).
Qed.

Lemma later_refl s : later s s.
Proof. split; [done|done|by left|done]. Qed.

(** Page [p] was written with the node [n], to a copy when it is a page of the snapshot. *)
Record rewrote (p : N) (n : BTreeNode) s s' : Prop := {
  rw_sane : sane s';
  rw_later : later s s';
  rw_page : exists d, holds_page s' (phys s' p) d /\ forall q, deserialize_node q d = Ok (with_page q n);
  rw_keep q d : q <> phys s p \/ ~ own s q -> holds_page s q d -> holds_page s' q d;
  rw_cow : (cow s' = cow s /\ own s (phys s p)) \/
    (~ own s p /\ phys s p = p /\ exists q, cow s' = <[p := q]> (cow s) /\ ~ used s q /\ q <> p);
  rw_nonzero : phys s' p <> 0%N;
  rw_root : current_root (tree_ s') =
    if decide (current_root (tree_ s) = phys s p) then phys s' p else current_root (tree_ s) }.

Lemma store_page_spec s q n :
  sane s -> own s q -> node_ok n ->
  exists s', (let! data := of_index (serialize_node_into (with_page q n) (replicate PAGE_SIZE Byte.x00)) in
      let! _ := buffer_write q data in let! _ := on_pager (ps_write q data) in st_ret q) s = (Ok q, s') /\
    sane s' /\ later s s' /\ tree_ s' = tree_ s /\
    (exists d, holds_page s' q d /\ forall pg, deserialize_node pg d = Ok (with_page pg n)) /\
    (forall r d, r <> q -> holds_page s r d -> holds_page s' r d) /\
    (forall m, ps_room (pager s) m -> ps_room (pager s') m).
Proof.
  intros Hs Ho Hn. destruct (node_roundtrip_lemma (with_page q n)) as (d & Hd & Hl & Hde); [by destruct n|].
  pose proof (sa_own _ Hs _ Ho) as Hu.
  destruct (ps_write_law (pager s) q d (sa_inv _ Hs) Hu Hl) as (s1 & Hw & Hi & Hv & Hu1 & Hro).
  exists (mk_txstate s1 (<[q := d]> (tx_writes s)) (tree_ s)). rewrite Hd.
  split; [unfold st_bind, of_index, st_lift, buffer_write, st_modify, on_pager; simpl; by rewrite Hw|].
  destruct Hs as [H1 H2 H3 H4].
  split_and!; [split|split| | | |done]; unfold cow, own, used, holds_page in *; simpl.
  - done.
  - intros p r Hp. rewrite Hu1. by apply H2.
  - done.
  - intros r Hr. apply Hu1. by apply H4.
  - intros r. by rewrite Hu1.
  - done.
  - by left.
  - intros r Hr Hro'. assert (r <> q) by (by intros ->). by rewrite Hv, decide_False, lookup_insert_ne.
  - done.
  - exists d. rewrite Hv, decide_True, lookup_insert_eq by done. split; [|by intros pg; rewrite Hde].
    split_and!; [by apply Hu1|done|by intros ? [= ->]].
  - intros r d' Hr (Hr1 & Hr2 & Hr3). rewrite Hv, decide_False, lookup_insert_ne by done.
    split; [by apply Hu1|done].
Qed.

(** The fields after an allocation. *)
Record allocated (q : N) s s' : Prop := {
  al_sane : sane s';
  al_later : later s s';
  al_cow : cow s' = cow s;
  al_own : own s' q;
  al_used : used s' q;
  al_fresh : ~ used s q;
  al_nonzero : q <> 0%N;
  al_keep r d : holds_page s r d -> holds_page s' r d;
  al_root : current_root (tree_ s') = current_root (tree_ s) }.

(** An allocated page and the fields [f] that make it the transaction's own. *)
Lemma alloc_page_spec (a : ST St Error N) s q p1 f :
  sane s -> a (pager s) = (Ok q, p1) -> ps_inv p1 -> ~ used s q -> ps_used p1 q -> q <> 0%N ->
  (forall r, used s r -> ps_used p1 r) -> (forall r, used s r -> ps_view p1 r = ps_view (pager s) r) ->
  new_pages (f q (tree_ s)) = <[q := true]> (new_pages (tree_ s)) ->
  let s1 := mk_txstate p1 (tx_writes s) (f q (tree_ s)) in
  (let! q := on_pager a in let! _ := set_tree (f q) in st_ret q) s = (Ok q, s1) /\ later s s1 /\
    own s1 q /\ (forall r d, holds_page s r d -> holds_page s1 r d) /\ (forall r, own s1 r -> used s1 r) /\
    (forall r, own s1 r <-> r = q \/ own s r).
Proof.
  intros Hs Ha Hi Hnu Hu H0 Hus Hv Hn s1.
  assert (forall r, own s1 r <-> r = q \/ own s r) as Ho.
  { intros r. unfold own, s1. simpl. rewrite Hn. destruct (decide (r = q)) as [->|Hr].
    - rewrite lookup_insert_eq. split; [by left|eauto].
    - rewrite lookup_insert_ne by done. split; [by right|by intros [?|?]]. }
  split_and!; [unfold st_bind, on_pager, set_tree, st_modify; by rewrite Ha|split| | | |done].
  - apply Hus.
  - intros r Hr. apply Ho. by right.
  - intros r [->|Hr]%Ho; [by right|by left].
  - intros r Hr _. by split; [apply Hv|].
  - apply Ho. by left.
  - intros r d (H1 & H2 & H3). split_and!; [by apply Hus| |done]. simpl. by rewrite Hv.
  - intros r [->|Hr]%Ho; [done|]. by apply Hus, (sa_own _ Hs).
Qed.

Lemma sane_with_new s s1 q :
  sane s -> ps_inv (pager s1) -> cow s1 = cow s -> later s s1 -> ~ used s q ->
  (forall r, own s1 r -> used s1 r) -> (forall r, own s1 r <-> r = q \/ own s r) -> sane s1.
Proof.
  intros Hs Hi Hc Hl Hnu Hou Ho. split; [done|rewrite Hc..|done].
  - intros p r Hp. destruct (sa_cow _ Hs _ _ Hp) as (H1 & H2 & H3 & H4 & H5). rewrite !Ho.
    split_and!; [by right| |by apply (la_used _ _ Hl)|done|done]. intros [->|?]; done.
  - apply (sa_inj _ Hs).
Qed.

Lemma alloc_spec s n :
  sane s -> ps_room (pager s) (Datatypes.S n) ->
  exists q s1 s', on_pager ps_alloc s = (Ok q, s1) /\ set_tree (with_new q) s1 = (Ok tt, s') /\
    allocated q s s' /\ ps_room (pager s') n.
Proof.
  intros Hs Hr. destruct (ps_alloc_law (pager s) n (sa_inv _ Hs) Hr) as (q & p1 & Ha & Hi & Hnu & Hu & H0 & Hus & Hv & Hr1).
  destruct (alloc_page_spec ps_alloc s q p1 with_new Hs Ha) as (_ & H2 & H3 & H4 & H5 & H6); [done..|].
  eexists q, _, _. split; [unfold on_pager; by rewrite Ha|]. split; [done|]. split; [|done].
  split; try done. by eapply (sane_with_new s).
Qed.

Lemma alloc_min_spec s n :
  sane s -> used s (current_root (tree_ s)) -> ps_room (pager s) (Datatypes.S n) ->
  exists q s1 s', on_pager (ps_alloc_min (current_root (tree_ s))) s = (Ok q, s1) /\
    set_tree (with_new q) s1 = (Ok tt, s') /\ allocated q s s' /\ ps_room (pager s') n.
Proof.
  intros Hs Hrt Hr.
  destruct (ps_alloc_min_law (pager s) _ n (sa_inv _ Hs) Hrt Hr) as (q & p1 & Ha & Hi & Hnu & Hu & H0 & _ & Hus & Hv & Hr1).
  destruct (alloc_page_spec _ s q p1 with_new Hs Ha) as (_ & H2 & H3 & H4 & H5 & H6); [done..|].
  eexists q, _, _. split; [unfold on_pager; by rewrite Ha|]. split; [done|]. split; [|done].
  split; try done. by eapply (sane_with_new s).
Qed.

(** The first write to a page of the snapshot allocates its copy. *)
Lemma copy_spec s p n :
  sane s -> used s p -> p <> 0%N -> ~ own s p -> cow s !! p = None -> ps_room (pager s) (Datatypes.S n) ->
  exists q s', (let! q := on_pager (if (p =? current_root (tree_ s))%N then ps_alloc_min (current_root (tree_ s)) else ps_alloc) in
      let! _ := set_tree (copied p q) in st_ret q) s = (Ok q, s') /\
    sane s' /\ later s s' /\ cow s' = <[p := q]> (cow s) /\ own s' q /\ ~ used s q /\ q <> 0%N /\
    (forall r d, holds_page s r d -> holds_page s' r d) /\
    current_root (tree_ s') = (if decide (current_root (tree_ s) = p) then q else current_root (tree_ s)) /\
    ps_room (pager s') n.
Proof.
  intros Hs Hp Hp0 Ho Hc Hr.
  assert (exists q p1, (if (p =? current_root (tree_ s))%N then ps_alloc_min (current_root (tree_ s)) else ps_alloc) (pager s) = (Ok q, p1) /\
    ps_inv p1 /\ ~ used s q /\ ps_used p1 q /\ q <> 0%N /\ (forall r, used s r -> ps_used p1 r) /\
    (forall r, used s r -> ps_view p1 r = ps_view (pager s) r) /\ ps_room p1 n)
    as (q & p1 & Ha & Hi & Hnu & Hu & H0 & Hus & Hv & Hr1).
  { case_match eqn:He.
    - apply N.eqb_eq in He. rewrite <-He.
      destruct (ps_alloc_min_law (pager s) p n (sa_inv _ Hs) Hp Hr) as (q & p1 & ? & ? & ? & ? & ? & ? & ?). exists q, p1. tauto.
    - destruct (ps_alloc_law (pager s) n (sa_inv _ Hs) Hr) as (q & p1 & ?). by exists q, p1. }
  destruct (alloc_page_spec _ s q p1 (copied p) Hs Ha) as (H1 & H2 & H3 & H4 & H5 & H6); [done..|].
  eexists q, _. split; [exact H1|].
  assert (cow (mk_txstate p1 (tx_writes s) (copied p q (tree_ s))) = <[p := q]> (cow s)) as Hcow by done.
  split_and!; try done.
  - split; [done|rewrite Hcow..|done].
    + intros a b. rewrite !H6. destruct (decide (a = p)) as [->|Ha'].
      * rewrite lookup_insert_eq. intros [= ->]. split_and!; [by left| |by apply Hus|done|done].
        intros [->|?]; done.
      * rewrite lookup_insert_ne by done. intros Hab. destruct (sa_cow _ Hs _ _ Hab) as (G1 & G2 & G3 & G4 & G5).
        split_and!; [by right| |by apply Hus|done|done]. intros [->|?]; done.
    + assert (forall a, cow s !! a = Some q -> False) as Hq.
      { intros a Haq. destruct (sa_cow _ Hs _ _ Haq) as (G1 & _). by apply Hnu, (sa_own _ Hs). }
      intros a b r. rewrite !lookup_insert_Some. intros [[<- <-]|[? G1]] [[<- G2]|[? G2]]; [done|by destruct (Hq b)|subst; by destruct (Hq a)|].
      by eapply (sa_inj _ Hs).
  - simpl. unfold copied, current_root at 1. simpl. fold (current_root (tree_ s)).
    destruct (N.eqb_spec p (current_root (tree_ s))) as [->|Hne].
    + rewrite decide_True by done. by destruct (N.eqb_spec q 0).
    + by rewrite decide_False by done.
Qed.

Lemma phys_own s p : sane s -> own s (phys s p) -> phys s p <> p -> cow s !! p = Some (phys s p).
Proof. unfold phys. by destruct (cow s !! p). Qed.

Lemma phys_not_own s p : sane s -> ~ own s (phys s p) -> phys s p = p /\ cow s !! p = None.
Proof.
  unfold phys. intros Hs Ho. destruct (cow s !! p) as [q|] eqn:Hq; [|done].
  by destruct (sa_cow _ Hs _ _ Hq) as [? _].
Qed.

Lemma tx_write_node_spec s p n m :
  sane s -> page_num n = phys s p -> used s (phys s p) -> phys s p <> 0%N -> node_ok n ->
  ps_room (pager s) (Datatypes.S m) ->
  exists s', write_node n s = (Ok (phys s' p), s') /\ rewrote p n s s' /\ ps_room (pager s') m.
Proof.
  intros Hs Hpn Hu H0 Hn Hroom. unfold write_node. rewrite Hpn. unfold st_bind at 1, st_get.
  destruct (decide (own s (phys s p))) as [Ho|Ho].
  - destruct Ho as [b Hb]. rewrite Hb. assert (own s (phys s p)) as Ho by (by exists b).
    destruct (store_page_spec s (phys s p) n Hs Ho Hn) as (s' & Hw & Hs' & Hl & Ht & Hpg & Hk & Hr).
    assert (cow s' = cow s) as Hcow by (unfold cow; by rewrite Ht).
    assert (phys s' p = phys s p) as Hph by (unfold phys; by rewrite Hcow).
    exists s'. rewrite Hph. split; [exact Hw|]. split; [|apply Hr; eapply ps_room_le; [done|lia]].
    split; rewrite ?Hph; try done.
    + intros q d [?|?] Hq; [by apply Hk|]. apply Hk; [|done]. by intros ->.
    + by left.
    + rewrite Ht. by case_decide.
  - destruct (phys_not_own s p Hs Ho) as [Hpp Hc]. rewrite Hpp in *.
    assert (new_pages (tree_ s) !! p = None) as -> by (destruct (new_pages (tree_ s) !! p) eqn:?; [destruct Ho; by eexists|done]).
    fold (cow s). rewrite Hc.
    destruct (copy_spec s p m Hs Hu H0 Ho Hc Hroom) as (q & s1 & Ha & Hs1 & Hl1 & Hcow & Hoq & Hnu & Hq0 & Hk1 & Hrt & Hr1).
    destruct (store_page_spec s1 q n Hs1 Hoq Hn) as (s' & Hw & Hs' & Hl & Ht & Hpg & Hk & Hr).
    assert (cow s' = <[p := q]> (cow s)) as Hcow' by (rewrite <-Hcow; unfold cow; by rewrite Ht).
    assert (phys s' p = q) as Hph by (unfold phys; by rewrite Hcow', lookup_insert_eq).
    exists s'. rewrite Hph. split; [|split; [|by apply Hr]].
    + rewrite (st_bind_ok _ _ _ _ _ Ha). exact Hw.
    + split; rewrite ?Hph; try done.
      * by eapply later_trans.
      * intros r d _ Hrd. apply Hk; [|by apply Hk1]. intros ->. by destruct Hrd as [? _].
      * right. split_and!; [done|done|]. exists q. split_and!; [done|done|by intros ->].
      * rewrite Ht, Hrt, Hpp. done.
Qed.
(** *** Nodes on distinct pages *)
Definition shaped (n : BTreeNode) : Prop :=
  n = leaf_node (page_num n) (entries n) (next_leaf n) \/ n = internal_node (page_num n) (keys n) (children n).

Lemma denotes_small s r p : sane s -> (p < 2 ^ 64)%N -> denotes s r p -> (r < 2 ^ 64)%N.
Proof.
  intros Hs Hp [->|Hr]; [done|]. apply (ps_used_small (pager s)); [by apply Hs|].
  apply (sa_own _ Hs). by destruct (sa_cow _ Hs _ _ Hr).
Qed.

Lemma relinked_ok s p q n nx raw :
  sane s -> shaped n -> node_wf (p, n) -> next_ok n nx -> Forall2 (denotes s) raw (children n) ->
  node_ok (relinked q nx raw n).
Proof.
  intros Hs [Hn|Hn] Hwf Hx Hr; rewrite Hn in Hwf, Hx, Hr |- *.
  - apply Forall2_nil_inv_r in Hr as ->. destruct Hwf as (H1 & H2 & _). by apply (leaf_node_ok q (entries n) nx).
  - unfold next_ok in Hx. simpl in Hx. subst nx. destruct Hwf as (H1 & H2 & H3 & H4). simpl in *.
    apply (internal_node_ok q (keys n) raw). pose proof (Forall2_length _ _ _ Hr) as Hl.
    split_and!; [done|by rewrite Hl|done|].
    eapply Forall2_Forall_l; [exact Hr|]. eapply Forall_impl; [exact H4|]. intros x Hx y. by apply denotes_small.
Qed.

(** [D] and the page [p] when it was copied. *)
Definition copied_in (p : N) s s' D : N -> Prop := fun x => D x \/ (x = p /\ phys s' p <> phys s p).

Lemma clean_in_weaken D1 D2 s raw : (forall x, D1 x -> D2 x) -> clean_in D1 s raw -> clean_in D2 s raw.
Proof. intros H Hc c Hin Hs. by apply H, Hc. Qed.

Lemma node_raw_weaken D1 D2 s p n nx raw :
  (forall x, D1 x -> D2 x) -> node_raw D1 s p n nx raw -> node_raw D2 s p n nx raw.
Proof. intros H (H1 & H2 & H3 & H4). split_and!; [done..|by eapply clean_in_weaken|done]. Qed.

Section rewrote.
Context (p : N) (n0 : BTreeNode) s s' (Hs : sane s) (Hw : rewrote p n0 s s').

Lemma rewrote_phys q : phys s q <> phys s p -> phys s' q = phys s q.
Proof.
  intros Hq. unfold phys. destruct (rw_cow _ _ _ _ Hw) as [[-> _]|(_ & _ & r & -> & _)]; [done|].
  rewrite lookup_insert_ne; [done|]. by intros ->.
Qed.

Lemma rewrote_denotes r x : denotes s r x -> denotes s' r x.
Proof.
  intros [->|Hr]; [by left|]. right.
  destruct (rw_cow _ _ _ _ Hw) as [[-> _]|(Ho & Hp & q & -> & _)]; [done|].
  rewrite lookup_insert_ne; [done|]. intros ->. unfold phys in Hp. rewrite Hr in Hp. simpl in Hp. subst r.
  by destruct (sa_cow _ Hs _ _ Hr) as [? _].
Qed.

Lemma rewrote_clean D raw : clean_in D s raw -> clean_in (copied_in p s s' D) s' raw.
Proof.
  intros Hc c Hin Hcow. destruct (rw_cow _ _ _ _ Hw) as [[He _]|(_ & Hp & q & He & _ & Hne)].
  - left. apply Hc; [done|by rewrite <-He].
  - destruct (decide (c = p)) as [->|Hcp].
    + right. split; [done|]. rewrite Hp. unfold phys. by rewrite He, lookup_insert_eq.
    + left. apply Hc; [done|]. by rewrite He, lookup_insert_ne in Hcow.
Qed.

Lemma rewrote_node_raw D q n nx raw :
  phys s q <> phys s p -> node_raw D s q n nx raw -> node_raw (copied_in p s s' D) s' q n nx raw.
Proof.
  intros Hq (H1 & H2 & H3 & d & Hd & Hn). split; [done|]. split; [|split].
  - eapply Forall2_impl; [exact H2|]. apply rewrote_denotes.
  - by apply rewrote_clean.
  - rewrite rewrote_phys by done. exists d. split; [|done]. apply (rw_keep _ _ _ _ Hw); [by left|done].
Qed.

Lemma rewrote_own_phys : own s' (phys s' p).
Proof.
  destruct (rw_cow _ _ _ _ Hw) as [[He Ho]|(Ho & Hp & q & He & _ & Hne)].
  - unfold phys. rewrite He. by apply (la_own _ _ (rw_later _ _ _ _ Hw)).
  - unfold phys. rewrite He, lookup_insert_eq. simpl.
    apply (sa_cow _ (rw_sane _ _ _ _ Hw) p). by rewrite He, lookup_insert_eq.
Qed.

Lemma rewrote_fresh : used s (phys s p) -> phys s' p = phys s p \/ ~ used s (phys s' p).
Proof.
  intros Hu. destruct (rw_cow _ _ _ _ Hw) as [[He _]|(_ & _ & q & He & Hq & _)]; unfold phys; rewrite He;
    [by left|rewrite lookup_insert_eq; by right].
Qed.
End rewrote.

(** A node that the next key of its children splits. *)
Definition full (n : BTreeNode) : Prop := node_type n = InternalNode /\ length (keys n) = BTREE_ORDER.

(** Without [loose], the full nodes are on pages of the transaction. *)
Context (loose : Prop).

Record stored D s (l : list (N * BTreeNode)) : Prop := {
  so_sane : sane s;
  so_holds : Forall (fun x => node_at D s x.1 x.2) l;
  so_nodup : NoDup (phys s <$> l.*1);
  so_zero : Forall (fun x => phys s x.1 <> 0%N) l;
  so_wf : Forall node_wf l;
  so_shape : Forall (fun x => shaped x.2) l;
  so_full : Forall (fun x => full x.2 -> loose \/ own s (phys s x.1)) l }.

#[global] Instance tx_stored_proper D s : Proper ((≡ₚ) ==> iff) (stored D s).
Proof.
  assert (forall l l' : list (N * BTreeNode), l ≡ₚ l' -> stored D s l -> stored D s l') as H.
  { intros l l' Hp [H1 H2 H3 H4 H5 H6 H7]. split; [done|by rewrite <-Hp..]. }
  intros l l' Hp. split; apply H; [done|by symmetry].
Qed.

Lemma tx_stored_app D s l1 l2 : stored D s (l1 ++ l2) -> stored D s l1 /\ stored D s l2.
Proof.
  intros [H1 H2 H3 H4 H5 H6 H7]. rewrite !fmap_app in H3.
  apply NoDup_app in H3 as (? & _ & ?). apply Forall_app in H2 as [? ?], H4 as [? ?], H5 as [? ?], H6 as [? ?], H7 as [? ?].
  by split; split.
Qed.

Lemma stored_weaken D1 D2 s l : (forall x, D1 x -> D2 x) -> stored D1 s l -> stored D2 s l.
Proof.
  intros H [H1 H2 H3 H4 H5 H6 H7]. split; try done. eapply Forall_impl; [exact H2|].
  intros x (nx & raw & Hn). exists nx, raw. by eapply node_raw_weaken.
Qed.

Lemma node_at_used D s p n : node_at D s p n -> used s (phys s p).
Proof. by intros (nx & raw & _ & _ & _ & d & (? & _) & _). Qed.

Lemma tx_stored_cons D s p n l : stored D s ((p, n) :: l) ->
  stored D s l /\ phys s p ∉ phys s <$> l.*1 /\ used s (phys s p) /\ phys s p <> 0%N /\ node_at D s p n.
Proof.
  intros [H1 H2 H3 H4 H5 H6 H7]. apply Forall_cons in H2 as [H2 ?], H4 as [? ?], H5 as [? ?], H6 as [? ?], H7 as [? ?].
  rewrite !fmap_cons in H3. apply NoDup_cons in H3 as [? ?]. split; [by split|]. split_and!; try done. by eapply node_at_used.
Qed.

Lemma tx_stored_calm D s s' l : stored D s l -> calm s s' -> stored D s' l.
Proof.
  intros [H1 H2 H3 H4 H5 H6 H7] Hc. split; [by eapply calm_sane| | | |done|done|].
  - eapply Forall_impl; [exact H2|]. intros x. by apply calm_node_at.
  - by rewrite (calm_phys _ _ Hc).
  - eapply Forall_impl; [exact H4|]. intros x. by rewrite (calm_phys _ _ Hc).
  - eapply Forall_impl; [exact H7|]. intros x. by rewrite (calm_phys _ _ Hc), (calm_own _ _ _ Hc).
Qed.

Lemma tx_stored_used D s l p : stored D s l -> p ∈ l.*1 -> used s (phys s p).
Proof.
  intros Hst (x & -> & Hx)%list_elem_of_fmap. pose proof (so_holds _ _ _ Hst) as H.
  rewrite Forall_forall in H. by eapply node_at_used, H.
Qed.

(** Writing a node to a page that the rest does not use. *)
Lemma put_stored D s p n nx raw l m :
  stored D s l -> phys s p ∉ phys s <$> l.*1 -> used s (phys s p) -> phys s p <> 0%N ->
  shaped n -> node_wf (p, n) -> next_ok n nx -> Forall2 (denotes s) raw (children n) -> clean_in D s raw ->
  ps_room (pager s) (Datatypes.S m) ->
  exists s', write_node (relinked (phys s p) nx raw n) s = (Ok (phys s' p), s') /\
    rewrote p (relinked (phys s p) nx raw n) s s' /\ ps_room (pager s') m /\
    node_raw (copied_in p s s' D) s' p n nx raw /\ stored (copied_in p s s' D) s' ((p, n) :: l).
Proof.
  intros Hst Hp Hu H0 Hsh Hwf Hnx Hraw Hcl Hroom. pose proof (so_sane _ _ _ Hst) as Hs.
  destruct (tx_write_node_spec s p (relinked (phys s p) nx raw n) m Hs eq_refl Hu H0) as (s' & Hw & Hrw & Hr);
    [by eapply relinked_ok|done|].
  assert (forall x, x ∈ l -> phys s x.1 <> phys s p) as Hne.
  { intros x Hx He. apply Hp. rewrite <-He. by do 2 apply list_elem_of_fmap_2. }
  assert (forall x, x ∈ l -> phys s' x.1 = phys s x.1) as Hph by (intros x Hx; eapply rewrote_phys; [done|by apply Hne]).
  assert (node_raw (copied_in p s s' D) s' p n nx raw) as Hnr.
  { split_and!; [done| |by eapply rewrote_clean|].
    - eapply Forall2_impl; [exact Hraw|]. by apply (rewrote_denotes p _ s s' Hs Hrw).
    - destruct (rw_page _ _ _ _ Hrw) as (d & Hd & Hde). exists d. split; [done|]. by rewrite Hde. }
  exists s'. split_and!; [done..|]. destruct Hst as [_ H2 H3 H4 H5 H6 H7]. split.
  - apply Hrw.
  - constructor; [by exists nx, raw|]. rewrite Forall_forall in H2 |- *. intros x Hx.
    destruct (H2 x Hx) as (nx' & raw' & Hn'). exists nx', raw'. by eapply rewrote_node_raw, Hn'; [..|apply Hne].
  - rewrite !fmap_cons. cbn [fst]. assert (phys s' <$> l.*1 = phys s <$> l.*1) as Hl.
    { rewrite <-!list_fmap_compose. apply list_fmap_ext. intros i x Hx. apply Hph. by eapply list_elem_of_lookup_2. }
    constructor; [|by rewrite Hl]. rewrite Hl.
    destruct (rewrote_fresh p _ s s' Hrw Hu) as [->|Hnu]; [done|].
    intros Hin. apply Hnu. rewrite <-list_fmap_compose in Hin. apply list_elem_of_fmap in Hin as (x & Hx & Hin).
    simpl in Hx. rewrite Hx. rewrite Forall_forall in H2. by eapply node_at_used, H2.
  - constructor; [by apply (rw_nonzero _ _ _ _ Hrw)|]. rewrite Forall_forall in H4 |- *. intros x Hx.
    rewrite Hph by done. by apply H4.
  - by constructor.
  - by constructor.
  - constructor; [intros _; right; by eapply rewrote_own_phys|]. rewrite Forall_forall in H7 |- *. intros x Hx Hfull.
    rewrite Hph by done. destruct (H7 x Hx Hfull) as [?|?]; [by left|right]. by apply (la_own _ _ (rw_later _ _ _ _ Hrw)).
Qed.

Lemma tx_rewrite_stored D s p n0 n nx raw l m :
  stored D s ((p, n0) :: l) ->
  shaped n -> node_wf (p, n) -> next_ok n nx -> Forall2 (denotes s) raw (children n) -> clean_in D s raw ->
  ps_room (pager s) (Datatypes.S m) ->
  exists s', write_node (relinked (phys s p) nx raw n) s = (Ok (phys s' p), s') /\
    rewrote p (relinked (phys s p) nx raw n) s s' /\ ps_room (pager s') m /\
    node_raw (copied_in p s s' D) s' p n nx raw /\ stored (copied_in p s s' D) s' ((p, n) :: l).
Proof.
  intros Hst. apply tx_stored_cons in Hst as (Hs & Hp & Hu & H0 & _). by apply put_stored.
Qed.

(** *** The links between leaves

    [F] are the pages of leaves, of the tree and of earlier versions of it, and [rank] decreases
    along their links: the walk over the chain ends. *)
Record linked B s (F : N -> Prop) (rank : N -> nat) : Prop := {
  li_page q : F q -> exists d n, holds_page s q d /\ deserialize_node q d = Ok n /\
    node_type n = LeafNode /\ (next_leaf n = 0%N \/ F (next_leaf n) /\ rank (next_leaf n) < rank q);
  li_cow p q : F p -> cow s !! p = Some q -> F q /\ rank q = rank p;
  li_bound q : F q -> rank q < B }.

(** The leaves of the tree, from left to right. *)
Definition ordered s (F : N -> Prop) (rank : N -> nat) (ps : list N) : Prop :=
  Forall (fun p => F (phys s p)) ps /\ StronglySorted (fun a b => rank (phys s b) < rank (phys s a)) ps.

Definition links_ok B s (ps : list N) : Prop := exists F rank, linked B s F rank /\ ordered s F rank ps.

Lemma linked_used {B} s F rank q : linked B s F rank -> F q -> used s q.
Proof. intros H Hq. by destruct (li_page _ _ _ _ H q Hq) as (d & n & (? & _) & _). Qed.

Lemma linked_keep {B} s s' F rank :
  cow s' = cow s -> (forall r d, holds_page s r d -> holds_page s' r d) -> linked B s F rank -> linked B s' F rank.
Proof.
  intros Hc Hk [H1 H2 H3]. split; [|by rewrite Hc|done]. intros q Hq.
  destruct (H1 q Hq) as (d & n & Hd & ?). exists d, n. split; [by apply Hk|done].
Qed.

Lemma links_ok_keep {B} s s' ps :
  cow s' = cow s -> (forall r d, holds_page s r d -> holds_page s' r d) -> links_ok B s ps -> links_ok B s' ps.
Proof.
  intros Hc Hk (F & rank & Hl & Ho). exists F, rank. split; [by eapply linked_keep|].
  unfold ordered, phys in *. by rewrite Hc.
Qed.

Lemma links_ok_calm {B} s s' ps : calm s s' -> links_ok B s ps -> links_ok B s' ps.
Proof. intros Hc. apply links_ok_keep; [by apply calm_cow|]. intros r d. by apply calm_holds_page. Qed.

Lemma ordered_ext s s' F F' (rank rank' : N -> nat) ps :
  (forall p, p ∈ ps -> F (phys s p) -> F' (phys s' p)) ->
  (forall p, p ∈ ps -> F (phys s p) -> rank' (phys s' p) = rank (phys s p)) ->
  ordered s F rank ps -> ordered s' F' rank' ps.
Proof.
  intros HF Hr [H1 H2]. induction ps as [|p ps IH]; [by split; constructor|].
  apply Forall_cons in H1 as [Hp H1]. apply StronglySorted_inv in H2 as [H2 H3].
  destruct IH as [G1 G2]; [intros; apply HF; [by right|done]|intros; apply Hr; [by right|done]|done|done|].
  split; constructor; [apply HF; [by left|done]|done|done|].
  rewrite Forall_forall in H1, H3 |- *. intros q Hq. rewrite !Hr; [by apply H3|by left|done|by right|by apply H1].
Qed.

(** Writing a page that holds no leaf. *)
Lemma linked_other {B} p n s s' F rank ps :
  rewrote p n s s' -> linked B s F rank -> ordered s F rank ps -> ~ F (phys s p) ->
  linked B s' F rank /\ ordered s' F rank ps.
Proof.
  intros Hw Hl Ho Hn.
  assert (forall q, F (phys s q) -> phys s' q = phys s q) as Hph.
  { intros q Hq. eapply rewrote_phys; [done|]. by intros He; rewrite He in Hq. }
  split.
  - split.
    + intros q Hq. destruct (li_page _ _ _ _ Hl q Hq) as (d & m & Hd & ?). exists d, m.
      split; [|done]. apply (rw_keep _ _ _ _ Hw); [|done]. left. by intros ->.
    + intros a b Ha. destruct (rw_cow _ _ _ _ Hw) as [[-> _]|(_ & Hp & q & -> & _)]; [by apply (li_cow _ _ _ _ Hl)|].
      rewrite lookup_insert_ne; [by apply (li_cow _ _ _ _ Hl)|]. intros ->. by rewrite Hp in Hn.
    + apply (li_bound _ _ _ _ Hl).
  - eapply ordered_ext; [| |exact Ho]; intros q _ Hq; rewrite Hph by done; done.
Qed.

Lemma links_ok_internal {B} p n s s' ps :
  rewrote p n s s' -> links_ok B s ps ->
  (forall F rank, linked B s F rank -> ~ F (phys s p)) -> links_ok B s' ps.
Proof. intros Hw (F & rank & Hl & Ho) Hn. exists F, rank. eapply linked_other; eauto. Qed.

Lemma internal_no_leaf {B} D s p n :
  node_at D s p n -> node_type n = InternalNode -> forall F rank, linked B s F rank -> ~ F (phys s p).
Proof.
  intros (nx & raw & _ & _ & _ & d & (_ & Hv & _) & Hd) Ht F rank Hl HF.
  destruct (li_page _ _ _ _ Hl _ HF) as (d' & n' & (_ & Hv' & _) & Hd' & Ht' & _). simplify_eq.
  by rewrite Hd in Hd'; simplify_eq; simpl in *; congruence.
Qed.

Lemma fresh_no_leaf {B} s q : ~ used s q -> forall F rank, linked B s F rank -> ~ F q.
Proof. intros Hu F rank Hl HF. by eapply Hu, linked_used. Qed.

(** Writing a leaf whose next leaf is further down the chain. *)
Lemma linked_leaf {B} p n s s' F rank :
  sane s -> rewrote p n s s' -> used s (phys s p) -> linked B s F rank -> F (phys s p) -> node_type n = LeafNode ->
  (next_leaf n = 0%N \/ F (next_leaf n) /\ rank (next_leaf n) < rank (phys s p)) ->
  exists F' rank', linked B s' F' rank' /\ (forall q, F q -> F' q /\ rank' q = rank q) /\
    F' (phys s' p) /\ rank' (phys s' p) = rank (phys s p).
Proof.
  intros Hs Hw Hu Hl Hp Ht Hnx. destruct (rw_page _ _ _ _ Hw) as (d & Hd & Hde).
  destruct (rewrote_fresh p _ s s' Hw Hu) as [He|Hnu].
  - exists F, rank. rewrite He. split_and!; [split|done..].
    + intros q Hq. destruct (decide (q = phys s p)) as [->|Hne].
      * exists d, (with_page (phys s p) n). rewrite He in Hd. split_and!; [done..|]. exact Hnx.
      * destruct (li_page _ _ _ _ Hl q Hq) as (d' & m & Hd' & ?). exists d', m.
        split; [|done]. apply (rw_keep _ _ _ _ Hw); [by left|done].
    + intros a b Ha. destruct (rw_cow _ _ _ _ Hw) as [[-> _]|(Ho & Hpp & q & Hc & Hq & Hqp)]; [by apply (li_cow _ _ _ _ Hl)|].
      exfalso. apply Hqp. rewrite <-Hpp, <-He. unfold phys. by rewrite Hc, lookup_insert_eq.
    + apply (li_bound _ _ _ _ Hl).
  - set (q := phys s' p) in *.
    assert (forall r, F r -> r <> q) as Hne by (intros r Hr ->; by eapply Hnu, linked_used).
    assert (phys s p = p /\ cow s' = <[p := q]> (cow s) /\ ~ own s p) as (Hpp & Hcow & Hop).
    { destruct (rw_cow _ _ _ _ Hw) as [[He _]|(Ho & Hpp & q' & Hc & _)].
      - exfalso. apply Hnu. unfold q, phys. by rewrite He.
      - split_and!; [done| |done]. rewrite Hc. unfold q, phys. by rewrite Hc, lookup_insert_eq. }
    exists (fun r => F r \/ r = q), (fun r => if decide (r = q) then rank (phys s p) else rank r).
    split_and!; [split| |by right|by rewrite decide_True].
    + assert (forall nx, nx = 0%N \/ F nx /\ rank nx < rank (phys s p) ->
        nx = 0%N \/ (F nx \/ nx = q) /\ (if decide (nx = q) then rank (phys s p) else rank nx) < rank (phys s p)) as Hq.
      { intros nx [?|[? ?]]; [by left|right]. rewrite decide_False by (by apply Hne). auto. }
      intros r [Hr|Hr].
      * destruct (li_page _ _ _ _ Hl r Hr) as (d' & m & Hd' & Hdm & Hm & Hmx). exists d', m.
        split_and!; [|done|done|].
        -- apply (rw_keep _ _ _ _ Hw); [|done]. destruct (decide (r = phys s p)) as [->|]; [|by left].
           right. by rewrite Hpp.
        -- destruct Hmx as [?|[? ?]]; [by left|right]. rewrite !decide_False by (by apply Hne). auto.
      * rewrite Hr. exists d, (with_page q n). split_and!; [exact Hd|by rewrite Hde|exact Ht|].
        rewrite (decide_True (P := q = q)) by done. by apply Hq.
    + intros a b Ha. rewrite Hcow, lookup_insert_Some. intros [[<- <-]|[Hap Hab]].
      * split; [by right|]. rewrite decide_True by done. destruct Ha as [Ha|Ha]; [|by rewrite decide_True].
        rewrite decide_False by (by apply Hne). by rewrite Hpp.
      * destruct Ha as [Ha| ->].
        -- destruct (li_cow _ _ _ _ Hl a b Ha Hab) as [Hb He]. split; [by left|].
           by rewrite !decide_False by (by apply Hne).
        -- exfalso. destruct (sa_cow _ Hs _ _ Hab) as (_ & _ & Hu' & _). by apply Hnu.
    + intros r Hr. case_decide; [by apply (li_bound _ _ _ _ Hl)|]. destruct Hr; [by apply (li_bound _ _ _ _ Hl)|done].
    + intros r Hr. split; [by left|]. by rewrite decide_False by (by apply Hne).
Qed.

Lemma links_ok_leaf {B} p n s s' ps F rank :
  sane s -> rewrote p n s s' -> used s (phys s p) -> linked B s F rank -> ordered s F rank ps ->
  F (phys s p) -> node_type n = LeafNode -> (forall q, q ∈ ps -> phys s q = phys s p -> q = p) ->
  (next_leaf n = 0%N \/ F (next_leaf n) /\ rank (next_leaf n) < rank (phys s p)) -> 
  exists F' rank', linked B s' F' rank' /\ ordered s' F' rank' ps /\ (forall q, F q -> F' q /\ rank' q = rank q) /\
    F' (phys s' p) /\ rank' (phys s' p) = rank (phys s p).
Proof.
  intros Hs Hw Hu Hl Ho Hp Ht Hps Hnx.
  destruct (linked_leaf p n s s' F rank Hs Hw Hu Hl Hp Ht Hnx) as (F' & rank' & Hl' & Hext & Hp' & Hr').
  exists F', rank'. split_and!; [done| |done..]. eapply ordered_ext; [| |exact Ho]; intros q Hq HF.
  - destruct (decide (phys s q = phys s p)) as [He|He]; [by rewrite (Hps q Hq He)|].
    rewrite (rewrote_phys p n s s' Hw q He). by apply Hext.
  - destruct (decide (phys s q = phys s p)) as [He|He]; [by rewrite (Hps q Hq He)|].
    rewrite (rewrote_phys p n s s' Hw q He). by apply Hext.
Qed.

(** *** The tree of a transaction *)
Record tree_ok D B s t : Prop := {
  to_stored : stored D s (nodes t);
  to_root : current_root (tree_ s) = phys s (tpage t);
  to_sorted : StronglySorted mark_lt (marks t);
  to_links : links_ok B s (leaf_pages t) }.

Lemma tree_ok_calm {B} D s s' t : calm s s' -> tree_ok D B s t -> tree_ok D B s' t.
Proof.
  intros Hc [H1 H2 H3 H4]. split; [by eapply tx_stored_calm| |done|by eapply links_ok_calm].
  by rewrite (ca_tree _ _ Hc), (calm_phys _ _ Hc).
Qed.

Lemma stored_nodup D s l : stored D s l -> NoDup l.*1.
Proof. intros H. eapply NoDup_fmap_1, (so_nodup _ _ _ H). Qed.

Lemma stored_head D s t l : stored D s (nodes t ++ l) -> node_at D s (tpage t) (node_of t).
Proof.
  intros [H _]%tx_stored_app. pose proof (so_holds _ _ _ H) as Hh. rewrite Forall_forall in Hh.
  apply (Hh _ (nodes_head t)).
Qed.

Lemma stored_node D s l x : stored D s l -> x ∈ l -> node_at D s x.1 x.2.
Proof. intros H. pose proof (so_holds _ _ _ H) as Hh. rewrite Forall_forall in Hh. apply Hh. Qed.

Lemma node_in_child p ks ts t : t ∈ ts -> (tpage t, node_of t) ∈ nodes (TNode p ks ts).
Proof. intros Ht. eapply nodes_child; [done|]. apply nodes_head. Qed.

Lemma Forall2_denotes_child s raw ts i r :
  Forall2 (denotes s) raw (tpage <$> ts) -> raw !! i = Some r -> exists t, ts !! i = Some t /\ denotes s r (tpage t).
Proof.
  intros H Hi. destruct (Forall2_lookup_l _ _ _ _ _ H Hi) as (c & Hc & Hd).
  rewrite list_lookup_fmap in Hc. destruct (ts !! i) as [t|]; simplify_eq/=. by exists t.
Qed.

(** [find_child] picks the subtree around the key. *)
Lemma tx_find_child_spec s q nx raw p ks (ts : list tree) k :
  length ts = Datatypes.S (length ks) -> Forall2 (denotes s) raw (tpage <$> ts) ->
  exists f t r, plug1 f t = TNode p ks ts /\ f_page f = p /\ frame_ok f /\ t ∈ ts /\
    find_child (relinked q nx raw (node_of (TNode p ks ts))) k = Some r /\ r ∈ raw /\ denotes s r (tpage t) /\
    Forall (fun k' => ~ str_lt k k') (f_ks1 f) /\
    match f_ks2 f with [] => True | k' :: _ => str_lt k k' end.
Proof.
  intros Hl Hr. destruct (child_index_split k ks) as (ks1 & ks2 & -> & Hi & H1 & H2).
  rewrite length_app in Hl. pose proof (Forall2_length _ _ _ Hr) as Hlr. rewrite length_fmap in Hlr.
  destruct (lookup_lt_is_Some_2 raw (length ks1)) as [r Hlk]; [lia|].
  destruct (Forall2_denotes_child _ _ _ _ _ Hr Hlk) as (t & Ht & Hd).
  pose proof (take_drop_middle ts _ _ Ht) as Hts.
  exists (mk_frame p ks1 (take (length ks1) ts) ks2 (drop (S (length ks1)) ts)), t, r.
  unfold plug1, frame_ok. simpl. rewrite Hts, length_take, length_drop.
  split_and!; try done; try lia; [by eapply list_elem_of_lookup_2| |by eapply list_elem_of_lookup_2].
  unfold find_child. simpl. rewrite Hi, length_app. case_decide as Hlt; [done|].
  rewrite last_lookup. rewrite <-Hlk. f_equal. lia.
Qed.

Lemma tx_find_leaf_spec D fuel t fs s k path nx0 raw0 :
  height t <= fuel -> stored D s (nodes t) -> node_raw D s (tpage t) (node_of t) nx0 raw0 -> Forall frame_ok fs ->
  StronglySorted mark_lt (ctx_before fs ++ marks t ++ ctx_after fs) ->
  around k (ctx_before fs) (ctx_after fs) -> Forall2 (denotes s) path (ctx_path fs ++ [tpage t]) ->
  exists p es nx nx' fs' path' s',
    find_leaf fuel (relinked (phys s (tpage t)) nx0 raw0 (node_of t)) k path s =
      (Ok (relinked (phys s p) nx' [] (leaf_node p es nx), path'), s') /\
    plug fs' (TLeaf p es nx) = plug fs t /\ Forall frame_ok fs' /\
    around k (ctx_before fs') (ctx_after fs') /\ node_raw D s p (leaf_node p es nx) nx' [] /\
    Forall2 (denotes s) path' (ctx_path fs' ++ [p]) /\ calm s s'.
Proof.
  revert t fs s path nx0 raw0. induction fuel as [|fuel IH]; intros [p es nx|p ks ts] fs s path nx0 raw0 Hh Hst Hn Hok Hs Har Hpath;
    try (simpl in Hh; lia).
  1,2: pose proof Hn as (_ & Hraw & _); apply Forall2_nil_inv_r in Hraw as ->;
    exists p, es, nx, nx0, fs, path, s; split_and!; [done..|apply tx_calm_refl, Hst].
  pose proof (so_wf _ _ _ Hst) as [(_ & Hl & _) _]%Forall_cons. simpl in Hl. rewrite length_fmap in Hl.
  pose proof Hn as (_ & Hraw & _).
  destruct (tx_find_child_spec s (phys s p) nx0 raw0 p ks ts k Hl Hraw) as (f & t & r & Hpl & Hpg & Hf & Ht & Hfc & Hri & Hr & Hk1 & Hk2).
  destruct (stored_node _ _ _ _ Hst (node_in_child p ks ts t Ht)) as (nx1 & raw1 & Hn1). simpl in Hn1.
  destruct (tx_read_node_spec D s r _ _ _ _ (so_sane _ _ _ Hst) Hr Hn1) as (s1 & Hrd & Hc1).
  assert (height t <= fuel) as Hht. { pose proof (height_child t p ks ts Ht). lia. }
  assert (stored D s (nodes t)) as Hst'.
  { apply list_elem_of_split in Ht as (t1 & t2 & ->). cbn [nodes] in Hst. rewrite fmap_app, fmap_cons, concat_app in Hst.
    cbn [concat] in Hst. rewrite app_comm_cons in Hst. apply tx_stored_app in Hst as [_ Hst]. by apply tx_stored_app in Hst as [? _]. }
  destruct (IH t (f :: fs) s1 (vec_push path r) nx1 raw1)
    as (p' & es & nx & nx' & fs' & path' & s2 & H1 & H2 & H3 & H4 & H5 & H6 & H7).
  - done.
  - by eapply tx_stored_calm.
  - by eapply calm_node_raw.
  - by constructor.
  - rewrite <-Hpl in Hs. destruct Hf as [? ?]. unfold plug1 in Hs. simpl in Hs.
    rewrite fmap_app, fmap_cons, weave_split in Hs by (by rewrite length_fmap). simpl.
    by rewrite <-!app_assoc in *.
  - eapply around_frame; [done..| |done|done]. by rewrite Hpl.
  - rewrite (calm_denotes _ _ Hc1). unfold vec_push, ctx_path. rewrite fmap_cons, reverse_cons, Hpg.
    apply Forall2_app; [exact Hpath|]. by constructor.
  - rewrite (calm_phys _ _ Hc1), (calm_denotes _ _ Hc1) in *.
    exists p', es, nx, nx', fs', path', s2. split_and!; [|by rewrite H2; simpl; rewrite Hpl|done..| |done|by eapply tx_calm_trans].
    + unfold find_leaf; fold find_leaf. rewrite decide_False by done. unfold of_index, st_lift. unfold st_bind.
      change (tpage (TNode p ks ts)) with p. rewrite Hfc. cbn [of_option]. rewrite Hrd. exact H1.
    + destruct H5 as (G1 & G2 & G3 & d & G4 & G5). split_and!; [done|by constructor| |].
      * intros c ?%elem_of_nil. done.
      * rewrite (calm_phys _ _ Hc1) in *. exists d. split; [|done]. destruct G4 as (K1 & K2 & K3).
        split_and!; [by apply (ca_used _ _ Hc1)|by rewrite <-(ca_view _ _ Hc1)|by rewrite <-(ca_writes _ _ Hc1)].
Qed.

(** What the writes above the leaves keep for the tree with root page [r]. *)
Record climbs (r : N) s s' : Prop := {
  cl_later : later s s';
  cl_denotes a p : denotes s a p -> denotes s' a p;
  cl_root : current_root (tree_ s) = phys s r -> current_root (tree_ s') = phys s' r;
  cl_links B ps : links_ok B s ps -> links_ok B s' ps }.

Lemma climbs_calm r s s' : calm s s' -> climbs r s s'.
Proof.
  intros Hc. split; [by apply calm_later|by rewrite (calm_denotes _ _ Hc)| |intros B ps; by apply links_ok_calm].
  by rewrite (ca_tree _ _ Hc), (calm_phys _ _ Hc).
Qed.

Lemma climbs_trans r s1 s2 s3 : climbs r s1 s2 -> climbs r s2 s3 -> climbs r s1 s3.
Proof. intros [H1 H2 H3 H4] [G1 G2 G3 G4]. split; [by eapply later_trans|auto..]. Qed.

Lemma root_rewrote p n s s' r :
  rewrote p n s s' -> (phys s r = phys s p -> r = p) ->
  current_root (tree_ s) = phys s r -> current_root (tree_ s') = phys s' r.
Proof.
  intros Hw Hr He. rewrite (rw_root _ _ _ _ Hw), He. case_decide as Hd; [by rewrite (Hr Hd)|].
  by rewrite (rewrote_phys p n s s' Hw).
Qed.

Lemma stored_phys_inj D s l p q : stored D s l -> p ∈ l.*1 -> q ∈ l.*1 -> phys s p = phys s q -> p = q.
Proof.
  intros Hst (i & Hi)%list_elem_of_lookup (j & Hj)%list_elem_of_lookup He. pose proof (so_nodup _ _ _ Hst) as Hn.
  assert (i = j) as ->; [|congruence]. eapply NoDup_lookup; [exact Hn|by rewrite list_lookup_fmap, Hi|].
  by rewrite list_lookup_fmap, Hj, He.
Qed.

Lemma climbs_internal D s s' p n m l r :
  stored D s ((p, n) :: l) -> node_type n = InternalNode -> rewrote p m s s' -> r ∈ ((p, n) :: l).*1 ->
  climbs r s s'.
Proof.
  intros Hst Ht Hw Hr. pose proof (so_sane _ _ _ Hst) as Hs. split.
  - apply (rw_later _ _ _ _ Hw).
  - by apply (rewrote_denotes p m s s' Hs Hw).
  - eapply root_rewrote; [done|]. intros He. eapply stored_phys_inj; [exact Hst|done|by left|done].
  - intros B ps Hl. eapply links_ok_internal; [done..|]. eapply internal_no_leaf; [|done].
    by eapply (stored_node _ _ _ (p, n)), list_elem_of_here.
Qed.

(** The pointer that led to a page which was then copied is the page. *)
Lemma copied_denotes p m s s' r :
  rewrote p m s s' -> denotes s r p -> phys s' p <> phys s p -> r = p.
Proof.
  intros Hw Hr Hne. destruct (rw_cow _ _ _ _ Hw) as [[He _]|(Ho & Hp & _)].
  - by destruct Hne; unfold phys; rewrite He.
  - destruct Hr as [->|Hr]; [done|]. unfold phys in Hp. rewrite Hr in Hp. done.
Qed.

(** [D] and the pointer [c]. *)
Definition and_ D (c : N) : N -> Prop := fun x => D x \/ x = c.

Lemma stored_drop D s l c :
  stored (and_ D c) s l -> (is_Some (cow s !! c) -> c ∉ kids l) -> stored D s l.
Proof.
  intros Hst Hc. pose proof (so_sane _ _ _ Hst) as Hs. destruct Hst as [_ H2 H3 H4 H5 H6 H7]. split; try done.
  rewrite Forall_forall in H2 |- *. intros x Hx. destruct (H2 x Hx) as (nx & raw & G1 & G2 & G3 & G4).
  exists nx, raw. split_and!; [done..| |done]. intros a Ha Hcow. destruct (G3 a Ha Hcow) as [?|Hac]; [done|]. subst a.
  destruct (Hc Hcow). apply list_elem_of_lookup in Ha as (i & Hi).
  destruct (Forall2_lookup_l _ _ _ _ _ G2 Hi) as (y & Hy & Hd). apply (denotes_copied _ _ _ Hs) in Hd as ->; [|done].
  eapply kids_elem; [exact Hx|by eapply list_elem_of_lookup_2].
Qed.

Lemma replace_child_denotes s c q raw ys :
  sane s -> cow s !! c = Some q -> Forall2 (denotes s) raw ys -> Forall2 (denotes s) (replace_child c q raw) ys.
Proof.
  intros Hs Hc. induction 1 as [|r y raw ys Hr Hf IH]; [constructor|]. simpl.
  destruct (N.eqb_spec r c) as [->|Hne]; constructor; try done. rewrite <-(denotes_copied s c y) by (eauto). by right.
Qed.

Lemma replace_child_elem c q raw x :
  NoDup raw -> x ∈ replace_child c q raw -> x = q \/ (x ∈ raw /\ x <> c).
Proof.
  induction 1 as [|r raw Hr Hn IH]; simpl; [by intros ?%elem_of_nil|].
  destruct (N.eqb_spec r c) as [->|Hne]; intros [->|Hx]%elem_of_cons; [by left| |right; split; [by left|done]|].
  - right. split; [by right|]. by intros ->.
  - destruct (IH Hx) as [?|[? ?]]; [by left|right]. split; [by right|done].
Qed.

Lemma denotes_inj_nodup s raw ys : sane s -> Forall2 (denotes s) raw ys -> NoDup ys -> NoDup (phys s <$> ys) -> NoDup raw.
Proof.
  intros Hs H. induction H as [|r y raw ys Hr Hf IH]; [constructor|]. intros Hn Hn'. rewrite fmap_cons in Hn'.
  apply NoDup_cons in Hn as [_ Hn], Hn' as [Hy Hn']. constructor; [|by apply IH].
  intros Hin. apply Hy. apply list_elem_of_lookup in Hin as (i & Hi).
  destruct (Forall2_lookup_l _ _ _ _ _ Hf Hi) as (z & Hz & Hd).
  rewrite <-(denotes_resolve s r y), (denotes_resolve s r z) by done. apply list_elem_of_fmap_2. by eapply list_elem_of_lookup_2.
Qed.

Lemma relinked_children q nx raw raw' n :
  with_children raw' (relinked q nx raw n) = relinked q nx raw' n.
Proof. done. Qed.

(** One round of [update_path_after_modification]. *)
Lemma update_step_spec D s p n l rp c y r m steps :
  stored (and_ D c) s ((p, n) :: l) -> node_type n = InternalNode -> NoDup (kids ((p, n) :: l)) ->
  (forall z, z ∈ children n -> z ∈ ((p, n) :: l).*1) ->
  denotes s rp p -> denotes s c y -> y ∈ children n -> r ∈ ((p, n) :: l).*1 -> ps_room (pager s) (Datatypes.S m) ->
  exists s', update_path ((rp, c) :: steps) s = update_path steps s' /\
    stored (and_ D rp) s' ((p, n) :: l) /\ climbs r s s' /\ ps_room (pager s') m.
Proof.
  intros Hst Ht Hk Hkp Hrp Hc Hy Hr Hroom. pose proof (so_sane _ _ _ Hst) as Hs.
  destruct (stored_node _ _ _ _ Hst (list_elem_of_here _ _)) as (nx & raw & Hn). cbn [fst snd] in Hn.
  destruct (tx_read_node_spec _ s rp p n nx raw Hs Hrp Hn) as (s1 & Hrd & Hc1).
  cbn [update_path]. rewrite (st_bind_ok _ _ _ _ _ Hrd). unfold st_bind at 1, st_get.
  change (cow_pages (tree_ s1)) with (cow s1). rewrite (calm_cow _ _ Hc1).
  pose proof (tx_stored_calm _ _ _ _ Hst Hc1) as Hst1. pose proof (calm_node_raw _ _ _ _ _ _ _ Hc1 Hn) as Hn1.
  assert (ps_room (pager s1) m) as Hroom1 by (eapply ps_room_le; [by apply (ca_room _ _ Hc1)|lia]).
  change (kids ((p, n) :: l)) with (children n ++ kids l) in Hk. apply NoDup_app in Hk as (Hk1 & Hk2 & _).
  assert (is_Some (cow s1 !! c) -> c ∉ kids l) as Hcl.
  { rewrite (calm_cow _ _ Hc1). intros Hcow Hin. rewrite (denotes_copied _ _ _ Hs Hc Hcow) in Hin. by eapply Hk2. }
  assert (forall s2, calm s s2 -> stored D s1 ((p, n) :: l) -> stored (and_ D rp) s1 ((p, n) :: l)) as Hwk.
  { intros _ _. apply stored_weaken. by left. }
  destruct (cow s !! c) as [q|] eqn:Hq.
  2: { exists s1. split_and!; [done| |by apply climbs_calm|done]. eapply (Hwk s1); [done|].
    apply (stored_drop D s1 _ c); [done|]. rewrite (calm_cow _ _ Hc1), Hq. by intros [? ?]. }
  assert (c = y) as Hcy by (by apply (denotes_copied s c y)). rewrite <-Hcy in Hy. clear Hcy Hc.
  change (children (relinked (phys s p) nx raw n)) with raw.
  apply tx_stored_cons in Hst1 as (Hst1 & Hp1 & Hu1 & Hz1 & _). apply stored_drop in Hst1; [|done].
  assert (stored (and_ D c) s1 ((p, n) :: l)) as Hst1' by (by eapply tx_stored_calm).
  assert (node_wf (p, n) /\ shaped n) as [Hwf Hsh].
  { destruct Hst1' as [_ _ _ _ Hw Hh _]. by apply Forall_cons in Hw as [? _], Hh as [? _]. }
  destruct Hn1 as (G1 & G2 & G3 & G4).
  case_decide as Hin.
  - assert (NoDup raw) as Hnr.
    { eapply denotes_inj_nodup; [by eapply calm_sane|exact G2|done|].
      apply NoDup_fmap_2_strong; [|done]. intros a b Ha Hb He. eapply stored_phys_inj; [exact Hst1'|auto..]. }
    rewrite relinked_children, <-(calm_phys _ _ Hc1).
    assert (sane s1) as Hs1 by (by eapply calm_sane).
    destruct (put_stored D s1 p n nx (replace_child c q raw) l m Hst1) as (s2 & Hw & Hrw & Hr2 & _ & Hst2); try done.
    + apply replace_child_denotes; [done|by rewrite (calm_cow _ _ Hc1)|done].
    + intros a Ha Hcow. apply replace_child_elem in Ha as [->|[Ha Hne]]; [|by destruct (G3 a Ha Hcow)|done].
      exfalso. assert (own s1 q) as Ho. { apply (sa_cow _ Hs1 c). by rewrite (calm_cow _ _ Hc1). }
      rewrite (sane_cow_None s1 q Hs1 Ho) in Hcow. by destruct Hcow.
    + by apply (ca_room _ _ Hc1).
    + exists s2. split_and!; [|..|done].
      * unfold st_bind at 1. rewrite (st_bind_ok _ _ _ _ _ Hw). done.
      * eapply stored_weaken, Hst2. intros x [Hx|[-> Hx]]; [by left|right]. symmetry.
        eapply copied_denotes; [exact Hrw| |done]. by rewrite (calm_denotes _ _ Hc1).
      * eapply climbs_trans; [by apply climbs_calm|]. by eapply climbs_internal.
  - exists s1. split_and!; [done| |by apply climbs_calm|done]. apply (Hwk s1); [done|].
    destruct Hst1' as [K1 K2 K3 K4 K5 K6 K7]. split; try done. constructor; [|apply Hst1].
    exists nx, raw. split_and!; [done..| |done]. intros a Ha Hcow. destruct (G3 a Ha Hcow) as [?| ->]; [done|by destruct Hin].
Qed.

Lemma kids_nodup D s t : stored D s (nodes t) -> NoDup (kids (nodes t)).
Proof. intros Hst%stored_nodup. rewrite <-kids_nodes in Hst. by apply NoDup_app in Hst as [? _]. Qed.

Lemma kids_in_nodes t c : c ∈ kids (nodes t) -> c ∈ (nodes t).*1.
Proof. intros Hc. rewrite <-kids_nodes. apply elem_of_app. by left. Qed.

Lemma tpage_in_nodes t : tpage t ∈ (nodes t).*1.
Proof. apply (list_elem_of_fmap_2 fst _ (tpage t, node_of t)), nodes_head. Qed.

Lemma nodes_plug_parent f fs t :
  nodes (plug (f :: fs) t) ≡ₚ (f_page f, frame_node f (tpage t)) :: frame_nodes f ++ ctx_nodes fs (f_page f) ++ nodes t.
Proof. rewrite nodes_plug. cbn [ctx_nodes app]. by rewrite <-app_assoc. Qed.

Lemma steps_snoc (l : list N) a b :
  reverse (zip ((l ++ [a]) ++ [b]) (tail ((l ++ [a]) ++ [b]))) = (a, b) :: reverse (zip (l ++ [a]) (tail (l ++ [a]))).
Proof.
  rewrite <-reverse_snoc. f_equal. induction l as [|x l IH]; [done|].
  rewrite <-!app_comm_cons. cbn [tail]. destruct l as [|y l]; [done|].
  rewrite <-!app_comm_cons in *. cbn [tail zip zip_with] in *. by rewrite IH.
Qed.

Lemma tx_update_path_spec fs sub D s l c m :
  stored (and_ D c) s (nodes (plug fs sub)) -> Forall2 (denotes s) l (ctx_path fs) -> denotes s c (tpage sub) ->
  ps_room (pager s) (length fs + m) ->
  exists s', update_path_after_modification (l ++ [c]) s = (Ok tt, s') /\
    stored D s' (nodes (plug fs sub)) /\ climbs (tpage (plug fs sub)) s s' /\ ps_room (pager s') m.
Proof.
  intros Hst Hl Hc Hroom.
  assert (exists s', update_path (reverse (zip (l ++ [c]) (tail (l ++ [c])))) s = (Ok tt, s') /\
    stored D s' (nodes (plug fs sub)) /\ climbs (tpage (plug fs sub)) s s' /\ ps_room (pager s') m) as (s' & H & Hs').
  2: { exists s'. split; [|done]. unfold update_path_after_modification. case_decide as Hlen; [|done].
    destruct l as [|x l]; [|rewrite length_app in Hlen; simpl in Hlen; lia]. exact H. }
  revert sub s l c Hst Hl Hc Hroom. induction fs as [|f fs IH]; intros sub s l c Hst Hl Hc Hroom.
  - apply Forall2_nil_inv_r in Hl as ->. exists s. split; [done|]. cbn [plug] in *. split_and!; [|by apply climbs_calm, tx_calm_refl, Hst|done].
    apply (stored_drop D s _ c); [done|]. intros Hcow. rewrite (denotes_copied s c (tpage sub)) by (done || apply Hst).
    apply root_no_child. by eapply stored_nodup.
  - unfold ctx_path in Hl. rewrite fmap_cons, reverse_cons in Hl. apply Forall2_app_inv_r in Hl as (l' & lr & Hl' & Hr & ->).
    apply Forall2_cons_inv_r in Hr as (rp & lr' & Hrp & Hnil & ->). apply Forall2_nil_inv_r in Hnil as ->.
    pose proof (kids_nodup _ _ _ Hst) as Hk. pose proof Hst as Hst0. 
    assert (forall z, z ∈ children (frame_node f (tpage sub)) ->
      z ∈ ((f_page f, frame_node f (tpage sub)) :: frame_nodes f ++ ctx_nodes fs (f_page f) ++ nodes sub).*1) as Hz.
    { intros z Hz. rewrite <-nodes_plug_parent. apply kids_in_nodes. rewrite nodes_plug_parent.
      eapply kids_elem; [by left|done]. }
    assert (tpage (plug (f :: fs) sub) ∈ ((f_page f, frame_node f (tpage sub)) :: frame_nodes f ++ ctx_nodes fs (f_page f) ++ nodes sub).*1) as Hroot.
    { rewrite <-nodes_plug_parent. apply tpage_in_nodes. }
    rewrite nodes_plug_parent in Hst, Hk. rewrite steps_snoc.
    destruct (update_step_spec D s _ _ _ rp c (tpage sub) (tpage (plug (f :: fs) sub)) (length fs + m) (reverse (zip (l' ++ [rp]) (tail (l' ++ [rp])))) Hst)
      as (s1 & Hrun & Hst1 & Hcl1 & Hr1); [done..| |exact Hroot|done|].
    { simpl. apply elem_of_app. right. by left. }
    rewrite <-nodes_plug_parent in Hst1.
    destruct (IH (plug1 f sub) s1 l' rp Hst1) as (s2 & Hrun2 & Hst2 & Hcl2 & Hr2).
    + eapply Forall2_impl; [exact Hl'|]. apply (cl_denotes _ _ _ Hcl1).
    + by apply (cl_denotes _ _ _ Hcl1).
    + done.
    + exists s2. split_and!; [|done|by eapply climbs_trans|done]. by rewrite Hrun.
Qed.

(** *** Finding the leaf of a key *)
Lemma tx_tree_find_leaf {B} D s t fuel k :
  tree_ok D B s t -> height t <= fuel ->
  exists p es nx nx' fs l c s', (let! root := get_current_root in let! node := read_node root in
      find_leaf fuel node k [root]) s = (Ok (relinked (phys s' p) nx' [] (leaf_node p es nx), l ++ [c]), s') /\
    t = plug fs (TLeaf p es nx) /\ Forall frame_ok fs /\ around k (ctx_before fs) (ctx_after fs) /\
    calm s s' /\ tree_ok D B s' t /\ node_raw D s' p (leaf_node p es nx) nx' [] /\
    Forall2 (denotes s') l (ctx_path fs) /\ denotes s' c p.
Proof.
  intros Hok Hh. pose proof Hok as [Hst Hr Hso Hl]. pose proof (so_sane _ _ _ Hst) as Hs.
  destruct (stored_node _ _ _ _ Hst (nodes_head t)) as (nx0 & raw0 & Hn0). cbn [fst snd] in Hn0.
  destruct (tx_read_node_spec D s (phys s (tpage t)) (tpage t) _ _ _ Hs (denotes_phys _ _) Hn0) as (s1 & Hrd & Hc1).
  destruct (tx_find_leaf_spec D fuel t [] s1 k [phys s (tpage t)] nx0 raw0)
    as (p & es & nx & nx' & fs & path & s2 & Hf & Hpl & Hfr & Har & Hn & Hpath & Hc2).
  - done.
  - by eapply tx_stored_calm.
  - by eapply calm_node_raw.
  - done.
  - simpl. by rewrite app_nil_r.
  - by split; intros y ?%elem_of_nil.
  - rewrite (calm_denotes _ _ Hc1). constructor; [apply denotes_phys|constructor].
  - assert (calm s s2) as Hc by (by eapply tx_calm_trans).
    apply Forall2_app_inv_r in Hpath as (l & lc & Hl' & Hcc & ->).
    apply Forall2_cons_inv_r in Hcc as (c & lc' & Hcp & Hnil & ->). apply Forall2_nil_inv_r in Hnil as ->.
    exists p, es, nx, nx', fs, l, c, s2. rewrite (calm_denotes _ _ Hc2), (calm_phys _ _ Hc2).
    split_and!; try done; [|by apply (tree_ok_calm D s)|by apply (calm_node_raw D s1)].
    unfold st_bind, get_current_root, st_get. rewrite Hr, Hrd.
    rewrite (calm_phys _ _ Hc1) in Hf |- *. exact Hf.
Qed.

Lemma tx_search_loop_find_leaf fuel n k path s leaf path' s' :
  find_leaf fuel n k path s = (Ok (leaf, path'), s') ->
  search_loop fuel n k s = (of_option (Err (DocumentNotFound "" k)) (entry_value k (entries leaf)), s').
Proof.
  revert n path s. induction fuel as [|fuel IH]; intros n path s; simpl.
  - case_decide; [|done]. by intros [= <- _ <-].
  - case_decide; [by intros [= <- _ <-]|]. unfold st_bind, of_index, st_lift.
    destruct (find_child n k) as [c|]; [|done]. simpl. destruct (read_node c s) as [[m| | |] s1]; [|done..]. apply IH.
Qed.

Lemma leaf_facts {B} D s fs p es nx :
  Forall frame_ok fs -> tree_ok D B s (plug fs (TLeaf p es nx)) ->
  StronglySorted mark_lt (ctx_before fs ++ (Ent <$> es) ++ ctx_after fs) /\
  StronglySorted mark_lt (Ent <$> es) /\ leaf_wf es nx /\
  stored D s ((p, leaf_node p es nx) :: ctx_nodes fs p).
Proof.
  intros Hf [Hst _ Hso _]. rewrite marks_plug in Hso by done. split_and!; [done| | |].
  - by apply StronglySorted_app_1_r, StronglySorted_app_1_l in Hso.
  - rewrite nodes_plug in Hst. apply tx_stored_app in Hst as [_ [_ _ _ _ [Hw _]%Forall_cons _ _]]. exact Hw.
  - rewrite nodes_plug, Permutation_app_comm in Hst. exact Hst.
Qed.

(** [search] returns the value of the key in the map of the tree. *)
Lemma tx_search_lemma {B} D s t fuel k :
  tree_ok D B s t -> height t <= fuel ->
  exists s', search fuel k s = (of_option (Err (DocumentNotFound "" k)) (tree_map t !! k), s') /\
    tree_ok D B s' t /\ calm s s'.
Proof.
  intros Hok Hh. destruct (tx_tree_find_leaf D s t fuel k Hok Hh)
    as (p & es & nx & nx' & fs & l & c & s' & Hf & -> & Hfr & Har & Hc & Hok' & _).
  exists s'. split_and!; [|done..]. unfold search.
  apply st_bind_inv in Hf as (root & s1 & Hr & Hf). apply st_bind_inv in Hf as (n & s2 & Hn & Hf).
  rewrite (st_bind_ok _ _ _ _ _ Hr), (st_bind_ok _ _ _ _ _ Hn), (tx_search_loop_find_leaf _ _ _ _ _ _ _ _ Hf).
  do 2 f_equal. destruct (leaf_facts _ _ _ _ _ _ Hfr Hok') as (_ & Hso & _). by rewrite (lookup_in_leaf fs p nx es k).
Qed.

(** *** Writing a leaf *)
Lemma leaf_pages_plug fs p es nx es' nx' : leaf_pages (plug fs (TLeaf p es nx)) = leaf_pages (plug fs (TLeaf p es' nx')).
Proof. unfold leaf_pages. rewrite !leaves_plug, !fmap_app. done. Qed.

Lemma leaf_page_in fs p es nx : p ∈ leaf_pages (plug fs (TLeaf p es nx)).
Proof. unfold leaf_pages. rewrite leaves_plug, !fmap_app. apply elem_of_app. right. apply elem_of_app. left. by left. Qed.

Lemma leaf_pages_nodes t q : q ∈ leaf_pages t -> q ∈ (nodes t).*1.
Proof.
  intros ([[p es] nx] & -> & Hin)%list_elem_of_fmap. apply leaf_in_nodes in Hin.
  apply (list_elem_of_fmap_2 fst _ (p, leaf_node p es nx) Hin).
Qed.

(** The next leaf of a leaf in the chain is further down. *)
Lemma leaf_next {B} D s F rank p n nx raw :
  linked B s F rank -> F (phys s p) -> node_raw D s p n nx raw -> nx = 0%N \/ F nx /\ rank nx < rank (phys s p).
Proof.
  intros Hl HF (_ & _ & _ & d & (_ & Hv & _) & Hd).
  destruct (li_page _ _ _ _ Hl _ HF) as (d' & n' & (_ & Hv' & _) & Hd' & _ & Hnx). simplify_eq.
  rewrite Hd in Hd'. by simplify_eq.
Qed.

(** The links after a leaf was written: the old page and the new one have the same rank. *)
Definition relinks B s s' (p : N) (ps : list N) : Prop :=
  exists F rank, linked B s' F rank /\ ordered s' F rank ps /\ F (phys s p) /\ F (phys s' p) /\
    rank (phys s' p) = rank (phys s p).

Lemma write_leaf_spec {B} D s fs p es nx nx0 es' nx1 F rank m :
  Forall frame_ok fs -> tree_ok D B s (plug fs (TLeaf p es nx)) ->
  leaf_wf es' nx -> StronglySorted mark_lt (ctx_before fs ++ (Ent <$> es') ++ ctx_after fs) ->
  node_raw D s p (leaf_node p es nx) nx0 [] -> (nx1 < 2 ^ 64)%N ->
  linked B s F rank -> ordered s F rank (leaf_pages (plug fs (TLeaf p es nx))) ->
  (nx1 = 0%N \/ F nx1 /\ rank nx1 < rank (phys s p)) -> ps_room (pager s) (Datatypes.S m) ->
  exists s', write_node (relinked (phys s p) nx1 [] (leaf_node p es' nx)) s = (Ok (phys s' p), s') /\
    rewrote p (relinked (phys s p) nx1 [] (leaf_node p es' nx)) s s' /\ ps_room (pager s') m /\
    tree_ok (copied_in p s s' D) B s' (plug fs (TLeaf p es' nx)) /\
    relinks B s s' p (leaf_pages (plug fs (TLeaf p es' nx))).
Proof.
  intros Hf Hok Hwf Hso Hn Hnx Hl Ho Hlk Hroom. pose proof (leaf_facts _ _ _ _ _ _ Hf Hok) as (_ & _ & _ & Hst).
  destruct (tx_rewrite_stored D s p _ (leaf_node p es' nx) nx1 [] _ m Hst) as (s' & Hw & Hrw & Hr & _ & Hst');
    [by left|done|done|constructor|intros ? ?%elem_of_nil; done|done|].
  pose proof (so_sane _ _ _ Hst) as Hs. destruct Hok as [Hst0 Hrt _ _].
  assert (p ∈ leaf_pages (plug fs (TLeaf p es nx))) as Hp by apply leaf_page_in.
  assert (F (phys s p)) as HF by (destruct Ho as [Ho _]; rewrite Forall_forall in Ho; by apply Ho).
  destruct (links_ok_leaf p _ s s' _ F rank Hs Hrw ltac:(by apply tx_stored_cons in Hst as (_ & _ & ? & _)) Hl Ho HF eq_refl)
    as (F' & rank' & Hl' & Ho' & Hext & HF' & Hr'); [|exact Hlk|].
  { intros q Hq He. eapply stored_phys_inj; [exact Hst0|by apply leaf_pages_nodes|by apply leaf_pages_nodes|done]. }
  exists s'. split_and!; [done..| |].
  - split.
    + rewrite nodes_plug, Permutation_app_comm. exact Hst'.
    + rewrite (tpage_plug fs _ (TLeaf p es nx)) by done. eapply root_rewrote; [done| |done].
      intros He. eapply stored_phys_inj; [exact Hst0|apply tpage_in_nodes|by apply leaf_pages_nodes|done].
    + by rewrite marks_plug.
    + exists F', rank'. by rewrite (leaf_pages_plug fs p es' nx es nx).
  - exists F', rank'. rewrite (leaf_pages_plug fs p es' nx es nx). split_and!; [done..|by apply Hext|done|].
    rewrite Hr'. symmetry. by apply Hext.
Qed.

(** The write of a leaf and of its ancestors, which leaves no pointer to a copied page. *)
Lemma write_path_spec {B} D s fs p es nx nx0 es' l c m :
  Forall frame_ok fs -> tree_ok D B s (plug fs (TLeaf p es nx)) ->
  leaf_wf es' nx -> StronglySorted mark_lt (ctx_before fs ++ (Ent <$> es') ++ ctx_after fs) ->
  node_raw D s p (leaf_node p es nx) nx0 [] -> Forall2 (denotes s) l (ctx_path fs) -> denotes s c p ->
  ps_room (pager s) (Datatypes.S (length fs + m)) ->
  exists s', (let! _ := write_node (relinked (phys s p) nx0 [] (leaf_node p es' nx)) in
      update_path_after_modification (l ++ [c])) s = (Ok tt, s') /\
    tree_ok D B s' (plug fs (TLeaf p es' nx)) /\ later s s' /\ ps_room (pager s') m.
Proof.
  intros Hf Hok Hwf Hso Hn Hl Hc Hroom. destruct (to_links _ _ _ _ Hok) as (F & rank & Hlk & Ho).
  assert (F (phys s p)) as HF.
  { destruct Ho as [Ho _]. rewrite Forall_forall in Ho. apply Ho, leaf_page_in. }
  destruct (write_leaf_spec (B := B) D s fs p es nx nx0 es' nx0 F rank (length fs + m)) as (s1 & Hw & Hrw & Hr & Hok1 & _); try done.
  { by destruct Hn. }
  { by eapply leaf_next. }
  assert (sane s) as Hs by apply Hok. pose proof (rewrote_denotes p _ s s1 Hs Hrw) as Hd.
  destruct Hok1 as [Hst1 Hr1 Hso1 Hl1].
  destruct (tx_update_path_spec fs (TLeaf p es' nx) D s1 l c m) as (s2 & Hu & Hst2 & Hcl & Hr2).
  - eapply stored_weaken, Hst1. intros x [Hx|[-> Hx]]; [by left|right]. symmetry. by eapply copied_denotes.
  - eapply Forall2_impl; [exact Hl|]. by apply Hd.
  - by apply Hd.
  - done.
  - exists s2. split_and!; [by rewrite (st_bind_ok _ _ _ _ _ Hw)| |eapply later_trans; [by apply Hrw|by apply Hcl]|done].
    split; [done|by apply Hcl|done|by apply Hcl].
Qed.

Lemma filter_keep_app k (l1 l2 : list LeafEntry) e0 :
  keys_below k l1 -> keys_above k l2 -> key e0 = k ->
  filter (fun e => key e <> k) (l1 ++ e0 :: l2) = l1 ++ l2.
Proof.
  intros H1 H2 H0. rewrite filter_app, filter_cons_False by (by intros H). f_equal; apply list_filter_all, Forall_forall; intros e He;
    [by eapply keys_below_ne|by eapply keys_above_ne].
Qed.

(** [delete] removes the key from the map of the tree, or reports that it is not there. *)
Lemma tx_delete_lemma {B} D s t fuel k m :
  tree_ok D B s t -> height t <= fuel -> ps_room (pager s) (Datatypes.S (height t + m)) ->
  match tree_map t !! k with
  | None => exists s', delete fuel k s = (Err (DocumentNotFound "" k), s') /\ tree_ok D B s' t /\ calm s s'
  | Some _ => exists s' t', delete fuel k s = (Ok tt, s') /\ tree_ok D B s' t' /\
      tree_map t' = base.delete k (tree_map t) /\ height t' = height t /\ later s s' /\ ps_room (pager s') m
  end.
Proof.
  intros Hok Hh Hroom. destruct (tx_tree_find_leaf D s t fuel k Hok Hh)
    as (p & es & nx & nx' & fs & l & c & s1 & Hf & -> & Hfr & Har & Hc & Hok' & Hn & Hl & Hcp).
  destruct (leaf_facts _ _ _ _ _ _ Hfr Hok') as (Hall & Hso & (Hlen & Hes & Hnx) & _).
  rewrite (lookup_in_leaf fs p nx es k) by done.
  unfold delete. apply st_bind_inv in Hf as (root & s2 & Hr & Hf). apply st_bind_inv in Hf as (nd & s3 & Hnd & Hf).
  rewrite (st_bind_ok _ _ _ _ _ Hr), (st_bind_ok _ _ _ _ _ Hnd), (st_bind_ok _ _ _ _ _ Hf). cbv beta iota zeta.
  change (entries (relinked (phys s1 p) nx' [] (leaf_node p es nx))) with es.
  destruct (leaf_place k es Hso) as (l1 & l2 & H1 & H2 & [->|(e0 & <- & ->)]).
  - assert (forall e, e ∈ l1 ++ l2 -> key e <> k) as Hne by (intros e; by apply around_ne).
    rewrite entry_value_miss, list_filter_all by (done || by apply Forall_forall). rewrite decide_True by done. by exists s1.
  - rewrite entry_value_hit, filter_keep_app by done. rewrite decide_False by (rewrite !length_app; simpl; lia).
    destruct (unset_in_leaf fs p nx e0 l1 l2 Hfr Har Hall H1 H2) as [Hmap Hall'].
    pose proof (length_plug fs (TLeaf p (l1 ++ e0 :: l2) nx)) as Hlf. simpl in Hlf.
    destruct (write_path_spec (B := B) D s1 fs p (l1 ++ e0 :: l2) nx nx' (l1 ++ l2) l c m) as (s4 & Hw & Hok4 & Hla & Hrm); try done.
    + split_and!; [|by eapply Forall_drop_mid|done]. rewrite length_app in *. simpl in Hlen. lia.
    + eapply ps_room_le; [by apply (ca_room _ _ Hc)|lia].
    + exists s4, (plug fs (TLeaf p (l1 ++ l2) nx)). split_and!; [exact Hw|done|done|by apply height_plug| |done].
      eapply later_trans; [by apply calm_later|done].
Qed.

(** [update] sets the value of a key that is in the tree. *)
Lemma update_lemma {B} D s t fuel k v m :
  tree_ok D B s t -> height t <= fuel -> key_short k -> (v < 2 ^ 64)%N -> ps_room (pager s) (Datatypes.S (height t + m)) ->
  match tree_map t !! k with
  | None => exists s', update fuel k v s = (Err (DocumentNotFound "" k), s') /\ tree_ok D B s' t /\ calm s s'
  | Some _ => exists s' t', update fuel k v s = (Ok tt, s') /\ tree_ok D B s' t' /\
      tree_map t' = <[k := v]> (tree_map t) /\ height t' = height t /\ later s s' /\ ps_room (pager s') m
  end.
Proof.
  intros Hok Hh Hk Hv Hroom. destruct (tx_tree_find_leaf D s t fuel k Hok Hh)
    as (p & es & nx & nx' & fs & l & c & s1 & Hf & -> & Hfr & Har & Hc & Hok' & Hn & Hl & Hcp).
  destruct (leaf_facts _ _ _ _ _ _ Hfr Hok') as (Hall & Hso & (Hlen & Hes & Hnx) & _).
  rewrite (lookup_in_leaf fs p nx es k) by done.
  unfold update. apply st_bind_inv in Hf as (root & s2 & Hr & Hf). apply st_bind_inv in Hf as (nd & s3 & Hnd & Hf).
  rewrite (st_bind_ok _ _ _ _ _ Hr), (st_bind_ok _ _ _ _ _ Hnd), (st_bind_ok _ _ _ _ _ Hf). cbv beta iota zeta.
  change (entries (relinked (phys s1 p) nx' [] (leaf_node p es nx))) with es.
  destruct (leaf_place k es Hso) as (l1 & l2 & H1 & H2 & H3). destruct H3 as [->|(e0 & <- & ->)].
  - assert (forall e, e ∈ l1 ++ l2 -> key e <> k) as Hne by (intros e; by apply around_ne).
    rewrite entry_value_miss, update_entry_miss by done. by exists s1.
  - rewrite entry_value_hit, update_entry_hit by done.
    destruct (set_in_leaf fs p nx _ (key e0) v l1 l2 Hfr Har Hall H1 H2 ltac:(right; by exists e0)) as (Hmap & Hall' & Hl' & Hes').
    pose proof (length_plug fs (TLeaf p (l1 ++ e0 :: l2) nx)) as Hlf. simpl in Hlf.
    destruct (write_path_spec (B := B) D s1 fs p (l1 ++ e0 :: l2) nx nx' (l1 ++ mk_entry (key e0) v :: l2) l c m) as (s4 & Hw & Hok4 & Hla & Hrm); try done.
    + split_and!; [|by apply Hes'|done]. rewrite length_app in *. simpl in *. lia.
    + eapply ps_room_le; [by apply (ca_room _ _ Hc)|lia].
    + exists s4, (plug fs (TLeaf p (l1 ++ mk_entry (key e0) v :: l2) nx)).
      split_and!; [|done|done|by apply height_plug|eapply later_trans; [by apply calm_later|done]|done].
      rewrite <-Hw. unfold relinked. simpl. by rewrite !length_app.
Qed.

(** *** Walks that only read *)

(** The subtree of a node's child. *)
Lemma child_spec D s p ks ts nx raw c i :
  stored D s (nodes (TNode p ks ts)) -> node_raw D s p (node_of (TNode p ks ts)) nx raw -> raw !! i = Some c ->
  exists t nx' raw' s', ts !! i = Some t /\ t ∈ ts /\ denotes s c (tpage t) /\ stored D s (nodes t) /\
    node_raw D s (tpage t) (node_of t) nx' raw' /\
    read_node c s = (Ok (relinked (phys s (tpage t)) nx' raw' (node_of t)), s') /\ calm s s'.
Proof.
  intros Hst (_ & Hr & _) Hi. simpl in Hr. destruct (Forall2_denotes_child _ _ _ _ _ Hr Hi) as (t & Ht & Hd).
  pose proof (list_elem_of_lookup_2 _ _ _ Ht) as Hin.
  destruct (stored_node _ _ _ _ Hst (node_in_child p ks ts t Hin)) as (nx' & raw' & Hn). cbn [fst snd] in Hn.
  destruct (tx_read_node_spec D s c _ _ _ _ (so_sane _ _ _ Hst) Hd Hn) as (s' & Hrd & Hc).
  exists t, nx', raw', s'. split_and!; try done.
  apply list_elem_of_split in Hin as (t1 & t2 & ->). cbn [nodes] in Hst. rewrite fmap_app, fmap_cons, concat_app in Hst.
  cbn [concat] in Hst. rewrite app_comm_cons in Hst. apply tx_stored_app in Hst as [_ Hst]. by apply tx_stored_app in Hst as [? _].
Qed.

Lemma st_any_spec {A} (f : A -> ST (txstate St) Error bool) l bs s :
  ps_inv (pager s) ->
  Forall2 (fun x b => forall s', calm s s' -> exists s'', f x s' = (Ok b, s'') /\ calm s' s'') l bs ->
  exists s', st_any f l s = (Ok (existsb id bs), s') /\ calm s s'.
Proof.
  revert bs s. induction l as [|x l IH]; intros bs s Hi H; inversion H as [|? b ? bs' Hx Hl]; subst.
  { exists s. split; [done|by apply tx_calm_refl]. }
  destruct (Hx s) as (s1 & H1 & Hc1); [by apply tx_calm_refl|]. simpl. rewrite (st_bind_ok _ _ _ _ _ H1).
  destruct b; [by exists s1|]. destruct (IH bs' s1) as (s2 & H2 & Hc2).
  - apply (ca_inv _ _ Hc1).
  - eapply Forall2_impl; [exact Hl|]. intros y c Hy s' Hc. apply Hy. by eapply tx_calm_trans.
  - exists s2. split; [done|by eapply tx_calm_trans].
Qed.

(** A property of all children, from the pointers to them. *)
Lemma children_Forall2 D s p ks ts nx raw {C : Type} (g : tree -> C) (P : N -> C -> Prop) :
  node_raw D s p (node_of (TNode p ks ts)) nx raw ->
  (forall i c t, raw !! i = Some c -> ts !! i = Some t -> P c (g t)) -> Forall2 P raw (g <$> ts).
Proof.
  intros (_ & Hr & _) H. simpl in Hr. apply Forall2_same_length_lookup. split.
  - pose proof (Forall2_length _ _ _ Hr) as Hl. by rewrite !length_fmap in *.
  - intros i c y Hc Hy. rewrite list_lookup_fmap in Hy. destruct (ts !! i) as [t|] eqn:Ht; simplify_eq/=. by eapply H.
Qed.

Lemma existsb_concat {A} (f : A -> bool) (ls : list (list A)) : existsb f (concat ls) = existsb id (existsb f <$> ls).
Proof. induction ls as [|l ls IH]; [done|]. simpl. by rewrite existsb_app, IH. Qed.

Lemma st_ok_spec {A} (m : ST (txstate St) Error A) s a s' : m s = (Ok a, s') -> st_ok m s = (Ok (Some a), s').
Proof. unfold st_ok. by intros ->. Qed.

(** [is_page_in_tree] looks for a page among the pages of the tree. *)
Lemma is_page_in_tree_spec D fuel t s nx raw target :
  height t <= fuel -> stored D s (nodes t) -> node_raw D s (tpage t) (node_of t) nx raw ->
  exists s', is_page_in_tree fuel (relinked (phys s (tpage t)) nx raw (node_of t)) target s =
    (Ok (existsb (fun x => phys s x.1 =? target)%N (nodes t)), s') /\ calm s s'.
Proof.
  revert t s nx raw. induction fuel as [|fuel IH]; intros t s nx raw Hh Hst Hn.
  all: pose proof (sa_inv _ (so_sane _ _ _ Hst)) as Hi.
  all: unfold is_page_in_tree; fold is_page_in_tree; change (page_num (relinked (phys s (tpage t)) nx raw (node_of t))) with (phys s (tpage t)).
  all: destruct t as [p es nx0|p ks ts]; cbn [nodes tpage existsb fst]; destruct (phys s p =? target)%N; [exists s; split; [done|by apply tx_calm_refl]|..].
  all: try (rewrite decide_True by done; exists s; split; [done|by apply tx_calm_refl]).
  all: try (exists s; split; [done|by apply tx_calm_refl]).
  { simpl in Hh. lia. }
  rewrite decide_False by done. change (children (relinked (phys s p) nx raw (node_of (TNode p ks ts)))) with raw.
  rewrite existsb_concat, <-list_fmap_compose. cbn [orb]. apply st_any_spec; [done|]. eapply children_Forall2; [exact Hn|].
  intros i c t Hc Ht s' Hcalm.
  destruct (child_spec D s' p ks ts nx raw c i) as (t' & nx' & raw' & s1 & Ht1 & Hin & _ & Hst' & Hn' & Hrd & Hc1);
    [by eapply tx_stored_calm|by eapply calm_node_raw|done|]. simplify_eq.
  rewrite (st_bind_ok _ _ _ _ _ (st_ok_spec _ _ _ _ Hrd)).
  destruct (IH t s1 nx' raw') as (s2 & H2 & Hc2).
  - pose proof (height_child t p ks ts Hin). lia.
  - by eapply tx_stored_calm.
  - by eapply calm_node_raw.
  - exists s2. split; [|by eapply tx_calm_trans]. by rewrite (calm_phys _ _ Hc1), (calm_phys _ _ Hcalm) in *.
Qed.

(** [has_prefix] looks for an entry whose key starts with the prefix. *)
Lemma denotes_nonzero s c p : sane s -> phys s p <> 0%N -> denotes s c p -> c <> 0%N.
Proof.
  intros Hs Hp [->|Hc]; [|by apply (sa_cow _ Hs) in Hc as (_ & _ & _ & ? & _)]. unfold phys in Hp.
  destruct (cow s !! p) as [q|] eqn:Hq; [|done]. by apply (sa_cow _ Hs) in Hq as (_ & _ & _ & _ & ?).
Qed.

Definition starts (pre : string) (e : LeafEntry) : bool := String.prefix pre (key e).

Lemma has_prefix_in_node_spec D fuel t s c pre :
  height t <= fuel -> stored D s (nodes t) -> denotes s c (tpage t) ->
  exists s', has_prefix_in_node fuel c pre s =
    (Ok (existsb (starts pre) (concat ((fun l => l.1.2) <$> leaves t))), s') /\ calm s s'.
Proof.
  revert t s c. induction fuel as [|fuel IH]; intros t s c Hh Hst Hc.
  all: pose proof (so_sane _ _ _ Hst) as Hs; pose proof (sa_inv _ Hs) as Hi.
  all: assert (c <> 0%N) as H0 by (eapply denotes_nonzero; [done| |exact Hc]; pose proof (so_zero _ _ _ Hst) as Hz;
    rewrite Forall_forall in Hz; apply (Hz _ (nodes_head t))).
  all: destruct (stored_node _ _ _ _ Hst (nodes_head t)) as (nx & raw & Hn); cbn [fst snd] in Hn.
  all: destruct (tx_read_node_spec D s c _ _ _ _ Hs Hc Hn) as (s1 & Hrd & Hc1).
  all: unfold has_prefix_in_node; fold has_prefix_in_node; rewrite (proj2 (N.eqb_neq c 0) H0), (st_bind_ok _ _ _ _ _ Hrd).
  all: destruct t as [p es nx0|p ks ts]; [rewrite decide_True by done; exists s1; split; [|done]; cbn [leaves fmap list_fmap concat];
    by rewrite app_nil_r|].
  { simpl in Hh. lia. }
  rewrite decide_False by done. change (children (relinked _ nx raw _)) with raw.
  assert (concat ((fun l : N * list LeafEntry * N => l.1.2) <$> leaves (TNode p ks ts)) =
    concat ((fun t => concat ((fun l => l.1.2) <$> leaves t)) <$> ts)) as ->.
  { cbn [leaves]. clear. induction ts as [|t ts IH]; [done|]. cbn [fmap list_fmap concat].
    rewrite fmap_app, concat_app. f_equal. exact IH. }
  rewrite existsb_concat, <-list_fmap_compose.
  destruct (st_any_spec (fun child_page => has_prefix_in_node fuel child_page pre) raw
    (existsb (starts pre) ∘ (fun t => concat ((fun l => l.1.2) <$> leaves t)) <$> ts) s1) as (s2 & H2 & Hc2).
  - apply (ca_inv _ _ Hc1).
  - eapply children_Forall2; [exact Hn|]. intros i d t Hd Ht s' Hcalm.
    destruct (child_spec D s p ks ts nx raw d i Hst Hn Hd) as (t' & nx' & raw' & _ & Ht1 & Hin & Hden & Hst' & _).
    simplify_eq. assert (calm s s') as Hcs by (by eapply tx_calm_trans). apply IH.
    + pose proof (height_child t p ks ts Hin). lia.
    + by eapply tx_stored_calm.
    + by rewrite (calm_denotes _ _ Hcs).
  - exists s2. split; [exact H2|by eapply tx_calm_trans].
Qed.

Lemma st_first_spec {A C : Type} (f : A -> ST (txstate St) Error (option C)) l os s :
  ps_inv (pager s) ->
  Forall2 (fun x o => forall s', calm s s' -> exists s'', f x s' = (Ok o, s'') /\ calm s' s'') l os ->
  exists s', st_first f l s = (Ok (first_some os), s') /\ calm s s'.
Proof.
  revert os s. induction l as [|x l IH]; intros os s Hi H; inversion H as [|? o ? os' Hx Hl]; subst.
  { exists s. split; [done|by apply tx_calm_refl]. }
  destruct (Hx s) as (s1 & H1 & Hc1); [by apply tx_calm_refl|]. simpl. rewrite (st_bind_ok _ _ _ _ _ H1).
  destruct o as [r|]; [by exists s1|]. destruct (IH os' s1) as (s2 & H2 & Hc2).
  - apply (ca_inv _ _ Hc1).
  - eapply Forall2_impl; [exact Hl|]. intros y c Hy s' Hc. apply Hy. by eapply tx_calm_trans.
  - exists s2. split; [done|by eapply tx_calm_trans].
Qed.

Lemma child_sorted p ks ts t :
  StronglySorted mark_lt (marks (TNode p ks ts)) -> length ts = Datatypes.S (length ks) -> t ∈ ts ->
  StronglySorted mark_lt (marks t).
Proof.
  intros Hs Hl (i & Hi)%list_elem_of_lookup. cbn [marks] in Hs. pose proof (lookup_lt_Some _ _ _ Hi) as Hlt.
  rewrite <-(take_drop i ks), <-(take_drop_middle ts _ _ Hi), fmap_app, fmap_cons, weave_split in Hs
    by (rewrite length_fmap, !length_take; lia).
  by apply StronglySorted_app_1_r, StronglySorted_app_1_l in Hs.
Qed.

(** The subtrees left of the key's place hold no larger key. *)
Lemma left_of_key p ks ts k t :
  Forall node_wf (nodes (TNode p ks ts)) -> StronglySorted mark_lt (marks (TNode p ks ts)) ->
  length ts = Datatypes.S (length ks) -> t ∈ take (child_index k ks) ts -> first_after k (leaves t) = None.
Proof.
  intros Hwf Hso Hl Ht. destruct (child_index_split k ks) as (ks1 & ks2 & -> & Hi & H1 & _). rewrite Hi in Ht.
  rewrite length_app in Hl. destruct (lookup_lt_is_Some_2 ts (length ks1)) as [u Hu]; [lia|].
  cbn [marks] in Hso. rewrite <-(take_drop_middle ts _ _ Hu), fmap_app, fmap_cons, weave_split in Hso
    by (rewrite length_fmap, length_take; lia).
  apply StronglySorted_app_1_l in Hso. apply first_after_None. intros e es q nx Hin.
  assert (t ∈ ts) as Ht' by (by apply (subseteq_take (child_index k ks)) in Ht || by rewrite <-(take_drop (length ks1) ts); apply elem_of_app; left).
  assert (Ent e ∈ marks t) as Hm by (eapply leaf_entry_mark; [by eapply wf_child|done|by left]).
  destruct (before_lt (marks <$> take (length ks1) ts) ks1 (marks t) (Ent e) Hso) as (k' & Hk' & Hlt).
  - rewrite length_fmap, length_take. lia.
  - by apply list_elem_of_fmap_2.
  - done.
  - rewrite Forall_forall in H1. apply str_lt_le. eapply str_lt_le_trans; [exact Hlt|by apply H1].
Qed.

(** [find_next_leaf_by_key] finds the first leaf whose first key is larger. *)
Lemma find_next_leaf_spec D fuel t s nx raw k :
  height t <= fuel -> stored D s (nodes t) -> StronglySorted mark_lt (marks t) -> node_raw D s (tpage t) (node_of t) nx raw ->
  exists s', find_next_leaf_by_key fuel (relinked (phys s (tpage t)) nx raw (node_of t)) k s =
    (Ok (phys s <$> first_after k (leaves t)), s') /\ calm s s'.
Proof.
  revert t s nx raw. induction fuel as [|fuel IH]; intros t s nx raw Hh Hst Hso Hn.
  all: pose proof (sa_inv _ (so_sane _ _ _ Hst)) as Hi.
  all: unfold find_next_leaf_by_key; fold find_next_leaf_by_key.
  all: destruct t as [p es nx0|p ks ts]; [rewrite decide_True by done; exists s; split; [|by apply tx_calm_refl];
    simpl; destruct es as [|e es]; [done|]; by destruct (str_gtb (key e) k)|].
  { simpl in Hh. lia. }
  rewrite decide_False by done.
  pose proof (so_wf _ _ _ Hst) as Hwf. pose proof Hwf as [(_ & Hl & _) _]%Forall_cons. simpl in Hl. rewrite length_fmap in Hl.
  change (children (relinked _ nx raw (node_of (TNode p ks ts)))) with raw.
  change (keys (relinked _ nx raw (node_of (TNode p ks ts)))) with ks.
  set (i := child_index k ks) in *. assert (i <= length ks) as Hik.
  { destruct (child_index_split k ks) as (ks1 & ks2 & -> & Hi' & _). unfold i. rewrite Hi', length_app. lia. }
  assert (length raw = length ts) as Hlr.
  { destruct Hn as (_ & Hr & _). apply Forall2_length in Hr. simpl in Hr. by rewrite length_fmap in Hr. }
  set (visit := fun child_page => let! child := st_ok (read_node child_page) in
    match child with Some child => find_next_leaf_by_key fuel child k | None => st_ret None end).
  assert (Forall2 (fun c o => forall s', calm s s' -> exists s'', visit c s' = (Ok o, s'') /\ calm s' s'') raw
    ((fun t => phys s <$> first_after k (leaves t)) <$> ts)) as Hall.
  { eapply children_Forall2; [exact Hn|]. intros j c t Hc Ht s' Hcalm.
    destruct (child_spec D s' p ks ts nx raw c j) as (t' & nx' & raw' & s1 & Ht1 & Hin & _ & Hst' & Hn' & Hrd & Hc1);
      [by eapply tx_stored_calm|by eapply calm_node_raw|done|]. simplify_eq.
    unfold visit. rewrite (st_bind_ok _ _ _ _ _ (st_ok_spec _ _ _ _ Hrd)).
    destruct (IH t s1 nx' raw') as (s2 & H2 & Hc2).
    - pose proof (height_child t p ks ts Hin). lia.
    - by eapply tx_stored_calm.
    - by eapply child_sorted.
    - by eapply calm_node_raw.
    - exists s2. split; [|by eapply tx_calm_trans]. by rewrite (calm_phys _ _ Hc1), (calm_phys _ _ Hcalm) in *. }
  assert (first_after k (leaves (TNode p ks ts)) = first_some ((fun t => first_after k (leaves t)) <$> drop i ts)) as Hfa.
  { cbn [leaves]. rewrite first_after_concat, <-list_fmap_compose. rewrite <-(take_drop i ts) at 1.
    rewrite fmap_app. unfold first_some. rewrite omap_app.
    assert (omap id ((first_after k ∘ leaves) <$> take i ts) = []) as ->; [|done].
    assert (forall t, t ∈ take i ts -> first_after k (leaves t) = None) as Hnone by (intros t Ht; by eapply left_of_key).
    clear -Hnone. induction (take i ts) as [|t l IH]; [done|]. simpl. rewrite Hnone by (by left).
    apply IH. intros u Hu. apply Hnone. by right. }
  apply (Forall2_drop _ _ _ i) in Hall. rewrite <-fmap_drop in Hall.
  assert (phys s <$> first_after k (leaves (TNode p ks ts)) = first_some ((fun t => phys s <$> first_after k (leaves t)) <$> drop i ts)) as ->.
  { rewrite Hfa. clear. unfold first_some. induction (drop i ts) as [|t l IH]; [done|]. simpl. by destruct (first_after k (leaves t)). }
  case_decide as Hlt; [by apply st_first_spec|].
  assert (i = length ks) as Hie by lia.
  destruct (last raw) as [c|] eqn:Hlast; [|apply last_None in Hlast; subst raw; simpl in Hlr; lia].
  assert (drop i raw = [c]) as Hd.
  { rewrite last_lookup in Hlast. replace (pred (length raw)) with i in Hlast by lia.
    rewrite (drop_S raw c i) by done. by rewrite drop_ge by lia. }
  rewrite Hd in Hall. inversion Hall as [|? o ? os Ho Hos Heq1 Heq2]; subst. inversion Hos; subst.
  destruct (Ho s) as (s1 & H1 & Hc1); [by apply tx_calm_refl|]. exists s1. split; [|done].
  unfold of_index, st_lift. unfold st_bind at 1. cbn [of_option]. fold visit. rewrite H1.
  unfold first_some. simpl. by destruct o.
Qed.

(** [find_any_leaf_path] returns the path of the leaf with the page. *)
Definition leads_to s (T : tree) (target : N) (path : list N) : Prop :=
  exists p es nx fs, plug fs (TLeaf p es nx) = T /\ Forall frame_ok fs /\ phys s p = target /\
    Forall2 (denotes s) path (ctx_path fs ++ [p]).

Lemma find_any_leaf_path_spec D fuel t fs s nx raw target path :
  height t <= fuel -> stored D s (nodes t) -> node_raw D s (tpage t) (node_of t) nx raw -> Forall frame_ok fs ->
  Forall2 (denotes s) path (ctx_path fs ++ [tpage t]) ->
  exists r s', find_any_leaf_path fuel (relinked (phys s (tpage t)) nx raw (node_of t)) target path s = (Ok r, s') /\
    calm s s' /\ match r with None => True | Some path' => leads_to s (plug fs t) target path' end.
Proof.
  revert t fs s nx raw path. induction fuel as [|fuel IH]; intros t fs s nx raw path Hh Hst Hn Hfs Hpath.
  all: pose proof (sa_inv _ (so_sane _ _ _ Hst)) as Hi.
  all: unfold find_any_leaf_path; fold find_any_leaf_path.
  all: destruct t as [p es nx0|p ks ts]; [rewrite decide_True by done; eexists _, s; split; [done|]; split; [by apply tx_calm_refl|];
    simpl; destruct (N.eqb_spec (phys s p) target) as [He|]; [|done]; exists p, es, nx0, fs; done|].
  { simpl in Hh. lia. }
  rewrite decide_False by done.
  pose proof (so_wf _ _ _ Hst) as [(_ & Hl & _) _]%Forall_cons. simpl in Hl. rewrite length_fmap in Hl.
  change (children (relinked _ nx raw (node_of (TNode p ks ts)))) with raw.
  pose proof Hn as (_ & Hraw & _). simpl in Hraw.
  enough (forall cs rs ts1 tcs s', calm s s' -> ts = ts1 ++ tcs -> raw = rs ++ cs -> length rs = length ts1 ->
    Forall2 (denotes s) cs (tpage <$> tcs) ->
    exists r s'', (fix visit (cs : list N) : ST (txstate St) Error (option (list N)) :=
      match cs with
      | [] => st_ret None
      | child_page :: cs =>
        let path := vec_push path child_page in
        let! child := st_ok (read_node child_page) in
        match child with
        | None => st_ret None
        | Some child =>
          let! result := find_any_leaf_path fuel child target path in
          match result with Some result => st_ret (Some result) | None => visit cs end
        end
      end) cs s' = (Ok r, s'') /\ calm s s'' /\
      match r with None => True | Some path' => leads_to s (plug fs (TNode p ks ts)) target path' end) as Hv.
  { apply (Hv raw [] [] ts s); [by apply tx_calm_refl|done|done|done|exact Hraw]. }
  induction cs as [|c cs IHc]; intros rs ts1 tcs s' Hcalm Hts Hrs Hlen Hcs; [by exists None, s'|].
  destruct tcs as [|t tcs]; [by apply Forall2_length in Hcs|].
  assert (raw !! length ts1 = Some c) as Hc by (rewrite Hrs; by apply list_lookup_middle).
  destruct (child_spec D s' p ks ts nx raw c (length ts1)) as (t' & nx' & raw' & s1 & Ht & Hin & Hden & Hst' & Hn' & Hrd & Hc1);
    [by eapply tx_stored_calm|by eapply calm_node_raw|done|].
  assert (t' = t) as ->. { rewrite Hts, list_lookup_middle in Ht by done. by simplify_eq. }
  cbv zeta. rewrite (st_bind_ok _ _ _ _ _ (st_ok_spec _ _ _ _ Hrd)). cbv beta iota.
  assert (calm s s1) as Hcs1 by (by eapply tx_calm_trans).
  set (f := mk_frame p (take (length ts1) ks) ts1 (drop (length ts1) ks) tcs).
  rewrite Hts, length_app in Hl. simpl in Hl.
  assert (frame_ok f) as Hf by (unfold frame_ok, f; simpl; rewrite length_take, length_drop; lia).
  assert (plug1 f t = TNode p ks ts) as Hpl by (unfold plug1, f; simpl; by rewrite take_drop, Hts).
  destruct (IH t (f :: fs) s1 nx' raw' (vec_push path c)) as (r & s2 & H2 & Hc2 & Hr).
  - pose proof (height_child t p ks ts Hin). lia.
  - by eapply tx_stored_calm.
  - by apply (calm_node_raw D s').
  - by constructor.
  - rewrite (calm_denotes _ _ Hcs1). unfold vec_push, ctx_path. rewrite fmap_cons, reverse_cons.
    apply Forall2_app; [exact Hpath|]. constructor; [|constructor]. by rewrite <-(calm_denotes _ _ Hcalm).
  - rewrite (calm_phys _ _ Hc1) in H2. rewrite (st_bind_ok _ _ _ _ _ H2).
    assert (calm s s2) as Hcs2 by (by eapply tx_calm_trans). destruct r as [path'|].
    + exists (Some path'), s2. split_and!; [done..|]. cbn [plug] in Hr. rewrite Hpl in Hr.
      unfold leads_to in *. by rewrite (calm_phys _ _ Hcs1), (calm_denotes _ _ Hcs1) in Hr.
    + apply (IHc (rs ++ [c]) (ts1 ++ [t]) tcs s2); [done|by rewrite <-app_assoc|by rewrite <-app_assoc|rewrite !length_app; simpl; lia|].
      by inversion Hcs.
Qed.

(** [first_leaf] goes down to the leftmost leaf. *)
Lemma first_leaf_spec D fuel t s nx raw :
  height t <= fuel -> stored D s (nodes t) -> node_raw D s (tpage t) (node_of t) nx raw ->
  exists p n s', first_leaf fuel (relinked (phys s (tpage t)) nx raw (node_of t)) s = (Ok n, s') /\
    calm s s' /\ page_num n = phys s p /\ p ∈ leaf_pages t.
Proof.
  revert t s nx raw. induction fuel as [|fuel IH]; intros t s nx raw Hh Hst Hn.
  all: pose proof (sa_inv _ (so_sane _ _ _ Hst)) as Hi; unfold first_leaf; fold first_leaf.
  all: destruct t as [p es nx0|p ks ts]; [rewrite decide_True by done; eexists p, _, s; split; [done|]; split_and!;
    [by apply tx_calm_refl|done|by left]|].
  { simpl in Hh. lia. }
  rewrite decide_False by done.
  pose proof (so_wf _ _ _ Hst) as [(_ & Hl & _) _]%Forall_cons. simpl in Hl. rewrite length_fmap in Hl.
  pose proof Hn as (_ & Hraw & _). simpl in Hraw. apply Forall2_length in Hraw. rewrite length_fmap in Hraw.
  change (children (relinked _ nx raw (node_of (TNode p ks ts)))) with raw.
  destruct (lookup_lt_is_Some_2 raw 0) as [c Hc]; [lia|].
  destruct (child_spec D s p ks ts nx raw c 0 Hst Hn Hc) as (t & nx' & raw' & s1 & Ht & Hin & _ & Hst' & Hn' & Hrd & Hc1).
  unfold of_index, st_lift. unfold st_bind at 1. rewrite Hc. cbn [of_option]. rewrite (st_bind_ok _ _ _ _ _ Hrd).
  destruct (IH t s1 nx' raw') as (q & n & s2 & H2 & Hc2 & Hq & Hqin).
  - pose proof (height_child t p ks ts Hin). lia.
  - by eapply tx_stored_calm.
  - by eapply calm_node_raw.
  - rewrite (calm_phys _ _ Hc1) in *. exists q, n, s2. split_and!; [done|by eapply tx_calm_trans|done|].
    unfold leaf_pages in *. cbn [leaves]. destruct ts as [|t0 ts]; [done|]. simplify_eq/=. rewrite fmap_app.
    apply elem_of_app. by left.
Qed.

(** *** The leaf before a copied one *)
Lemma linked_calm {B} s s' F rank : calm s s' -> linked B s F rank -> linked B s' F rank.
Proof. intros Hc. apply linked_keep; [by apply calm_cow|]. intros r d. by apply calm_holds_page. Qed.

Lemma ordered_calm s s' F rank ps : calm s s' -> ordered s F rank ps -> ordered s' F rank ps.
Proof. intros Hc. unfold ordered. by rewrite (calm_phys _ _ Hc). Qed.

Lemma tree_ok_weaken {B} D1 D2 s t : (forall x, D1 x -> D2 x) -> tree_ok D1 B s t -> tree_ok D2 B s t.
Proof. intros H [H1 H2 H3 H4]. split; [by eapply stored_weaken|done..]. Qed.

(** The outcome of a step whose error is dropped. *)
Definition settles D B m t s (o : Result unit) s' : Prop :=
  (o = Ok tt \/ exists e, o = Err e) /\ tree_ok D B s' t /\ later s s' /\
  (forall r p, denotes s r p -> denotes s' r p) /\ ps_room (pager s') m.

Lemma settles_calm {B} D m t s s' s'' o : calm s s' -> settles D B m t s' o s'' -> settles D B m t s o s''.
Proof.
  intros Hc (H1 & H2 & H3 & H4 & H5). split_and!; [done|done| |by rewrite <-(calm_denotes _ _ Hc)|done].
  eapply later_trans; [by apply calm_later|done].
Qed.

Lemma calm_settles {B} D m t s s' o :
  calm s s' -> (o = Ok tt \/ exists e, o = Err e) -> tree_ok D B s t -> ps_room (pager s) m -> settles D B m t s o s'.
Proof.
  intros Hc Ho Hok Hr. split_and!; [done|by eapply tree_ok_calm|by apply calm_later|by rewrite (calm_denotes _ _ Hc)|].
  by apply (ca_room _ _ Hc).
Qed.

Lemma relink_leaf_spec {B} D s fs p es nx nx0 nx1 F rank path m :
  Forall frame_ok fs -> tree_ok D B s (plug fs (TLeaf p es nx)) -> node_raw D s p (leaf_node p es nx) nx0 [] ->
  (nx1 < 2 ^ 64)%N -> linked B s F rank -> ordered s F rank (leaf_pages (plug fs (TLeaf p es nx))) ->
  (nx1 = 0%N \/ F nx1 /\ rank nx1 < rank (phys s p)) -> Forall2 (denotes s) path (ctx_path fs ++ [p]) ->
  ps_room (pager s) (Datatypes.S (length fs + m)) ->
  exists o s', (let! q := write_node (relinked (phys s p) nx1 [] (leaf_node p es nx)) in
      if (q =? phys s p)%N then st_ret tt else update_path_after_modification path) s = (o, s') /\
    settles D B m (plug fs (TLeaf p es nx)) s o s'.
Proof.
  intros Hf Hok Hn Hnx Hl Ho Hlk Hpath Hroom.
  destruct (leaf_facts _ _ _ _ _ _ Hf Hok) as (Hall & _ & Hwf & _). assert (sane s) as Hs by apply Hok.
  destruct (write_leaf_spec (B := B) D s fs p es nx nx0 es nx1 F rank (length fs + m)) as (s1 & Hw & Hrw & Hr & Hok1 & _); try done.
  pose proof (rewrote_denotes p _ s s1 Hs Hrw) as Hd. rewrite (st_bind_ok _ _ _ _ _ Hw).
  destruct (N.eqb_spec (phys s1 p) (phys s p)) as [He|He].
  - eexists _, s1. split; [done|]. split_and!; [by left| |by apply Hrw|by apply Hd|eapply ps_room_le; [done|lia]].
    eapply tree_ok_weaken, Hok1. intros x [?|[_ Hx]]; [done|by destruct Hx].
  - apply Forall2_app_inv_r in Hpath as (l & lc & Hl' & Hcc & ->).
    apply Forall2_cons_inv_r in Hcc as (c & lc' & Hc & Hnil & ->). apply Forall2_nil_inv_r in Hnil as ->.
    destruct Hok1 as [Hst1 Hr1 Hso1 Hl1].
    destruct (tx_update_path_spec fs (TLeaf p es nx) D s1 l c m) as (s2 & Hu & Hst2 & Hcl & Hr2).
    + eapply stored_weaken, Hst1. intros x [Hx|[-> Hx]]; [by left|right]. symmetry. by eapply copied_denotes.
    + eapply Forall2_impl; [exact Hl'|]. by apply Hd.
    + by apply Hd.
    + done.
    + eexists _, s2. split; [exact Hu|]. split_and!; [by left| |eapply later_trans; [by apply Hrw|by apply Hcl]| |done].
      * split; [done|by apply Hcl|done|by apply Hcl].
      * intros r q Hrq. by apply (cl_denotes _ _ _ Hcl), Hd.
Qed.

Lemma update_chain_spec {B} D fuel t s nx raw F rank old new m steps s0 r :
  tree_ok D B s t -> height t <= fuel -> node_raw D s (tpage t) (node_of t) nx raw ->
  linked B s F rank -> ordered s F rank (leaf_pages t) -> old <> 0%N -> (new < 2 ^ 64)%N ->
  F new -> rank new = rank old -> ps_room (pager s) (Datatypes.S (height t + m)) ->
  calm s s0 -> F r -> rank r < steps ->
  exists o s', update_chain fuel steps (phys s (tpage t)) (relinked (phys s (tpage t)) nx raw (node_of t)) old new r s0 = (o, s') /\
    settles D B m t s o s'.
Proof.
  intros Hok Hh Hn Hl Ho Hold Hnew HFn Hrn Hroom Hc0 HF Hst. revert r s0 Hc0 HF Hst.
  assert (sane s) as Hs by apply Hok.
  induction steps as [|steps IH]; intros r s0 Hc0 HF Hrk; [lia|]. cbn [update_chain].
  assert (exists q, default r (cow s0 !! r) = q /\ F q /\ rank q = rank r) as (q & Hq & HFq & Hrq).
  { rewrite (calm_cow _ _ Hc0). destruct (cow s !! r) as [q|] eqn:Hcow; [|by exists r].
    destruct (li_cow _ _ _ _ Hl r q HF Hcow) as [? ?]. by exists q. }
  destruct (li_page _ _ _ _ Hl q HFq) as (d & n & Hd & Hde & Hnt & Hnx).
  assert (sane s0) as Hs0 by (by eapply calm_sane).
  destruct (tx_read_page_spec s0 r d Hs0) as (s1 & Hrd & Hc1); [rewrite Hq; by eapply calm_holds_page|].
  rewrite Hq, Hde in Hrd. rewrite (st_bind_ok _ _ _ _ _ Hrd). assert (calm s s1) as Hcs1 by (by eapply tx_calm_trans).
  destruct (N.eqb_spec (next_leaf n) old) as [He|He].
  - destruct Hnx as [?|[HFo Hro]]; [congruence|]. rewrite He in HFo, Hro.
    assert (page_num n = q) as Hpn by (by apply deserialize_page in Hde). rewrite Hpn.
    destruct (find_any_leaf_path_spec D fuel t [] s1 nx raw q [phys s (tpage t)]) as (o & s2 & H2 & Hc2 & Hlt).
    + done.
    + eapply tx_stored_calm, Hcs1. apply Hok.
    + by eapply calm_node_raw.
    + done.
    + rewrite (calm_denotes _ _ Hcs1). constructor; [apply denotes_phys|constructor].
    + rewrite (calm_phys _ _ Hcs1) in H2. rewrite (st_bind_ok _ _ _ _ _ H2).
      assert (calm s s2) as Hcs2 by (by eapply tx_calm_trans). destruct o as [path|].
      2: { eexists _, s2. split; [done|]. eapply calm_settles; [done|by right; eexists|done|eapply ps_room_le; [done|lia]]. }
      destruct Hlt as (p & es & nx1 & fs & Hpl & Hfs & Hp & Hpath). cbn [plug] in Hpl. subst t.
      rewrite (calm_denotes _ _ Hcs1), (calm_phys _ _ Hcs1) in *.
      pose proof (leaf_facts _ _ _ _ _ _ Hfs Hok) as (_ & _ & _ & Hst).
      destruct (stored_node _ _ _ _ Hst (list_elem_of_here _ _)) as (nx0 & raw0 & Hn0). cbn [fst snd] in Hn0.
      assert (raw0 = [] /\ n = relinked q nx0 [] (leaf_node p es nx1)) as [-> ->].
      { destruct Hn0 as (_ & G2 & _ & d' & (_ & Gv & _) & G4). apply Forall2_nil_inv_r in G2 as ->.
        destruct Hd as (_ & Hv & _). rewrite Hp in *. rewrite Gv in Hv. simplify_eq. rewrite G4 in Hde. by simplify_eq. }
      pose proof (length_plug fs (TLeaf p es nx1)) as Hlf. simpl in Hlf.
      destruct (relink_leaf_spec (B := B) D s2 fs p es nx1 nx0 new F rank path m) as (o & s3 & H3 & Hset).
      * done.
      * by eapply tree_ok_calm.
      * by eapply calm_node_raw.
      * done.
      * by eapply linked_calm.
      * by eapply ordered_calm.
      * rewrite (calm_phys _ _ Hcs2), Hp. right. split; [done|]. lia.
      * by rewrite (calm_denotes _ _ Hcs2).
      * eapply ps_room_le; [by apply (ca_room _ _ Hcs2)|lia].
      * exists o, s3. split; [|by eapply settles_calm]. rewrite (calm_phys _ _ Hcs2), Hp in H3. exact H3.
  - destruct (N.eqb_spec (next_leaf n) 0) as [Hz|Hz].
    + eexists _, s1. split; [done|]. eapply calm_settles; [done|by left|done|eapply ps_room_le; [done|lia]].
    + destruct Hnx as [?|[HFx Hrx]]; [done|]. apply IH; [done|done|]. lia.
Qed.

Lemma update_predecessor_spec {B} D fuel t s F rank old new m :
  tree_ok D B s t -> height t <= fuel -> B <= fuel -> linked B s F rank -> ordered s F rank (leaf_pages t) ->
  old <> 0%N -> F new -> rank new = rank old -> ps_room (pager s) (Datatypes.S (height t + m)) ->
  exists o s', st_ok (update_predecessor_next_leaf fuel old new) s = (Ok o, s') /\
    tree_ok D B s' t /\ later s s' /\ (forall r p, denotes s r p -> denotes s' r p) /\ ps_room (pager s') m.
Proof.
  intros Hok Hh Hb Hl Ho Hold HFn Hrn Hroom. assert (sane s) as Hs by apply Hok.
  assert (exists o s', update_predecessor_next_leaf fuel old new s = (o, s') /\ settles D B m t s o s') as (o & s' & Hrun & Hset).
  2: { destruct Hset as ([->|[e ->]] & Hs'); eexists _, s'; (split; [unfold st_ok; by rewrite Hrun|done]). }
  destruct (stored_node _ _ _ _ (to_stored _ _ _ _ Hok) (nodes_head t)) as (nx & raw & Hn). cbn [fst snd] in Hn.
  destruct (tx_read_node_spec D s (phys s (tpage t)) (tpage t) _ _ _ Hs (denotes_phys _ _) Hn) as (s1 & Hrd & Hc1).
  unfold update_predecessor_next_leaf, get_current_root. unfold st_bind at 1, st_get. rewrite (to_root _ _ _ _ Hok).
  rewrite (st_bind_ok _ _ _ _ _ Hrd).
  assert (exists p s2, (if decide (node_type (relinked (phys s (tpage t)) nx raw (node_of t)) = LeafNode)
      then st_ret (phys s (tpage t))
      else let! node := first_leaf fuel (relinked (phys s (tpage t)) nx raw (node_of t)) in st_ret (page_num node)) s1 = (Ok (phys s p), s2) /\
    calm s s2 /\ p ∈ leaf_pages t) as (p & s2 & H2 & Hc2 & Hp).
  { destruct (first_leaf_spec D fuel t s1 nx raw Hh) as (p & n & s2 & H2 & Hc2 & Hpn & Hp);
      [eapply tx_stored_calm, Hc1; apply Hok|by eapply calm_node_raw|]. rewrite (calm_phys _ _ Hc1) in *.
    destruct t as [q es nx0|q ks ts].
    - rewrite decide_True by done. exists q, s1. split_and!; [done|done|by left].
    - rewrite decide_False by done. exists p, s2. split_and!; [|by eapply tx_calm_trans|done].
      rewrite (st_bind_ok _ _ _ _ _ H2), Hpn. done. }
  rewrite (st_bind_ok _ _ _ _ _ H2).
  assert (F (phys s p)) as HF by (destruct Ho as [Ho _]; rewrite Forall_forall in Ho; by apply Ho).
  assert (new < 2 ^ 64)%N as Hnew by (eapply (ps_used_small (pager s)); [apply Hs|by eapply linked_used]).
  apply (update_chain_spec (B := B) D fuel t s nx raw F rank old new m fuel s2 (phys s p)); try done.
  pose proof (li_bound _ _ _ _ Hl _ HF). lia.
Qed.

(** The next leaf that [insert] gives the leaf is further down the chain. *)
Lemma correct_next_spec {B} D fuel fs p es nx nx0 es' s F rank :
  Forall frame_ok fs -> tree_ok D B s (plug fs (TLeaf p es nx)) -> height (plug fs (TLeaf p es nx)) <= fuel ->
  node_raw D s p (leaf_node p es nx) nx0 [] ->
  linked B s F rank -> ordered s F rank (leaf_pages (plug fs (TLeaf p es nx))) ->
  StronglySorted mark_lt (ctx_before fs ++ (Ent <$> es') ++ ctx_after fs) ->
  (forall e, e ∈ es -> exists e', e' ∈ es' /\ key e' = key e) ->
  exists nx1 s', correct_next fuel (relinked (phys s p) nx0 [] (leaf_node p es' nx)) s =
      (Ok (relinked (phys s p) nx1 [] (leaf_node p es' nx)), s') /\ calm s s' /\ (nx1 < 2 ^ 64)%N /\
    (nx1 = 0%N \/ F nx1 /\ rank nx1 < rank (phys s p)).
Proof.
  intros Hf Hok Hh Hn Hl Ho Hso Hes. assert (sane s) as Hs by apply Hok. set (t := plug fs (TLeaf p es nx)) in *.
  assert (F (phys s p)) as HF by (destruct Ho as [Ho _]; rewrite Forall_forall in Ho; apply Ho, leaf_page_in).
  assert ((nx0 < 2 ^ 64)%N /\ (nx0 = 0%N \/ F nx0 /\ rank nx0 < rank (phys s p))) as Hnx0.
  { split; [by destruct Hn|by eapply leaf_next]. }
  unfold correct_next. change (next_leaf (relinked (phys s p) nx0 [] (leaf_node p es' nx))) with nx0.
  destruct (N.eqb_spec nx0 0) as [->|Hz]; [exists 0%N, s; split_and!; [done|by apply tx_calm_refl, Hs|tauto..]|].
  destruct (stored_node _ _ _ _ (to_stored _ _ _ _ Hok) (nodes_head t)) as (nxr & raw & Hnr). cbn [fst snd] in Hnr.
  destruct (tx_read_node_spec D s (phys s (tpage t)) (tpage t) _ _ _ Hs (denotes_phys _ _) Hnr) as (s1 & Hrd & Hc1).
  unfold get_current_root. unfold st_bind at 1, st_get. rewrite (to_root _ _ _ _ Hok), (st_bind_ok _ _ _ _ _ Hrd).
  case_decide as Hleaf; [exists nx0, s1; tauto|]. clear Hleaf.
  assert (stored D s1 (nodes t)) as Hst1 by (eapply tx_stored_calm, Hc1; apply Hok).
  destruct (is_page_in_tree_spec D fuel t s1 nxr raw nx0 Hh Hst1) as (s2 & H2 & Hc2); [by eapply calm_node_raw|].
  rewrite (calm_phys _ _ Hc1) in H2. rewrite (st_bind_ok _ _ _ _ _ H2). assert (calm s s2) as Hcs2 by (by eapply tx_calm_trans).
  destruct (existsb _ _); [exists nx0, s2; tauto|]. unfold find_correct_next_leaf.
  change (entries (relinked (phys s p) nx0 [] (leaf_node p es' nx))) with es'.
  destruct (last es') as [z|] eqn:Hlast.
  2: { exists nx0, s2. split_and!; [done|done|tauto..]. }
  destruct (find_next_leaf_spec D fuel t s2 nxr raw (key z) Hh) as (s3 & H3 & Hc3);
    [eapply tx_stored_calm, Hcs2; apply Hok|apply Hok|by eapply calm_node_raw|].
  rewrite (calm_phys _ _ Hcs2) in H3. rewrite (st_bind_ok _ _ _ _ _ H3). assert (calm s s3) as Hcs3 by (by eapply tx_calm_trans).
  destruct (first_after (key z) (leaves t)) as [q|] eqn:Hfa; [|exists nx0, s3; tauto].
  exists (phys s q), s3. split_and!; [done|done|..].
  - assert (q ∈ leaf_pages t) as Hq.
    { apply first_after_Some in Hfa as (e & eq & nxq & Hin & _). apply (list_elem_of_fmap_2 (fun l => l.1.1) _ (q, e :: eq, nxq) Hin). }
    eapply (ps_used_small (pager s)); [apply Hs|]. eapply (tx_stored_used D s (nodes t)); [apply Hok|by apply leaf_pages_nodes].
  - right. apply first_after_Some in Hfa as (e & eq & nxq & Hin & Hlt). unfold t in Hin. rewrite leaves_plug in Hin. simpl in Hin.
    pose proof (so_wf _ _ _ (to_stored _ _ _ _ Hok)) as Hwf. apply elem_of_app in Hin as [Hin|Hin].
    { exfalso. eapply str_not_between; [exact Hlt|].
      apply (StronglySorted_app_1_elem_of _ _ _ (Ent e) (Ent z) Hso); [by eapply ctx_leaves1_marks; [..|by left]|].
      apply elem_of_app. left. apply list_elem_of_fmap_2. apply last_Some in Hlast as (l & ->). apply elem_of_app. right. by left. }
    apply elem_of_cons in Hin as [Hin|Hin].
    { exfalso. simplify_eq. destruct (Hes e) as (e' & He' & Hk); [by left|]. rewrite <-Hk in Hlt. eapply last_key_max; [|exact Hlast|exact He'|exact Hlt].
      by apply StronglySorted_app_1_r, StronglySorted_app_1_l in Hso. }
    destruct Ho as [Ho1 Ho2]. unfold leaf_pages, t in Ho1, Ho2. rewrite leaves_plug, !fmap_app in Ho1, Ho2. simpl in Ho1, Ho2.
    assert (q ∈ (fun l => l.1.1) <$> ctx_leaves2 fs) as Hq by (apply (list_elem_of_fmap_2 (fun l => l.1.1) _ (q, e :: eq, nxq) Hin)).
    split.
    + rewrite Forall_forall in Ho1. apply Ho1. apply elem_of_app. right. by right.
    + apply StronglySorted_app_1_r, StronglySorted_inv in Ho2 as [_ Ho2]. rewrite Forall_forall in Ho2. by apply Ho2.
Qed.
End spec.
