(* ===== verification/TxBTreeInsert.v ===== *)
(** * Insertion into the transactional B-tree ([src/src/core/tx_btree.rs])

    [insert] with the node splits that climb the path, its effect on the chain of leaves, and
    [create_empty]. The notions are those of [TxBTreeSpec.v]. *)

From stdpp Require Import base list strings gmap sorting.
From Stdlib Require Import NArith Lia.
From S2P Require Import Prelude Constants Bytes PageStore BTreeNode BTree BTreeSpec TxBTree TxBTreeSpec.

Lemma upsert_entry_place k v es :
  StronglySorted mark_lt (Ent <$> es) ->
  exists l1 l2, upsert_entry (mk_entry k v) es = l1 ++ mk_entry k v :: l2 /\ keys_below k l1 /\ keys_above k l2 /\
    (es = l1 ++ l2 \/ exists e0, key e0 = k /\ es = l1 ++ e0 :: l2).
Proof.
  intros Hso. destruct (leaf_place k es Hso) as (l1 & l2 & H1 & H2 & H3). exists l1, l2. split_and!; try done.
  clear Hso. revert es H3 H1. induction l1 as [|e l1 IH]; intros es H3 H1.
  - destruct H3 as [->|(e0 & <- & ->)]; simpl.
    + destruct l2 as [|e l2]; [done|]. simpl. assert (String.compare (key e) k = Gt) as -> by (apply str_compare_gt, H2; by left). done.
    + by rewrite str_compare_refl.
  - apply keys_below_cons in H1 as (Hlt & _ & H1'). unfold str_lt in Hlt.
    destruct H3 as [->|(e0 & H0 & ->)]; simpl; rewrite Hlt; f_equal; apply IH; [by left|done|right; by exists e0|done].
Qed.

Section insert.
Context {St : Type} `{!PageStore St} `{!PageStoreLaws St} (loose : Prop).
Implicit Types (s : txstate St) (t : tree) (fs : list frame) (D : N -> Prop) (B : nat).

Local Notation stored := (TxBTreeSpec.stored loose).
Local Notation tree_ok B D := (TxBTreeSpec.tree_ok loose B D).

(** *** Allocated pages *)
Lemma allocated_phys q s s' : allocated q s s' -> phys s' = phys s.
Proof. intros Ha. unfold phys. by rewrite (al_cow _ _ _ Ha). Qed.

Lemma allocated_denotes q s s' : allocated q s s' -> denotes s' = denotes s.
Proof. intros Ha. unfold denotes. by rewrite (al_cow _ _ _ Ha). Qed.

Lemma allocated_node_raw D q s s' p n nx raw : allocated q s s' -> node_raw D s p n nx raw -> node_raw D s' p n nx raw.
Proof.
  intros Ha (H1 & H2 & H3 & d & Hd & Hn). unfold node_raw. rewrite (allocated_denotes _ _ _ Ha), (allocated_phys _ _ _ Ha).
  split_and!; [done|done| |].
  - intros c. rewrite (al_cow _ _ _ Ha). apply H3.
  - exists d. split; [by apply (al_keep _ _ _ Ha)|done].
Qed.

Lemma allocated_stored D q s s' l : allocated q s s' -> stored D s l -> stored D s' l.
Proof.
  intros Ha [H1 H2 H3 H4 H5 H6 H7]. split; [apply (al_sane _ _ _ Ha)|rewrite ?(allocated_phys _ _ _ Ha)..|done|done|]; try done.
  - eapply Forall_impl; [exact H2|]. intros x (nx & raw & Hn). exists nx, raw. by eapply allocated_node_raw.
  - eapply Forall_impl; [exact H7|]. intros x Hx Hf. destruct (Hx Hf) as [?|?]; [by left|right].
    rewrite (allocated_phys _ _ _ Ha). by apply (la_own _ _ (al_later _ _ _ Ha)).
Qed.

(** An allocated page is its own, and apart from the pages of the tree. *)
Lemma allocated_page D q s s' l : allocated q s s' -> stored D s l -> phys s' q = q /\ q ∉ phys s' <$> l.*1 /\ cow s' !! q = None.
Proof.
  intros Ha Hst. assert (cow s' !! q = None) as Hq by (apply sane_cow_None; [apply (al_sane _ _ _ Ha)|apply (al_own _ _ _ Ha)]).
  split_and!; [unfold phys; by rewrite Hq| |done]. rewrite (allocated_phys _ _ _ Ha).
  intros (p & Hp & Hin)%list_elem_of_fmap. apply (al_fresh _ _ _ Ha). rewrite Hp. by eapply tx_stored_used.
Qed.

(** A page of the transaction stays where it is. *)
Lemma own_phys_stays s s' p :
  sane s' -> later s s' -> (forall a b, denotes s a b -> denotes s' a b) -> own s (phys s p) -> phys s' p = phys s p.
Proof.
  intros Hs Hl Hd Ho. pose proof (denotes_resolve s' _ _ Hs (Hd _ _ (denotes_phys s p))) as H.
  rewrite (sane_cow_None s' (phys s p)) in H by (done || by apply (la_own _ _ Hl)). done.
Qed.

(** *** The links after a leaf was split *)
Lemma linked_split {B} p nl q nr s s1 s2 F rank :
  sane s -> rewrote p nl s s1 -> rewrote q nr s1 s2 -> used s (phys s p) -> own s q -> phys s p <> q ->
  linked B s F rank -> F (phys s p) -> ~ F q -> node_type nl = LeafNode -> node_type nr = LeafNode -> next_leaf nl = q ->
  (next_leaf nr = 0%N \/ F (next_leaf nr) /\ rank (next_leaf nr) < rank (phys s p)) ->
  exists F' rank', linked (Datatypes.S B) s2 F' rank' /\
    (forall x, F x -> F' x /\ rank' x = rank x + (if decide (rank (phys s p) <= rank x) then 1 else 0)) /\
    F' q /\ rank' q = rank (phys s p) /\ F' (phys s2 p) /\ rank' (phys s2 p) = Datatypes.S (rank (phys s p)).
Proof.
  intros Hs Hw1 Hw2 Hu Hoq Hpq Hl HFp HFq Htl Htr Hnl Hnr.
  set (r := rank (phys s p)) in *. set (g := fun n : nat => n + (if decide (r <= n) then 1 else 0)).
  assert (forall a b, a < b -> g a < g b) as Hg by (intros a b Hab; unfold g; repeat case_decide; lia).
  assert (forall a, a < r -> g a = a) as Hgs by (intros a Ha; unfold g; rewrite decide_False by lia; lia).
  assert (g r = Datatypes.S r) as Hgr by (unfold g; rewrite decide_True by lia; lia).
  assert (own s1 q) as Hoq1 by (by apply (la_own _ _ (rw_later _ _ _ _ Hw1))).
  assert (sane s1 /\ sane s2) as [Hs1 Hs2] by (by split; [apply Hw1|apply Hw2]).
  assert (phys s1 q = q) as Hq1 by (unfold phys; by rewrite (sane_cow_None s1 q)).
  assert (own s2 q) as Hoq2 by (by apply (la_own _ _ (rw_later _ _ _ _ Hw2))).
  assert (phys s2 q = q) as Hq2 by (unfold phys; by rewrite (sane_cow_None s2 q)).
  assert (cow s2 = cow s1) as Hcow2 by (destruct (rw_cow _ _ _ _ Hw2) as [[? _]|(? & _)]; done).
  assert (phys s1 p <> q) as Hp1q.
  { destruct (rewrote_fresh p nl s s1 Hw1 Hu) as [->|Hnu]; [done|]. intros He. rewrite He in Hnu. by apply Hnu, (sa_own _ Hs). }
  assert (phys s2 p = phys s1 p) as Hp2 by (unfold phys; by rewrite Hcow2).
  assert (forall x, F x -> x <> q) as HnF by (by intros x Hx ->).
  set (rank' := fun x => if decide (x = q) then r else if decide (x = phys s1 p) then Datatypes.S r else g (rank x)).
  assert (rank' q = r) as Hrq by (unfold rank'; by rewrite decide_True).
  assert (rank' (phys s1 p) = Datatypes.S r) as Hrp by (unfold rank'; rewrite decide_False, decide_True by done; done).
  assert (forall x, F x -> rank' x = g (rank x)) as HrF.
  { intros x Hx. unfold rank'. rewrite decide_False by (by apply HnF). case_decide as Hd; [|done].
    destruct (rewrote_fresh p nl s s1 Hw1 Hu) as [He|Hnu]; [rewrite Hd, He; fold r; by rewrite Hgr|].
    destruct Hnu. rewrite <-Hd. by eapply linked_used. }
  exists (fun x => F x \/ x = q \/ x = phys s1 p), rank'. rewrite Hp2. split_and!; try tauto.
  2: { intros x Hx. split; [by left|]. by rewrite HrF. }
  split.
  - intros x [Hx|[->| ->]].
    + destruct (decide (x = phys s1 p)) as [->|Hxp]; [|].
      * destruct (rw_page _ _ _ _ Hw1) as (d & Hd & Hde). exists d, (with_page (phys s1 p) nl).
        split_and!; [apply (rw_keep _ _ _ _ Hw2); [left; by rewrite Hq1|done]|apply Hde|done|].
        right. change (next_leaf (with_page (phys s1 p) nl)) with (next_leaf nl). rewrite Hnl, Hrq, Hrp. split; [tauto|lia].
      * destruct (li_page _ _ _ _ Hl x Hx) as (d & n & Hd & Hde & Ht & Hnx). exists d, n. split_and!; [|done|done|].
        -- apply (rw_keep _ _ _ _ Hw2); [left; rewrite Hq1; by apply HnF|]. apply (rw_keep _ _ _ _ Hw1); [|done].
           destruct (decide (x = phys s p)) as [->|]; [right|by left].
           destruct (rw_cow _ _ _ _ Hw1) as [[He _]|(Ho & -> & _)]; [|done]. destruct Hxp. unfold phys. by rewrite He.
        -- destruct Hnx as [?|[HFn Hrn]]; [by left|right]. rewrite !HrF by done. split; [tauto|by apply Hg].
    + destruct (rw_page _ _ _ _ Hw2) as (d & Hd & Hde). rewrite Hq2 in Hd. exists d, (with_page q nr).
      split_and!; [done|apply Hde|done|]. change (next_leaf (with_page q nr)) with (next_leaf nr).
      destruct Hnr as [?|[HFn Hrn]]; [by left|right]. rewrite HrF, Hrq, Hgs by done. split; [tauto|done].
    + destruct (rw_page _ _ _ _ Hw1) as (d & Hd & Hde). exists d, (with_page (phys s1 p) nl).
      split_and!; [apply (rw_keep _ _ _ _ Hw2); [left; by rewrite Hq1|done]|apply Hde|done|].
      right. change (next_leaf (with_page (phys s1 p) nl)) with (next_leaf nl). rewrite Hnl, Hrq, Hrp. split; [tauto|lia].
  - intros a b Ha Hab. destruct Ha as [Ha|[->| ->]].
    2: { by rewrite (sane_cow_None s2 q) in Hab. }
    2: { rewrite Hcow2, (sane_cow_None s1 (phys s1 p)) in Hab; [done|done|by eapply rewrote_own_phys]. }
    assert (F b /\ rank b = rank a \/ (a = p /\ b = phys s1 p /\ phys s p = p)) as [[Hb He]|(-> & -> & Hpp)].
    { rewrite Hcow2 in Hab. destruct (rw_cow _ _ _ _ Hw1) as [[Hc _]|(_ & Hpp & q' & Hc & _)].
      - left. rewrite Hc in Hab. by apply (li_cow _ _ _ _ Hl).
      - rewrite Hc, lookup_insert_Some in Hab. destruct Hab as [[<- <-]|[_ Hab]].
        + right. split_and!; [done| |done]. unfold phys. by rewrite Hc, lookup_insert_eq.
        + left. by apply (li_cow _ _ _ _ Hl). }
    + split; [tauto|]. by rewrite !HrF, He.
    + split; [tauto|]. rewrite Hrp, HrF, <-Hgr by done. unfold r. by rewrite Hpp.
  - intros x [Hx|[->| ->]]; [rewrite HrF by done|rewrite Hrq|rewrite Hrp].
    + pose proof (li_bound _ _ _ _ Hl x Hx). unfold g. case_decide; lia.
    + pose proof (li_bound _ _ _ _ Hl _ HFp). unfold r. lia.
    + pose proof (li_bound _ _ _ _ Hl _ HFp). unfold r. lia.
Qed.
(** *** A new root *)
Lemma new_root_stored D s l r : stored D s l -> stored D (mk_txstate (pager s) (tx_writes s)
  (mk_tx (snapshot_root (tree_ s)) r (cow_pages (tree_ s)) (new_pages (tree_ s)))) l.
Proof. by intros [[] H2 H3 H4 H5 H6 H7]; split; [split|..]. Qed.

Lemma linked_allocated {B} q s s' F rank :
  allocated q s s' -> linked B s F rank -> linked B s' F rank /\ ~ F q.
Proof.
  intros Ha Hl. split; [eapply linked_keep; [apply (al_cow _ _ _ Ha)|apply (al_keep _ _ _ Ha)|done]|].
  intros HF. apply (al_fresh _ _ _ Ha). by eapply linked_used.
Qed.

Lemma ordered_allocated q s s' F rank ps : allocated q s s' -> ordered s F rank ps -> ordered s' F rank ps.
Proof. intros Ha. unfold ordered. by rewrite (allocated_phys _ _ _ Ha). Qed.

Lemma tx_create_new_root_spec D s k a b x1 x2 p0 l m :
  stored D s l -> ps_room (pager s) (Datatypes.S (Datatypes.S m)) -> key_short k -> (x1 < 2 ^ 64)%N -> (x2 < 2 ^ 64)%N ->
  denotes s a x1 -> denotes s b x2 -> clean_in D s [a; b] -> current_root (tree_ s) = phys s p0 -> p0 ∈ l.*1 ->
  exists r s', create_new_root a k b s = (Ok tt, s') /\ stored D s' ((r, internal_node r [k] [x1; x2]) :: l) /\
    current_root (tree_ s') = phys s' r /\ later s s' /\ ps_room (pager s') m /\
    forall B ps, links_ok B s ps -> links_ok B s' ps.
Proof.
  intros Hst Hroom Hk Hx1 Hx2 Ha Hb Hcl Hr Hp0. pose proof (so_sane _ _ _ _ Hst) as Hs.
  destruct (alloc_min_spec s (Datatypes.S m) Hs) as (r & s0 & s1 & Hal & Hset & Hall & Hr1);
    [rewrite Hr; by eapply tx_stored_used|done|].
  destruct (allocated_page D r s s1 l Hall Hst) as (Hpr & Hfr & Hcr).
  pose proof (allocated_stored D r s s1 l Hall Hst) as Hst1.
  destruct (put_stored loose D s1 r (internal_node r [k] [x1; x2]) 0 [a; b] l m Hst1) as (s2 & Hw & Hrw & Hr2 & Hn2 & Hst2); try done.
  - by rewrite Hpr.
  - rewrite Hpr. apply (al_used _ _ _ Hall).
  - rewrite Hpr. apply (al_nonzero _ _ _ Hall).
  - by right.
  - split; [simpl; unfold BTREE_ORDER; lia|]. split; [done|]. split; [by apply Forall_singleton|]. by repeat constructor.
  - rewrite (allocated_denotes _ _ _ Hall). constructor; [done|]. constructor; [done|constructor].
  - intros c Hc. rewrite (al_cow _ _ _ Hall). by apply Hcl.
  - assert (own s1 r) as Ho by apply (al_own _ _ _ Hall).
    assert (phys s2 r = r) as Hpr2 by (rewrite <-Hpr at 2; apply own_phys_stays; [apply Hrw|apply Hrw| |by rewrite Hpr];
      apply (rewrote_denotes r _ s1 s2 (so_sane _ _ _ _ Hst1) Hrw)).
    eexists r, _. split; [|split; [apply new_root_stored; eapply stored_weaken, Hst2|split; [|split; [|split]]]].
    + unfold create_new_root, get_current_root. unfold st_bind at 1, st_get.
      rewrite (st_bind_ok _ _ _ _ _ Hal), (st_bind_ok _ _ _ _ _ Hset).
      rewrite Hpr in Hw. change (mk_node r InternalNode 1 0 [] 0 [k] [a; b]) with (relinked r 0 [a; b] (internal_node r [k] [x1; x2])).
      rewrite (st_bind_ok _ _ _ _ _ Hw). unfold set_tree, st_modify. done.
    + intros x [?|[-> Hx]]; [done|]. by rewrite Hpr, Hpr2 in Hx.
    + unfold current_root at 1. simpl. rewrite (proj2 (N.eqb_neq (phys s2 r) 0)) by apply (rw_nonzero _ _ _ _ Hrw). done.
    + destruct (later_trans _ _ _ (al_later _ _ _ Hall) (rw_later _ _ _ _ Hrw)). by split.
    + done.
    + intros B ps (F & rank & Hl & Hor). destruct (linked_allocated r s s1 F rank Hall Hl) as [Hl1 HF].
      destruct (linked_other r _ s1 s2 F rank ps Hrw Hl1) as [[L1 L2 L3] Hor2]; [by eapply ordered_allocated|by rewrite Hpr|].
      exists F, rank. split; [by split|done].
Qed.

(** *** The parent's pointer to the left half *)
Lemma repoint_spec D s p n l nx raw c a y :
  stored (and_ D c) s ((p, n) :: l) -> node_raw (and_ D c) s p n nx raw ->
  (forall z, z ∈ children n -> z ∈ ((p, n) :: l).*1) -> NoDup (children n) -> y ∈ children n ->
  denotes s c y -> denotes s a y -> clean_in D s [a] ->
  let raw' := if (c =? a)%N then raw else replace_child c a raw in
  Forall2 (denotes s) raw' (children n) /\ clean_in D s raw'.
Proof.
  intros Hst (_ & Hr & Hcl & _) Hch Hnd Hy Hc Ha Hca. pose proof (so_sane _ _ _ _ Hst) as Hs.
  assert (forall z, z ∈ children n -> phys s z = phys s y -> z = y) as Hinj.
  { intros z Hz He. eapply stored_phys_inj; [exact Hst|by apply Hch|by apply Hch|done]. }
  assert (NoDup raw) as Hnr.
  { eapply denotes_inj_nodup; [done|exact Hr|done|]. apply NoDup_fmap_2_strong; [|done].
    intros u v Hu Hv He. eapply stored_phys_inj; [exact Hst|by apply Hch|by apply Hch|done]. }
  intros raw'. unfold raw'. destruct (N.eqb_spec c a) as [->|Hne].
  { split; [done|]. intros x Hx Hcow. destruct (Hcl x Hx Hcow) as [?| ->]; [done|]. apply Hca; [by left|done]. }
  split.
  - clear -Hr Hinj Hc Ha Hs. induction Hr as [|r z raw ys Hrz Hf IH]; [constructor|]. simpl.
    destruct (N.eqb_spec r c) as [->|Hne].
    + constructor; [|done]. assert (z = y) as ->; [|done]. apply Hinj; [by left|].
      by rewrite <-(denotes_resolve s c z), <-(denotes_resolve s c y).
    + constructor; [done|]. apply IH. intros u Hu. apply Hinj. by right.
  - intros x Hx Hcow. apply replace_child_elem in Hx as [->|[Hx Hxc]]; [apply Hca; [by left|done]| |done].
    by destruct (Hcl x Hx Hcow) as [?| ->].
Qed.

Lemma insert_into_parent_runs split f y q nx ra x rb k b path s t1 t2 :
  length ra = length (f_ks1 f) -> child_index k (f_ks1 f ++ f_ks2 f) = length (f_ks1 f) ->
  insert_into_parent split (relinked q nx (ra ++ x :: rb) (frame_node f y)) k b path s =
    if decide (BTREE_ORDER < length (f_ks1 f ++ k :: f_ks2 f))
    then split (relinked q nx (ra ++ x :: b :: rb) (node_of (widened f t1 k t2))) path s
    else (let! _ := write_node (relinked q nx (ra ++ x :: b :: rb) (node_of (widened f t1 k t2))) in
      update_path_after_modification path) s.
Proof.
  intros Hl Hi. unfold insert_into_parent, frame_node. simpl. rewrite Hi.
  unfold of_index. unfold st_bind at 1 2. unfold st_lift at 1 2. rewrite vec_insert_app by done. simpl.
  rewrite (cons_middle x), app_assoc, vec_insert_app by (rewrite length_app; simpl; lia).
  simpl. rewrite <-app_assoc. simpl. by case_decide.
Qed.
(** *** The two halves of a node *)

(** The state after a node at [p] was written as the halves [n1] at [p] and [n2] at the
    allocated page [q]. *)
Record halved D s (l : list (N * BTreeNode)) p n1 q n2 s' : Prop := {
  ha_stored : stored (copied_in p s s' D) s' ((q, n2) :: (p, n1) :: l);
  ha_later : later s s';
  ha_denotes x y : denotes s x y -> denotes s' x y;
  ha_root r : r ∈ p :: l.*1 -> current_root (tree_ s) = phys s r -> current_root (tree_ s') = phys s' r;
  ha_fresh : cow s' !! q = None;
  ha_own : own s' (phys s' p);
  ha_copied x : denotes s x p -> phys s' p <> phys s p -> x = p }.

Lemma halves_written D s0 s p q n1 n2 x1 x2 r1 r2 l m :
  allocated q s0 s -> stored D s0 l -> phys s0 p ∉ phys s0 <$> l.*1 -> used s0 (phys s0 p) -> phys s0 p <> 0%N ->
  shaped n1 -> node_wf (p, n1) -> next_ok n1 x1 -> Forall2 (denotes s0) r1 (children n1) -> clean_in D s0 r1 ->
  shaped n2 -> node_wf (q, n2) -> next_ok n2 x2 -> Forall2 (denotes s0) r2 (children n2) -> clean_in D s0 r2 ->
  ps_room (pager s) (Datatypes.S (Datatypes.S m)) ->
  exists s1 s2, write_node (relinked (phys s0 p) x1 r1 n1) s = (Ok (phys s2 p), s1) /\
    write_node (relinked q x2 r2 n2) s1 = (Ok q, s2) /\
    rewrote p (relinked (phys s0 p) x1 r1 n1) s s1 /\ rewrote q (relinked q x2 r2 n2) s1 s2 /\
    phys s1 q = q /\ halved D s0 l p n1 q n2 s2 /\ ps_room (pager s2) m.
Proof.
  intros Hall Hst Hnp Hup Hzp Hsh1 Hwf1 Hnx1 Hr1 Hcl1 Hsh2 Hwf2 Hnx2 Hr2 Hcl2 Hroom.
  destruct (allocated_page D q s0 s _ Hall Hst) as (Hpq & Hfq & Hcq).
  pose proof (allocated_stored D q s0 s _ Hall Hst) as Hst0. pose proof (allocated_phys _ _ _ Hall) as Hpa.
  pose proof (allocated_denotes _ _ _ Hall) as Hda. pose proof (al_cow _ _ _ Hall) as Hca.
  assert (used s (phys s p)) as Hup1 by (rewrite Hpa; by apply (la_used _ _ (al_later _ _ _ Hall))).
  assert (phys s p <> q) as Hpq0 by (rewrite Hpa; intros He; apply (al_fresh _ _ _ Hall); by rewrite <-He).
  assert (forall x, x ∈ p :: l.*1 -> phys s x = phys s p -> x = p) as Hinj.
  { rewrite Hpa. intros x [->|Hx]%elem_of_cons He; [done|]. destruct Hnp. rewrite <-He. by apply list_elem_of_fmap_2. }
  assert (forall x, x ∈ p :: l.*1 -> phys s x <> q) as Hxq.
  { intros x [->|Hx]%elem_of_cons; [done|]. intros <-. apply Hfq. by apply list_elem_of_fmap_2. }
  rewrite <-Hpa, <-Hda in *. destruct (put_stored loose D s p n1 x1 r1 l (Datatypes.S m) Hst0) as (s1 & Hw1 & Hrw1 & Hrm1 & _ & Hst1); try done.
  { intros x Hx. rewrite Hca. by apply Hcl1. }
  pose proof (so_sane _ _ _ _ Hst0) as Hs0. pose proof (so_sane _ _ _ _ Hst1) as Hs1.
  pose proof (rewrote_denotes p _ s s1 Hs0 Hrw1) as Hd1. assert (own s q) as Ho by apply (al_own _ _ _ Hall).
  assert (phys s1 q = q) as Hpq1 by (rewrite <-Hpq at 2; apply own_phys_stays; [done|apply Hrw1|done|by rewrite Hpq]).
  assert (phys s1 p <> q) as Hpq2.
  { destruct (rewrote_fresh p _ s s1 Hrw1 Hup1) as [->|Hnu]; [done|]. intros <-. by apply Hnu, (al_used _ _ _ Hall). }
  destruct (put_stored loose (copied_in p s s1 D) s1 q n2 x2 r2 ((p, n1) :: l) m Hst1) as (s2 & Hw2 & Hrw2 & Hrm2 & _ & Hst2); try done.
  { rewrite Hpq1. intros (x & Hx & Hin)%list_elem_of_fmap. apply elem_of_cons in Hin as [->|Hin]; [done|].
    rewrite (rewrote_phys p _ s s1 Hrw1) in Hx.
    - apply Hfq. rewrite Hx. by apply list_elem_of_fmap_2.
    - intros He. apply Hnp. rewrite <-He. by apply list_elem_of_fmap_2. }
  { rewrite Hpq1. by apply (la_used _ _ (rw_later _ _ _ _ Hrw1)), (al_used _ _ _ Hall). }
  { rewrite Hpq1. apply (al_nonzero _ _ _ Hall). }
  { eapply Forall2_impl; [exact Hr2|done]. }
  { apply (rewrote_clean p _ s s1 Hrw1). intros x Hx. rewrite Hca. by apply Hcl2. }
  rewrite Hpq1 in Hw2, Hrw2. pose proof (rewrote_denotes q _ s1 s2 Hs1 Hrw2) as Hd2.
  assert (own s1 q) as Ho1 by (by apply (la_own _ _ (rw_later _ _ _ _ Hrw1))).
  assert (phys s2 q = q) as Hpq3 by (rewrite <-Hpq1 at 2; apply own_phys_stays; [apply Hrw2|apply Hrw2|done|by rewrite Hpq1]).
  assert (phys s2 p = phys s1 p) as Hp2 by (apply (rewrote_phys q _ s1 s2 Hrw2); by rewrite Hpq1).
  exists s1, s2. rewrite Hpq3 in Hw2. split_and!; [by rewrite Hp2|done..| |done]. split.
  - eapply stored_weaken, Hst2. unfold copied_in. rewrite Hpq1, Hpq3, Hp2, <-Hpa. tauto.
  - eapply later_trans; [apply (al_later _ _ _ Hall)|]. eapply later_trans; [apply Hrw1|apply Hrw2].
  - intros x y Hxy. apply Hd2, Hd1. by rewrite Hda.
  - intros r Hr Hroot. eapply (root_rewrote q _ s1 s2); [exact Hrw2| |].
    + rewrite Hpq1. intros He. exfalso. destruct (decide (phys s r = phys s p)) as [Hep|Hnp'].
      * by rewrite (Hinj r Hr Hep) in He.
      * rewrite (rewrote_phys p _ s s1 Hrw1) in He by done. by eapply Hxq.
    + eapply (root_rewrote p _ s s1); [exact Hrw1|by apply Hinj|by rewrite (al_root _ _ _ Hall), Hpa].
  - by apply sane_cow_None; [apply Hrw2|apply (la_own _ _ (rw_later _ _ _ _ Hrw2))].
  - rewrite Hp2. apply (la_own _ _ (rw_later _ _ _ _ Hrw2)). by eapply rewrote_own_phys.
  - intros x Hx Hne. eapply (copied_denotes p _ s s1); [exact Hrw1|by rewrite Hda|]. by rewrite <-Hp2, Hpa.
Qed.

(** *** Splitting an internal node *)
Lemma tx_split_internal_run pr D p ks cs raw path s l m :
  stored D s l -> phys s p ∉ phys s <$> l.*1 -> used s (phys s p) -> phys s p <> 0%N ->
  (forall B F rank, linked B s F rank -> ~ F (phys s p)) -> ps_room (pager s) (Datatypes.S (Datatypes.S (Datatypes.S m))) ->
  length ks = Datatypes.S BTREE_ORDER -> length cs = Datatypes.S (length ks) ->
  Forall key_short ks -> Forall (fun c => c < 2 ^ 64)%N cs -> Forall2 (denotes s) raw cs -> clean_in D s raw ->
  exists q s' ka kp kb ca cb,
    split_internal pr (relinked (phys s p) 0 raw (internal_node p ks cs)) path s = pr (phys s p) kp q path s' /\
    ks = ka ++ kp :: kb /\ cs = ca ++ cb /\ length ca = Datatypes.S (length ka) /\ length cb = Datatypes.S (length kb) /\
    halved D s l p (internal_node p ka ca) q (internal_node q kb cb) s' /\ ps_room (pager s') m /\
    forall B ps, links_ok B s ps -> links_ok B s' ps.
Proof.
  intros Hst Hnp Hup Hzp Hlf Hroom Hl Hc Hks Hcs Hraw Hcl. unfold BTREE_ORDER in Hl. pose proof (so_sane _ _ _ _ Hst) as Hs.
  set (mid := length ks / 2). assert (mid = 25) as Hmid by (unfold mid; by rewrite Hl).
  destruct (lookup_lt_is_Some_2 ks mid) as [kp Hkp]; [lia|].
  pose proof (take_drop_middle ks _ _ Hkp) as Hk. pose proof (take_drop (mid + 1) cs) as Hcc. pose proof (take_drop (mid + 1) raw) as Hrr.
  pose proof (Forall2_length _ _ _ Hraw) as Hlr.
  set (ka := take mid ks) in *. set (kb := drop (Datatypes.S mid) ks) in *.
  set (ca := take (mid + 1) cs) in *. set (cb := drop (mid + 1) cs) in *.
  set (ra := take (mid + 1) raw) in *. set (rb := drop (mid + 1) raw) in *.
  assert (length ka = 25 /\ length ca = 26 /\ length ra = 26) as (Hka & Hca & Hra)
    by (unfold ka, ca, ra; rewrite !length_take; lia).
  assert (length kb = 25 /\ length cb = 26) as (Hkb & Hcb) by (unfold kb, cb; rewrite !length_drop; lia).
  rewrite <-Hk in Hks. apply Forall_app in Hks as [Hksa [Hkp' Hksb]%Forall_cons].
  rewrite <-Hcc in Hcs. apply Forall_app in Hcs as [Hcsa Hcsb].
  assert (clean_in D s ra /\ clean_in D s rb) as [Hcla Hclb].
  { split; intros x Hx; apply Hcl; rewrite <-Hrr; apply elem_of_app; [by left|by right]. }
  unfold split_internal. simpl keys. simpl children.
  destruct (alloc_spec s (Datatypes.S (Datatypes.S m)) Hs Hroom) as (q & s0 & s1 & Hal & Hset & Hall & Hr1).
  rewrite (st_bind_ok _ _ _ _ _ Hal), (st_bind_ok _ _ _ _ _ Hset).
  fold mid. rewrite Hkp. unfold of_index at 1. unfold st_bind at 1. simpl.
  assert (split_off (mid + 1) ks = Some (ka ++ [kp], kb)) as ->.
  { rewrite <-Hk, cons_middle, app_assoc. apply split_off_app. rewrite length_app. simpl. lia. }
  assert (split_off (mid + 1) raw = Some (ra, rb)) as -> by (rewrite <-Hrr; apply split_off_app; lia).
  unfold of_index. unfold st_bind at 1. simpl. unfold st_bind at 1. simpl. rewrite vec_pop_snoc. simpl.
  assert (internal_wf ka ca /\ internal_wf kb cb) as [Hwa Hwb] by (split; split_and!; try done; unfold BTREE_ORDER; lia).
  destruct (halves_written D s s1 p q (internal_node p ka ca) (internal_node q kb cb) 0 0 ra rb l m)
    as (s2 & s3 & Hw2 & Hw3 & Hrw2 & Hrw3 & Hpq2 & Hha & Hr3); try done; [by right|by apply Forall2_take|by right|by apply Forall2_drop|].
  change (mk_node (phys s p) InternalNode (wrap_u16 (N.of_nat (length ka))) 0 [] 0 ka ra)
    with (relinked (phys s p) 0 ra (internal_node p ka ca)).
  change (mk_node q InternalNode (wrap_u16 (N.of_nat (length kb))) 0 [] 0 kb rb) with (relinked q 0 rb (internal_node q kb cb)).
  rewrite (st_bind_ok _ _ _ _ _ Hw2), (st_bind_ok _ _ _ _ _ Hw3).
  exists q, s3, ka, kp, kb, ca, cb. split_and!; [done|done|done|lia|lia|done|done|].
  intros B ps (F & rank & HL & Hor). destruct (linked_allocated q s s1 F rank Hall HL) as [HL1 HF].
  destruct (linked_other p _ s1 s2 F rank ps Hrw2 HL1) as [HL2 Hor2];
    [by eapply ordered_allocated|rewrite (allocated_phys _ _ _ Hall); by eapply Hlf|].
  destruct (linked_other q _ s2 s3 F rank ps Hrw3 HL2 Hor2) as [HL3 Hor3]; [by rewrite Hpq2|]. by exists F, rank.
Qed.

(** *** Splits climbing the path *)

(** The two halves of a node and the separator between them, in the place of a subtree. *)
Record tx_split D B s fs t1 (k : string) t2 : Prop := {
  ts_stored : stored D s (ctx_nodes fs (tpage t1) ++ nodes t1 ++ nodes t2);
  ts_frames : Forall frame_ok fs;
  ts_sorted : StronglySorted mark_lt (ctx_before fs ++ marks t1 ++ Sep k :: marks t2 ++ ctx_after fs);
  ts_key : key_short k;
  ts_links : links_ok B s ((fun l => l.1.1) <$> ctx_leaves1 fs ++ leaves t1 ++ leaves t2 ++ ctx_leaves2 fs);
  ts_root : current_root (tree_ s) = phys s (tpage (plug fs t1)) }.

Lemma stored_small D s l p : stored D s l -> p ∈ l.*1 -> (p < 2 ^ 64)%N.
Proof.
  intros Hst Hp. pose proof (so_sane _ _ _ _ Hst) as Hs. pose proof (tx_stored_used _ _ _ _ _ Hst Hp) as Hu.
  apply (ps_used_small (pager s)); [apply Hs|]. unfold phys in Hu.
  destruct (cow s !! p) as [q|] eqn:Hq; [|done]. by apply (sa_cow _ Hs) in Hq as (_ & _ & ? & _).
Qed.

Lemma plug_nodes fs t : nodes (plug fs t) ≡ₚ ctx_nodes fs (tpage t) ++ nodes t.
Proof. apply nodes_plug. Qed.

(** A page above the halves, or the left half's, is no child in the right half. *)
Lemma not_in_right D s l1 t1 t2 c :
  stored D s (l1 ++ nodes t1 ++ nodes t2) -> c ∈ (l1 ++ nodes t1).*1 -> c ∉ kids (nodes t2).
Proof.
  intros Hst Hc Hk. apply stored_nodup in Hst. rewrite app_assoc, fmap_app in Hst.
  apply NoDup_app in Hst as (_ & Hd & _). apply (Hd c Hc). by apply kids_in_nodes.
Qed.

(** No other node than the parent has the left half as a child. *)
Lemma left_child_once D s f fs t1 t2 :
  stored D s ((f_page f, frame_node f (tpage t1)) :: frame_nodes f ++ ctx_nodes fs (f_page f) ++ nodes t1 ++ nodes t2) ->
  NoDup (children (frame_node f (tpage t1))) /\
  tpage t1 ∉ kids (frame_nodes f ++ ctx_nodes fs (f_page f) ++ nodes t1 ++ nodes t2) /\
  forall z, z ∈ children (frame_node f (tpage t1)) ->
    z ∈ ((f_page f, frame_node f (tpage t1)) :: frame_nodes f ++ ctx_nodes fs (f_page f) ++ nodes t1 ++ nodes t2).*1.
Proof.
  intros Hst. pose proof (nodes_plug_parent f fs t1) as Hp.
  assert (stored D s (nodes (plug (f :: fs) t1))) as Hpl.
  { rewrite Hp. rewrite !app_assoc, app_comm_cons in Hst. apply tx_stored_app in Hst as [Hst _]. by rewrite <-!app_assoc in Hst. }
  assert (tpage t1 ∈ children (frame_node f (tpage t1))) as Hin by (simpl; apply elem_of_app; right; by left).
  split_and!.
  - pose proof (kids_nodup _ _ _ _ Hpl) as Hk. rewrite Hp in Hk.
    change (kids (?x :: ?l)) with (children x.2 ++ kids l) in Hk. by apply NoDup_app in Hk as [? _].
  - rewrite !app_assoc, kids_app, <-!app_assoc. intros [Hk|Hk]%elem_of_app.
    + eapply child_once; [exact Hp|by eapply stored_nodup|exact Hin|exact Hk].
    + revert Hk. eapply (not_in_right D s ((f_page f, frame_node f (tpage t1)) :: frame_nodes f ++ ctx_nodes fs (f_page f)) t1); [by rewrite <-app_comm_cons, <-app_assoc|].
      rewrite fmap_app. apply elem_of_app. right. apply tpage_in_nodes.
  - intros z Hz. assert (z ∈ (nodes (plug (f :: fs) t1)).*1) as Hzp.
    { apply kids_in_nodes. rewrite Hp. eapply kids_elem; [by left|done]. }
    revert Hzp. rewrite Hp, !pages_cons, !pages_app. tauto.
Qed.

(** The root of two halves. *)
Lemma promote_root D B fuel t1 k t2 s c a b m :
  tx_split (and_ D c) B s [] t1 k t2 -> denotes s c (tpage t1) -> denotes s a (tpage t1) -> denotes s b (tpage t2) ->
  clean_in D s [a; b] -> ps_room (pager s) (Datatypes.S (Datatypes.S m)) ->
  exists t' s', promote (Datatypes.S fuel) a k b [c] s = (Ok tt, s') /\ tree_ok D B s' t' /\
    marks t' = marks t1 ++ Sep k :: marks t2 /\ later s s' /\ ps_room (pager s') m /\
    forall t0, height t1 <= height t0 -> height t2 <= height t0 -> height t' <= Datatypes.S (height t0).
Proof.
  intros [Hst _ Hso Hk Hlk Hrt] Hc Ha Hb Hcl Hroom. simpl in Hst, Hso, Hlk, Hrt. rewrite app_nil_r in Hso, Hlk.
  pose proof (so_sane _ _ _ _ Hst) as Hs.
  assert (tpage t1 ∈ (nodes t1 ++ nodes t2).*1 /\ tpage t2 ∈ (nodes t1 ++ nodes t2).*1) as [H1 H2].
  { rewrite fmap_app. split; apply elem_of_app; [left|right]; apply tpage_in_nodes. }
  assert (stored D s (nodes t1 ++ nodes t2)) as Hst'.
  { eapply stored_drop; [exact Hst|]. intros Hcow. rewrite (denotes_copied s c (tpage t1)) by done.
    rewrite kids_app. intros [Hin|Hin]%elem_of_app.
    - revert Hin. apply root_no_child. apply tx_stored_app in Hst as [? _]. by eapply stored_nodup.
    - revert Hin. apply (not_in_right (and_ D c) s [] t1); [exact Hst|]. apply tpage_in_nodes. }
  destruct (tx_create_new_root_spec D s k a b (tpage t1) (tpage t2) (tpage t1) _ m Hst' Hroom Hk)
    as (r & s' & Hrun & Hst2 & Hr2 & Hla & Hrm & Hlks); [by eapply stored_small|by eapply stored_small|done..|].
  exists (TNode r [k] [t1; t2]), s'. split_and!; [|split| | |done|].
  - cbn [promote]. rewrite decide_True by done. exact Hrun.
  - cbn [nodes node_of]. simpl. by rewrite app_nil_r.
  - done.
  - simpl. by rewrite app_nil_r.
  - unfold leaf_pages. simpl. rewrite app_nil_r. by apply Hlks.
  - simpl. by rewrite app_nil_r.
  - done.
  - intros t0 ? ?. simpl. lia.
Qed.

(** The parent of two halves, about to get the separator and the pointers [raw]. *)
Record open_parent D B s f fs t1 k t2 (raw : list N) : Prop := {
  op_stored : stored D s (frame_nodes f ++ ctx_nodes fs (f_page f) ++ nodes t1 ++ nodes t2);
  op_apart : phys s (f_page f) ∉ phys s <$> (frame_nodes f ++ ctx_nodes fs (f_page f) ++ nodes t1 ++ nodes t2).*1;
  op_used : used s (phys s (f_page f));
  op_nonzero : phys s (f_page f) <> 0%N;
  op_no_leaf B F rank : linked B s F rank -> ~ F (phys s (f_page f));
  op_full : loose \/ length (f_ks1 f ++ f_ks2 f) <> BTREE_ORDER \/ own s (phys s (f_page f));
  op_raw : Forall2 (denotes s) raw (tpage <$> f_ts1 f ++ t1 :: t2 :: f_ts2 f);
  op_clean : clean_in D s raw;
  op_keys : Forall key_short (f_ks1 f ++ k :: f_ks2 f);
  op_small : Forall (fun c => c < 2 ^ 64)%N (tpage <$> f_ts1 f ++ t1 :: t2 :: f_ts2 f);
  op_length : length (tpage <$> f_ts1 f ++ t1 :: t2 :: f_ts2 f) = Datatypes.S (length (f_ks1 f ++ k :: f_ks2 f));
  op_old : length (f_ks1 f ++ f_ks2 f) <= BTREE_ORDER;
  op_frames : Forall frame_ok (f :: fs);
  op_sorted : StronglySorted mark_lt (ctx_before (f :: fs) ++ marks t1 ++ Sep k :: marks t2 ++ ctx_after (f :: fs));
  op_links : links_ok B s ((fun l => l.1.1) <$> ctx_leaves1 (f :: fs) ++ leaves t1 ++ leaves t2 ++ ctx_leaves2 (f :: fs));
  op_root : current_root (tree_ s) = phys s (tpage (plug (f :: fs) t1)) }.

(** Closing the parent before it is written. *)
Lemma open_parent_close D B s f fs t1 k t2 c nx raw ra x b rb :
  tx_split (and_ D c) B s (f :: fs) t1 k t2 -> denotes s c (tpage t1) -> denotes s b (tpage t2) ->
  node_raw (and_ D c) s (f_page f) (frame_node f (tpage t1)) nx raw ->
  Forall2 (denotes s) ra (tpage <$> f_ts1 f) -> denotes s x (tpage t1) -> Forall2 (denotes s) rb (tpage <$> f_ts2 f) ->
  clean_in D s (ra ++ x :: b :: rb) -> open_parent D B s f fs t1 k t2 (ra ++ x :: b :: rb).
Proof.
  intros [Hst Hfs Hso Hk Hlk Hrt] Hc Hb Hn Hra Hx Hrb Hcl. cbn [ctx_nodes app] in Hst. rewrite <-app_assoc in Hst.
  pose proof (left_child_once _ _ _ _ _ _ Hst) as (_ & Honce & _).
  pose proof (so_wf _ _ _ _ Hst) as [(Hwl & Hwc & Hwk & Hws) _]%Forall_cons. simpl in Hwl, Hwc, Hwk, Hws.
  pose proof (so_full _ _ _ _ Hst) as [Hfu _]%Forall_cons. pose proof (so_sane _ _ _ _ Hst) as Hs.
  apply tx_stored_cons in Hst as (Hst & Hnp & Hup & Hzp & Hat).
  apply stored_drop in Hst; [|intros Hcow; rewrite (denotes_copied s c (tpage t1)) by done; exact Honce].
  split; try done.
  - intros B' F rank. by eapply internal_no_leaf.
  - destruct (decide (length (f_ks1 f ++ f_ks2 f) = BTREE_ORDER)) as [He|]; [|tauto]. destruct Hfu; [done|tauto..].
  - rewrite fmap_app, !fmap_cons. apply Forall2_app; [done|]. constructor; [done|]. by constructor.
  - apply Forall_app in Hwk as [? ?]. apply Forall_app. split; [done|by constructor].
  - rewrite fmap_app, !fmap_cons. apply Forall_app in Hws as [? [? ?]%Forall_cons]. apply Forall_app. split; [done|].
    constructor; [done|]. constructor; [|done]. eapply stored_small; [exact Hst|]. rewrite !pages_app. do 3 right. apply tpage_in_nodes.
  - rewrite length_fmap, !length_app. simpl. apply Forall_cons in Hfs as [[? ?] _]. lia.
Qed.

(** The part of [promote] up to the parent. *)
Lemma promote_parent D B fuel f fs t1 k t2 s l rp c a b :
  tx_split (and_ D c) B s (f :: fs) t1 k t2 -> denotes s rp (f_page f) -> denotes s c (tpage t1) ->
  denotes s a (tpage t1) -> denotes s b (tpage t2) -> clean_in D s [a; b] ->
  exists raw s1, promote (Datatypes.S fuel) a k b ((l ++ [rp]) ++ [c]) s =
      (if decide (BTREE_ORDER < length (f_ks1 f ++ k :: f_ks2 f))
       then split_internal (promote fuel) (relinked (phys s1 (f_page f)) 0 raw (node_of (widened f t1 k t2))) (l ++ [rp]) s1
       else (let! _ := write_node (relinked (phys s1 (f_page f)) 0 raw (node_of (widened f t1 k t2))) in
         update_path_after_modification (l ++ [rp])) s1) /\
    calm s s1 /\ open_parent D B s f fs t1 k t2 raw.
Proof.
  intros Hsp Hrp Hc Ha Hb Hcl. pose proof Hsp as [Hst [Hf Hfs]%Forall_cons Hso Hk Hlk Hrt].
  cbn [ctx_nodes app] in Hst. rewrite <-app_assoc in Hst. pose proof (left_child_once _ _ _ _ _ _ Hst) as (Hnd & _ & Hch).
  set (n0 := frame_node f (tpage t1)) in *. pose proof (so_sane _ _ _ _ Hst) as Hs.
  destruct (stored_node _ _ _ _ _ Hst (list_elem_of_here _ _)) as (nx & raw & Hn). cbn [fst snd] in Hn.
  destruct (tx_read_node_spec _ s rp (f_page f) n0 nx raw Hs Hrp Hn) as (s1 & Hrd & Hc1).
  destruct (repoint_spec D s (f_page f) n0 _ nx raw c a (tpage t1) Hst Hn Hch Hnd) as [Hraw Hclr]; [simpl; apply elem_of_app; right; by left|done|done| |].
  { intros x ->%list_elem_of_singleton. apply Hcl. by left. }
  set (raw' := if (c =? a)%N then raw else replace_child c a raw) in *.
  assert ((if (c =? a)%N then relinked (phys s (f_page f)) nx raw n0 else with_children (replace_child c a raw)
    (relinked (phys s (f_page f)) nx raw n0)) = relinked (phys s (f_page f)) nx raw' n0) as Hpar by (unfold raw'; by destruct (c =? a)%N).
  clearbody raw'. simpl in Hraw. apply Forall2_app_inv_r in Hraw as (ra & rx & Hra & Hrx & Hrawe).
  apply Forall2_cons_inv_r in Hrx as (x & rb & Hx & Hrb & ->). subst raw'.
  assert (nx = 0%N) as -> by apply Hn. exists (ra ++ x :: b :: rb), s1. rewrite (calm_phys _ _ Hc1).
  split; [|split; [done|eapply open_parent_close; try done]].
  2: { intros y Hy. apply elem_of_app in Hy as [Hy|[->|[->|Hy]%elem_of_cons]%elem_of_cons];
      [apply Hclr|apply Hclr|apply Hcl; right; by left|apply Hclr]; apply elem_of_app; [by left|right; by left|right; by right]. }
  assert (length (l ++ [rp]) = Datatypes.S (length l)) as Hlp by (rewrite length_app; simpl; lia).
  cbn [promote]. rewrite decide_False by (rewrite length_app, Hlp; simpl; lia).
  assert (((l ++ [rp]) ++ [c]) !! (length ((l ++ [rp]) ++ [c]) - 2) = Some rp) as ->.
  { rewrite <-app_assoc. apply list_lookup_middle. rewrite length_app. simpl. lia. }
  assert (((l ++ [rp]) ++ [c]) !! (length ((l ++ [rp]) ++ [c]) - 1) = Some c) as ->.
  { apply list_lookup_middle. rewrite length_app, Hlp. simpl. lia. }
  rewrite vec_pop_snoc. cbn [from_option snd]. unfold of_index. unfold st_bind at 1, st_lift at 1. cbn [of_option].
  rewrite (st_bind_ok _ _ _ _ _ Hrd). unfold st_bind at 1, st_lift at 1. cbn [of_option].
  change (children (relinked (phys s (f_page f)) 0 raw n0)) with raw. rewrite Hpar.
  destruct Hf as [Hf1 Hf2]. apply insert_into_parent_runs; [|by eapply sep_place].
  pose proof (Forall2_length _ _ _ Hra) as H. rewrite length_fmap in H. lia.
Qed.

Lemma open_parent_calm D B s s' f fs t1 k t2 raw : calm s s' -> open_parent D B s f fs t1 k t2 raw -> open_parent D B s' f fs t1 k t2 raw.
Proof.
  intros Hc [H1 H2 H3 H4 H5 H6 H7 H8]. split; rewrite ?(calm_phys _ _ Hc), ?(calm_denotes _ _ Hc), ?(ca_tree _ _ Hc); try done.
  - by eapply tx_stored_calm.
  - by apply (ca_used _ _ Hc).
  - intros B' F rank [L1 L2 L3]. apply (H5 B' F rank). split; [|by rewrite <-(calm_cow _ _ Hc)|done].
    intros q Hq. destruct (L1 q Hq) as (d & n & (G1 & G2 & G3) & ?). exists d, n. split; [|done].
    split_and!; [by apply (ca_used _ _ Hc)|by rewrite <-(ca_view _ _ Hc)|by rewrite <-(ca_writes _ _ Hc)].
  - by rewrite (calm_own _ _ _ Hc).
  - intros x. rewrite (calm_cow _ _ Hc). apply H8.
  - by eapply links_ok_calm.
Qed.

Lemma parent_root_in f fs t1 t2 :
  tpage (plug (f :: fs) t1) ∈ f_page f :: (frame_nodes f ++ ctx_nodes fs (f_page f) ++ nodes t1 ++ nodes t2).*1.
Proof.
  pose proof (tpage_in_nodes (plug (f :: fs) t1)) as H. revert H.
  rewrite nodes_plug_parent, pages_cons, !pages_app, elem_of_cons, !pages_app. tauto.
Qed.

(** A parent with room for one more key. *)
Lemma widen_spec D B s f fs t1 k t2 raw l rp m :
  open_parent D B s f fs t1 k t2 raw -> length (f_ks1 f ++ k :: f_ks2 f) <= BTREE_ORDER ->
  Forall2 (denotes s) l (ctx_path fs) -> denotes s rp (f_page f) -> ps_room (pager s) (Datatypes.S (length fs + m)) ->
  exists s', (let! _ := write_node (relinked (phys s (f_page f)) 0 raw (node_of (widened f t1 k t2))) in
      update_path_after_modification (l ++ [rp])) s = (Ok tt, s') /\
    tree_ok D B s' (plug fs (widened f t1 k t2)) /\ later s s' /\ ps_room (pager s') m.
Proof.
  intros Hop Hlen Hl Hrp Hroom. pose proof (op_stored _ _ _ _ _ _ _ _ _ Hop) as Hst. pose proof (so_sane _ _ _ _ Hst) as Hs.
  pose proof (op_frames _ _ _ _ _ _ _ _ _ Hop) as [Hf Hfs]%Forall_cons.
  destruct (put_stored loose D s (f_page f) (node_of (widened f t1 k t2)) 0 raw _ (length fs + m) Hst)
    as (s2 & Hw & Hrw & Hr2 & _ & Hst2); [by eapply op_apart|by eapply op_used|by eapply op_nonzero|by right| |done|by eapply op_raw|by eapply op_clean|done|].
  { split; [done|]. split; [by eapply op_length|]. split; [by eapply op_keys|by eapply op_small]. }
  pose proof (rewrote_denotes _ _ s s2 Hs Hrw) as Hd. rewrite (st_bind_ok _ _ _ _ _ Hw).
  assert (nodes (plug fs (widened f t1 k t2)) ≡ₚ (f_page f, node_of (widened f t1 k t2)) ::
    frame_nodes f ++ ctx_nodes fs (f_page f) ++ nodes t1 ++ nodes t2) as Hp.
  { rewrite nodes_plug. cbn [nodes widened tpage]. pose proof (widened_nodes f t1 t2) as Hwn. rewrite Hwn. solve_Permutation. }
  destruct (tx_update_path_spec loose fs (widened f t1 k t2) D s2 l rp m) as (s3 & Hu & Hst3 & Hcl & Hr3).
  - rewrite Hp. eapply stored_weaken, Hst2. intros x [?|[-> Hx]]; [by left|right]. symmetry. by eapply copied_denotes.
  - eapply Forall2_impl; [exact Hl|]. by apply Hd.
  - by apply Hd.
  - done.
  - exists s3. split_and!; [done| |eapply later_trans; [apply Hrw|apply Hcl]|done].
    destruct (op_links _ _ _ _ _ _ _ _ _ Hop) as (F & rank & HL & Ho).
    destruct (linked_other _ _ s s2 F rank _ Hrw HL Ho) as [HL2 Ho2]; [by eapply op_no_leaf|].
    split; [done| | |].
    + apply (cl_root _ _ _ Hcl). rewrite (tpage_plug fs (widened f t1 k t2) (plug1 f t1)) by done.
      eapply root_rewrote; [exact Hrw| |by eapply op_root]. intros He. pose proof (parent_root_in f fs t1 t2) as [H|H]%elem_of_cons; [done|].
      destruct (op_apart _ _ _ _ _ _ _ _ _ Hop). rewrite <-He. by apply list_elem_of_fmap_2.
    + rewrite marks_plug, widened_marks by done. pose proof (op_sorted _ _ _ _ _ _ _ _ _ Hop) as Hso.
      cbn [ctx_before ctx_after] in Hso. revert Hso. by app_right.
    + apply (cl_links _ _ _ Hcl). unfold leaf_pages. rewrite leaves_plug, widened_leaves. exists F, rank. split; [done|].
      revert Ho2. unfold ctx_leaves1, ctx_leaves2. simpl. by app_right.
Qed.

(** A parent with a key too many. *)
Lemma halve_spec D B pr s f fs t1 k t2 raw l rp m :
  (loose -> forall x, D x) -> open_parent D B s f fs t1 k t2 raw -> BTREE_ORDER < length (f_ks1 f ++ k :: f_ks2 f) ->
  Forall2 (denotes s) l (ctx_path fs) -> denotes s rp (f_page f) -> ps_room (pager s) (Datatypes.S (Datatypes.S (Datatypes.S m))) ->
  exists ta tb kp q ka kb s', split_internal pr (relinked (phys s (f_page f)) 0 raw (node_of (widened f t1 k t2))) (l ++ [rp]) s =
      pr (phys s (f_page f)) kp q (l ++ [rp]) s' /\
    tx_split (and_ D rp) B s' fs (TNode (f_page f) ka ta) kp (TNode q kb tb) /\
    f_ts1 f ++ t1 :: t2 :: f_ts2 f = ta ++ tb /\
    ctx_before fs ++ marks (TNode (f_page f) ka ta) ++ Sep kp :: marks (TNode q kb tb) ++ ctx_after fs =
      ctx_before (f :: fs) ++ marks t1 ++ Sep k :: marks t2 ++ ctx_after (f :: fs) /\
    (forall x y, denotes s x y -> denotes s' x y) /\ clean_in D s' [phys s (f_page f); q] /\ later s s' /\ ps_room (pager s') m.
Proof.
  intros HD Hop Hover Hl Hrp Hroom. pose proof (op_stored _ _ _ _ _ _ _ _ _ Hop) as Hst. pose proof (so_sane _ _ _ _ Hst) as Hs.
  pose proof (op_frames _ _ _ _ _ _ _ _ _ Hop) as [Hf Hfs]%Forall_cons. pose proof (op_keys _ _ _ _ _ _ _ _ _ Hop) as Hks.
  assert (length (f_ks1 f ++ f_ks2 f) = BTREE_ORDER) as Hl50.
  { pose proof (op_old _ _ _ _ _ _ _ _ _ Hop) as Ho. rewrite !length_app in *. simpl in *. lia. }
  destruct (tx_split_internal_run pr D (f_page f) (f_ks1 f ++ k :: f_ks2 f) (tpage <$> f_ts1 f ++ t1 :: t2 :: f_ts2 f) raw (l ++ [rp]) s _ m Hst)
    as (q & s2 & ka & kp & kb & ca & cb & Hrun & Hk' & Hc' & Hla & Hlb & [Hst2 Hlt Hd Hroot Hcq Hown Hdp] & Hroom2 & Hlks);
    [by eapply op_apart|by eapply op_used|by eapply op_nonzero|by eapply op_no_leaf|done|rewrite !length_app in *; simpl in *; lia|
     by eapply op_length|done|by eapply op_small|by eapply op_raw|by eapply op_clean|].
  apply fmap_app_inv in Hc' as (ta & tb & -> & -> & Hts). rewrite length_fmap in Hla, Hlb.
  exists ta, tb, kp, q, ka, kb, s2.
  pose proof (halves_marks f fs t1 k t2 q ka kp kb ta tb Hf Hk' Hts Hla Hlb) as Hm.
  split_and!; [exact Hrun| |done|done|done| |done|done].
  - split; [|done|rewrite Hm; by eapply op_sorted| |rewrite (halves_leaves f fs t1 k t2) by done; apply Hlks; by eapply op_links|].
    + cbn [nodes node_of tpage]. pose proof (widened_nodes f t1 t2) as Hwn. rewrite Hts, fmap_app, concat_app in Hwn.
      assert (ctx_nodes fs (f_page f) ++ ((f_page f, internal_node (f_page f) ka (tpage <$> ta)) :: concat (nodes <$> ta)) ++
        (q, internal_node q kb (tpage <$> tb)) :: concat (nodes <$> tb) ≡ₚ (q, internal_node q kb (tpage <$> tb)) ::
        (f_page f, internal_node (f_page f) ka (tpage <$> ta)) :: frame_nodes f ++ ctx_nodes fs (f_page f) ++ nodes t1 ++ nodes t2) as Hp.
      { trans ((q, internal_node q kb (tpage <$> tb)) :: (f_page f, internal_node (f_page f) ka (tpage <$> ta)) ::
          ctx_nodes fs (f_page f) ++ concat (nodes <$> ta) ++ concat (nodes <$> tb)); [solve_Permutation|rewrite Hwn; solve_Permutation]. }
      rewrite Hp. eapply stored_weaken, Hst2.
      intros x [?|[-> Hx]]; [by left|right]. symmetry. by apply Hdp.
    + rewrite Hk' in Hks. by apply Forall_app in Hks as [_ [? _]%Forall_cons].
    + rewrite (tpage_plug fs _ (plug1 f t1)) by done. apply (Hroot (tpage (plug (f :: fs) t1))); [apply parent_root_in|by eapply op_root].
  - intros x [->| ->%list_elem_of_singleton]%elem_of_cons Hcow; [|rewrite Hcq in Hcow; by destruct Hcow].
    destruct (op_full _ _ _ _ _ _ _ _ _ Hop) as [Hlo|[?|Ho]]; [by apply HD|done|].
    rewrite (sane_cow_None s2) in Hcow; [by destruct Hcow|apply Hst2|]. by apply (la_own _ _ Hlt).
Qed.

Lemma tx_promote_spec fs D B fuel t1 k t2 s l c a b m :
  (loose -> forall x, D x) -> length fs < fuel -> tx_split (and_ D c) B s fs t1 k t2 ->
  Forall2 (denotes s) l (ctx_path fs) -> denotes s c (tpage t1) -> denotes s a (tpage t1) -> denotes s b (tpage t2) ->
  clean_in D s [a; b] -> ps_room (pager s) (3 * length fs + 2 + m) ->
  exists t' s', promote fuel a k b (l ++ [c]) s = (Ok tt, s') /\ tree_ok D B s' t' /\
    marks t' = ctx_before fs ++ marks t1 ++ Sep k :: marks t2 ++ ctx_after fs /\ later s s' /\ ps_room (pager s') m /\
    forall t0, height t1 <= height t0 -> height t2 <= height t0 -> height t' <= Datatypes.S (height (plug fs t0)).
Proof.
  intros HD. revert fuel t1 k t2 s l c a b.
  induction fs as [|f fs IH]; intros [|fuel] t1 k t2 s l c a b Hfuel Hsp Hl Hc Ha Hb Hcl Hroom; simpl in Hfuel; try lia.
  { apply Forall2_nil_inv_r in Hl as ->. cbn [ctx_before ctx_after app plug]. rewrite app_nil_r. by eapply promote_root. }
  unfold ctx_path in Hl. rewrite fmap_cons, reverse_cons in Hl. apply Forall2_app_inv_r in Hl as (l' & lr & Hl' & Hr & ->).
  apply Forall2_cons_inv_r in Hr as (rp & lr' & Hrp & Hnil & ->). apply Forall2_nil_inv_r in Hnil as ->.
  destruct (promote_parent D B fuel f fs t1 k t2 s l' rp c a b) as (raw & s1 & Hrun & Hc1 & Hop); try done. rewrite Hrun.
  apply (open_parent_calm D B s s1) in Hop; [|done]. pose proof (op_frames _ _ _ _ _ _ _ _ _ Hop) as [Hf Hfs]%Forall_cons.
  rewrite <-(calm_denotes _ _ Hc1) in Hl', Hrp. cbn [length] in Hroom. apply (ca_room _ _ Hc1) in Hroom.
  case_decide as Hover.
  - destruct (halve_spec D B (promote fuel) s1 f fs t1 k t2 raw l' rp (3 * length fs + 2 + m))
      as (ta & tb & kp & q & ka & kb & s2 & -> & Hsp2 & Hts & Hm & Hd & Hcl2 & Hla & Hr2); try done; [eapply ps_room_le; [done|lia]|].
    destruct (IH fuel _ _ _ s2 l' rp (phys s1 (f_page f)) q ltac:(lia) Hsp2) as (t' & s3 & H1 & H2 & H3 & H4 & H5 & H6);
      [eapply Forall2_impl; [exact Hl'|apply Hd]|by apply Hd|apply Hd, denotes_phys|by left|done|done|].
    exists t', s3. split_and!; [done|done|by rewrite H3|eapply later_trans; [by apply calm_later|by eapply later_trans]|done|].
    intros t0 Hh1 Hh2. cbn [plug].
    apply H6; apply height_plug1_le; intros u Hu; assert (u ∈ f_ts1 f ++ t1 :: t2 :: f_ts2 f) as Hin by (rewrite Hts; set_solver); set_solver.
  - destruct (widen_spec D B s1 f fs t1 k t2 raw l' rp m) as (s2 & H1 & H2 & H3 & H4); try done; [lia|eapply ps_room_le; [done|lia]|].
    exists (plug fs (widened f t1 k t2)), s2. split_and!; [done|done| |eapply later_trans; [by apply calm_later|done]|done|].
    + rewrite marks_plug, widened_marks by done. cbn [ctx_before ctx_after]. by app_right.
    + intros t0 Hh1 Hh2. cbn [plug]. apply le_S, height_plug_mono, height_plug1_le. intros u Hu. set_solver.
Qed.
(** *** Splitting a leaf *)

(** The leaves after a split, with the right half after the left one. *)
Lemma ordered_split s s' F F' (rank rank' : N -> nat) ps1 p q ps2 :
  ordered s F rank (ps1 ++ p :: ps2) -> 
  (forall x, F x -> F' x /\ rank' x = rank x + (if decide (rank (phys s p) <= rank x) then 1 else 0)) ->
  (forall x, F (phys s x) -> phys s x <> phys s p -> phys s' x = phys s x) ->
  F' (phys s' p) -> rank' (phys s' p) = Datatypes.S (rank (phys s p)) -> F' (phys s' q) -> rank' (phys s' q) = rank (phys s p) ->
  ordered s' F' rank' (ps1 ++ p :: q :: ps2).
Proof.
  intros [H1 H2] HF Hph Hp Hrp Hq Hrq. apply Forall_app in H1 as [Ha [Hp0 Hb]%Forall_cons].
  rewrite Forall_forall in Ha, Hb.
  assert (forall x, x ∈ ps1 -> rank (phys s p) < rank (phys s x)) as Hgt.
  { intros x Hx. apply (StronglySorted_app_1_elem_of _ _ _ _ _ H2 Hx). by left. }
  assert (forall x, x ∈ ps2 -> rank (phys s x) < rank (phys s p)) as Hlt.
  { apply StronglySorted_app_1_r, StronglySorted_inv in H2 as [_ H2]. by rewrite Forall_forall in H2. }
  assert (forall x, x ∈ ps1 \/ x ∈ ps2 -> phys s' x = phys s x) as Hph'.
  { intros x [Hx|Hx]; apply Hph; auto; intros He; [specialize (Hgt x Hx)|specialize (Hlt x Hx)]; rewrite He in *; lia. }
  clear Hph. rename Hph' into Hph.
  assert (forall x, x ∈ ps1 -> F' (phys s' x) /\ Datatypes.S (rank (phys s p)) < rank' (phys s' x)) as H1'.
  { intros x Hx. rewrite Hph by auto. destruct (HF _ (Ha x Hx)) as [? ->]. split; [done|].
    specialize (Hgt x Hx). rewrite decide_True by lia. lia. }
  assert (forall x, x ∈ ps2 -> F' (phys s' x) /\ rank' (phys s' x) < rank (phys s p)) as H2'.
  { intros x Hx. rewrite Hph by auto. destruct (HF _ (Hb x Hx)) as [? ->]. split; [done|].
    specialize (Hlt x Hx). rewrite decide_False by lia. lia. }
  split.
  - apply Forall_app. split; [apply Forall_forall; intros x Hx; by apply H1'|].
    constructor; [done|]. constructor; [done|]. apply Forall_forall. intros x Hx. by apply H2'.
  - assert (forall l, (forall x, x ∈ l -> x ∈ ps1 \/ x ∈ ps2) ->
      StronglySorted (fun a b => rank (phys s b) < rank (phys s a)) l -> 
      StronglySorted (fun a b => rank' (phys s' b) < rank' (phys s' a)) l) as Hsub.
    { intros l Hl Hs. induction Hs as [|x l Hs IH Hx]; constructor; [apply IH; intros y Hy; apply Hl; by right|].
      rewrite Forall_forall in Hx |- *. intros y Hy. specialize (Hx y Hy). simpl in Hx.
      assert (forall z, z ∈ x :: l -> F (phys s z) /\ phys s' z = phys s z) as Hz.
      { intros z Hz. destruct (Hl z Hz) as [Hi|Hi]; (split; [auto|apply Hph; auto]). }
      destruct (Hz x (list_elem_of_here _ _)) as [Fx ->], (Hz y (list_elem_of_further _ _ _ Hy)) as [Fy ->].
      rewrite (proj2 (HF _ Fx)), (proj2 (HF _ Fy)). repeat case_decide; lia. }
    apply StronglySorted_app_2.
    + intros x y Hx [->|[->|Hy]%elem_of_cons]%elem_of_cons; destruct (H1' x Hx); [by rewrite Hrp|rewrite Hrq; lia|].
      destruct (H2' y Hy). lia.
    + apply Hsub; [by left|]. by apply StronglySorted_app_1_l in H2.
    + apply StronglySorted_app_1_r, StronglySorted_inv in H2 as [H2 _].
      assert (forall x, x ∈ ps2 -> rank' (phys s' x) < rank (phys s p)) as H3 by (intros x Hx; by apply H2').
      constructor; [constructor|]; [apply Hsub; [by right|done]|..].
      * apply Forall_forall. intros x Hx. rewrite Hrq. by apply H3.
      * apply Forall_forall. rewrite Hrp. intros x [->|Hx]%elem_of_cons; [rewrite Hrq; lia|]. specialize (H3 x Hx). lia.
Qed.

Lemma split_entries (es : list LeafEntry) : length es = Datatypes.S BTREE_ORDER ->
  exists l1 e1 e l2, es = (l1 ++ [e1]) ++ e :: l2 /\ length (l1 ++ [e1]) = 25 /\ length l2 = 25.
Proof.
  unfold BTREE_ORDER. intros Hl.
  destruct (lookup_lt_is_Some_2 es 24) as [e1 He1]; [lia|]. destruct (lookup_lt_is_Some_2 es 25) as [e He2]; [lia|].
  exists (take 24 es), e1, e, (drop 26 es). rewrite <-(take_S_r _ _ _ He1), take_drop_middle by done.
  rewrite length_take, length_drop. split_and!; [done|lia|lia].
Qed.

(** The two leaves in the chain, before the separator goes up. *)
Lemma split_leaf_halves D B s fs p es nx nx0 l1 e1 e l2 c m :
  Forall frame_ok fs -> tree_ok D B s (plug fs (TLeaf p es nx)) -> node_raw D s p (leaf_node p es nx) nx0 [] ->
  length (l1 ++ [e1]) = 25 -> length l2 = 25 ->
  Forall (fun e => key_short (key e) /\ (value e < 2 ^ 64)%N) ((l1 ++ [e1]) ++ e :: l2) ->
  StronglySorted mark_lt (ctx_before fs ++ (Ent <$> (l1 ++ [e1]) ++ e :: l2) ++ ctx_after fs) ->
  denotes s c p -> ps_room (pager s) (Datatypes.S (Datatypes.S (Datatypes.S m))) ->
  exists q nx1 s0 s1 s2 s3, on_pager ps_alloc s = (Ok q, s0) /\ set_tree (with_new q) s0 = (Ok tt, s1) /\
    nx1 = (if (nx0 =? 0)%N then 0%N else default nx0 (cow s1 !! nx0)) /\
    write_node (relinked (phys s p) q [] (leaf_node p (l1 ++ [e1]) nx)) s1 = (Ok (phys s3 p), s2) /\
    write_node (relinked q nx1 [] (leaf_node q (e :: l2) nx)) s2 = (Ok q, s3) /\
    tx_split (and_ D c) (Datatypes.S B) s3 fs (TLeaf p (l1 ++ [e1]) nx) (key e) (TLeaf q (e :: l2) nx) /\
    later s s3 /\ (forall x y, denotes s x y -> denotes s3 x y) /\ clean_in D s3 [phys s3 p; q] /\ ps_room (pager s3) m.
Proof.
  intros Hf Hok Hn Hl1 Hl2 He Hso Hc Hroom. apply Forall_app in He as [He1 He2].
  destruct (leaf_facts loose (B := B) _ _ _ _ _ _ Hf Hok) as (_ & _ & (_ & _ & Hnx) & Hst). pose proof (so_sane _ _ _ _ Hst) as Hs.
  destruct (to_links _ _ _ _ _ Hok) as (F & rank & HL & Ho).
  assert (F (phys s p)) as HFp by (destruct Ho as [Ho _]; rewrite Forall_forall in Ho; apply Ho, leaf_page_in).
  pose proof (leaf_next D s F rank p _ _ _ HL HFp Hn) as Hlk.
  destruct (alloc_spec s (Datatypes.S (Datatypes.S m)) Hs Hroom) as (q & s0 & s1 & Hal & Hset & Hall & Hr1).
  set (nx1 := if (nx0 =? 0)%N then 0%N else default nx0 (cow s1 !! nx0)).
  assert (nx1 = 0%N \/ F nx1 /\ rank nx1 < rank (phys s p)) as Hlk1.
  { unfold nx1. destruct (N.eqb_spec nx0 0) as [|Hz]; [by left|right]. destruct Hlk as [?|[HF0 Hr0]]; [done|].
    rewrite (al_cow _ _ _ Hall). destruct (cow s !! nx0) as [y|] eqn:Hy; [|done].
    destruct (li_cow _ _ _ _ HL _ _ HF0 Hy) as [? Hry]. simpl. by rewrite Hry. }
  assert (nx1 < 2 ^ 64)%N as Hnx1.
  { destruct Hlk1 as [->|[HF1 _]]; [done|]. eapply (ps_used_small (pager s)); [apply Hs|by eapply linked_used]. }
  pose proof Hst as Hst0. apply tx_stored_cons in Hst0 as (Hctx & Hnp & Hup & Hzp & _).
  assert (q < 2 ^ 64)%N as Hq64 by (apply (ps_used_small (pager s1)); [apply (al_sane _ _ _ Hall)|apply (al_used _ _ _ Hall)]).
  destruct (halves_written D s s1 p q (leaf_node p (l1 ++ [e1]) nx) (leaf_node q (e :: l2) nx) q nx1 [] [] (ctx_nodes fs p) m
    Hall Hctx Hnp Hup Hzp) as (s2 & s3 & Hw2 & Hw3 & Hrw2 & Hrw3 & Hpq2 & [Hst3 Hlt Hd Hroot Hcq Hown Hdp] & Hr3);
    try done; try (by left); try (by intros ? ?%elem_of_nil); try (split_and!; [unfold BTREE_ORDER; simpl; lia|done|done]).
  destruct (linked_allocated q s s1 F rank Hall HL) as [HL1 HFq]. pose proof (allocated_phys _ _ _ Hall) as Hpa.
  rewrite <-Hpa in HFp, Hlk1, Hrw2.
  assert (phys s1 p <> q) as Hpq by (intros <-; done).
  destruct (linked_split p _ q _ s1 s2 s3 F rank (al_sane _ _ _ Hall) Hrw2 Hrw3 (linked_used _ _ _ _ HL1 HFp) (al_own _ _ _ Hall) Hpq HL1 HFp HFq eq_refl eq_refl eq_refl Hlk1)
    as (F' & rank' & HL3 & Hext & HFq' & Hrq' & HFp' & Hrp').
  assert (phys s3 q = q) as Hpq3 by (unfold phys; by rewrite Hcq).
  assert (tx_split (and_ D c) (Datatypes.S B) s3 fs (TLeaf p (l1 ++ [e1]) nx) (key e) (TLeaf q (e :: l2) nx)) as Hsp.
  { split; [|done| |by apply Forall_cons in He2 as [[? _] _]| |].
    - cbn [nodes tpage]. assert (ctx_nodes fs p ++ [(p, leaf_node p (l1 ++ [e1]) nx)] ++ [(q, leaf_node q (e :: l2) nx)] ≡ₚ
        (q, leaf_node q (e :: l2) nx) :: (p, leaf_node p (l1 ++ [e1]) nx) :: ctx_nodes fs p) as Hp by solve_Permutation.
      change (?a ++ [?x] ++ [?y]) with (a ++ [x] ++ [y]). rewrite Hp.
      eapply stored_weaken, Hst3. intros x [?|[-> Hx]]; [by left|right]. symmetry. by apply Hdp.
    - simpl marks. rewrite !fmap_app, !fmap_cons in *. revert Hso. app_right. simpl.
      rewrite !(app_assoc (ctx_before fs)). apply marks_separate.
    - exists F', rank'. split; [done|]. simpl. rewrite fmap_app. unfold leaf_pages in Ho. rewrite leaves_plug, fmap_app in Ho. cbn [fmap list_fmap app leaves fst] in *.
      eapply (ordered_split s1 s3 F F' rank rank'); [by eapply ordered_allocated| |..]; rewrite ?Hpq3; try done.
      intros x HFx Hx. rewrite (rewrote_phys q _ s2 s3 Hrw3).
      + by apply (rewrote_phys p _ s1 s2 Hrw2).
      + rewrite Hpq2, (rewrote_phys p _ s1 s2 Hrw2) by done. by intros He; rewrite He in HFx.
    - apply Hroot; [|rewrite (to_root _ _ _ _ _ Hok); f_equal; by apply tpage_plug].
      pose proof (tpage_in_nodes (plug fs (TLeaf p (l1 ++ [e1]) nx))) as Hin. revert Hin. rewrite nodes_plug, pages_app, elem_of_cons. cbn [nodes tpage fmap list_fmap fst]. rewrite list_elem_of_singleton. tauto. }
  exists q, nx1, s0, s1, s2, s3. split_and!; try done.
  intros x [->| ->%list_elem_of_singleton]%elem_of_cons Hcow; [|rewrite Hcq in Hcow; by destruct Hcow].
  rewrite (sane_cow_None s3) in Hcow; [by destruct Hcow|apply Hst3|done].
Qed.

Lemma tx_split_leaf_spec D B s fs p es nx nx0 es' l c m :
  (loose -> forall x, D x) -> Forall frame_ok fs -> tree_ok D B s (plug fs (TLeaf p es nx)) ->
  node_raw D s p (leaf_node p es nx) nx0 [] -> length es' = Datatypes.S BTREE_ORDER ->
  Forall (fun e => key_short (key e) /\ (value e < 2 ^ 64)%N) es' ->
  StronglySorted mark_lt (ctx_before fs ++ (Ent <$> es') ++ ctx_after fs) ->
  Forall2 (denotes s) l (ctx_path fs) -> denotes s c p -> ps_room (pager s) (3 * length fs + 5 + m) ->
  exists s' t', split_leaf (relinked (phys s p) nx0 [] (leaf_node p es' nx)) (l ++ [c]) s = (Ok tt, s') /\
    tree_ok D (Datatypes.S B) s' t' /\
    tree_entries t' = omap mark_entry (ctx_before fs) ++ es' ++ omap mark_entry (ctx_after fs) /\
    later s s' /\ ps_room (pager s') m /\ height t' <= Datatypes.S (height (plug fs (TLeaf p es nx))).
Proof.
  intros HD Hf Hok Hn Hlen He Hso Hl Hc Hroom. unfold BTREE_ORDER in Hlen.
  destruct (split_entries es' Hlen) as (l1 & e1 & e & l2 & -> & Hl1 & Hl2).
  destruct (split_leaf_halves D B s fs p es nx nx0 l1 e1 e l2 c (3 * length fs + 2 + m) Hf Hok Hn Hl1 Hl2 He Hso Hc)
    as (q & nx1 & s0 & s1 & s2 & s3 & Hal & Hset & Hnx1 & Hw2 & Hw3 & Hsp & Hlt & Hd & Hcl & Hr3); [eapply ps_room_le; [done|lia]|].
  destruct (tx_promote_spec fs D (Datatypes.S B) (length (l ++ [c])) (TLeaf p (l1 ++ [e1]) nx) (key e) (TLeaf q (e :: l2) nx) s3 l c (phys s3 p) q m HD) as (t' & s4 & Hrun & Hok' & Hm & Hla & Hr4 & Hh).
  - pose proof (Forall2_length _ _ _ Hl) as Hll. unfold ctx_path in Hll. rewrite length_reverse, length_fmap in Hll. rewrite length_app. simpl. lia.
  - done.
  - eapply Forall2_impl; [exact Hl|done].
  - by apply Hd.
  - apply denotes_phys.
  - by left.
  - done.
  - done.
  - exists s4, t'. split_and!; [|done| |by eapply later_trans|done|by apply Hh].
    + unfold split_leaf. rewrite (st_bind_ok _ _ _ _ _ Hal), (st_bind_ok _ _ _ _ _ Hset). unfold get_cow_pages. unfold st_bind at 1, st_get at 1.
      change (entries (relinked (phys s p) nx0 [] (leaf_node p ((l1 ++ [e1]) ++ e :: l2) nx))) with ((l1 ++ [e1]) ++ e :: l2).
      rewrite Hlen. change (51 / 2) with 25. rewrite split_off_app by done. unfold of_index. unfold st_bind at 1, st_lift at 1. cbn [of_option].
      cbv beta iota zeta. unfold st_bind at 1, st_lift at 1. simpl. fold (cow s1). rewrite <-Hnx1.
      change (mk_node (phys s p) LeafNode (wrap_u16 (N.of_nat (length (l1 ++ [e1])))) 0 (l1 ++ [e1]) q [] [])
        with (relinked (phys s p) q [] (leaf_node p (l1 ++ [e1]) nx)).
      rewrite (st_bind_ok _ _ _ _ _ Hw2).
      change (mk_node q LeafNode (wrap_u16 (N.pos (Pos.of_succ_nat (length l2)))) 0 (e :: l2) nx1 [] [])
        with (relinked q nx1 [] (leaf_node q (e :: l2) nx)).
      rewrite (st_bind_ok _ _ _ _ _ Hw3). exact Hrun.
    + unfold tree_entries. rewrite Hm. cbn [marks]. rewrite !omap_app, omap_sep, !omap_app, !omap_ents. by app_right.
Qed.
(** *** Inserting *)

(** The write of a leaf that does not split, its predecessor's link and its ancestors. *)
Lemma insert_leaf_spec D B fuel s fs p es nx nx0 es' l c m :
  Forall frame_ok fs -> tree_ok D B s (plug fs (TLeaf p es nx)) -> height (plug fs (TLeaf p es nx)) <= fuel -> B <= fuel ->
  node_raw D s p (leaf_node p es nx) nx0 [] -> leaf_wf es' nx ->
  StronglySorted mark_lt (ctx_before fs ++ (Ent <$> es') ++ ctx_after fs) ->
  (forall e, e ∈ es -> exists e', e' ∈ es' /\ key e' = key e) ->
  Forall2 (denotes s) l (ctx_path fs) -> denotes s c p ->
  ps_room (pager s) (Datatypes.S (Datatypes.S (height (plug fs (TLeaf p es nx)) + (length fs + m)))) ->
  exists s', (let! leaf := correct_next fuel (relinked (phys s p) nx0 [] (leaf_node p es' nx)) in
      let! actual_page := write_node leaf in
      let! _ := if (actual_page =? page_num leaf)%N then st_ret None
        else st_ok (update_predecessor_next_leaf fuel (page_num leaf) actual_page) in
      update_path_after_modification (l ++ [c])) s = (Ok tt, s') /\
    tree_ok D B s' (plug fs (TLeaf p es' nx)) /\ later s s' /\ ps_room (pager s') m.
Proof.
  intros Hf Hok Hh HB Hn Hwf Hso Hes Hl Hc Hroom. destruct (to_links _ _ _ _ _ Hok) as (F & rank & HL & Ho).
  destruct (correct_next_spec loose (B := B) D fuel fs p es nx nx0 es' s F rank) as (nx1 & s1 & Hcn & Hc1 & Hnx1 & Hlk); try done.
  rewrite (st_bind_ok _ _ _ _ _ Hcn). apply (ca_room _ _ Hc1) in Hroom. rewrite <-(calm_phys _ _ Hc1) in *.
  rewrite <-(calm_denotes _ _ Hc1) in Hl, Hc. pose proof (tree_ok_calm loose (B := B) _ _ _ _ Hc1 Hok) as Hok1.
  pose proof (calm_node_raw _ _ _ _ _ _ _ Hc1 Hn) as Hn1. apply (linked_calm _ _ _ _ Hc1) in HL. apply (ordered_calm _ _ _ _ _ Hc1) in Ho.
  destruct (write_leaf_spec loose (B := B) D s1 fs p es nx nx0 es' nx1 F rank (Datatypes.S (height (plug fs (TLeaf p es nx)) + (length fs + m))))
    as (s2 & Hw & Hrw & Hr2 & Hok2 & F2 & rank2 & HL2 & Ho2 & HF2 & HF2' & Hrk2); try done.
  rewrite (st_bind_ok _ _ _ _ _ Hw). change (page_num (relinked (phys s1 p) nx1 [] (leaf_node p es' nx))) with (phys s1 p).
  pose proof (rewrote_denotes p _ s1 s2 (so_sane _ _ _ _ (to_stored _ _ _ _ _ Hok1)) Hrw) as Hd.
  assert (exists o s3, (if (phys s2 p =? phys s1 p)%N then st_ret None
      else st_ok (update_predecessor_next_leaf fuel (phys s1 p) (phys s2 p))) s2 = (Ok o, s3) /\
    tree_ok (copied_in p s1 s2 D) B s3 (plug fs (TLeaf p es' nx)) /\ later s2 s3 /\ (forall r q, denotes s2 r q -> denotes s3 r q) /\
    ps_room (pager s3) (length fs + m)) as (o & s3 & Hup & Hok3 & Hl3 & Hd3 & Hr3).
  { destruct (phys s2 p =? phys s1 p)%N.
    - exists None, s2. split_and!; try done; [apply later_refl|eapply ps_room_le; [done|lia]].
    - rewrite <-(height_plug fs (TLeaf p es' nx) (TLeaf p es nx)) in Hh, Hr2 by done.
      apply (update_predecessor_spec loose (B := B) _ fuel (plug fs (TLeaf p es' nx)) s2 F2 rank2); try done.
      destruct (leaf_facts loose (B := B) _ _ _ _ _ _ Hf Hok1) as (_ & _ & _ & Hst). by apply tx_stored_cons in Hst as (_ & _ & _ & ? & _). }
  rewrite (st_bind_ok _ _ _ _ _ Hup). destruct Hok3 as [Hst3 Hrt3 Hso3 Hlk3].
  destruct (tx_update_path_spec loose fs (TLeaf p es' nx) D s3 l c m) as (s4 & Hu & Hst4 & Hcl & Hr4).
  - eapply stored_weaken, Hst3. intros x [Hx|[-> Hx]]; [by left|right]. symmetry. by eapply copied_denotes.
  - eapply Forall2_impl; [exact Hl|]. intros x y Hxy. by apply Hd3, Hd.
  - by apply Hd3, Hd.
  - done.
  - exists s4. split_and!; [done|split; [done|by apply (cl_root _ _ _ Hcl)|done|by apply (cl_links _ _ _ Hcl)]| |done].
    eapply later_trans; [by apply calm_later|]. eapply later_trans; [apply Hrw|]. eapply later_trans; [done|apply Hcl].
Qed.

(** [insert] sets the key in the map of the tree. *)
Lemma tx_insert_lemma D B s t fuel k v m :
  (loose -> forall x, D x) -> tree_ok D B s t -> height t <= fuel -> B <= fuel -> key_short k -> (v < 2 ^ 64)%N ->
  ps_room (pager s) (3 * height t + 5 + m) ->
  exists B' s' t', insert fuel k v s = (Ok tt, s') /\ tree_ok D B' s' t' /\ B' <= Datatypes.S B /\
    tree_map t' = <[k := v]> (tree_map t) /\ height t' <= Datatypes.S (height t) /\ later s s' /\ ps_room (pager s') m.
Proof.
  intros HD Hok Hh HB Hk Hv Hroom. destruct (tx_tree_find_leaf loose (B := B) D s t fuel k Hok Hh)
    as (p & es & nx & nx' & fs & l & c & s1 & Hf & -> & Hfr & Har & Hc & Hok' & Hn & Hl & Hcp).
  destruct (leaf_facts loose (B := B) _ _ _ _ _ _ Hfr Hok') as (Hall & Hso & (Hlen & Hes & Hnx) & _).
  unfold insert. apply st_bind_inv in Hf as (root & s2 & Hr & Hf). apply st_bind_inv in Hf as (nd & s3 & Hnd & Hf).
  rewrite (st_bind_ok _ _ _ _ _ Hr), (st_bind_ok _ _ _ _ _ Hnd), (st_bind_ok _ _ _ _ _ Hf). cbv beta iota zeta.
  change (entries (relinked (phys s1 p) nx' [] (leaf_node p es nx))) with es.
  destruct (upsert_entry_place k v es Hso) as (l1 & l2 & Hup & H1 & H2 & H3). rewrite Hup.
  destruct (set_in_leaf fs p nx es k v l1 l2 Hfr Har Hall H1 H2 H3) as (Hmap & Hall' & Hl' & Hes').
  set (es' := l1 ++ mk_entry k v :: l2) in *.
  assert (Forall (fun e => key_short (key e) /\ (value e < 2 ^ 64)%N) es') as Hwf' by (by apply Hes').
  change (with_entries es' (relinked (phys s1 p) nx' [] (leaf_node p es nx))) with (relinked (phys s1 p) nx' [] (leaf_node p es' nx)).
  change (entries (relinked (phys s1 p) nx' [] (leaf_node p es' nx))) with es'.
  pose proof (length_plug fs (TLeaf p es nx)) as Hlf. simpl in Hlf. pose proof (calm_later _ _ Hc) as Hcl. apply (ca_room _ _ Hc) in Hroom.
  case_decide as Hover.
  - destruct (tx_split_leaf_spec D B s1 fs p es nx nx' es' l c m) as (s4 & t' & Hrun & Hok4 & Hent & Hla & Hrm & Hh4); try done; [lia|eapply ps_room_le; [done|lia]|].
    exists (Datatypes.S B), s4, t'. split_and!; [done|done|lia| |done|by eapply later_trans|done].
    rewrite <-Hmap. unfold tree_map, tree_entries in *. rewrite Hent.
    rewrite marks_plug, !omap_app by done. simpl marks. by rewrite omap_ents.
  - destruct (insert_leaf_spec D B fuel s1 fs p es nx nx' es' l c m) as (s4 & Hrun & Hok4 & Hla & Hrm); try done.
    + by split_and!; [lia|..].
    + intros e He. unfold es'. destruct H3 as [->|(e0 & <- & ->)]; [exists e; split; [|done]; set_solver|].
      apply elem_of_app in He as [He|[->|He]%elem_of_cons]; [exists e|exists (mk_entry (key e0) v)|exists e]; (split; [set_solver|done]).
    + eapply ps_room_le; [done|lia].
    + exists B, s4, (plug fs (TLeaf p es' nx)). split_and!; [done|done|lia|done| |by eapply later_trans|done].
      by rewrite (height_plug fs (TLeaf p es' nx) (TLeaf p es nx)) by done; lia.
Qed.

(** *** A new tree *)
Lemma create_empty_spec s m D :
  ps_inv (pager s) -> ps_room (pager s) (Datatypes.S (Datatypes.S m)) ->
  exists p s', create_empty s = (Ok tt, s') /\ tree_ok D 1 s' (TLeaf p [] 0) /\ ps_room (pager s') m.
Proof.
  intros Hi Hroom. destruct (ps_alloc_law (pager s) (Datatypes.S m) Hi Hroom) as (p & p1 & Ha & Hi1 & Hnu & Hu & H0 & Hus & Hv & Hr).
  set (s1 := mk_txstate p1 (tx_writes s) (with_new p (tx_new p))).
  assert (sane s1) as Hs1.
  { split; [done|done|done|]. intros q. unfold own, s1. simpl. intros [b Hb]. apply lookup_insert_Some in Hb as [[<- _]|[_ Hb]]; [done|by rewrite lookup_empty in Hb]. }
  assert (stored D s1 []) as Hst by (split; [done|apply Forall_nil_2|apply NoDup_nil_2|apply Forall_nil_2..]).
  assert (own s1 p) as Hop by (exists true; unfold s1; simpl; apply lookup_insert_eq).
  assert (leaf_wf [] 0) as Hwf by (split_and!; [unfold BTREE_ORDER; simpl; lia|apply Forall_nil_2|done]).
  destruct (put_stored loose D s1 p (leaf_node p [] 0) 0 [] [] m Hst) as (s2 & Hw & Hrw & Hr2 & Hn & Hst2); try done;
    [apply not_elem_of_nil|by left|by intros ? ?%elem_of_nil|].
  assert (phys s2 p = p) as Hp by (apply (own_phys_stays s1 s2 p (rw_sane _ _ _ _ Hrw) (rw_later _ _ _ _ Hrw)); [apply (rewrote_denotes p _ s1 s2 Hs1 Hrw)|done]).
  exists p, s2. split_and!; [| |done].
  - unfold create_empty, st_bind at 1, on_pager. rewrite Ha. exact (st_bind_ok _ _ _ _ _ Hw).
  - split.
    + eapply stored_weaken, Hst2. intros x [?|[_ Hx]]; [done|]. by rewrite Hp in Hx.
    + by rewrite (rw_root _ _ _ _ Hrw), decide_True by done.
    + apply SSorted_nil.
    + exists (fun q => q = p), (fun _ => 0). destruct (rw_page _ _ _ _ Hrw) as (d & Hd & Hde). rewrite Hp in Hd.
      split; [split|split].
      * intros q ->. exists d, (with_page p (relinked p 0 [] (leaf_node p [] 0))). split_and!; [done|apply Hde|done|by left].
      * intros a b -> Hab. rewrite (sane_cow_None s2 p) in Hab; [done|apply Hrw|]. by apply (la_own _ _ (rw_later _ _ _ _ Hrw)).
      * intros q ->. lia.
      * apply Forall_cons; split; [exact Hp|apply Forall_nil_2].
      * apply SSorted_cons; [apply SSorted_nil|apply Forall_nil_2].
Qed.
End insert.
