(* ===== verification/TxBTreeRuns.v ===== *)
(** * Transactions on the B-tree ([src/src/core/tx_btree.rs])

    A transaction runs operations on the tree of a snapshot: they act as on a finite map, the
    snapshot stays readable for everybody else, and when no internal node of the snapshot was
    full the tree at the new root can be read without the transaction's redirections. When
    one was full, entries can be lost. *)

From stdpp Require Import base list strings gmap sorting.
From Stdlib Require Import NArith Lia.
From S2P Require Import Prelude Constants Bytes PageStore LruCache Pager BTreeNode BTree BTreeSpec TxBTree TxBTreeSpec TxBTreeInsert.

Inductive tx_op := XSearch (k : string) | XInsert (k : string) (v : N) | XUpdate (k : string) (v : N) | XDelete (k : string).

Definition tx_op_ok (o : tx_op) : Prop :=
  match o with XInsert k v | XUpdate k v => key_short k /\ (v < 2 ^ 64)%N | _ => True end.

#[global] Instance tx_op_ok_dec o : Decision (tx_op_ok o).
Proof. unfold tx_op_ok, key_short. destruct o; apply _. Defined.

(** The same operations on a finite map. *)
Definition tx_map_op (o : tx_op) (m : gmap string N) : Result (option N) * gmap string N :=
  match o with
  | XSearch k => (of_option (Err (DocumentNotFound "" k)) (Some <$> m !! k), m)
  | XInsert k v => (Ok None, <[k := v]> m)
  | XUpdate k v => match m !! k with Some _ => (Ok None, <[k := v]> m) | None => (Err (DocumentNotFound "" k), m) end
  | XDelete k => match m !! k with Some _ => (Ok None, base.delete k m) | None => (Err (DocumentNotFound "" k), m) end
  end.

Fixpoint tx_map_ops (os : list tx_op) (m : gmap string N) : list (Result (option N)) * gmap string N :=
  match os with
  | [] => ([], m)
  | o :: os => let '(r, m) := tx_map_op o m in let '(rs, m) := tx_map_ops os m in (r :: rs, m)
  end.

(** The tree with its pages renamed. *)
Fixpoint map_pages (f : N -> N) (t : tree) : tree :=
  match t with
  | TLeaf p es nx => TLeaf (f p) es nx
  | TNode p ks ts => TNode (f p) ks (map_pages f <$> ts)
  end.

Definition renamed (f : N -> N) (n : BTreeNode) : BTreeNode :=
  mk_node (f (page_num n)) (node_type n) (num_keys n) (parent n) (entries n) (next_leaf n) (keys n) (f <$> children n).

Definition rename (f : N -> N) (x : N * BTreeNode) : N * BTreeNode := (f x.1, renamed f x.2).

Section pages.
Variable f : N -> N.

Lemma tpage_map t : tpage (map_pages f t) = f (tpage t).
Proof. by destruct t. Qed.

Lemma node_map t : node_of (map_pages f t) = renamed f (node_of t).
Proof.
  destruct t as [p es nx|p ks ts]; [done|]. unfold renamed. simpl. unfold internal_node. do 2 f_equal.
  rewrite <-!list_fmap_compose. apply list_fmap_ext. intros i t _. apply tpage_map.
Qed.

Lemma concat_map_children {A} (g : tree -> list A) (h : A -> A) ts :
  Forall (fun t => g (map_pages f t) = h <$> g t) ts -> concat (g <$> (map_pages f <$> ts)) = h <$> concat (g <$> ts).
Proof.
  induction 1 as [|t ts Ht H IH]; [done|]. rewrite !fmap_cons. cbn [concat]. rewrite fmap_app. by f_equal.
Qed.

Lemma nodes_map t : nodes (map_pages f t) = rename f <$> nodes t.
Proof.
  induction t as [p es nx|p ks ts IH] using tree_ind_nested; [done|].
  change (nodes (map_pages f (TNode p ks ts))) with
    ((f p, node_of (map_pages f (TNode p ks ts))) :: concat (nodes <$> (map_pages f <$> ts))).
  rewrite (concat_map_children nodes (rename f)) by done. by rewrite node_map.
Qed.

Lemma leaf_pages_map t : leaf_pages (map_pages f t) = f <$> leaf_pages t.
Proof.
  unfold leaf_pages. rewrite <-list_fmap_compose.
  induction t as [p es nx|p ks ts IH] using tree_ind_nested; [done|]. cbn [map_pages leaves].
  induction IH as [|t ts Ht H IH]; [done|]. rewrite !fmap_cons. cbn [concat]. rewrite !fmap_app. by f_equal.
Qed.

Lemma marks_map t : marks (map_pages f t) = marks t.
Proof.
  induction t as [p es nx|p ks ts IH] using tree_ind_nested; [done|]. cbn [map_pages marks]. f_equal.
  rewrite <-list_fmap_compose. apply list_fmap_ext. intros i t Ht. rewrite Forall_forall in IH.
  by eapply IH, list_elem_of_lookup_2.
Qed.

Lemma height_map t : height (map_pages f t) = height t.
Proof.
  induction t as [p es nx|p ks ts IH] using tree_ind_nested; [done|]. cbn [map_pages height]. do 2 f_equal.
  rewrite <-list_fmap_compose. apply list_fmap_ext. intros i t Ht. rewrite Forall_forall in IH.
  by eapply IH, list_elem_of_lookup_2.
Qed.
End pages.

(** The transaction that begins with a snapshot's root. *)
Definition fresh {S : Type} (p : S) (root : N) : txstate S := mk_txstate p ∅ (tx_new root).

Section runs.
Context {St : Type} `{!PageStore St} `{!PageStoreLaws St}.
Implicit Types (s : txstate St) (t : tree) (D : N -> Prop) (B : nat).

Definition run_tx_op (fuel : nat) (o : tx_op) : ST (txstate St) Error (option N) :=
  match o with
  | XSearch k => let! v := search fuel k in st_ret (Some v)
  | XInsert k v => let! _ := insert fuel k v in st_ret None
  | XUpdate k v => let! _ := update fuel k v in st_ret None
  | XDelete k => let! _ := delete fuel k in st_ret None
  end.

Fixpoint run_tx_ops (fuel : nat) (os : list tx_op) (s : txstate St) : list (Result (option N)) * txstate St :=
  match os with
  | [] => ([], s)
  | o :: os =>
    let '(r, s) := run_tx_op fuel o s in
    let '(rs, s) := run_tx_ops fuel os s in (r :: rs, s)
  end.

Lemma run_tx_op_spec loose D B s t fuel o m :
  (loose -> forall x, D x) -> tree_ok loose D B s t -> tx_op_ok o -> height t <= fuel -> B <= fuel ->
  ps_room (pager s) (3 * height t + 5 + m) ->
  exists B' s' t', run_tx_op fuel o s = ((tx_map_op o (tree_map t)).1, s') /\ tree_ok loose D B' s' t' /\ B' <= Datatypes.S B /\
    tree_map t' = (tx_map_op o (tree_map t)).2 /\ height t' <= Datatypes.S (height t) /\ later s s' /\ ps_room (pager s') m.
Proof.
  intros HD Hok Ho Hh HB Hroom. destruct o as [k|k v|k v|k]; cbn [run_tx_op tx_map_op tx_op_ok] in *.
  - destruct (tx_search_lemma loose (B := B) D s t fuel k Hok Hh) as (s' & Hs & Hok' & Hc). exists B, s', t.
    split_and!; [|done|lia|done|lia|by apply calm_later|apply (ca_room _ _ Hc); eapply ps_room_le; [done|lia]].
    unfold st_bind, st_ret. rewrite Hs. by destruct (tree_map t !! k).
  - destruct Ho as [Hk Hv]. destruct (tx_insert_lemma loose D B s t fuel k v m) as (B' & s' & t' & Hi & ? & ? & ? & ? & ? & ?); try done.
    exists B', s', t'. split_and!; try done. unfold st_bind, st_ret. by rewrite Hi.
  - destruct Ho as [Hk Hv]. pose proof (update_lemma loose (B := B) D s t fuel k v m Hok Hh Hk Hv) as Hu.
    specialize (Hu ltac:(eapply ps_room_le; [done|lia])). unfold st_bind, st_ret. destruct (tree_map t !! k).
    + destruct Hu as (s' & t' & -> & ? & ? & ? & ? & ?). exists B, s', t'. split_and!; try done; lia.
    + destruct Hu as (s' & -> & ? & Hc). exists B, s', t.
      split_and!; try done; [lia|lia|by apply calm_later|apply (ca_room _ _ Hc); eapply ps_room_le; [done|lia]].
  - pose proof (tx_delete_lemma loose (B := B) D s t fuel k m Hok Hh) as Hd.
    specialize (Hd ltac:(eapply ps_room_le; [done|lia])). unfold st_bind, st_ret. destruct (tree_map t !! k).
    + destruct Hd as (s' & t' & -> & ? & ? & ? & ? & ?). exists B, s', t'. split_and!; try done; lia.
    + destruct Hd as (s' & -> & ? & Hc). exists B, s', t.
      split_and!; try done; [lia|lia|by apply calm_later|apply (ca_room _ _ Hc); eapply ps_room_le; [done|lia]].
Qed.

(** The pages that [n] operations on a tree of height [h] may allocate. *)
Definition tx_room (n h : nat) : nat := n * (3 * (h + n) + 5).

Lemma run_tx_ops_spec loose D os B s t fuel w :
  (loose -> forall x, D x) -> tree_ok loose D B s t -> Forall tx_op_ok os -> height t + length os <= fuel -> B + length os <= fuel ->
  ps_room (pager s) (tx_room (length os) (height t) + w) ->
  exists B' s' t', run_tx_ops fuel os s = ((tx_map_ops os (tree_map t)).1, s') /\ tree_ok loose D B' s' t' /\
    B' <= B + length os /\ tree_map t' = (tx_map_ops os (tree_map t)).2 /\
    height t' <= height t + length os /\ later s s' /\ ps_room (pager s') w.
Proof.
  intros HD. revert B s t. induction os as [|o os IH]; intros B s t Hok Hos Hh HB Hroom.
  - exists B, s, t. split_and!; try done; [lia|lia|apply later_refl].
  - apply Forall_cons in Hos as [Ho Hos]. cbn [length] in Hh, HB, Hroom. unfold tx_room in *.
    destruct (run_tx_op_spec loose D B s t fuel o (length os * (3 * (Datatypes.S (height t) + length os) + 5) + w) HD Hok Ho)
      as (B1 & s1 & t1 & Hr1 & Hok1 & HB1 & Hm1 & Hh1 & Hl1 & Hroom1); [lia|lia|eapply ps_room_le; [done|lia]|].
    destruct (IH B1 s1 t1 Hok1 Hos) as (B2 & s2 & t2 & Hr2 & Hok2 & HB2 & Hm2 & Hh2 & Hl2 & Hroom2);
      [lia|lia|eapply ps_room_le; [done|apply Nat.add_le_mono_r, Nat.mul_le_mono_l; lia]|].
    exists B2, s2, t2. cbn [run_tx_ops tx_map_ops]. rewrite Hr1, Hr2.
    destruct (tx_map_op o (tree_map t)) as [r m] eqn:Ho1. simpl in Hm1. subst m.
    destruct (tx_map_ops os (tree_map t1)) as [rs m] eqn:Ho2. simpl in *.
    split_and!; try done; [lia|lia|by eapply later_trans].
Qed.

(** *** Snapshots *)

(** The tree [t] can be read from the pager by a transaction that begins at its root; [B]
    bounds the length of its chain of leaves, stale ones included. *)
Definition snapshot B (p : St) t : Prop := tree_ok True (fun _ => False) B (fresh p (tpage t)) t.

(** No node of the tree is split by one more key. *)
Definition no_full t : Prop := Forall (fun x => ~ full x.2) (nodes t).

#[global] Instance no_full_dec t : Decision (no_full t).
Proof. unfold no_full, full. apply _. Defined.

Lemma tree_ok_weaker (loose loose' : Prop) D D' B s t :
  (loose -> loose') -> (forall x, D x -> D' x) -> tree_ok loose D B s t -> tree_ok loose' D' B s t.
Proof.
  intros Hlo HD [Hst H2 H3 H4]. split; try done. apply (stored_weaken _ _ D') in Hst; [|done].
  destruct Hst as [G1 G2 G3 G4 G5 G6 G7]. split; try done. eapply Forall_impl; [exact G7|]. intros x Hx Hf.
  destruct (Hx Hf); [left|right]; auto.
Qed.

Lemma tree_ok_no_full loose D B s t : no_full t -> tree_ok True D B s t -> tree_ok loose D B s t.
Proof.
  intros Hnf [[G1 G2 G3 G4 G5 G6 G7] H2 H3 H4]. split; try done. split; try done.
  eapply Forall_impl; [exact Hnf|]. intros x Hx Hf. by destruct Hx.
Qed.

Lemma fresh_sane (p : St) root : ps_inv p -> sane (fresh p root).
Proof. intros Hi. split; [done|done|done|]. intros q [b Hb]. simpl in Hb. by rewrite lookup_empty in Hb. Qed.

(** What a transaction wrote, as another transaction finds it. *)
Lemma holds_page_fresh s (p : St) root q d :
  used s q -> ps_used p q -> ps_view p q = ps_view (pager s) q -> holds_page s q d -> holds_page (fresh p root) q d.
Proof. intros _ Hu Hv (_ & Hd & _). split_and!; [done|by simpl; rewrite Hv|done]. Qed.

Lemma linked_fresh B s (p : St) root F rank :
  linked B s F rank -> (forall q, F q -> ps_used p q /\ ps_view p q = ps_view (pager s) q) -> linked B (fresh p root) F rank.
Proof.
  intros Hl Hp. split; [|done|apply Hl]. intros q Hq. destruct (li_page _ _ _ _ Hl q Hq) as (d & n & Hd & ?).
  exists d, n. split; [|done]. destruct (Hp q Hq). eapply holds_page_fresh; [apply Hd|done..].
Qed.
(** A snapshot survives as long as its pages are left alone. *)
Lemma snapshot_mono B (p p' : St) t :
  snapshot B p t -> ps_inv p' -> (forall q, ps_used p q -> ps_used p' q /\ ps_view p' q = ps_view p q) -> snapshot B p' t.
Proof.
  intros [Hst Hr Hso (F & rank & HL & Ho)] Hi Hk.
  destruct Hst as [G1 G2 G3 G4 G5 G6 G7]. split; [split; try done|done|done|].
  - by apply fresh_sane.
  - eapply Forall_impl; [exact G2|]. intros x (nx & raw & N1 & N2 & N3 & d & N4 & N5). exists nx, raw. split_and!; [done..|].
    exists d. split; [|done]. destruct (Hk (phys (fresh p (tpage t)) x.1)) as [Hu Hv]; [apply N4|].
    by apply (holds_page_fresh (fresh p (tpage t))); [apply N4|..].
  - exists F, rank. split; [|done]. eapply linked_fresh; [exact HL|]. intros q Hq. apply Hk. exact (linked_used _ _ _ _ HL Hq).
Qed.

(** A transaction keeps the snapshot that it began with. *)
Lemma snapshot_kept B (p : St) t s' : snapshot B p t -> later (fresh p (tpage t)) s' -> ps_inv (pager s') -> snapshot B (pager s') t.
Proof.
  intros Hs Hla Hi. eapply snapshot_mono; [done|done|]. intros q Hq. split; [by apply (la_used _ _ Hla)|].
  apply (la_frozen _ _ Hla q Hq). intros [b Hb]. simpl in Hb. by rewrite lookup_empty in Hb.
Qed.

(** A transaction with a write buffer of pages that the pager has as well. *)
Lemma snapshot_buffered B (p : St) t (W : gmap N (list byte)) :
  (forall q b, W !! q = Some b -> ps_view p q = Some b) -> snapshot B p t ->
  tree_ok True (fun _ => False) B (mk_txstate p W (tx_new (tpage t))) t.
Proof.
  intros HW [Hst Hr Hso (F & rank & HL & Ho)].
  assert (forall q d, holds_page (fresh p (tpage t)) q d -> holds_page (mk_txstate p W (tx_new (tpage t))) q d) as Hk.
  { intros q d (Hu & Hv & _). split_and!; [done|done|]. intros d' Hd'. apply HW in Hd'. simpl in *. congruence. }
  destruct Hst as [G1 G2 G3 G4 G5 G6 G7]. split; [split; try done|done|done|].
  - destruct G1 as [I1 I2 I3 I4]. by split.
  - eapply Forall_impl; [exact G2|]. intros x (nx & raw & N1 & N2 & N3 & d & N4 & N5). exists nx, raw. split_and!; [done..|].
    exists d. split; [|done]. by apply Hk.
  - exists F, rank. split; [|done]. eapply linked_keep; [..|exact HL]; done.
Qed.

(** A tree without pointers to copied pages is a snapshot at its current root. *)
Lemma node_fresh s x r :
  sane s -> node_at (fun _ => False) s x.1 x.2 -> 
  node_at (fun _ => False) (fresh (pager s) r) (phys s x.1) (renamed (phys s) x.2).
Proof.
  intros Hs (nx & raw & H1 & H2 & H3 & d & H4 & H5). exists nx, raw.
  split_and!; [done| |intros c _ [q Hq]; cbn in Hq; by rewrite lookup_empty in Hq|].
  - simpl. apply Forall2_fmap_r. assert (Forall (fun c => cow s !! c = None) raw) as Hn.
    { apply Forall_forall. intros c Hc. destruct (cow s !! c) eqn:Hcow; [|done]. destruct (H3 c Hc). by rewrite Hcow. }
    clear -Hs H2 Hn. induction H2 as [|a y raw ys Hay H2 IH]; [constructor|]. apply Forall_cons in Hn as [Ha Hn].
    constructor; [|by apply IH]. left. by rewrite <-(denotes_resolve s a y Hs Hay), Ha.
  - exists d. split; [|exact H5]. by apply (holds_page_fresh s); [apply H4|apply H4|..].
Qed.

Lemma tree_small loose D s t x c : stored loose D s (nodes t) -> x ∈ nodes t -> c ∈ children x.2 -> (phys s c < 2 ^ 64)%N.
Proof.
  intros Hst Hx Hc. apply (ps_used_small (pager s)); [apply Hst|]. eapply tx_stored_used; [exact Hst|].
  apply kids_in_nodes. by eapply kids_elem.
Qed.

Lemma renamed_wf f p n : (forall c, c ∈ children n -> (f c < 2 ^ 64)%N) -> node_wf (p, n) -> node_wf (f p, renamed f n).
Proof.
  unfold node_wf. simpl. destruct (node_type n); [|done]. intros Hs (H1 & H2 & H3 & H4).
  split_and!; [done|by rewrite length_fmap|done|]. apply Forall_forall. intros y (c & -> & Hc)%list_elem_of_fmap. by apply Hs.
Qed.

Lemma commit_snapshot loose B s t :
  tree_ok loose (fun _ => False) B s t -> snapshot B (pager s) (map_pages (phys s) t) /\
  tpage (map_pages (phys s) t) = current_root (tree_ s) /\ tree_map (map_pages (phys s) t) = tree_map t.
Proof.
  intros [Hst Hr Hso (F & rank & HL & Ho)]. pose proof Hst as [G1 G2 G3 G4 G5 G6 G7].
  split; [|split; [by rewrite tpage_map|unfold tree_map, tree_entries; by rewrite marks_map]].
  split; [|done|by rewrite marks_map|].
  - rewrite nodes_map. split; [by apply fresh_sane, G1|..]; rewrite ?Forall_fmap.
    + rewrite Forall_forall in G2 |- *. intros x Hx. simpl. apply node_fresh; [done|by apply G2].
    + replace (phys (fresh (pager s) (tpage (map_pages (phys s) t))) <$> (rename (phys s) <$> nodes t).*1)
        with (phys s <$> (nodes t).*1); [done|]. rewrite <-!list_fmap_compose. by apply list_fmap_ext.
    + done.
    + rewrite Forall_forall in G5 |- *. intros [p n] Hx. apply (renamed_wf (phys s)); [|by apply G5].
      intros c Hc. by eapply (tree_small _ _ _ _ (p, n)).
    + eapply Forall_impl; [exact G6|]. intros [p n] [Hn|Hn]; simpl in *; rewrite Hn; [by left|right].
      done.
    + apply Forall_forall. intros x _ _. by left.
  - rewrite leaf_pages_map. exists F, rank. destruct Ho as [Ho1 Ho2]. split.
    + eapply linked_fresh; [exact HL|]. intros q Hq. split; [by eapply linked_used|done].
    + split; [by apply Forall_fmap|]. clear -Ho2. induction Ho2 as [|x l Hs IH Hx]; [constructor|].
      rewrite fmap_cons. constructor; [done|]. by apply Forall_fmap.
Qed.
(** *** The theorems *)

(** C5: a transaction on a snapshot, over any page store that keeps its laws and has room:
    every sequence of searches, insertions and updates of keys of at most 71 bytes, and
    deletions through [TxBTree] returns what the same operations on a finite map return, errors included, whatever pages are
    copied and whatever nodes split. Fuel as large as the height of the tree, or the length
    of its chain of leaves, plus the number of operations is enough. *)
Theorem transaction_refines_map fuel os B (p : St) t
    (Hsnap : snapshot B p t) (Hos : Forall tx_op_ok os) (Hfuel : height t + length os <= fuel) (Hchain : B + length os <= fuel)
    (Hroom : ps_room p (tx_room (length os) (height t))) :
  exists s', run_tx_ops fuel os (fresh p (tpage t)) = ((tx_map_ops os (tree_map t)).1, s').
Proof.
  apply (tree_ok_weaker True True _ (fun _ => True)) in Hsnap; [|done|done].
  destruct (run_tx_ops_spec True (fun _ => True) os B (fresh p (tpage t)) t fuel 0) as (B' & s' & t' & H & _); try done.
  - by rewrite Nat.add_0_r.
  - by exists s'.
Qed.

(** C6: snapshot isolation. Whatever a transaction does through [TxBTree] before it ends or is
    dropped, another one that begins at the same root reads and writes the map of the
    snapshot: no page of the snapshot was touched. Keys have at most 71 bytes. *)
Theorem snapshot_isolation fuel os fuel' os' B (p : St) t
    (Hsnap : snapshot B p t) (Hos : Forall tx_op_ok os) (Hfuel : height t + length os <= fuel) (Hchain : B + length os <= fuel)
    (Hos' : Forall tx_op_ok os') (Hfuel' : height t + length os' <= fuel') (Hchain' : B + length os' <= fuel')
    (Hroom : ps_room p (tx_room (length os) (height t) + tx_room (length os') (height t))) :
  exists s2, let '(_, s1) := run_tx_ops fuel os (fresh p (tpage t)) in
    run_tx_ops fuel' os' (fresh (pager s1) (tpage t)) = ((tx_map_ops os' (tree_map t)).1, s2).
Proof.
  pose proof Hsnap as Hok. apply (tree_ok_weaker True True _ (fun _ => True)) in Hok; [|done|done].
  destruct (run_tx_ops_spec True (fun _ => True) os B (fresh p (tpage t)) t fuel (tx_room (length os') (height t))) as (B1 & s1 & t1 & H1 & Hok1 & _ & _ & _ & Hl & Hr1); try done.
  rewrite H1. assert (snapshot B (pager s1) t) as Hsnap1 by (eapply snapshot_kept; [done|done|apply Hok1]).
  apply (tree_ok_weaker True True _ (fun _ => True)) in Hsnap1; [|done|done].
  destruct (run_tx_ops_spec True (fun _ => True) os' B (fresh (pager s1) (tpage t)) t fuel' 0 ltac:(done) Hsnap1) as (B2 & s2 & t2 & H2 & _); try done; [by rewrite Nat.add_0_r|].
  by exists s2.
Qed.

(** C7: a committed transaction. When no internal node of the snapshot was full, a transaction
    that begins at the root that another one reached finds exactly the map that it left. Keys
    have at most 71 bytes. *)
Theorem committed_tree_reads_back fuel os fuel' os' B (p : St) t
    (Hsnap : snapshot B p t) (Hfull : no_full t)
    (Hos : Forall tx_op_ok os) (Hfuel : height t + length os <= fuel) (Hchain : B + length os <= fuel)
    (Hos' : Forall tx_op_ok os') (Hfuel' : height t + length os + length os' <= fuel') (Hchain' : B + length os + length os' <= fuel')
    (Hroom : ps_room p (tx_room (length os) (height t) + tx_room (length os') (height t + length os))) :
  exists s2, let '(_, s1) := run_tx_ops fuel os (fresh p (tpage t)) in
    run_tx_ops fuel' os' (fresh (pager s1) (current_root (tree_ s1))) = ((tx_map_ops os' (tx_map_ops os (tree_map t)).2).1, s2).
Proof.
  apply (tree_ok_no_full False) in Hsnap; [|done].
  destruct (run_tx_ops_spec False (fun _ => False) os B (fresh p (tpage t)) t fuel (tx_room (length os') (height t + length os)))
    as (B1 & s1 & t1 & H1 & Hok1 & HB1 & Hm & Hh1 & _ & Hr1); try done.
  rewrite H1. destruct (commit_snapshot _ _ _ _ Hok1) as (Hsnap1 & Hroot & Hmap). set (t1' := map_pages (phys s1) t1) in *.
  apply (tree_ok_weaker True True _ (fun _ => True)) in Hsnap1; [|done|done].
  assert (height t1' = height t1) as Hh by apply height_map.
  destruct (run_tx_ops_spec True (fun _ => True) os' B1 (fresh (pager s1) (tpage t1')) t1' fuel' 0 ltac:(done) Hsnap1) as (B2 & s2 & t2 & H2 & _); [done|lia|lia| |].
  - rewrite Nat.add_0_r, Hh. eapply ps_room_le; [exact Hr1|]. apply Nat.mul_le_mono_l. lia.
  - exists s2. by rewrite <-Hroot, H2, Hmap, Hm.
Qed.
End runs.

(** ** On the pager *)
Notation pagerM := (ST (txstate Pager.Pager) Error).

Lemma snapshot_on_pager (cap : nat) n :
  (N.of_nat n + 3 <= 2 ^ 52)%N ->
  exists (p : Pager.Pager) q, snapshot 1 p (TLeaf q [] 0) /\ ps_room p n.
Proof.
  intros Hn. destruct (new_pager_inv cap (S (S n))) as [Hi Hr]; [lia|].
  destruct (create_empty_spec False (mk_txstate (new_pager cap) ∅ (tx_new 0)) n (fun _ => False) Hi Hr) as (q & s & _ & Hok & Hroom).
  exists (pager s), (phys s q). split; [|done]. by apply commit_snapshot in Hok as [Hok _].
Qed.

Definition tx_example_ops : list tx_op :=
  [XInsert "bob" 7; XInsert "ann" 5; XUpdate "bob" 9; XSearch "bob"; XDelete "bob"; XUpdate "bob" 1; XSearch "ann"].

Lemma tx_example_ops_ok : Forall tx_op_ok tx_example_ops.
Proof. apply (bool_decide_unpack _). vm_compute. exact I. Qed.

Lemma transaction_refines_map_witness :
  (tx_map_ops tx_example_ops ∅).1 = [Ok None; Ok None; Ok None; Ok (Some 9%N); Ok None;
    Err (DocumentNotFound "" "bob"); Ok (Some 5%N)] /\
  exists (p : Pager.Pager) q s', run_tx_ops 8 tx_example_ops (fresh p q) = ((tx_map_ops tx_example_ops ∅).1, s').
Proof.
  split; [vm_compute; reflexivity|].
  destruct (snapshot_on_pager 2 500 ltac:(vm_compute; discriminate)) as (p & q & Hsnap & Hroom). exists p, q.
  apply (transaction_refines_map 8 tx_example_ops 1 p (TLeaf q [] 0) Hsnap tx_example_ops_ok); [simpl; lia|simpl; lia|].
  eapply ps_room_le; [exact Hroom|vm_compute; lia].
Defined.

Lemma snapshot_isolation_witness :
  exists (p : Pager.Pager) q s2, let '(_, s1) := run_tx_ops 8 tx_example_ops (fresh p q) in
    run_tx_ops 8 [XSearch "ann"; XInsert "ann" 1; XSearch "ann"] (fresh (pager s1) q) =
      ([Err (DocumentNotFound "" "ann"); Ok None; Ok (Some 1%N)], s2).
Proof.
  destruct (snapshot_on_pager 2 500 ltac:(vm_compute; discriminate)) as (p & q & Hsnap & Hroom). exists p, q.
  apply (snapshot_isolation 8 tx_example_ops 8 [XSearch "ann"; XInsert "ann" 1; XSearch "ann"] 1 p (TLeaf q [] 0) Hsnap tx_example_ops_ok);
    try (simpl; lia).
  - apply (bool_decide_unpack _). vm_compute. exact I.
  - eapply ps_room_le; [exact Hroom|vm_compute; lia].
Defined.

Lemma committed_tree_reads_back_witness :
  exists (p : Pager.Pager) q s2, let '(_, s1) := run_tx_ops 8 tx_example_ops (fresh p q) in
    run_tx_ops 11 [XSearch "ann"; XSearch "bob"] (fresh (pager s1) (current_root (tree_ s1))) =
      ([Ok (Some 5%N); Err (DocumentNotFound "" "bob")], s2).
Proof.
  destruct (snapshot_on_pager 2 500 ltac:(vm_compute; discriminate)) as (p & q & Hsnap & Hroom). exists p, q.
  apply (committed_tree_reads_back 8 tx_example_ops 11 [XSearch "ann"; XSearch "bob"] 1 p (TLeaf q [] 0) Hsnap); try (simpl; lia).
  - apply Forall_singleton. intros [H _]. discriminate.
  - exact tx_example_ops_ok.
  - apply (bool_decide_unpack _). vm_compute. exact I.
  - eapply ps_room_le; [exact Hroom|vm_compute; lia].
Defined.

(** *** A full root *)
Fixpoint each {A} (f : nat -> pagerM A) (l : list nat) : pagerM (list A) :=
  match l with
  | [] => st_ret []
  | i :: l => let! a := f i in let! r := each f l in st_ret (a :: r)
  end.

(** The key [j] of the leaf [i]. *)
Definition key_of (i j : nat) : string :=
  String (Ascii.ascii_of_nat (40 + i)) (String (Ascii.ascii_of_nat (40 + j)) EmptyString).

Definition put_node (n : BTreeNode) : pagerM unit :=
  let! d := of_index (serialize_node_into n (replicate PAGE_SIZE Byte.x00)) in on_pager (ps_write (page_num n) d).

(** The leaves, on the pages after [p]: the first one has 50 entries, the others one. *)
Definition full_root_leaf (p : N) (i : nat) : BTreeNode :=
  leaf_node (p + 1 + N.of_nat i)%N ((fun j => mk_entry (key_of i j) 7) <$> seq 0 (if decide (i = 0) then 50 else 1))
    (if decide (i = 50%nat) then 0%N else p + 2 + N.of_nat i)%N.

(** A root with 50 keys over 51 leaves, in the pages of the pager. *)
Definition full_root : pagerM N :=
  let! root := on_pager ps_alloc in
  let! pages := each (fun _ => on_pager ps_alloc) (seq 0 51) in
  let! _ := each (fun i => put_node (full_root_leaf root i)) (seq 0 51) in
  let! _ := put_node (internal_node root ((fun i => key_of i 0) <$> seq 1 50) pages) in
  st_ret root.

Definition new_store : txstate Pager.Pager := fresh (new_pager 100) 0.

(** The results of a transaction and of one that begins at the root it reached. *)
Definition results_after_commit (os os' : list tx_op) :=
  let '(r, s0) := full_root new_store in
  match r with
  | Ok root =>
    let '(rs, s1) := run_tx_ops 100 os (fresh (pager s0) root) in
    Some (rs, (run_tx_ops 100 os' (fresh (pager s1) (current_root (tree_ s1)))).1)
  | _ => None
  end.

(** Without the hypothesis on full nodes a committed entry can be lost. The snapshot is a
    root with 50 keys over 51 leaves, the first of which has 50 entries; a transaction inserts
    one more key there and finds it. After the commit the key is gone: [split_internal] wrote
    the left half of the root to a copy, but gave the new root the page of the old root,
    which only the transaction redirects to the copy. *)
Theorem full_node_split_loses_entry :
  results_after_commit [XSearch (key_of 0 1); XInsert (key_of 0 50) 9; XSearch (key_of 0 50)]
    [XSearch (key_of 0 1); XSearch (key_of 0 50); XSearch (key_of 40 0)] =
  Some ([Ok (Some 7%N); Ok None; Ok (Some 9%N)],
    [Ok (Some 7%N); Err (DocumentNotFound "" (key_of 0 50)); Ok (Some 7%N)]).
Proof. vm_compute. reflexivity. Qed.
