(* ===== verification/Wal.v ===== *)
(** * The write-ahead log ([src/src/core/wal.rs])

    The log file, the buffered writer in front of it and the frames. The writer's file is a
    clone of the reader's, so both share one cursor; the model keeps the cursor, the bytes in
    the writer's buffer and the offset [file_position] the code believes in. Offsets are
    unbounded: a log of 2^50 frames is out of reach of the code's [i64]. Time is in
    milliseconds. *)

From stdpp Require Import base list strings gmap sorting pretty.
From Stdlib Require Import NArith ZArith Lia.
From S2P Require Import Prelude Constants Bytes PageStore LruCache Pager.

Record WALHeader := mk_header { magic : list byte; version : N; hsalt1 : N; hsalt2 : N }.

Record WALFrame := mk_frame {
  tx_id : N;
  page_num : N;
  page_data : list byte;
  checksum : N;
  salt1 : N;
  salt2 : N }.

Record WALInner := mk_wal {
  file : list byte;
  cursor : nat;
  wbuf : list byte;
  header : WALHeader;
  frame_num : nat;
  cached_file_size : Z;
  cache_timestamp : option N;
  file_position : Z }.

Definition STAT_CACHE_TTL : N := 100.
Definition WAL_BUFFER_SIZE : nat := N.to_nat 65536.

#[global] Arguments WAL_BUFFER_SIZE : simpl never.

Notation WM := (ST WALInner Error).

(** ** CRC-32 *)

(** [if crc & 1 != 0 { (crc >> 1) ^ 0xEDB88320 } else { crc >> 1 }]. *)
Definition crc_bit (crc : N) : N :=
  if N.testbit crc 0 then N.lxor (N.shiftr crc 1) 0xEDB88320 else N.shiftr crc 1.

Definition generate_crc32_table : list N :=
  (fun i => Nat.iter 8 crc_bit (N.of_nat i)) <$> seq 0 256.

Definition crc_step (table : list N) (crc : N) (b : byte) : N :=
  let index := N.to_nat (N.land (N.lxor crc (Byte.to_N b)) 0xFF) in
  N.lxor (N.shiftr crc 8) (nth index table 0%N).

Definition crc32_ieee (data : list byte) : N :=
  N.lxor (foldl (crc_step generate_crc32_table) 0xFFFFFFFF%N data) 0xFFFFFFFF.

(** ** Frames *)

(** [calculate_checksum]; the copy into the checksum buffer panics unless the page data has
    the length of a page. *)
Definition calculate_checksum (f : WALFrame) : option N :=
  if decide (length (page_data f) = PAGE_SIZE) then
    let crc := crc32_ieee (to_le_bytes 8 (tx_id f) ++ to_le_bytes 8 (page_num f) ++ page_data f) in
    Some (N.lxor (N.lxor crc (salt1 f)) (salt2 f))
  else None.

(** [data[a..b].copy_from_slice(src)] with a source of the right length. *)
Definition serialize_frame_into (f : WALFrame) (data : list byte) : option (list byte) :=
  d ← put_slice 0 (to_le_bytes 8 (tx_id f)) data;
  d ← put_slice 8 (to_le_bytes 8 (page_num f)) d;
  d ← put_slice 16 (to_le_bytes 4 (salt1 f)) d;
  d ← put_slice 20 (to_le_bytes 4 (salt2 f)) d;
  d ← (if decide (length (page_data f) = PAGE_SIZE) then put_slice 24 (page_data f) d else None);
  put_slice (24 + PAGE_SIZE) (to_le_bytes 4 (checksum f)) d.

(** [parse_frame] and [parse_frame_header], which read the same fields. *)
Definition parse_frame (data : list byte) : option WALFrame :=
  pd ← slice 24 PAGE_SIZE data;
  tx ← read_le 8 0 data;
  pn ← read_le 8 8 data;
  s1 ← read_le 4 16 data;
  s2 ← read_le 4 20 data;
  ck ← read_le 4 (24 + PAGE_SIZE) data;
  Some (mk_frame tx pn pd ck s1 s2).

(** ** The buffered writer *)
Definition with_file f cur w := mk_wal f cur (wbuf w) (header w) (frame_num w) (cached_file_size w) (cache_timestamp w) (file_position w).
Definition with_wbuf b w := mk_wal (file w) (cursor w) b (header w) (frame_num w) (cached_file_size w) (cache_timestamp w) (file_position w).
Definition with_header h w := mk_wal (file w) (cursor w) (wbuf w) h (frame_num w) (cached_file_size w) (cache_timestamp w) (file_position w).
Definition with_frame_num n w := mk_wal (file w) (cursor w) (wbuf w) (header w) n (cached_file_size w) (cache_timestamp w) (file_position w).
Definition with_size_cache z t w := mk_wal (file w) (cursor w) (wbuf w) (header w) (frame_num w) z t (file_position w).
Definition with_position p w := mk_wal (file w) (cursor w) (wbuf w) (header w) (frame_num w) (cached_file_size w) (cache_timestamp w) p.

(** A write of the operating system at the shared cursor. *)
Definition write_at_cursor (d : list byte) (w : WALInner) : WALInner :=
  with_file (file_write (cursor w) d (file w)) (cursor w + length d) w.

(** [BufWriter::flush]. *)
Definition flush_writer (w : WALInner) : WALInner :=
  match wbuf w with
  | [] => w
  | b => with_wbuf [] (write_at_cursor b w)
  end.

(** [BufWriter::write_all]. *)
Definition buf_write_all (d : list byte) (w : WALInner) : WALInner :=
  let spare w := WAL_BUFFER_SIZE - length (wbuf w) in
  if decide (length d < spare w) then with_wbuf (wbuf w ++ d) w else
  let w := if decide (spare w < length d) then flush_writer w else w in
  if decide (WAL_BUFFER_SIZE <= length d) then write_at_cursor d w else with_wbuf (wbuf w ++ d) w.

(** [file.seek(SeekFrom::Start(off))], on the file or on the writer's clone of it. *)
Definition seek (off : nat) (w : WALInner) : WALInner := with_file (file w) off w.

(** [file.read_exact(buf)]: the bytes and the cursor after them; a short read leaves the
    cursor at the end of the file. *)
Definition read_exact (n : nat) (w : WALInner) : option (list byte) * WALInner :=
  match slice (cursor w) n (file w) with
  | Some d => (Some d, with_file (file w) (cursor w + n) w)
  | None => (None, with_file (file w) (max (cursor w) (length (file w))) w)
  end.

(** ** The log *)
Definition frame_offset (i : nat) : nat := WAL_HEADER_SIZE + i * WAL_FRAME_SIZE.

Definition wal_header_bytes (h : WALHeader) : option (list byte) :=
  w ← w_bytes (magic h) (0, replicate WAL_HEADER_SIZE Byte.x00);
  w ← w_le 4 (version h) w;
  w ← w_le 4 (hsalt1 h) w;
  w ← w_le 4 (hsalt2 h) w;
  Some w.2.

Definition write_header : WM unit := fun w =>
  match wal_header_bytes (header w) with
  | None => (Panic, w)
  | Some data =>
    let w := seek 0 (flush_writer w) in
    let w := with_position (Z.of_nat (length data)) (buf_write_all data w) in
    (Ok tt, flush_writer w)
  end.

Definition read_header : WM WALHeader := fun w =>
  match read_exact WAL_HEADER_SIZE (seek 0 w) with
  | (None, w) => (Err unexpected_eof, w)
  | (Some data, w) =>
    let w := with_position (Z.of_nat (length data)) w in
    let h := m ← slice 0 4 data; v ← read_le 4 4 data; s1 ← read_le 4 8 data; s2 ← read_le 4 12 data;
             Some (mk_header m v s1 s2) in
    match h with
    | None => (Panic, w)
    | Some h => if decide (magic h = WAL_MAGIC) then (Ok h, w) else (Err WALCorrupted, w)
    end
  end.

(** The loop of [count_frames]: [n] frames left to try, the next one is frame [i]. *)
Fixpoint count_loop (n i : nat) : WM nat := fun w =>
  match n with
  | 0 => (Ok 0, w)
  | S n =>
    match read_exact WAL_FRAME_SIZE (seek (frame_offset i) w) with
    | (None, w) => (Ok 0, w)
    | (Some data, w) =>
      let w := with_position (Z.of_nat (frame_offset i + length data)) w in
      match parse_frame data with
      | None => (Panic, w)
      | Some f =>
        if decide (salt1 f <> hsalt1 (header w) \/ salt2 f <> hsalt2 (header w)) then (Ok 0, w) else
        match calculate_checksum f with
        | None => (Panic, w)
        | Some c =>
          if decide (checksum f <> c) then (Ok 0, w) else
          (let! k := count_loop n (i + 1) in st_ret (S k)) w
        end
      end
    end
  end.

Definition file_frames (size : nat) : nat := (size - WAL_HEADER_SIZE) / WAL_FRAME_SIZE.

Definition count_frames : WM nat := fun w =>
  let size := length (file w) in
  if decide (size < WAL_HEADER_SIZE) then (Ok 0, w) else count_loop (file_frames size) 0 w.

Definition set_frame_num (n : nat) : WM unit := st_modify (with_frame_num n).

(** [generate_salt] from the seconds since the epoch, when the clock is after it. *)
Definition generate_salt (secs : option N) : N :=
  match secs with Some s => wrap_u32 s | None => 12345 end.

(** [WAL::open] on the bytes of the log, [None] when there is no log; [secs1] and [secs2] are
    the clock at the two calls of [generate_salt]. *)
Definition wal_open (existing : option (list byte)) (secs1 secs2 : option N) : outcome Error unit * WALInner :=
  let w := mk_wal (default [] existing) 0 []
    (mk_header WAL_MAGIC 1 (generate_salt secs1) (generate_salt secs2)) 0 0 None (-1) in
  match existing with
  | None => write_header w
  | Some _ =>
    (let! h := read_header in
     let! _ := st_modify (with_header h) in
     let! n := count_frames in
     set_frame_num n) w
  end.

Definition write_frame (now tx pn : N) (data : list byte) : WM unit := fun w =>
  if decide (length data <> PAGE_SIZE) then (Err InvalidPageSize, w) else
  let frame := mk_frame tx pn data 0 (hsalt1 (header w)) (hsalt2 (header w)) in
  match calculate_checksum frame with
  | None => (Panic, w)
  | Some c =>
    let frame := mk_frame tx pn data c (salt1 frame) (salt2 frame) in
    match serialize_frame_into frame (replicate WAL_FRAME_SIZE Byte.x00) with
    | None => (Panic, w)
    | Some bytes =>
      let offset := frame_offset (frame_num w) in
      let w := if decide (file_position w <> Z.of_nat offset)
               then seek offset (flush_writer w) else w in
      let w := buf_write_all bytes w in
      let w := with_position (Z.of_nat offset + Z.of_nat WAL_FRAME_SIZE) w in
      let w := with_frame_num (frame_num w + 1) w in
      (Ok tt, with_size_cache (cached_file_size w + Z.of_nat WAL_FRAME_SIZE) (Some now) w)
    end
  end.

Definition sync : WM unit := fun w => (Ok tt, flush_writer w).

Definition frame_count : WM nat := st_get frame_num.

Definition refresh_frame_count (now : N) : WM unit := fun w =>
  let fresh := match cache_timestamp w with
               | Some t => bool_decide (now - t < STAT_CACHE_TTL)%N
               | None => false
               end in
  if fresh then
    let size := cached_file_size w in
    if (size <? Z.of_nat WAL_HEADER_SIZE)%Z then (Ok tt, w) else
    let frames := ((size - Z.of_nat WAL_HEADER_SIZE) / Z.of_nat WAL_FRAME_SIZE)%Z in
    if (Z.of_nat (frame_num w) <? frames)%Z then
      (let! n := count_frames in set_frame_num n)
        (with_size_cache (Z.of_nat (length (file w))) (Some now) w)
    else (Ok tt, w)
  else
    let size := length (file w) in
    let w := with_size_cache (Z.of_nat size) (Some now) w in
    if decide (size < WAL_HEADER_SIZE) then (Ok tt, w) else
    if decide (frame_num w < file_frames size) then (let! n := count_frames in set_frame_num n) w
    else (Ok tt, w).

Definition read_frame (i : nat) : WM WALFrame := fun w =>
  if decide (frame_num w <= i) then (Err (Other "EOF"), w) else
  match read_exact WAL_FRAME_SIZE (seek (frame_offset i) w) with
  | (None, w) => (Err unexpected_eof, w)
  | (Some data, w) =>
    let w := with_position (Z.of_nat (frame_offset i + length data)) w in
    match parse_frame data with
    | None => (Panic, w)
    | Some f =>
      match calculate_checksum f with
      | None => (Panic, w)
      | Some c => if decide (checksum f <> c) then (Err WALChecksumFail, w) else (Ok f, w)
      end
    end
  end.

Fixpoint read_frames (n i : nat) : WM (list WALFrame) :=
  match n with
  | 0 => st_ret []
  | S n =>
    let! f := read_frame i in
    let! fs := read_frames n (i + 1) in
    st_ret (f :: fs)
  end.

Definition read_all_frames : WM (list WALFrame) := fun w => read_frames (frame_num w) 0 w.

(** ** Checkpointing *)

(** The loop that reads at most [n] frames from offset [off] and stops at the first that is
    missing or has other salts. *)
Fixpoint read_raw (n off : nat) (h : WALHeader) (f : list byte) : list WALFrame :=
  match n with
  | 0 => []
  | S n =>
    match slice off WAL_FRAME_SIZE f ≫= parse_frame with
    | None => []
    | Some fr =>
      if decide (salt1 fr <> hsalt1 h \/ salt2 fr <> hsalt2 h) then []
      else fr :: read_raw n (off + WAL_FRAME_SIZE) h f
    end
  end.

Definition checksum_ok (f : WALFrame) : bool := bool_decide (calculate_checksum f = Some (checksum f)).

(** The frames before the first with a wrong checksum. *)
Fixpoint valid_prefix (fs : list WALFrame) : list WALFrame :=
  match fs with
  | [] => []
  | f :: fs => if checksum_ok f then f :: valid_prefix fs else []
  end.

(** The map of pages: a later frame replaces an earlier one; page 0 is skipped. *)
Definition page_map (fs : list WALFrame) : gmap N (list byte) :=
  foldl (fun m f => if (page_num f =? 0)%N then m else <[page_num f := page_data f]> m) ∅ fs.

(** The cursor after a [BufReader] of 64 KB has read [n] frames from the start of the frames: it
    reads whole buffers, or to the end of the file. *)
Definition buf_reader_cursor (n size : nat) : nat :=
  let chunk := N.to_nat 65536 in
  max WAL_HEADER_SIZE (min size
    (WAL_HEADER_SIZE + chunk * ((n * WAL_FRAME_SIZE + chunk - 1) / chunk))).

(** The log and the pager it is checkpointed into. *)
Definition checkpoint (now : N) : ST (WALInner * Pager.Pager) Error unit := fun s =>
  let '(w, pg) := s in
  match count_frames w with
  | (Ok n, w) =>
    let w := with_frame_num n w in
    let frames := valid_prefix (read_raw n WAL_HEADER_SIZE (header w) (file w)) in
    let w := with_file (file w) (buf_reader_cursor n (length (file w))) (with_position (-1) w) in
    match (let! _ := write_pages_direct (map_to_list (page_map frames)) in flush) pg with
    | (Ok _, pg) =>
      let w := with_file (take WAL_HEADER_SIZE (file w) ++ replicate (WAL_HEADER_SIZE - length (file w)) Byte.x00)
                 (cursor w) w in
      let w := with_size_cache (Z.of_nat WAL_HEADER_SIZE) (Some now) (with_frame_num 0 w) in
      (Ok tt, (with_position (-1) w, pg))
    | (Err e, pg) => (Err e, (w, pg))
    | (Panic, pg) => (Panic, (w, pg))
    | (OutOfFuel, pg) => (OutOfFuel, (w, pg))
    end
  | (Err e, w) => (Err e, (w, pg))
  | (Panic, w) => (Panic, (w, pg))
  | (OutOfFuel, w) => (OutOfFuel, (w, pg))
  end.

(** [close] synchronizes the file, not the writer. *)
Definition close : WM unit := st_ret tt.

(** ** The table-driven checksum *)
Section crc.

(** CRC-32 bit by bit, without a table. *)
Definition crc32_bitwise (data : list byte) : N :=
  N.lxor (foldl (fun crc b => Nat.iter 8 crc_bit (N.lxor crc (Byte.to_N b))) 0xFFFFFFFF%N data) 0xFFFFFFFF.

Lemma crc_bit_lxor a b : crc_bit (N.lxor a b) = N.lxor (crc_bit a) (crc_bit b).
Proof.
  unfold crc_bit. rewrite N.lxor_spec, N.shiftr_lxor.
  set (p := 0xEDB88320%N). destruct (N.testbit a 0), (N.testbit b 0); simpl.
  - rewrite (N.lxor_comm (N.shiftr b 1)), N.lxor_assoc, <-(N.lxor_assoc p p), N.lxor_nilpotent, N.lxor_0_l. done.
  - by rewrite !N.lxor_assoc, (N.lxor_comm p).
  - by rewrite N.lxor_assoc.
  - done.
Qed.

Lemma crc_bits_lxor n a b : Nat.iter n crc_bit (N.lxor a b) = N.lxor (Nat.iter n crc_bit a) (Nat.iter n crc_bit b).
Proof. induction n as [|n IH]; [done|]. simpl. by rewrite IH, crc_bit_lxor. Qed.

Lemma crc_bits_shiftl n y : Nat.iter n crc_bit (N.shiftl y (N.of_nat n)) = y.
Proof.
  revert y. induction n as [|n IH]; intros y; [apply N.shiftl_0_r|].
  rewrite Nat.iter_succ_r.
  assert (crc_bit (N.shiftl y (N.of_nat (S n))) = N.shiftl y (N.of_nat n)) as ->; [|done].
  unfold crc_bit. rewrite N.shiftl_spec_low by lia. rewrite N.shiftr_shiftl_l by lia. f_equal. lia.
Qed.

(** The eight low bits go through the table, the others are shifted down. *)
Lemma crc_bits_byte x :
  Nat.iter 8 crc_bit x = N.lxor (N.shiftr x 8) (Nat.iter 8 crc_bit (N.land x 0xFF)).
Proof.
  assert (x = N.lxor (N.shiftl (N.shiftr x 8) 8) (N.land x 0xFF)) as Hx.
  { apply N.bits_inj. intros i. rewrite N.lxor_spec, N.land_spec.
    change 0xFF%N with (N.ones 8). destruct (decide (i < 8)%N).
    - rewrite N.shiftl_spec_low, N.ones_spec_low by lia. by destruct (N.testbit x i).
    - rewrite N.shiftl_spec_high', N.shiftr_spec', N.ones_spec_high by lia.
      replace (i - 8 + 8)%N with i by lia. by destruct (N.testbit x i). }
  rewrite Hx at 1. rewrite crc_bits_lxor. f_equal. apply (crc_bits_shiftl 8).
Qed.

Lemma crc_step_bits crc b : crc_step generate_crc32_table crc b = Nat.iter 8 crc_bit (N.lxor crc (Byte.to_N b)).
Proof.
  unfold crc_step. rewrite crc_bits_byte. set (i := N.land _ 0xFF).
  assert (i < 256)%N as Hi.
  { unfold i. change 0xFF%N with (N.ones 8). rewrite N.land_ones. by apply N.mod_lt. }
  f_equal.
  - rewrite N.shiftr_lxor. assert (N.shiftr (Byte.to_N b) 8 = 0%N) as ->; [|by rewrite N.lxor_0_r].
    rewrite N.shiftr_div_pow2. apply N.div_small. pose proof (Byte.to_N_bounded b). change (2 ^ 8)%N with 256%N. lia.
  - unfold generate_crc32_table. apply nth_lookup_Some. rewrite list_lookup_fmap, lookup_seq_lt by lia.
    simpl. by rewrite N2Nat.id.
Qed.
End crc.

(** The table-driven CRC-32 of the log is the CRC-32 computed bit by bit with the
    reversed polynomial 0xEDB88320, for every sequence of bytes. *)
Theorem crc32_table_is_bitwise data : crc32_ieee data = crc32_bitwise data.
Proof.
  unfold crc32_ieee, crc32_bitwise. f_equal. generalize 0xFFFFFFFF%N at 1 2.
  induction data as [|b data IH]; intros crc; [done|]. cbn [foldl]. by rewrite crc_step_bits, IH.
Qed.

(** ** The bytes of the log *)
Definition frame_bytes (f : WALFrame) : list byte :=
  to_le_bytes 8 (tx_id f) ++ to_le_bytes 8 (page_num f) ++ to_le_bytes 4 (salt1 f) ++
  to_le_bytes 4 (salt2 f) ++ page_data f ++ to_le_bytes 4 (checksum f).

Definition log_header (h : WALHeader) : list byte :=
  zbuf WAL_HEADER_SIZE (magic h ++ to_le_bytes 4 (version h) ++ to_le_bytes 4 (hsalt1 h) ++ to_le_bytes 4 (hsalt2 h)).

Definition log_frames (fs : list WALFrame) : list byte := concat (frame_bytes <$> fs).

Record header_wf (h : WALHeader) : Prop := {
  hw_magic : magic h = WAL_MAGIC;
  hw_version : (version h < 2 ^ 32)%N;
  hw_salt1 : (hsalt1 h < 2 ^ 32)%N;
  hw_salt2 : (hsalt2 h < 2 ^ 32)%N }.

(** A frame as [write_frame] makes it under the header [h]. *)
Record frame_wf (h : WALHeader) (f : WALFrame) : Prop := {
  fw_tx : (tx_id f < 2 ^ 64)%N;
  fw_page : (page_num f < 2 ^ 64)%N;
  fw_data : length (page_data f) = PAGE_SIZE;
  fw_salt1 : salt1 f = hsalt1 h;
  fw_salt2 : salt2 f = hsalt2 h;
  fw_checksum : calculate_checksum f = Some (checksum f) }.

Section log_bytes.
Implicit Types (h : WALHeader) (f : WALFrame) (fs : list WALFrame).

Lemma crc_table_small i : (nth i generate_crc32_table 0 < 2 ^ 32)%N.
Proof.
  assert (Forall (fun v => v < 2 ^ 32)%N generate_crc32_table) as H.
  { apply (bool_decide_unpack _). vm_compute. exact I. }
  destruct (nth_in_or_default i generate_crc32_table 0%N) as [Hin| ->]; [|done].
  rewrite Forall_forall in H. apply H. by apply list_elem_of_In.
Qed.

Lemma lxor_small a b n : (a < 2 ^ n)%N -> (b < 2 ^ n)%N -> (N.lxor a b < 2 ^ n)%N.
Proof.
  intros Ha Hb. destruct (decide (N.lxor a b = 0%N)) as [->|H0]; [lia|].
  apply N.log2_lt_pow2; [lia|]. eapply N.le_lt_trans; [apply N.log2_lxor|].
  assert (forall x, (x < 2 ^ n)%N -> (0 < n)%N -> (N.log2 x < n)%N) as H.
  { intros x Hx Hn. destruct (decide (x = 0%N)) as [->|]; [done|]. apply N.log2_lt_pow2; lia. }
  destruct (decide (n = 0%N)) as [->|].
  { assert (a = 0 /\ b = 0)%N as [-> ->] by (simpl in *; lia). done. }
  apply N.max_lub_lt; apply H; lia.
Qed.

Lemma crc_step_small c b : (c < 2 ^ 32)%N -> (crc_step generate_crc32_table c b < 2 ^ 32)%N.
Proof.
  intros Hc. apply lxor_small; [|apply crc_table_small].
  rewrite N.shiftr_div_pow2. eapply N.le_lt_trans; [|exact Hc]. apply N.Div0.div_le_upper_bound. lia.
Qed.

Lemma crc32_small data : (crc32_ieee data < 2 ^ 32)%N.
Proof.
  apply lxor_small; [|done]. assert (0xFFFFFFFF < 2 ^ 32)%N as H by done. revert H.
  generalize 0xFFFFFFFF%N. induction data as [|b data IH]; intros c Hc; [done|]. apply IH. by apply crc_step_small.
Qed.

Lemma frame_checksum_small h f : header_wf h -> frame_wf h f -> (checksum f < 2 ^ 32)%N.
Proof.
  intros [_ _ H1 H2] [_ _ Hl Hs1 Hs2 Hc]. unfold calculate_checksum in Hc. rewrite decide_True in Hc by done.
  injection Hc as <-. rewrite Hs1, Hs2. apply lxor_small; [apply lxor_small; [apply crc32_small|done]|done].
Qed.

Lemma length_frame_bytes f : length (page_data f) = PAGE_SIZE -> length (frame_bytes f) = WAL_FRAME_SIZE.
Proof. intros H. unfold frame_bytes. rewrite !length_app, !length_to_le_bytes, H. size_lia. Qed.

Lemma length_log_frames h fs : Forall (frame_wf h) fs -> length (log_frames fs) = length fs * WAL_FRAME_SIZE.
Proof.
  unfold log_frames. induction 1 as [|f fs Hf Hfs IH]; [done|]. rewrite fmap_cons. cbn [concat length].
  rewrite length_app, IH, length_frame_bytes by apply Hf. lia.
Qed.

Lemma log_frames_app fs1 fs2 : log_frames (fs1 ++ fs2) = log_frames fs1 ++ log_frames fs2.
Proof. unfold log_frames. by rewrite fmap_app, concat_app. Qed.

Lemma length_log_header h : length (magic h) = 4 -> length (log_header h) = WAL_HEADER_SIZE.
Proof.
  intros Hm. apply length_zbuf. rewrite !length_app, !length_to_le_bytes, Hm. unfold WAL_HEADER_SIZE. simpl. lia.
Qed.

Lemma zbuf_nil total : zbuf total [] = replicate total Byte.x00.
Proof. unfold zbuf. cbn [app length]. by rewrite Nat.sub_0_r. Qed.

Lemma zbuf_full total pre : length pre = total -> zbuf total pre = pre.
Proof. intros <-. unfold zbuf. by rewrite Nat.sub_diag, app_nil_r. Qed.

Lemma put_slice_zbuf total pre src off :
  length pre = off -> length pre + length src <= total ->
  put_slice off src (zbuf total pre) = Some (zbuf total (pre ++ src)).
Proof.
  intros <- H. pose proof (w_bytes_wrote total pre src H) as Hw. unfold w_bytes, wrote in Hw. simpl in Hw.
  destruct (put_slice (length pre) src (zbuf total pre)) as [d|]; simplify_eq/=. done.
Qed.

Lemma serialize_frame_zeros f :
  length (page_data f) = PAGE_SIZE ->
  serialize_frame_into f (replicate WAL_FRAME_SIZE Byte.x00) = Some (frame_bytes f).
Proof.
  intros Hl. unfold serialize_frame_into. rewrite <-zbuf_nil.
  rewrite (put_slice_zbuf _ []); [|done|rewrite length_to_le_bytes; simpl; size_lia]. cbn [mbind option_bind app].
  rewrite put_slice_zbuf; [|by rewrite length_to_le_bytes|rewrite !length_to_le_bytes; size_lia]. cbn [mbind option_bind].
  rewrite put_slice_zbuf; [|by rewrite length_app, !length_to_le_bytes|rewrite length_app, !length_to_le_bytes; size_lia].
  cbn [mbind option_bind].
  rewrite put_slice_zbuf; [|by rewrite !length_app, !length_to_le_bytes|rewrite !length_app, !length_to_le_bytes; size_lia].
  cbn [mbind option_bind]. rewrite decide_True by done.
  rewrite put_slice_zbuf; [|by rewrite !length_app, !length_to_le_bytes|rewrite !length_app, !length_to_le_bytes, Hl; size_lia].
  cbn [mbind option_bind].
  rewrite put_slice_zbuf; [|rewrite !length_app, !length_to_le_bytes, Hl; size_lia|rewrite !length_app, !length_to_le_bytes, Hl; size_lia].
  rewrite <-!app_assoc. f_equal. apply zbuf_full. by apply length_frame_bytes.
Qed.

(** Reading a frame at an offset of the file. *)
Lemma frame_slice off f data rest :
  length (page_data f) = PAGE_SIZE -> reads data off (frame_bytes f ++ rest) ->
  slice off WAL_FRAME_SIZE data = Some (frame_bytes f) /\ reads data (off + WAL_FRAME_SIZE) rest.
Proof. intros Hl Hr. by apply reads_slice; [|apply length_frame_bytes]. Qed.

Lemma parse_frame_bytes h f : header_wf h -> frame_wf h f -> parse_frame (frame_bytes f) = Some f.
Proof.
  intros Hh Hf. pose proof (frame_checksum_small h f Hh Hf) as Hck. destruct Hf as [Ht Hp Hl Hs1 Hs2 _].
  destruct Hh as [_ _ Hh1 Hh2]. rewrite <-Hs1 in Hh1. rewrite <-Hs2 in Hh2. unfold parse_frame.
  pose proof (reads_start (frame_bytes f)) as Hr. unfold frame_bytes in Hr at 2.
  pose proof (reads_le _ _ _ _ _ Hr Ht) as [E1 Hr1]. cbn [Nat.add] in Hr1.
  pose proof (reads_le _ _ _ _ _ Hr1 Hp) as [E2 Hr2]. cbn [Nat.add] in Hr2.
  pose proof (reads_le _ _ _ _ _ Hr2 Hh1) as [E3 Hr3]. cbn [Nat.add] in Hr3.
  pose proof (reads_le _ _ _ _ _ Hr3 Hh2) as [E4 Hr4]. cbn [Nat.add] in Hr4.
  pose proof (reads_slice _ _ _ _ _ Hr4 Hl) as [E5 Hr5].
  rewrite <-(app_nil_r (to_le_bytes 4 (checksum f))) in Hr5.
  pose proof (reads_le _ _ _ _ _ Hr5 Hck) as [E6 _].
  rewrite E5, E1, E2, E3, E4, E6. by destruct f.
Qed.
End log_bytes.

(** ** Reading the log back *)

(** A step that only moves the cursor, leaving the believed position right or untouched. *)
Definition moved (w w' : WALInner) : Prop :=
  w' = w \/ exists cur, w' = with_file (file w) cur (with_position (Z.of_nat cur) w).

(** What stops the counting: a frame of another log, or one with a wrong checksum. *)
Definition bad_frame (h : WALHeader) (data : list byte) : Prop :=
  exists f, parse_frame data = Some f /\
    (salt1 f <> hsalt1 h \/ salt2 f <> hsalt2 h \/ calculate_checksum f <> Some (checksum f)).

Section reading_log.
Implicit Types (h : WALHeader) (f : WALFrame) (fs : list WALFrame) (w : WALInner).

#[global] Instance moved_trans : Transitive moved.
Proof.
  intros w1 w2 w3 [->|[c1 ->]]; [done|]. intros [->|[c2 ->]]; right; [by exists c1|by exists c2].
Qed.

Lemma moved_fields w w' : moved w w' ->
  file w' = file w /\ wbuf w' = wbuf w /\ header w' = header w /\ frame_num w' = frame_num w.
Proof. by intros [->|[c ->]]. Qed.

Lemma read_at off n d rest w :
  reads (file w) off (d ++ rest) -> length d = n ->
  read_exact n (seek off w) = (Some d, with_file (file w) (off + n) w).
Proof.
  intros Hr Hn. destruct (reads_slice _ _ n _ _ Hr Hn) as [Hs _]. unfold read_exact, seek. simpl. by rewrite Hs.
Qed.

Lemma moved_read off n w : moved w (with_position (Z.of_nat (off + n)) (with_file (file w) (off + n) w)).
Proof. right. by exists (off + n). Qed.

Lemma parse_frame_length data f : parse_frame data = Some f -> length (page_data f) = PAGE_SIZE.
Proof.
  unfold parse_frame. destruct (slice 24 PAGE_SIZE data) as [pd|] eqn:Hs; [|done]. cbn [mbind option_bind].
  intros H. repeat (apply bind_Some in H as (? & _ & H)). injection H as <-. by eapply length_slice.
Qed.

Lemma parse_frame_total data : length data = WAL_FRAME_SIZE -> exists f, parse_frame data = Some f.
Proof.
  intros Hl. unfold parse_frame, read_le, slice. rewrite Hl. rewrite !decide_True by size_lia. simpl. eauto.
Qed.

Lemma checksum_total f : length (page_data f) = PAGE_SIZE -> exists c, calculate_checksum f = Some c.
Proof. intros H. unfold calculate_checksum. rewrite decide_True by done. eauto. Qed.

Lemma count_loop_frames fs n i w tail :
  header_wf (header w) -> Forall (frame_wf (header w)) fs ->
  reads (file w) (frame_offset i) (log_frames fs ++ tail) ->
  n = length fs \/ (length fs < n /\ exists d r, tail = d ++ r /\ length d = WAL_FRAME_SIZE /\ bad_frame (header w) d) ->
  exists w', count_loop n i w = (Ok (length fs), w') /\ moved w w'.
Proof.
  intros Hh Hfs. revert n i w Hh Hfs. induction fs as [|f fs IH]; intros n i w Hh Hfs Hr Hn.
  - destruct Hn as [->|[Hn (d & r & -> & Hd & f & Hp & Hbad)]]; [exists w; split; [done|by left]|].
    destruct n as [|n]; [simpl in Hn; lia|]. cbn [count_loop].
    change (log_frames [] ++ d ++ r) with (d ++ r) in Hr.
    rewrite (read_at _ _ d r) by done. cbv zeta. rewrite Hd, Hp.
    eexists. split; [|apply (moved_read (frame_offset i) WAL_FRAME_SIZE)].
    cbn [header with_position with_file]. case_decide as Hs; [done|].
    destruct (checksum_total f (parse_frame_length _ _ Hp)) as [c Hc]. rewrite Hc.
    rewrite decide_True; [done|]. intros Hcc. destruct Hbad as [?|[?|Hx]]; [tauto|tauto|]. by rewrite Hc, Hcc in Hx.
  - apply Forall_cons in Hfs as [Hf Hfs]. destruct n as [|n]; [simpl in Hn; lia|]. cbn [count_loop].
    assert (log_frames (f :: fs) ++ tail = frame_bytes f ++ log_frames fs ++ tail) as Hlf.
    { unfold log_frames. rewrite fmap_cons. cbn [concat]. by rewrite <-app_assoc. }
    rewrite Hlf in Hr. pose proof (length_frame_bytes f (fw_data _ _ Hf)) as Hl.
    rewrite (read_at _ _ _ _ _ Hr Hl). cbv zeta. rewrite Hl, (parse_frame_bytes (header w)) by done.
    cbn [header with_position with_file]. rewrite decide_False by (intros [H|H]; by destruct Hf).
    rewrite (fw_checksum _ _ Hf). rewrite decide_False by naive_solver.
    set (w1 := with_position _ _).
    destruct (IH n (i + 1) w1) as (w2 & H2 & Hm).
    + done.
    + done.
    + destruct (frame_slice _ _ _ _ (fw_data _ _ Hf) Hr) as [_ Hr2].
      replace (frame_offset (i + 1)) with (frame_offset i + WAL_FRAME_SIZE); [done|]. unfold frame_offset. lia.
    + simpl in Hn. destruct Hn as [Hn|[Hn Hb]]; [left; lia|right; split; [lia|done]].
    + exists w2. split; [by rewrite (st_bind_ok _ _ _ _ _ H2)|].
      etrans; [|exact Hm]. apply moved_read.
Qed.

Lemma read_frame_spec i f w rest :
  header_wf (header w) -> frame_wf (header w) f -> i < frame_num w ->
  reads (file w) (frame_offset i) (frame_bytes f ++ rest) ->
  exists w', read_frame i w = (Ok f, w') /\ moved w w'.
Proof.
  intros Hh Hf Hi Hr. unfold read_frame. rewrite decide_False by lia.
  pose proof (length_frame_bytes f (fw_data _ _ Hf)) as Hl.
  rewrite (read_at _ _ _ _ _ Hr Hl). cbv zeta. rewrite Hl, (parse_frame_bytes (header w)) by done.
  rewrite (fw_checksum _ _ Hf). rewrite decide_False by naive_solver.
  eexists. split; [done|]. apply moved_read.
Qed.

Lemma read_frames_spec fs i w rest :
  header_wf (header w) -> Forall (frame_wf (header w)) fs -> i + length fs <= frame_num w ->
  reads (file w) (frame_offset i) (log_frames fs ++ rest) ->
  exists w', read_frames (length fs) i w = (Ok fs, w') /\ moved w w'.
Proof.
  revert i w. induction fs as [|f fs IH]; intros i w Hh Hfs Hi Hr; [exists w; split; [done|by left]|].
  apply Forall_cons in Hfs as [Hf Hfs]. cbn [length read_frames] in *.
  assert (log_frames (f :: fs) ++ rest = frame_bytes f ++ log_frames fs ++ rest) as Hlf.
  { unfold log_frames. rewrite fmap_cons. cbn [concat]. by rewrite <-app_assoc. }
  rewrite Hlf in Hr. destruct (read_frame_spec i f w _ Hh Hf ltac:(lia) Hr) as (w1 & H1 & Hm1).
  destruct (moved_fields _ _ Hm1) as (Hfi & _ & Hhe & Hn).
  destruct (frame_slice _ _ _ _ (fw_data _ _ Hf) Hr) as [_ Hr2].
  destruct (IH (i + 1) w1) as (w2 & H2 & Hm2); [by rewrite Hhe|by rewrite Hhe|rewrite Hn; lia| |].
  { rewrite Hfi. replace (frame_offset (i + 1)) with (frame_offset i + WAL_FRAME_SIZE); [done|]. unfold frame_offset. lia. }
  exists w2. split; [|by etrans]. by rewrite (st_bind_ok _ _ _ _ _ H1), (st_bind_ok _ _ _ _ _ H2).
Qed.
End reading_log.

(** ** The protocol of the writer *)

(** The log [w] holds the frames [fs]: the first [k] of them in the file and the others in the
    writer's buffer. When something is buffered, and when the code believes to be at the end,
    the shared cursor is at the end of the file. *)
Record wal_ok (w : WALInner) (fs : list WALFrame) : Prop := {
  wo_header : header_wf (header w);
  wo_frames : Forall (frame_wf (header w)) fs;
  wo_count : frame_num w = length fs;
  wo_bytes : exists k, k <= length fs /\
    file w = log_header (header w) ++ log_frames (take k fs) /\ wbuf w = log_frames (drop k fs);
  wo_cursor : wbuf w <> [] \/ file_position w = Z.of_nat (frame_offset (length fs)) ->
    cursor w = length (file w) /\ file_position w = Z.of_nat (frame_offset (length fs)) }.

Section writing_log.
Implicit Types (f : WALFrame) (fs : list WALFrame) (w : WALInner).

Lemma file_write_end (d b : list byte) : file_write (length b) d b = b ++ d.
Proof.
  unfold file_write. rewrite resize_all, drop_ge by lia. by rewrite app_nil_r.
Qed.

Lemma length_log w fs : header_wf (header w) -> Forall (frame_wf (header w)) fs ->
  length (log_header (header w) ++ log_frames fs) = frame_offset (length fs).
Proof.
  intros [Hm _ _ _] Hfs. rewrite length_app, length_log_header by (by rewrite Hm).
  by rewrite (length_log_frames (header w)) by done.
Qed.

(** When nothing is buffered, the file is the whole log. *)
Lemma synced_file w fs : wal_ok w fs -> wbuf w = [] -> file w = log_header (header w) ++ log_frames fs.
Proof.
  intros [Hh Hfs _ (k & Hk & Hf & Hb) _] He. rewrite He in Hb.
  assert (length (drop k fs) = 0) as Hl.
  { assert (length (log_frames (drop k fs)) = 0) as Hl0 by (by rewrite <-Hb).
    rewrite (length_log_frames (header w)) in Hl0 by (by apply Forall_drop). size_lia. }
  rewrite length_drop in Hl. by rewrite Hf, take_ge by lia.
Qed.

Lemma flush_ok w fs : wal_ok w fs -> wal_ok (flush_writer w) fs /\ wbuf (flush_writer w) = [].
Proof.
  intros Hok. pose proof Hok as [Hh Hfs Hn (k & Hk & Hf & Hb) Hc]. unfold flush_writer.
  destruct (wbuf w) as [|b bs] eqn:He; [done|]. split; [|done].
  destruct Hc as [Hcur Hpos]; [by left|]. split; try done; simpl.
  - exists (length fs). split; [lia|]. rewrite take_ge, drop_ge by lia. split; [|done].
    rewrite Hcur, file_write_end, Hf, Hb, <-app_assoc, <-log_frames_app. by rewrite take_drop.
  - intros _. split; [|done]. rewrite Hcur, file_write_end, length_app. done.
Qed.

(** Appending the bytes of a frame to the writer at the end of the file. *)
Lemma append_bytes w d :
  length d = WAL_FRAME_SIZE -> cursor w = length (file w) ->
  let w' := buf_write_all d w in
  file w' ++ wbuf w' = file w ++ wbuf w ++ d /\ cursor w' = length (file w') /\
  header w' = header w /\ frame_num w' = frame_num w /\ file_position w' = file_position w /\
  ((file w' = file w /\ wbuf w' = wbuf w ++ d) \/ (file w' = file w ++ wbuf w /\ wbuf w' = d)).
Proof.
  intros Hl Hc. unfold buf_write_all. case_decide as H1; simpl.
  { split_and!; try done. by left. }
  rewrite (decide_False (P := WAL_BUFFER_SIZE <= length d)) by (rewrite Hl; unfold WAL_BUFFER_SIZE; size_lia).
  case_decide as H2; simpl.
  - unfold flush_writer. destruct (wbuf w) as [|b bs] eqn:He; simpl.
    + rewrite ?He. simpl. split_and!; try done. left. by rewrite ?He.
    + rewrite Hc, file_write_end, length_app. simpl. split_and!; try done; [by rewrite <-app_assoc|by right].
  - split_and!; try done. by left.
Qed.
End writing_log.

(** The frame that [write_frame] writes for a page. *)
Definition logged (h : WALHeader) (tx pn : N) (data : list byte) : WALFrame :=
  mk_frame tx pn data
    (default 0%N (calculate_checksum (mk_frame tx pn data 0 (hsalt1 h) (hsalt2 h)))) (hsalt1 h) (hsalt2 h).

Section log_protocol.
Implicit Types (f : WALFrame) (fs : list WALFrame) (w : WALInner).

Lemma logged_wf h tx pn data :
  (tx < 2 ^ 64)%N -> (pn < 2 ^ 64)%N -> length data = PAGE_SIZE -> frame_wf h (logged h tx pn data).
Proof.
  intros Ht Hp Hl. split; try done. unfold logged, calculate_checksum. simpl. by rewrite decide_True.
Qed.

Lemma wal_ok_fields w w' fs :
  wal_ok w fs -> file w' = file w -> wbuf w' = wbuf w -> header w' = header w -> frame_num w' = frame_num w ->
  cursor w' = cursor w -> file_position w' = file_position w -> wal_ok w' fs.
Proof. intros [? ? ? ? ?] H1 H2 H3 H4 H5 H6. split; rewrite ?H1, ?H2, ?H3, ?H4, ?H5, ?H6; done. Qed.

Lemma write_frame_ok w fs now tx pn data :
  wal_ok w fs -> (tx < 2 ^ 64)%N -> (pn < 2 ^ 64)%N -> length data = PAGE_SIZE ->
  exists w', write_frame now tx pn data w = (Ok tt, w') /\ header w' = header w /\
    wal_ok w' (fs ++ [logged (header w) tx pn data]).
Proof.
  intros Hok Ht Hp Hl. pose proof Hok as [Hh Hfs Hn (k & Hk & Hf & Hb) Hc].
  pose proof (logged_wf (header w) tx pn data Ht Hp Hl) as Hwf.
  set (fr := logged (header w) tx pn data) in *.
  set (offset := frame_offset (frame_num w)).
  set (w1 := if decide (file_position w <> Z.of_nat offset) then seek offset (flush_writer w) else w).
  assert (file w1 = file w /\ wbuf w1 = wbuf w /\ header w1 = header w /\ frame_num w1 = frame_num w /\
    cached_file_size w1 = cached_file_size w /\ cursor w1 = length (file w)) as (F1 & F2 & F3 & F4 & F5 & F6).
  { unfold w1, offset. rewrite Hn. case_decide as Hpos.
    - assert (wbuf w = []) as He.
      { destruct (wbuf w) as [|b bs] eqn:He; [done|]. destruct Hpos. apply Hc. by left. }
      unfold flush_writer. rewrite He. simpl. split_and!; try done.
      rewrite (synced_file w fs Hok He). by rewrite length_log.
    - split_and!; try done. apply Hc. right. destruct (decide (file_position w = Z.of_nat (frame_offset (length fs)))); [done|].
      by destruct Hpos. }
  pose proof (append_bytes w1 (frame_bytes fr) (length_frame_bytes fr Hl) ltac:(by rewrite F6, F1))
    as (A1 & A2 & A3 & A4 & A5 & A6). set (w2 := buf_write_all (frame_bytes fr) w1) in *.
  assert (calculate_checksum (mk_frame tx pn data 0 (hsalt1 (header w)) (hsalt2 (header w))) = Some (checksum fr)) as Hck.
  { unfold fr, logged, calculate_checksum. simpl. by rewrite decide_True. }
  set (w3 := with_position (Z.of_nat offset + Z.of_nat WAL_FRAME_SIZE) w2).
  set (w4 := with_frame_num (frame_num w3 + 1) w3).
  assert (write_frame now tx pn data w =
    (Ok tt, with_size_cache (cached_file_size w4 + Z.of_nat WAL_FRAME_SIZE) (Some now) w4)) as Hrun.
  { unfold write_frame. rewrite decide_False by naive_solver. rewrite Hck. cbv zeta. cbn [salt1 salt2].
    change (mk_frame tx pn data (checksum fr) (hsalt1 (header w)) (hsalt2 (header w))) with fr.
    rewrite serialize_frame_zeros by done. reflexivity. }
  clearbody w2. rewrite Hrun. clear Hrun. eexists. split; [reflexivity|].
  assert (header w2 = header w) as Hhe by (by rewrite A3). split; [done|].
  split; unfold w4, w3; cbn [header file wbuf frame_num cursor file_position with_size_cache with_frame_num with_position].
  - by rewrite Hhe.
  - rewrite Hhe. apply Forall_app. split; [done|by constructor].
  - rewrite A4, F4, Hn, length_app. done.
  - assert (log_frames [fr] = frame_bytes fr) as Hone by apply app_nil_r.
    rewrite Hhe. destruct A6 as [[-> ->]|[-> ->]].
    + exists k. rewrite length_app, F1, F2, Hf, Hb. split; [lia|]. rewrite take_app_le, drop_app_le by done.
      by rewrite log_frames_app, Hone.
    + exists (length fs). rewrite length_app, F1, F2, Hf, Hb. split; [lia|].
      rewrite take_app_length, drop_app_length, Hone. split; [|done].
      by rewrite <-app_assoc, <-log_frames_app, take_drop.
  - intros _. split; [done|]. unfold offset, frame_offset. rewrite length_app, Hn. cbn [length]. lia.
Qed.

Lemma wal_header_bytes_spec h : header_wf h -> wal_header_bytes h = Some (log_header h).
Proof.
  intros [Hm _ _ _]. assert (length (magic h) = 4) as Hl by (by rewrite Hm). unfold wal_header_bytes.
  rewrite <-wrote_nil, w_bytes_wrote by (rewrite Hl; simpl; unfold WAL_HEADER_SIZE; lia). cbn [mbind option_bind app].
  do 3 (rewrite w_le_wrote; [|rewrite ?length_app, ?length_to_le_bytes, ?Hl; unfold WAL_HEADER_SIZE; simpl; lia];
    cbn [mbind option_bind]).
  unfold wrote, log_header. cbn [snd]. by rewrite <-!app_assoc.
Qed.

Lemma flush_empty w : wbuf w = [] -> flush_writer w = w.
Proof. unfold flush_writer. by intros ->. Qed.

Lemma flush_nonempty w : wbuf w <> [] -> flush_writer w = with_wbuf [] (write_at_cursor (wbuf w) w).
Proof. unfold flush_writer. by destruct (wbuf w). Qed.

Lemma buf_write_small d w :
  wbuf w = [] -> length d < WAL_BUFFER_SIZE -> buf_write_all d w = with_wbuf d w.
Proof.
  intros He Hl. unfold buf_write_all. rewrite He. cbn [length app]. by rewrite decide_True by lia.
Qed.

Lemma wal_open_new secs1 secs2 :
  exists w, wal_open None secs1 secs2 = (Ok tt, w) /\ wal_ok w [].
Proof.
  assert (forall s, generate_salt s < 2 ^ 32)%N as Hs.
  { intros [s|]; [by apply N.mod_lt|done]. }
  unfold wal_open, write_header. cbn [header].
  assert (header_wf (mk_header WAL_MAGIC 1 (generate_salt secs1) (generate_salt secs2))) as Hh
    by (split; [done|done|apply Hs|apply Hs]).
  rewrite wal_header_bytes_spec by done. set (h := mk_header _ _ _ _) in *.
  assert (length (log_header h) = WAL_HEADER_SIZE) as Hl by (apply length_log_header; done).
  assert (log_header h <> []) as Hne by (intros Hx; by rewrite Hx in Hl).
  rewrite (flush_empty (mk_wal _ _ _ _ _ _ _ _)) by done. unfold seek.
  rewrite buf_write_small; [|done|rewrite Hl; unfold WAL_BUFFER_SIZE, WAL_HEADER_SIZE; lia].
  rewrite flush_nonempty by done. eexists. split; [reflexivity|].
  cbn [write_at_cursor with_position with_wbuf with_file file cursor wbuf header frame_num cached_file_size
    cache_timestamp file_position].
  assert (file_write 0 (log_header h) [] = log_header h) as Hw.
  { unfold file_write. cbn [resize app]. rewrite drop_nil. apply app_nil_r. }
  split; cbn [file cursor wbuf header frame_num file_position]; try done.
  exists 0. split; [done|]. split; [|done]. cbn [take]. unfold log_frames. cbn [fmap list_fmap concat].
  by rewrite app_nil_r.
Qed.

Lemma wal_ok_moved w w' fs : wal_ok w fs -> wbuf w = [] -> moved w w' -> wal_ok w' fs.
Proof.
  intros Hok He [->|[cur ->]]; [done|]. pose proof (synced_file w fs Hok He) as Hfile.
  destruct Hok as [Hh Hfs Hn Hb Hc]. split; try done. simpl. intros [?|Hcur]; [done|].
  split; [|done]. rewrite Hfile, length_log by done. lia.
Qed.

Lemma reads_frames w fs rest data : header_wf (header w) -> data = log_header (header w) ++ rest ->
  reads data (frame_offset 0) rest.
Proof.
  intros [Hm _ _ _] ->. assert (length (log_header (header w)) = frame_offset 0) as Hl.
  { rewrite length_log_header by (by rewrite Hm). unfold frame_offset. lia. }
  split; [rewrite length_app; lia|]. by rewrite <-Hl, drop_app_length.
Qed.

Lemma read_all_ok w fs : wal_ok w fs -> wbuf w = [] ->
  exists w', read_all_frames w = (Ok fs, w') /\ wal_ok w' fs /\ wbuf w' = [].
Proof.
  intros Hok He. pose proof (synced_file w fs Hok He) as Hf. pose proof Hok as [Hh Hfs Hn _ _].
  destruct (read_frames_spec fs 0 w [] Hh Hfs) as (w' & Hr & Hm); [lia| |].
  { rewrite app_nil_r. by eapply (reads_frames w fs). }
  exists w'. unfold read_all_frames. rewrite Hn. split; [done|]. split; [by eapply wal_ok_moved|].
  by destruct (moved_fields _ _ Hm) as (_ & -> & _).
Qed.

(** A sequence of writes, each at a time of its own. *)
Definition log_write : Type := N * N * N * list byte.

Fixpoint write_frames (l : list log_write) : WM unit :=
  match l with
  | [] => st_ret tt
  | (now, tx, pn, data) :: l => let! _ := write_frame now tx pn data in write_frames l
  end.

Definition log_write_ok (x : log_write) : Prop :=
  let '(now, tx, pn, data) := x in (tx < 2 ^ 64)%N /\ (pn < 2 ^ 64)%N /\ length data = PAGE_SIZE.

Definition logged_write (h : WALHeader) (x : log_write) : WALFrame :=
  let '(now, tx, pn, data) := x in logged h tx pn data.

Lemma write_frames_ok l w fs :
  wal_ok w fs -> Forall log_write_ok l ->
  exists w', write_frames l w = (Ok tt, w') /\ header w' = header w /\ wal_ok w' (fs ++ (logged_write (header w) <$> l)).
Proof.
  revert w fs. induction l as [|[[[now tx] pn] data] l IH]; intros w fs Hok Hl.
  { exists w. by rewrite app_nil_r. }
  apply Forall_cons in Hl as [(Ht & Hp & Hd) Hl].
  destruct (write_frame_ok w fs now tx pn data Hok Ht Hp Hd) as (w1 & H1 & Hh1 & Hok1).
  destruct (IH w1 _ Hok1 Hl) as (w2 & H2 & Hh2 & Hok2). exists w2. cbn [write_frames].
  rewrite (st_bind_ok _ _ _ _ _ H1). split_and!; [done|congruence|]. rewrite Hh1, <-app_assoc in Hok2. done.
Qed.
End log_protocol.

(** Frames written to a new log in any number, at any times, come back from
    [read_all_frames] after a [sync], in order and each with its checksum, although the
    writer buffers 64 KB at a time. *)
Theorem log_reads_back secs1 secs2 l (Hl : Forall log_write_ok l) :
  exists w0 w1 w2, wal_open None secs1 secs2 = (Ok tt, w0) /\ write_frames l w0 = (Ok tt, w1) /\
    (let! _ := sync in read_all_frames) w1 = (Ok (logged_write (header w0) <$> l), w2) /\
    frame_num w2 = length l.
Proof.
  destruct (wal_open_new secs1 secs2) as (w0 & H0 & Hok0).
  destruct (write_frames_ok l w0 [] Hok0 Hl) as (w1 & H1 & Hh1 & Hok1).
  destruct (flush_ok _ _ Hok1) as [Hok2 He2]. destruct (read_all_ok _ _ Hok2 He2) as (w2 & H2 & Hok3 & _).
  exists w0, w1, w2. split_and!; [done..|]. rewrite (wo_count _ _ Hok3). by rewrite length_app, length_fmap.
Qed.

Lemma log_reads_back_witness :
  let l := [(0%N, 7%N, 3%N, replicate PAGE_SIZE Byte.x01); (5%N, 8%N, 4%N, replicate PAGE_SIZE Byte.x02)] in
  exists w0 w1 w2, wal_open None (Some 99%N) (Some 100%N) = (Ok tt, w0) /\ write_frames l w0 = (Ok tt, w1) /\
    (let! _ := sync in read_all_frames) w1 = (Ok (logged_write (header w0) <$> l), w2) /\
    frame_num w2 = length l.
Proof.
  intros l. apply (log_reads_back (Some 99%N) (Some 100%N) l).
  repeat constructor; apply length_replicate.
Defined.

Section recovery.
Implicit Types (h : WALHeader) (fs : list WALFrame) (w : WALInner).

(** Bytes after the valid frames that are not a frame of this log. *)
Definition stops (h : WALHeader) (tail : list byte) : Prop :=
  length tail < WAL_FRAME_SIZE \/
  (exists d r, tail = d ++ r /\ length d = WAL_FRAME_SIZE /\ bad_frame h d).

Lemma read_header_spec h rest w :
  header_wf h -> file w = log_header h ++ rest ->
  read_header w = (Ok h, with_position (Z.of_nat WAL_HEADER_SIZE) (with_file (file w) WAL_HEADER_SIZE w)).
Proof.
  intros Hh Hf. pose proof Hh as [Hm Hv H1 H2]. assert (length (magic h) = 4) as Hl4 by (by rewrite Hm).
  pose proof (length_log_header h Hl4) as Hl. unfold read_header.
  rewrite (read_at 0 WAL_HEADER_SIZE (log_header h) rest) by (try done; rewrite Hf; apply reads_start).
  cbv zeta. rewrite Hl.
  pose proof (reads_start (log_header h)) as Hr. unfold log_header at 2 in Hr. unfold zbuf in Hr.
  rewrite <-!app_assoc in Hr.
  pose proof (reads_slice _ _ 4 _ _ Hr Hl4) as [E1 Hr1]. cbn [Nat.add] in Hr1.
  pose proof (reads_le _ _ _ _ _ Hr1 Hv) as [E2 Hr2]. cbn [Nat.add] in Hr2.
  pose proof (reads_le _ _ _ _ _ Hr2 H1) as [E3 Hr3]. cbn [Nat.add] in Hr3.
  pose proof (reads_le _ _ _ _ _ Hr3 H2) as [E4 _].
  rewrite E1, E2, E3, E4. cbn [mbind option_bind magic]. rewrite decide_True by done. by destruct h.
Qed.

Lemma count_frames_spec h fs tail w :
  header w = h -> header_wf h -> Forall (frame_wf h) fs -> file w = log_header h ++ log_frames fs ++ tail -> stops h tail ->
  exists w', count_frames w = (Ok (length fs), w') /\ moved w w'.
Proof.
  intros Hhw Hh Hfs Hf Hst. pose proof Hh as [Hm _ _ _].
  assert (length (log_header h) = WAL_HEADER_SIZE) as Hlh by (apply length_log_header; by rewrite Hm).
  assert (length (file w) = WAL_HEADER_SIZE + length fs * WAL_FRAME_SIZE + length tail) as Hlf.
  { rewrite Hf, !length_app, Hlh, (length_log_frames h) by done. lia. }
  unfold count_frames. rewrite decide_False by lia.
  assert (file_frames (length (file w)) = length fs + length tail / WAL_FRAME_SIZE) as ->.
  { unfold file_frames. rewrite Hlf.
    replace (WAL_HEADER_SIZE + length fs * WAL_FRAME_SIZE + length tail - WAL_HEADER_SIZE)
      with (length fs * WAL_FRAME_SIZE + length tail) by lia.
    apply Nat.div_add_l. size_lia. }
  subst h. apply (count_loop_frames fs _ 0 w tail); [done|done| |].
  - eapply (reads_frames w fs); [done|]. by rewrite Hf.
  - destruct Hst as [Ht|(d & r & -> & Hd & Hb)].
    + left. rewrite Nat.div_small by done. lia.
    + right. split; [|by exists d, r]. rewrite length_app, Hd.
      assert (0 < (WAL_FRAME_SIZE + length r) / WAL_FRAME_SIZE); [|lia].
      apply Nat.div_str_pos. size_lia.
Qed.

Lemma wal_open_spec h fs tail secs1 secs2 :
  header_wf h -> Forall (frame_wf h) fs -> stops h tail ->
  exists w w', wal_open (Some (log_header h ++ log_frames fs ++ tail)) secs1 secs2 = (Ok tt, w) /\
    header w = h /\ frame_num w = length fs /\ wbuf w = [] /\ file w = log_header h ++ log_frames fs ++ tail /\
    read_all_frames w = (Ok fs, w').
Proof.
  intros Hh Hfs Hst. unfold wal_open. set (w0 := mk_wal _ _ _ _ _ _ _ _).
  rewrite (st_bind_ok _ _ _ _ _ (read_header_spec h _ w0 Hh eq_refl)).
  set (w1 := with_position _ _). unfold st_modify. unfold st_bind at 1.
  destruct (count_frames_spec h fs tail (with_header h w1) eq_refl Hh Hfs eq_refl Hst) as (w2 & Hc & Hm).
  rewrite (st_bind_ok _ _ _ _ _ Hc). destruct (moved_fields _ _ Hm) as (Hf & Hb & Hhd & Hn).
  set (w3 := with_frame_num (length fs) w2).
  assert (header w3 = h /\ file w3 = log_header h ++ log_frames fs ++ tail) as [Hh3 Hf3].
  { unfold w3. cbn [header file with_frame_num]. by rewrite Hf, Hhd. }
  destruct (read_frames_spec fs 0 w3 tail) as (w4 & Hr & _); [by rewrite Hh3|by rewrite Hh3|done| |].
  { eapply (reads_frames w3 fs); [by rewrite Hh3|]. by rewrite Hf3, Hh3. }
  exists w3, w4. split_and!; try done.
Qed.
End recovery.

(** C26: opening an existing log recovers exactly its valid frames: those before the first
    bytes that are too short for a frame, carry other salts or fail their checksum. *)
Theorem open_recovers_valid_frames h fs tail secs1 secs2
    (Hh : header_wf h) (Hfs : Forall (frame_wf h) fs) (Htail : stops h tail) :
  exists w w', wal_open (Some (log_header h ++ log_frames fs ++ tail)) secs1 secs2 = (Ok tt, w) /\
    header w = h /\ frame_num w = length fs /\ read_all_frames w = (Ok fs, w').
Proof.
  destruct (wal_open_spec h fs tail secs1 secs2 Hh Hfs Htail) as (w & w' & H1 & H2 & H3 & _ & _ & H4).
  by exists w, w'.
Qed.

(** A log cut at any byte after its header, as by a crash during a write, opens with
    exactly the frames that were written completely before the cut. *)
Theorem torn_log_keeps_whole_frames h fs m secs1 secs2
    (Hh : header_wf h) (Hfs : Forall (frame_wf h) fs)
    (Hm : WAL_HEADER_SIZE <= m <= length (log_header h ++ log_frames fs)) :
  exists w w', wal_open (Some (take m (log_header h ++ log_frames fs))) secs1 secs2 = (Ok tt, w) /\
    frame_num w = (m - WAL_HEADER_SIZE) / WAL_FRAME_SIZE /\
    read_all_frames w = (Ok (take ((m - WAL_HEADER_SIZE) / WAL_FRAME_SIZE) fs), w').
Proof.
  pose proof Hh as [Hmg _ _ _].
  assert (length (log_header h) = WAL_HEADER_SIZE) as Hlh by (apply length_log_header; by rewrite Hmg).
  rewrite length_app, Hlh, (length_log_frames h) in Hm by done.
  set (k := (m - WAL_HEADER_SIZE) / WAL_FRAME_SIZE).
  assert (WAL_FRAME_SIZE <> 0) as Hne by size_lia.
  pose proof (Nat.div_mod (m - WAL_HEADER_SIZE) WAL_FRAME_SIZE Hne) as Hdm. fold k in Hdm.
  pose proof (Nat.mod_upper_bound (m - WAL_HEADER_SIZE) WAL_FRAME_SIZE Hne) as Hmod.
  assert (k <= length fs) as Hk.
  { unfold k. apply Nat.Div0.div_le_upper_bound. lia. }
  set (tail := take (m - WAL_HEADER_SIZE - k * WAL_FRAME_SIZE) (log_frames (drop k fs))).
  assert (take m (log_header h ++ log_frames fs) = log_header h ++ log_frames (take k fs) ++ tail) as ->.
  { rewrite take_app_ge by lia. f_equal. rewrite Hlh.
    rewrite <-(take_drop k fs) at 1. rewrite log_frames_app.
    assert (length (log_frames (take k fs)) = k * WAL_FRAME_SIZE) as Hlk.
    { rewrite (length_log_frames h) by (by apply Forall_take). rewrite length_take. f_equal. lia. }
    rewrite take_app_ge by lia. by rewrite Hlk. }
  destruct (wal_open_spec h (take k fs) tail secs1 secs2 Hh) as (w & w' & H1 & _ & H3 & _ & _ & H4).
  - by apply Forall_take.
  - left. unfold tail. rewrite length_take. lia.
  - exists w, w'. split_and!; [done| |done]. rewrite H3, length_take. lia.
Qed.

Definition sample_header : WALHeader := mk_header WAL_MAGIC 1 17 18.

Lemma sample_header_wf : header_wf sample_header.
Proof. by split. Qed.

Definition sample_frames : list WALFrame :=
  [logged sample_header 7 3 (replicate PAGE_SIZE Byte.x01); logged sample_header 8 4 (replicate PAGE_SIZE Byte.x02)].

Lemma sample_frames_wf : Forall (frame_wf sample_header) sample_frames.
Proof. repeat constructor; apply logged_wf; try done; apply length_replicate. Qed.

Lemma open_recovers_valid_frames_witness :
  exists w w', wal_open (Some (log_header sample_header ++ log_frames sample_frames ++ [Byte.x07])) None None = (Ok tt, w) /\
    header w = sample_header /\ frame_num w = length sample_frames /\ read_all_frames w = (Ok sample_frames, w').
Proof.
  apply (open_recovers_valid_frames sample_header sample_frames [Byte.x07] None None);
    [exact sample_header_wf|exact sample_frames_wf|]. left. simpl. size_lia.
Defined.

Lemma torn_log_keeps_whole_frames_witness :
  exists w w', wal_open (Some (take 5000 (log_header sample_header ++ log_frames sample_frames))) None None = (Ok tt, w) /\
    frame_num w = (5000 - WAL_HEADER_SIZE) / WAL_FRAME_SIZE /\
    read_all_frames w = (Ok (take ((5000 - WAL_HEADER_SIZE) / WAL_FRAME_SIZE) sample_frames), w').
Proof.
  apply (torn_log_keeps_whole_frames sample_header sample_frames 5000 None None);
    [exact sample_header_wf|exact sample_frames_wf|].
  rewrite length_app, length_log_header by done. rewrite (length_log_frames sample_header) by exact sample_frames_wf.
  unfold WAL_HEADER_SIZE. simpl length. size_lia.
Defined.

(** ** Checkpoints *)
Section checkpoints.
Implicit Types (h : WALHeader) (fs : list WALFrame) (w : WALInner) (pg : Pager.Pager).

Lemma read_raw_frames h fs off data rest :
  header_wf h -> Forall (frame_wf h) fs -> reads data off (log_frames fs ++ rest) ->
  read_raw (length fs) off h data = fs.
Proof.
  intros Hh Hfs. revert off. induction Hfs as [|f fs Hf Hfs IH]; intros off Hr; [done|].
  assert (log_frames (f :: fs) ++ rest = frame_bytes f ++ log_frames fs ++ rest) as Hlf.
  { unfold log_frames. rewrite fmap_cons. cbn [concat]. by rewrite <-app_assoc. }
  rewrite Hlf in Hr. destruct (frame_slice _ _ _ _ (fw_data _ _ Hf) Hr) as [Hs Hr2].
  cbn [length read_raw]. rewrite Hs. cbn [mbind option_bind]. rewrite (parse_frame_bytes h) by done.
  rewrite decide_False by (intros [Hx|Hx]; by destruct Hf). f_equal. by apply IH.
Qed.

Lemma valid_prefix_all h fs : Forall (frame_wf h) fs -> valid_prefix fs = fs.
Proof.
  induction 1 as [|f fs Hf Hfs IH]; [done|]. cbn [valid_prefix]. unfold checksum_ok.
  rewrite bool_decide_eq_true_2 by apply Hf. by rewrite IH.
Qed.

(** The map of a checkpoint holds the last page logged under each number but 0. *)
Lemma page_map_last fs p :
  page_map fs !! p = if decide (p = 0%N) then None else page_data <$> last (filter (fun f => page_num f = p) fs).
Proof.
  unfold page_map. induction fs as [|f fs IH] using rev_ind; [by case_decide|].
  rewrite foldl_snoc, filter_app. destruct (N.eqb_spec (page_num f) 0) as [H0|H0].
  - rewrite IH. case_decide; [done|]. rewrite (filter_cons_False (fun f => page_num f = p)) by congruence.
    by rewrite filter_nil, app_nil_r.
  - destruct (decide (page_num f = p)) as [<-|Hp].
    + rewrite lookup_insert_eq, decide_False by done. rewrite filter_cons_True by done.
      by rewrite filter_nil, last_snoc.
    + rewrite lookup_insert_ne by done. rewrite IH. case_decide; [done|].
      rewrite (filter_cons_False (fun f => page_num f = p)) by done. by rewrite filter_nil, app_nil_r.
Qed.

Lemma page_map_In fs p d : page_map fs !! p = Some d -> exists f, f ∈ fs /\ page_num f = p /\ page_data f = d.
Proof.
  rewrite page_map_last. case_decide; [done|]. intros (f & Hf & ->)%fmap_Some. exists f.
  apply last_Some_elem_of, list_elem_of_filter in Hf as [? ?]. done.
Qed.

Lemma page_map_wf h fs :
  Forall (frame_wf h) fs -> Forall (fun f => page_num f < 2 ^ 52)%N fs -> Forall page_wf (map_to_list (page_map fs)).
Proof.
  intros Hfs Hp. rewrite Forall_forall in Hfs, Hp. apply Forall_forall. intros [p d] Hin%elem_of_map_to_list.
  apply page_map_In in Hin as (f & Hf & <- & <-). split; [by apply Hp|]. apply (Hfs f Hf).
Qed.

Lemma page_map_small fs p d :
  Forall (fun f => page_num f < 2 ^ 52)%N fs -> page_map fs !! p = Some d -> (p < 2 ^ 52)%N.
Proof. intros H (f & Hin & <- & _)%page_map_In. rewrite Forall_forall in H. by apply H. Qed.

(** The file after the pages of a map and then the dirty pages of the cache were written. *)
Lemma written_pages pg c (m : gmap N (list byte)) p d :
  lru_rel (pcache pg) c -> coherent (Pager.file pg) c -> Forall page_wf (map_to_list m) -> (p < 2 ^ 52)%N ->
  (m !! p = Some d /\ dirty (pcache pg) !! p = None) \/ (m !! p = None /\ pager_view pg p = Some d) ->
  file_page p (write_each (dirty_pages c (get_all_dirty (pcache pg)))
    (write_each (map_to_list m) (Pager.file pg))) = Some d.
Proof.
  intros Hr Hco Hwf Hp Hd.
  pose proof (dirty_pages_wf _ _ (get_all_dirty (pcache pg)) Hco) as Hdw.
  pose proof (dirty_pages_nodup c _ (get_all_dirty_nodup (pcache pg))) as Hdn.
  pose proof (NoDup_fst_map_to_list m) as Hnd.
  destruct Hd as [[Hm Hdirty]|[Hm Hv]].
  - apply write_each_other; [done..| |].
    + intros (b & Hb)%dirty_pages_fst%get_all_dirty_elem. congruence.
    + apply write_each_same; [done..|]. by apply elem_of_map_to_list.
  - rewrite (view_eq _ _ _ Hr) in Hv. pose proof (flushed_pages pg c p d Hr Hco Hp Hv) as Hfp.
    destruct (decide (p ∈ (dirty_pages c (get_all_dirty (pcache pg))).*1)) as [Hin|Hin].
    + apply list_elem_of_fmap in Hin as ([q e] & -> & Hin). simpl in *.
      rewrite (write_each_same _ (Pager.file pg) q e Hdw Hdn Hin) in Hfp. simplify_eq. by apply write_each_same.
    + apply write_each_other; [done..|]. apply write_each_other; [done|done| |by eapply undirtied_page].
      intros ([q e] & -> & Hq%elem_of_map_to_list)%list_elem_of_fmap. simpl in Hm. congruence.
Qed.

Lemma checkpoint_run now w fs pg c :
  wal_ok w fs -> wbuf w = [] -> read_only pg = false -> lru_rel (pcache pg) c -> coherent (Pager.file pg) c ->
  Forall (fun f => page_num f < 2 ^ 52)%N fs ->
  exists w', checkpoint now (w, pg) = (Ok tt, (w',
      flushed (Pager.with_file (write_each (map_to_list (page_map fs)) (Pager.file pg)) pg) c)) /\
    wal_ok w' [] /\ wbuf w' = [].
Proof.
  intros Hok Hsynced Hrw Hr Hco Hpages.
  pose proof (synced_file w fs Hok Hsynced) as Hf. pose proof Hok as [Hh Hfs Hn _ _].
  destruct (count_frames_spec (header w) fs [] w eq_refl Hh Hfs) as (w1 & Hc & Hm);
    [by rewrite app_nil_r|left; simpl; size_lia|].
  destruct (moved_fields _ _ Hm) as (Hf1 & Hb1 & Hh1 & _).
  pose proof (page_map_wf (header w) fs Hfs Hpages) as Hwf.
  set (pg1 := Pager.with_file (write_each (map_to_list (page_map fs)) (Pager.file pg)) pg).
  destruct (flush_spec pg1 c (Pager.file pg) Hrw Hr Hco) as [Hfl _].
  assert (valid_prefix (read_raw (length fs) WAL_HEADER_SIZE (header w) (file w)) = fs) as Hread.
  { rewrite (read_raw_frames (header w) fs WAL_HEADER_SIZE (file w) []); [by eapply valid_prefix_all|done|done|].
    change WAL_HEADER_SIZE with (frame_offset 0). eapply (reads_frames w fs); [done|]. by rewrite app_nil_r. }
  eexists. split; [|split].
  - unfold checkpoint. rewrite Hc. cbv zeta. cbn [header file with_frame_num]. rewrite Hh1, Hf1, Hread.
    rewrite (st_bind_ok _ _ _ _ _ (write_pages_direct_spec pg _ Hrw Hwf (NoDup_fst_map_to_list _))).
    fold pg1. rewrite Hfl. reflexivity.
  - pose proof Hh as [Hmg _ _ _].
    assert (length (log_header (header w)) = WAL_HEADER_SIZE) as Hlh by (apply length_log_header; by rewrite Hmg).
    split; cbn [header file wbuf frame_num cursor file_position with_file with_position with_frame_num with_size_cache].
    + by rewrite Hh1.
    + constructor.
    + done.
    + exists 0. split; [lia|]. rewrite Hh1, Hb1, Hf, Hsynced. split; [|done].
      rewrite <-Hlh at 1. rewrite take_app_length, length_app.
      replace (WAL_HEADER_SIZE - _) with 0 by lia. done.
    + rewrite Hb1, Hsynced. intros [?|?]; [done|lia].
  - cbn [wbuf with_file with_position with_frame_num with_size_cache]. by rewrite Hb1.
Qed.
End checkpoints.

(** C30: a checkpoint of a synced log writes, for every logged page other than page 0, the
    bytes logged last into the database file, unless the page is dirty in the page cache, keeps
    every other page of the database in the file, and leaves an empty log. *)
Theorem checkpoint_writes_last_pages now w fs pg
    (Hok : wal_ok w fs) (Hsynced : wbuf w = []) (Hpg : pager_ok pg)
    (Hpages : Forall (fun f => page_num f < 2 ^ 52)%N fs) :
  exists w' pg', checkpoint now (w, pg) = (Ok tt, (w', pg')) /\ wal_ok w' [] /\ wbuf w' = [] /\
    (forall p d, p <> 0%N -> page_data <$> last (filter (fun f => page_num f = p) fs) = Some d ->
       dirty (pcache pg) !! p = None -> file_page p (Pager.file pg') = Some d) /\
    (forall p d, (p < 2 ^ 52)%N -> page_data <$> last (filter (fun f => page_num f = p) fs) = None ->
       pager_view pg p = Some d -> file_page p (Pager.file pg') = Some d).
Proof.
  pose proof Hpg as [Hrw _ _ _ (c & Hr & Hco)].
  destruct (checkpoint_run now w fs pg c Hok Hsynced Hrw Hr Hco Hpages) as (w' & Hrun & Hok' & Hb).
  pose proof (page_map_wf (header w) fs (wo_frames _ _ Hok) Hpages) as Hwf.
  eexists w', _. split_and!; [exact Hrun|done|done|..].
  - intros p d H0 Hl Hd. assert (page_map fs !! p = Some d) as Hp by (by rewrite page_map_last, decide_False).
    apply (written_pages pg c (page_map fs) p d); [done..|by eapply page_map_small|by left].
  - intros p d Hp Hl Hv. apply (written_pages pg c (page_map fs) p d); [done..|right]. split; [|done].
    rewrite page_map_last, Hl. by case_decide.
Qed.

Lemma checkpoint_writes_last_pages_witness :
  let w := mk_wal (log_header sample_header ++ log_frames sample_frames) 0 [] sample_header 2 0 None (-1) in
  let pg := mk_pager [] (LRUCache_new 2) 5 0 1 [] false in
  exists w' pg', checkpoint 0 (w, pg) = (Ok tt, (w', pg')) /\ wal_ok w' [] /\ wbuf w' = [] /\
    (forall p d, p <> 0%N -> page_data <$> last (filter (fun f => page_num f = p) sample_frames) = Some d ->
       dirty (pcache pg) !! p = None -> file_page p (Pager.file pg') = Some d) /\
    (forall p d, (p < 2 ^ 52)%N -> page_data <$> last (filter (fun f => page_num f = p) sample_frames) = None ->
       pager_view pg p = Some d -> file_page p (Pager.file pg') = Some d).
Proof.
  intros w pg. apply (checkpoint_writes_last_pages 0 w sample_frames pg).
  - split; [exact sample_header_wf|exact sample_frames_wf|done| |].
    + exists 2. split; [done|]. split; done.
    + intros [?|?]; done.
  - done.
  - apply new_pager_ok; [lia|constructor|by intros ? ?%elem_of_nil].
  - repeat constructor.
Defined.
