(* ===== verification/Mvcc.v ===== *)
(** * Multi-version concurrency control (mvcc.rs)

    [TransactionManager] hands out transaction ids, keeps the newest committed id and the
    table of active transactions; a [VersionChain] keeps the superseded versions of one
    document until no transaction can see them. The last section interleaves the steps of
    concurrent transactions and garbage collections: mvcc.rs reads and writes its atomics
    and takes its locks step by step, and [step] has one rule for each of them. *)

From stdpp Require Import base list strings gmap relations.
From Stdlib Require Import NArith Lia.
From S2P Require Import Prelude.
Open Scope N_scope.

(** ** The transaction manager *)
Inductive TxStatus := Active | Committed | Aborted.

#[global] Instance TxStatus_eq_dec : EqDecision TxStatus.
Proof. solve_decision. Defined.

Record TransactionInfo := mk_info {
  info_id : N;
  start_time : N;
  status : TxStatus
}.

Record TransactionManager := mk_manager {
  next_tx_id : N;
  last_committed_tx_id : N;
  active_txs : gmap N TransactionInfo
}.

Definition with_active (f : gmap N TransactionInfo -> gmap N TransactionInfo) (tm : TransactionManager) :=
  mk_manager (next_tx_id tm) (last_committed_tx_id tm) (f (active_txs tm)).

Definition manager_new : TransactionManager := mk_manager 1 0 ∅.

Definition initialize_from_pager (current : N) (tm : TransactionManager) : TransactionManager :=
  mk_manager current (if 0 <? current then current - 1 else last_committed_tx_id tm) (active_txs tm).

Definition get_latest_committed_tx_id (tm : TransactionManager) : N := last_committed_tx_id tm.

(** [self.next_tx_id.fetch_add(1)]: the old value, and the wrapped successor. *)
Definition fetch_tx_id (tm : TransactionManager) : N * TransactionManager :=
  (next_tx_id tm, mk_manager (wrap_u64 (next_tx_id tm + 1)) (last_committed_tx_id tm) (active_txs tm)).

Definition insert_active (tx snapshot : N) : TransactionManager -> TransactionManager :=
  with_active <[tx := mk_info tx snapshot Active]>.

(** One thread's [begin_transaction], run without interference. *)
Definition begin_transaction (tm : TransactionManager) : N * TransactionManager :=
  let '(tx, tm1) := fetch_tx_id tm in
  let snapshot := get_latest_committed_tx_id tm1 in
  (tx, insert_active tx snapshot tm1).

Definition register_transaction (tx : N) (tm : TransactionManager) : TransactionManager :=
  let snapshot := get_latest_committed_tx_id tm in
  insert_active tx snapshot tm.

(** The status set on the entry is lost with it: the entry is removed in the same critical
    section. *)
Definition set_status (st : TxStatus) (i : TransactionInfo) : TransactionInfo :=
  mk_info (info_id i) (start_time i) st.

Definition commit_transaction (tx : N) (tm : TransactionManager) : TransactionManager :=
  let tm1 := with_active (fun m => delete tx (alter (set_status Committed) tx m)) tm in
  let current_last := last_committed_tx_id tm1 in
  if current_last <? tx then mk_manager (next_tx_id tm1) tx (active_txs tm1) else tm1.

Definition abort_transaction (tx : N) (tm : TransactionManager) : TransactionManager :=
  with_active (fun m => delete tx (alter (set_status Aborted) tx m)) tm.

Definition U64_MAX : N := 2 ^ 64 - 1.

Definition get_oldest_active_transaction (tm : TransactionManager) : N :=
  if decide (active_txs tm = ∅) then wrap_u64 (get_latest_committed_tx_id tm + 1)
  else foldl (fun oldest i => if start_time i <? oldest then start_time i else oldest) U64_MAX
         (map_to_list (active_txs tm)).*2.

(** ** Versions *)
Record DocumentVersion := mk_version {
  v_doc_id : string;
  xmin : N;
  xmax : N;
  v_data : list Byte.byte;
  v_page_num : N
}.

Definition is_visible (v : DocumentVersion) (tx : N) : bool :=
  if tx <? xmin v then false
  else if negb (xmax v =? 0) && (xmax v <=? tx) then false
  else true.

Record VersionChain := mk_chain { chain_doc_id : string; versions : list DocumentVersion }.

Definition chain_new (doc : string) : VersionChain := mk_chain doc [].

Definition add_version (v : DocumentVersion) (c : VersionChain) : VersionChain :=
  mk_chain (chain_doc_id c) (vec_push (versions c) v).

Definition keeps (oldest : N) (v : DocumentVersion) : bool :=
  (oldest <=? xmin v) || ((xmax v =? 0) || (oldest <=? xmax v)).

(** The loop over [versions.drain(..)]: (kept, removed). *)
Fixpoint gc_loop (oldest : N) (vs kept removed : list DocumentVersion) :
    list DocumentVersion * list DocumentVersion :=
  match vs with
  | [] => (kept, removed)
  | v :: vs' =>
      if keeps oldest v then gc_loop oldest vs' (vec_push kept v) removed
      else gc_loop oldest vs' kept (vec_push removed v)
  end.

Definition garbage_collect (oldest : N) (c : VersionChain) : list DocumentVersion * VersionChain :=
  let '(kept, removed) := gc_loop oldest (versions c) [] [] in
  (removed, mk_chain (chain_doc_id c) kept).

Definition get_versions (c : VersionChain) : list DocumentVersion := versions c.

(** ** The version chains of the database: collection name, then document id *)
Definition chain_table : Type := gmap string (gmap string VersionChain).

(** transaction.rs, after a commit: the version that transaction [tx] replaced gets [tx] as
    its xmax and joins the chain of its document. *)
Definition set_xmax (tx : N) (v : DocumentVersion) : DocumentVersion :=
  mk_version (v_doc_id v) (xmin v) tx (v_data v) (v_page_num v).

Definition add_old_version (tx : N) (coll doc : string) (v : DocumentVersion) (t : chain_table) : chain_table :=
  let coll_chains := default ∅ (t !! coll) in
  let chain := default (chain_new doc) (coll_chains !! doc) in
  <[coll := <[doc := add_version (set_xmax tx v) chain]> coll_chains]> t.

(** database.rs, [garbage_collect]: every chain is collected, chains left empty and
    collections left without chains are dropped; the removed versions are what
    [delete_document] is called with. *)
Definition nonempty_chain (c : VersionChain) : bool := negb (bool_decide (get_versions c = [])).

Definition collect_chains (oldest : N) (m : gmap string VersionChain) : gmap string VersionChain :=
  omap (fun c => let c' := snd (garbage_collect oldest c) in if nonempty_chain c' then Some c' else None) m.

Definition removed_from (oldest : N) (m : gmap string VersionChain) : list DocumentVersion :=
  map_to_list m ≫= (fun x => fst (garbage_collect oldest (snd x))).

Definition collect_table (oldest : N) (t : chain_table) : list DocumentVersion * chain_table :=
  (map_to_list t ≫= (fun x => removed_from oldest (snd x)),
   omap (fun m => let m' := collect_chains oldest m in if decide (m' = ∅) then None else Some m') t).

(** ** What one operation does *)
Section operations.
Implicit Types (tm : TransactionManager) (v : DocumentVersion) (vs : list DocumentVersion).

Lemma gc_loop_filter oldest vs kept removed :
  gc_loop oldest vs kept removed =
    (kept ++ filter (fun v => keeps oldest v = true) vs, removed ++ filter (fun v => keeps oldest v = false) vs).
Proof.
  revert kept removed. induction vs as [|v vs IH]; intros; simpl.
  { by rewrite !app_nil_r. }
  destruct (keeps oldest v) eqn:E; rewrite IH; unfold vec_push.
  - rewrite filter_cons_True, filter_cons_False by congruence. by rewrite <-app_assoc.
  - rewrite filter_cons_False, filter_cons_True by congruence. by rewrite <-app_assoc.
Qed.

Lemma garbage_collect_spec oldest c :
  garbage_collect oldest c =
    (filter (fun v => keeps oldest v = false) (versions c),
     mk_chain (chain_doc_id c) (filter (fun v => keeps oldest v = true) (versions c))).
Proof. unfold garbage_collect. by rewrite gc_loop_filter. Qed.

Lemma keeps_false oldest v :
  keeps oldest v = false <-> xmin v < oldest /\ xmax v <> 0 /\ xmax v < oldest.
Proof.
  unfold keeps. rewrite !orb_false_iff, !N.leb_gt, N.eqb_neq. done.
Qed.

Lemma invisible v snap : xmax v <> 0 -> xmax v <= snap -> is_visible v snap = false.
Proof.
  intros H1 H2. unfold is_visible. case_match; [done|].
  apply N.eqb_neq in H1 as ->. by apply N.leb_le in H2 as ->.
Qed.

Lemma is_visible_spec v snap :
  is_visible v snap = true <-> xmin v <= snap /\ (xmax v = 0 \/ snap < xmax v).
Proof.
  unfold is_visible. destruct (N.ltb_spec snap (xmin v)); [split; [done|lia]|].
  destruct (N.eqb_spec (xmax v) 0), (N.leb_spec (xmax v) snap); simpl; split; try done; lia.
Qed.

(** What [delete_document] is called with was superseded before [oldest]. *)
Lemma collect_table_removed oldest t v :
  v ∈ fst (collect_table oldest t) -> xmin v < oldest /\ xmax v <> 0 /\ xmax v < oldest.
Proof.
  simpl. intros ([coll m] & Hin & _)%list_elem_of_bind. simpl in Hin.
  unfold removed_from in Hin. apply list_elem_of_bind in Hin as ([doc c] & Hin & _). simpl in Hin.
  rewrite garbage_collect_spec in Hin. simpl in Hin.
  apply list_elem_of_filter in Hin as [? _]. by apply keeps_false.
Qed.

Lemma oldest_fold_le (il : list TransactionInfo) acc :
  let o := foldl (fun oldest i => if start_time i <? oldest then start_time i else oldest) acc il in
  o <= acc /\ forall i, i ∈ il -> o <= start_time i.
Proof.
  cbv zeta. revert acc. induction il as [|i il IH]; intros acc; simpl.
  { split; [lia|by intros ? ?%elem_of_nil]. }
  destruct (IH (if start_time i <? acc then start_time i else acc)) as [Ha Hin].
  destruct (N.ltb_spec (start_time i) acc); split; try lia;
    (intros j [->|Hj]%elem_of_cons; [lia|by apply Hin]).
Qed.

(** [get_oldest_active_transaction] is at most one above every snapshot that an active or a
    later transaction reads. *)
Lemma oldest_active_le tm tx i :
  active_txs tm !! tx = Some i -> get_oldest_active_transaction tm <= start_time i.
Proof.
  intros H. unfold get_oldest_active_transaction. rewrite decide_False by (intros He; by rewrite He, lookup_empty in H).
  apply oldest_fold_le. apply list_elem_of_fmap. exists (tx, i). by rewrite elem_of_map_to_list.
Qed.

Lemma oldest_active_bound tm :
  last_committed_tx_id tm + 1 < 2 ^ 64 ->
  (forall tx i, active_txs tm !! tx = Some i -> start_time i <= last_committed_tx_id tm) ->
  get_oldest_active_transaction tm <= last_committed_tx_id tm + 1.
Proof.
  intros Hw Hs. destruct (decide (active_txs tm = ∅)) as [He|He].
  - unfold get_oldest_active_transaction, wrap_u64, get_latest_committed_tx_id. rewrite decide_True by done.
    by rewrite N.mod_small.
  - apply map_choose in He as (tx & i & Hi). pose proof (oldest_active_le _ _ _ Hi). specialize (Hs _ _ Hi). lia.
Qed.
End operations.

(** ** Concurrent transactions and collections

    [Fetched], [Loaded] and [Registered] are the points between the steps of
    [begin_transaction] and of [Transaction::new], which reads the snapshot again once the
    transaction is registered. A collection reads the oldest active transaction, and later
    collects the chains with it. *)
Inductive tx_pc :=
| Fetched
| Loaded (snapshot : N)
| Registered
| Running (snapshot : N)
| Ended (st : TxStatus).

Record world := mk_world {
  manager : TransactionManager;
  pcs : gmap N tx_pc;
  gcs : list N;
  chains : chain_table;
  freed : list DocumentVersion
}.

Definition with_manager f w := mk_world (f (manager w)) (pcs w) (gcs w) (chains w) (freed w).
Definition with_pcs f w := mk_world (manager w) (f (pcs w)) (gcs w) (chains w) (freed w).

Definition world_new (current : N) : world :=
  mk_world (initialize_from_pager current manager_new) ∅ [] ∅ [].

Inductive step (w : world) : world -> Prop :=
| step_fetch :
    step w (with_pcs <[fst (fetch_tx_id (manager w)) := Fetched]> (with_manager (fun tm => snd (fetch_tx_id tm)) w))
| step_load tx :
    pcs w !! tx = Some Fetched ->
    step w (with_pcs <[tx := Loaded (get_latest_committed_tx_id (manager w))]> w)
| step_insert tx snapshot :
    pcs w !! tx = Some (Loaded snapshot) ->
    step w (with_pcs <[tx := Registered]> (with_manager (insert_active tx snapshot) w))
| step_snapshot tx :
    pcs w !! tx = Some Registered ->
    step w (with_pcs <[tx := Running (get_latest_committed_tx_id (manager w))]> w)
| step_commit tx snapshot :
    pcs w !! tx = Some (Running snapshot) ->
    step w (with_pcs <[tx := Ended Committed]> (with_manager (commit_transaction tx) w))
| step_abort tx snapshot :
    pcs w !! tx = Some (Running snapshot) ->
    step w (with_pcs <[tx := Ended Aborted]> (with_manager (abort_transaction tx) w))
| step_old_version tx coll doc v :
    pcs w !! tx = Some (Ended Committed) ->
    step w (mk_world (manager w) (pcs w) (gcs w) (add_old_version tx coll doc v (chains w)) (freed w))
| step_gc_start :
    step w (mk_world (manager w) (pcs w) (get_oldest_active_transaction (manager w) :: gcs w) (chains w) (freed w))
| step_gc_run oldest gcs1 gcs2 :
    gcs w = gcs1 ++ oldest :: gcs2 ->
    step w (mk_world (manager w) (pcs w) (gcs1 ++ gcs2) (snd (collect_table oldest (chains w)))
              (freed w ++ fst (collect_table oldest (chains w)))).

(** What holds in every interleaving: where a transaction is, what is registered of it, and
    how the ids, the snapshots and the collections relate. *)
Definition pc_ok (tm : TransactionManager) (tx : N) (pc : tx_pc) : Prop :=
  match pc with
  | Fetched => active_txs tm !! tx = None
  | Loaded snapshot => active_txs tm !! tx = None /\ snapshot <= last_committed_tx_id tm
  | Registered => exists st, active_txs tm !! tx = Some (mk_info tx st Active) /\ st <= last_committed_tx_id tm
  | Running snapshot =>
      exists st, active_txs tm !! tx = Some (mk_info tx st Active) /\ st <= snapshot <= last_committed_tx_id tm
  | Ended st => active_txs tm !! tx = None /\ (st = Committed -> tx <= last_committed_tx_id tm)
  end.

Record world_ok (bound : N) (w : world) : Prop := mk_world_ok {
  wo_last : last_committed_tx_id (manager w) < next_tx_id (manager w);
  wo_next : next_tx_id (manager w) <= bound;
  wo_ids : forall tx pc, pcs w !! tx = Some pc -> tx < next_tx_id (manager w) /\ pc_ok (manager w) tx pc;
  wo_active : forall tx i, active_txs (manager w) !! tx = Some i ->
    start_time i <= last_committed_tx_id (manager w) /\ is_Some (pcs w !! tx);
  wo_gcs : forall o, o ∈ gcs w -> o <= last_committed_tx_id (manager w) + 1 /\
    forall tx snapshot, pcs w !! tx = Some (Running snapshot) -> o <= snapshot + 1;
  wo_freed : forall v, v ∈ freed w -> xmax v <> 0 /\ xmax v <= last_committed_tx_id (manager w) /\
    forall tx snapshot, pcs w !! tx = Some (Running snapshot) -> xmax v <= snapshot
}.

Section interleavings.
Implicit Types (tm : TransactionManager) (w : world) (tx : N).

Lemma commit_last tx tm : last_committed_tx_id (commit_transaction tx tm) = N.max (last_committed_tx_id tm) tx.
Proof.
  unfold commit_transaction. simpl. destruct (N.ltb_spec (last_committed_tx_id tm) tx); simpl; lia.
Qed.

Lemma commit_next tx tm : next_tx_id (commit_transaction tx tm) = next_tx_id tm.
Proof. unfold commit_transaction. simpl. by case_match. Qed.

Lemma commit_active tx tm : active_txs (commit_transaction tx tm) = delete tx (active_txs tm).
Proof.
  unfold commit_transaction. simpl. case_match; simpl; by rewrite delete_alter_eq.
Qed.

Lemma abort_active tx tm : active_txs (abort_transaction tx tm) = delete tx (active_txs tm).
Proof. simpl. by rewrite delete_alter_eq. Qed.

Lemma pc_ok_frame tm tm' tx pc :
  last_committed_tx_id tm <= last_committed_tx_id tm' ->
  active_txs tm' !! tx = active_txs tm !! tx -> pc_ok tm tx pc -> pc_ok tm' tx pc.
Proof.
  intros Hl Ha. destruct pc; simpl; rewrite Ha; try done.
  - intros [??]. split; [done|lia].
  - intros (st & ? & ?). exists st. split; [done|lia].
  - intros (st & ? & ?). exists st. split; [done|lia].
  - intros [? H]. split; [done|]. intros Hc. specialize (H Hc). lia.
Qed.

(** A step of transaction [tx] that moves it to [pc]: the rest of the invariant follows from
    what the step does to the manager. *)
Lemma world_ok_move bound w tm' tx pc :
  world_ok bound w ->
  last_committed_tx_id (manager w) <= last_committed_tx_id tm' < next_tx_id tm' ->
  next_tx_id (manager w) <= next_tx_id tm' <= bound ->
  tx < next_tx_id tm' -> pc_ok tm' tx pc ->
  (forall tx', tx' <> tx -> active_txs tm' !! tx' = active_txs (manager w) !! tx') ->
  (forall i, active_txs tm' !! tx = Some i -> start_time i <= last_committed_tx_id tm') ->
  (forall s, pc = Running s -> s = last_committed_tx_id (manager w)) ->
  world_ok bound (with_pcs <[tx := pc]> (with_manager (fun _ => tm') w)).
Proof.
  intros [Hl Hn Hi Ha Hg Hf] Hl' Hn' Htx Hpc Hfr Hst Hrun. split; simpl; [lia|lia|..].
  - intros tx' pc' [[<- <-]|[Hne H]]%lookup_insert_Some; [done|]. destruct (Hi _ _ H).
    split; [lia|]. eapply pc_ok_frame; [| |done]; [lia|by apply Hfr].
  - intros tx' i H. destruct (decide (tx' = tx)) as [->|Hne].
    + rewrite lookup_insert_eq. eauto.
    + rewrite Hfr in H by done. destruct (Ha _ _ H). rewrite lookup_insert_ne by done. split; [lia|done].
  - intros o Ho. destruct (Hg o Ho) as [H1 H2]. split; [lia|].
    intros tx' s [[<- ->]|[Hne H]]%lookup_insert_Some; [rewrite (Hrun s eq_refl); lia|eauto].
  - intros v Hv. destruct (Hf v Hv) as (H1 & H2 & H3). split_and!; [done|lia|].
    intros tx' s [[<- ->]|[Hne H]]%lookup_insert_Some; [rewrite (Hrun s eq_refl); lia|eauto].
Qed.

(** Only ids below [bound] were handed out so far, and [bound] stays below 2^64: one more
    step keeps the invariant for the next bound. *)
Lemma step_ok bound w w' :
  bound + 1 < 2 ^ 64 -> world_ok bound w -> step w w' -> world_ok (bound + 1) w'.
Proof.
  intros Hb Hok Hs. assert (world_ok (bound + 1) w) as Hok1 by (destruct Hok; split; [done|lia|done..]).
  pose proof Hok as [Hl Hn Hi Ha Hg Hf].
  destruct Hs as [|tx Hpc|tx s Hpc|tx Hpc|tx s Hpc|tx s Hpc|tx coll doc v Hpc| |o g1 g2 Hgc].
  - assert (wrap_u64 (next_tx_id (manager w) + 1) = next_tx_id (manager w) + 1) as Hw by (apply N.mod_small; lia).
    assert (active_txs (manager w) !! next_tx_id (manager w) = None) as Hna.
    { destruct (active_txs (manager w) !! _) eqn:E; [|done]. apply Ha in E as [_ [pc Hp]]. apply Hi in Hp. lia. }
    apply (world_ok_move _ w (snd (fetch_tx_id (manager w)))); simpl; rewrite ?Hw; try done; try lia.
    intros i. by rewrite Hna.
  - destruct (Hi _ _ Hpc) as [? Hp]. apply (world_ok_move _ w (manager w)); try done; try lia.
    intros i. simpl in Hp. by rewrite Hp.
  - destruct (Hi _ _ Hpc) as [? [Hp ?]].
    apply (world_ok_move _ w (insert_active tx s (manager w))); simpl; try done; try lia.
    + exists s. by rewrite lookup_insert_eq.
    + intros tx' ?. by rewrite lookup_insert_ne.
    + intros i. rewrite lookup_insert_eq. by intros [= <-].
  - destruct (Hi _ _ Hpc) as [? (st & Hp & ?)].
    apply (world_ok_move _ w (manager w)); try done; try lia.
    + exists st. split; [done|]. unfold get_latest_committed_tx_id. lia.
    + intros i. rewrite Hp. by intros [= <-].
    + by intros s' [= <-].
  - destruct (Hi _ _ Hpc) as [? (st & Hp & ?)].
    apply (world_ok_move _ w (commit_transaction tx (manager w))); rewrite ?commit_last, ?commit_next; try done; try lia.
    + simpl. rewrite commit_active, lookup_delete_eq, commit_last. split; [done|lia].
    + intros tx' ?. by rewrite commit_active, lookup_delete_ne.
    + intros i. by rewrite commit_active, lookup_delete_eq.
  - destruct (Hi _ _ Hpc) as [? (st & Hp & ?)].
    apply (world_ok_move _ w (abort_transaction tx (manager w))); simpl; try done; try lia.
    + rewrite lookup_delete_eq. done.
    + intros tx' ?. by rewrite delete_alter_eq, lookup_delete_ne.
    + intros i. by rewrite lookup_delete_eq.
  - by destruct Hok1.
  - destruct Hok1 as [Hl1 Hn1 Hi1 Ha1 Hg1 Hf1]. split; simpl; try done.
    intros o [->|Ho]%elem_of_cons; [|by apply Hg1]. split.
    + apply oldest_active_bound; [lia|]. intros ?? H. by apply Ha in H as [? _].
    + intros tx s Hr. apply Hi in Hr as [_ (st & Hact & ?)]. apply oldest_active_le in Hact. simpl in Hact. lia.
  - destruct Hok1 as [Hl1 Hn1 Hi1 Ha1 Hg1 Hf1]. rewrite Hgc in Hg1. split; simpl; try done.
    + intros o' Ho. apply Hg1. set_solver.
    + destruct (Hg1 o) as [Ho1 Ho2]; [set_solver|].
      intros v [Hv|Hv]%elem_of_app; [by apply Hf1|]. apply (collect_table_removed o) in Hv as (? & ? & ?).
      split_and!; [done|lia|]. intros tx s Hr. apply Ho2 in Hr. lia.
Qed.

Lemma reachable_ok current n w :
  1 <= current -> current + N.of_nat n < 2 ^ 64 -> nsteps step n (world_new current) w ->
  world_ok (current + N.of_nat n) w.
Proof.
  intros Hc. revert w. induction n as [|n IH]; intros w Hn Hs.
  - inversion Hs; subst. unfold world_new, initialize_from_pager. split; simpl.
    + destruct (N.ltb_spec 0 current); lia.
    + lia.
    + intros ??. by rewrite lookup_empty.
    + intros ??. by rewrite lookup_empty.
    + by intros ? ?%elem_of_nil.
    + by intros ? ?%elem_of_nil.
  - apply nsteps_inv_r in Hs as (w1 & Hs & Hstep).
    replace (current + N.of_nat (S n)) with (current + N.of_nat n + 1) by lia.
    eapply step_ok; [lia| |done]. apply IH; [lia|done].
Qed.
End interleavings.

(** C29: in every interleaving of transactions and garbage collections, no version that a
    collection freed is visible to a running transaction, nor to one that takes its snapshot
    now. *)
Theorem gc_frees_no_visible_version current n w v
    (Hc : 1 <= current) (Hn : current + N.of_nat n < 2 ^ 64)
    (Hrun : nsteps step n (world_new current) w) (Hv : v ∈ freed w) :
  is_visible v (get_latest_committed_tx_id (manager w)) = false /\
  forall tx snapshot, pcs w !! tx = Some (Running snapshot) -> is_visible v snapshot = false.
Proof.
  destruct (wo_freed _ _ (reachable_ok current n w Hc Hn Hrun) v Hv) as (H0 & Hle & Hr).
  split; [by apply invisible|]. intros tx s Hp. apply invisible; eauto.
Qed.

(** In every interleaving, the next id is one that no transaction holds, every snapshot
    that was read is at most the newest committed id, which is below the next id, every
    committed transaction is at most the newest committed id, and the active table lists
    exactly the transactions between their registration and their end. *)
Theorem ids_and_snapshots current n w
    (Hc : 1 <= current) (Hn : current + N.of_nat n < 2 ^ 64)
    (Hrun : nsteps step n (world_new current) w) :
  pcs w !! next_tx_id (manager w) = None /\
  get_latest_committed_tx_id (manager w) < next_tx_id (manager w) /\
  (forall tx snapshot, pcs w !! tx = Some (Running snapshot) -> snapshot <= get_latest_committed_tx_id (manager w)) /\
  (forall tx, pcs w !! tx = Some (Ended Committed) -> tx <= get_latest_committed_tx_id (manager w)) /\
  (forall tx, is_Some (active_txs (manager w) !! tx) <->
     pcs w !! tx = Some Registered \/ exists snapshot, pcs w !! tx = Some (Running snapshot)).
Proof.
  destruct (reachable_ok current n w Hc Hn Hrun) as [Hl Hb Hi Ha _ _]. split_and!.
  - destruct (pcs w !! _) eqn:E; [|done]. apply Hi in E as [? _]. lia.
  - done.
  - intros tx s Hp. apply Hi in Hp as [_ (st & _ & _ & ?)]. by unfold get_latest_committed_tx_id.
  - intros tx Hp. apply Hi in Hp as [_ [_ H]]. by apply H.
  - intros tx. split.
    + intros [i Hact]. pose proof (Ha _ _ Hact) as [_ [pc Hp]]. pose proof (Hi _ _ Hp) as [_ Hok].
      destruct pc; simpl in Hok; rewrite ?Hact in Hok; [done|by destruct Hok|by left|right; eauto|by destruct Hok].
    + intros [Hp|[s Hp]]; apply Hi in Hp as [_ (st & Hact & _)]; eauto.
Qed.

(** A run in which transaction 2 starts while transaction 1 replaces a version, and a
    collection that started before transaction 3 runs after it. *)
Definition old_sample : DocumentVersion := mk_version "d" 1 0 [] 7.

Definition sample_world : world :=
  let m := mk_manager 4 2 (<[3 := mk_info 3 2 Active]> ∅) in
  mk_world m (<[3 := Running 2]> (<[2 := Ended Committed]> ∅)) [] ∅ [set_xmax 2 old_sample].

Ltac sample_step r := eapply nsteps_l; [r|].

Lemma sample_run : nsteps step 12 (world_new 2) sample_world.
Proof.
  sample_step ltac:(apply step_fetch).
  sample_step ltac:(apply (step_load _ 2); reflexivity).
  sample_step ltac:(apply (step_insert _ 2 1); reflexivity).
  sample_step ltac:(apply (step_snapshot _ 2); reflexivity).
  sample_step ltac:(apply (step_commit _ 2 1); reflexivity).
  sample_step ltac:(apply (step_old_version _ 2 "c" "d" old_sample); reflexivity).
  sample_step ltac:(apply step_gc_start).
  sample_step ltac:(apply step_fetch).
  sample_step ltac:(apply (step_load _ 3); reflexivity).
  sample_step ltac:(apply (step_insert _ 3 2); reflexivity).
  sample_step ltac:(apply (step_snapshot _ 3); reflexivity).
  sample_step ltac:(apply (step_gc_run _ 3 [] []); reflexivity).
  vm_compute. apply nsteps_O.
Qed.

Lemma gc_frees_no_visible_version_witness :
  let v := set_xmax 2 old_sample in
  nsteps step 12 (world_new 2) sample_world /\ v ∈ freed sample_world /\
  is_visible v 1 = true /\ is_visible v 2 = false.
Proof.
  split; [exact sample_run|]. split; [by left|]. split; [done|].
  apply (gc_frees_no_visible_version 2 12 sample_world (set_xmax 2 old_sample)) with (tx := 3);
    [lia|lia|exact sample_run|by left|reflexivity].
Defined.

Lemma ids_and_snapshots_witness :
  nsteps step 12 (world_new 2) sample_world /\ pcs sample_world !! 4 = None /\
  get_latest_committed_tx_id (manager sample_world) < 4.
Proof.
  split; [exact sample_run|].
  destruct (ids_and_snapshots 2 12 sample_world) as (H1 & H2 & _); [lia|lia|exact sample_run|].
  split; [exact H1|exact H2].
Defined.

(** Visibility looks at the ids alone: a transaction that is still running can have a smaller
    id than another one's snapshot, and what it then writes counts as visible to that
    snapshot. *)
Lemma older_running_transaction_is_visible :
  exists n w tx1 tx2 snapshot, nsteps step n (world_new 1) w /\
    pcs w !! tx1 = Some (Running 0) /\ pcs w !! tx2 = Some (Running snapshot) /\
    forall doc data p, is_visible (mk_version doc tx1 0 data p) snapshot = true.
Proof.
  exists 13%nat. eexists. exists 1, 3, 2. split; [|split; [|split]].
  - sample_step ltac:(apply step_fetch).
    sample_step ltac:(apply (step_load _ 1); reflexivity).
    sample_step ltac:(apply (step_insert _ 1 0); reflexivity).
    sample_step ltac:(apply (step_snapshot _ 1); reflexivity).
    sample_step ltac:(apply step_fetch).
    sample_step ltac:(apply (step_load _ 2); reflexivity).
    sample_step ltac:(apply (step_insert _ 2 0); reflexivity).
    sample_step ltac:(apply (step_snapshot _ 2); reflexivity).
    sample_step ltac:(apply (step_commit _ 2 0); reflexivity).
    sample_step ltac:(apply step_fetch).
    sample_step ltac:(apply (step_load _ 3); reflexivity).
    sample_step ltac:(apply (step_insert _ 3 2); reflexivity).
    sample_step ltac:(apply (step_snapshot _ 3); reflexivity).
    apply nsteps_O.
  - reflexivity.
  - reflexivity.
  - reflexivity.
Qed.
