(* ===== verification/DocumentOnPager.v ===== *)
(** * Theorems about documents

    Documents written to a page store come back, leave every other page alone, and give their
    pages back when they are deleted; the page store of the witnesses is the pager. *)

From stdpp Require Import base list strings gmap.
From Stdlib Require Import NArith Lia.
From S2P Require Import Prelude Constants Bytes PageStore Document LruCache Pager.

Section theorems.
Context {St : Type} `{!PageStore St} `{!PageStoreLaws St}.

(** [write_document] followed by [read_document] gives the document back, for every id of
    1 to 255 bytes and all data up to the limit of an overflow chain; the write takes fresh
    pages and leaves the pages in use alone, and [delete_document] gives back exactly the
    pages that the write took. *)
Theorem document_roundtrip (s : St) id data
    (Hinv : ps_inv s) (Hdoc : doc_ok id data) (Hroom : ps_room s (2 + length data / MAX_OVERFLOW_DATA)) :
  exists p s1, write_document id data s = (Ok p, s1) /\ ps_inv s1 /\ ~ ps_used s p /\
    (forall q, ps_used s q -> ps_used s1 q /\ ps_view s1 q = ps_view s q) /\
    (exists s2, read_document p s1 = (Ok (mk_doc id data), s2)) /\
    (exists s3, delete_document p s1 = (Ok tt, s3) /\ ps_inv s3 /\
       (forall q, ps_used s3 q <-> ps_used s q) /\ (forall q, ps_used s q -> ps_view s3 q = ps_view s q)).
Proof.
  destruct (write_document_ok s id data Hinv Hdoc Hroom) as (p & ps & s1 & Hw & Hg & Hd).
  exists p, s1. split; [exact Hw|]. pose proof Hg as [Hi Hu Hv Hn Hf]. split; [done|].
  split; [apply Hf; by left|]. split; [intros q Hq; split; [apply Hu; by left|by apply Hv]|]. split.
  - destruct (read_document_ok s1 p id data ps Hi Hd) as (s2 & Hr & _); [..|by exists s2].
    + apply Hu. right. by left.
    + intros q Hq. apply Hu. right. by right.
    + by apply NoDup_cons in Hn as [_ ?].
  - eapply delete_grown; [exact Hg|by eapply plain_doc_linked].
Qed.

(** C40: [write_versioned_document] inside a transaction writes a version that
    [read_versioned_document] gives back, with its ids: for the transaction itself, whose
    write buffer holds the pages, and for every later reader that finds in its own buffer or in
    the store the pages the write took. The pages in use, in the store and in the buffer, are
    left alone, and deleting the document gives back exactly the pages that the write took. *)
Theorem versioned_document_roundtrip (s : St) (W : gmap N (list byte)) id data xmin xmax
    (Hinv : ps_inv s) (Hdoc : doc_ok id data) (Hxmin : (xmin < 2 ^ 64)%N) (Hxmax : (xmax < 2 ^ 64)%N)
    (Hroom : ps_room s (2 + length data / MAX_OVERFLOW_DATA)) :
  exists p d s1 W1, write_versioned_document id data xmin xmax (s, W) = (Ok (p, d), (s1, W1)) /\
    W1 !! p = Some d /\ ~ ps_used s p /\
    (forall q, ps_used s q -> ps_used s1 q /\ ps_view s1 q = ps_view s q /\ W1 !! q = W !! q) /\
    (exists s2, read_versioned_document p W1 s1 = (Ok (mk_vdoc id data xmin xmax), s2)) /\
    (forall s2 W2, ps_inv s2 -> (forall q, ps_used s1 q -> ps_used s2 q) ->
       (forall q, ps_used s1 q -> ~ ps_used s q -> seen W2 s2 q = ps_view s1 q) ->
       exists s3, read_versioned_document p W2 s2 = (Ok (mk_vdoc id data xmin xmax), s3)) /\
    (exists s2, delete_document p s1 = (Ok tt, s2) /\ ps_inv s2 /\
       (forall q, ps_used s2 q <-> ps_used s q) /\ (forall q, ps_used s q -> ps_view s2 q = ps_view s q)).
Proof.
  destruct (write_versioned_ok s W id data xmin xmax 0 Hinv Hdoc Hxmin Hxmax)
    as (p & d & ps & s1 & W1 & Hw & Hg & Hd & Hvp & HW & _); [by rewrite Nat.add_0_r|].
  exists p, d, s1, W1. split; [exact Hw|]. pose proof Hg as [Hi Hu Hv Hn Hf].
  assert (forall s2 W2, ps_inv s2 -> (forall q, ps_used s1 q -> ps_used s2 q) ->
    (forall q, q ∈ p :: ps -> seen W2 s2 q = ps_view s1 q) ->
    exists s3, read_versioned_document p W2 s2 = (Ok (mk_vdoc id data xmin xmax), s3)) as Hread.
  { intros s2 W2 Hi2 Hu2 Hs2. destruct (read_versioned_ok s2 W2 p id data xmin xmax ps Hi2) as (s3 & Hr & _).
    - eapply versioned_doc_mono; [exact Hd|exact Hs2].
    - intros q Hq. apply Hu2, Hu. by right.
    - by apply NoDup_cons in Hn as [_ ?].
    - by exists s3. }
  split; [rewrite HW, decide_True by (by left); exact Hvp|]. split; [apply Hf; by left|].
  split; [|split; [|split]].
  - intros q Hq. split; [apply Hu; by left|]. split; [by apply Hv|].
    rewrite HW, decide_False; [done|]. intros Hq'. by apply Hf in Hq' as [_ []].
  - apply Hread; [done|done|]. intros q Hq. unfold seen. rewrite HW, decide_True by done.
    by destruct (ps_view s1 q).
  - intros s2 W2 Hi2 Hu2 Hs2. apply Hread; [done|done|]. intros q Hq.
    apply Hs2; [apply Hu; by right|by apply Hf].
  - eapply delete_grown; [exact Hg|by eapply versioned_doc_linked].
Qed.
End theorems.

(** A document of two pages and a bit, on a new pager whose cache holds one page. *)
Definition sample_data : list byte := replicate (N.to_nat 9000) Byte.x61.

Lemma sample_doc_ok : doc_ok "ann" sample_data.
Proof. split; [done|simpl; lia|]. unfold sample_data. rewrite length_replicate. done. Qed.

Lemma sample_room : ps_inv (new_pager 1) /\ ps_room (new_pager 1) (2 + length sample_data / MAX_OVERFLOW_DATA).
Proof.
  replace (length sample_data / MAX_OVERFLOW_DATA) with 2 by (vm_compute; reflexivity).
  apply new_pager_inv. done.
Qed.

Lemma document_roundtrip_witness :
  exists p s1, write_document "ann" sample_data (new_pager 1) = (Ok p, s1) /\
    (exists s2, read_document p s1 = (Ok (mk_doc "ann" sample_data), s2)) /\
    exists s3, delete_document p s1 = (Ok tt, s3) /\ (forall q, ps_used s3 q <-> ps_used (new_pager 1) q).
Proof.
  destruct (document_roundtrip (new_pager 1) "ann" sample_data (proj1 sample_room) sample_doc_ok (proj2 sample_room))
    as (p & s1 & Hw & _ & _ & _ & Hr & s3 & Hd & _ & Hu & _).
  exists p, s1. split; [exact Hw|]. split; [exact Hr|]. exists s3. split; [exact Hd|exact Hu].
Defined.

Lemma versioned_document_roundtrip_witness :
  exists p d s1 W1, write_versioned_document "ann" sample_data 3 0 (new_pager 1, ∅) = (Ok (p, d), (s1, W1)) /\
    exists s2, read_versioned_document p W1 s1 = (Ok (mk_vdoc "ann" sample_data 3 0), s2).
Proof.
  destruct (versioned_document_roundtrip (new_pager 1) ∅ "ann" sample_data 3 0
    (proj1 sample_room) sample_doc_ok eq_refl eq_refl (proj2 sample_room))
    as (p & d & s1 & W1 & Hw & _ & _ & _ & Hr & _).
  exists p, d, s1, W1. split; [exact Hw|exact Hr].
Defined.
