(* ===== verification/QueryLexer.v ===== *)
(** * Query lexer

    [src/src/core/query/lexer.rs]: the characters of a query string, with the current one in
    [ch] and the index of the next one in [pos]; the character NUL stands for the end. *)

From stdpp Require Import base list strings pretty.
From Stdlib Require Import NArith Lia.
From S2P Require Import Prelude Constants Bytes Text.
#[local] Open Scope N_scope.

Inductive TokenType : Type :=
| TEof | TIllegal
| TIdent | TString | TNumber | TTrue | TFalse | TNull
| TGt | TGte | TLt | TLte | TIs | TIsNot
| TAnd | TOr | TNot
| TExists | THas | TAny | TAll
| TLParen | TRParen | TLBracket | TRBracket | TComma | TDot.

#[global] Instance TokenType_eq_dec : EqDecision TokenType.
Proof. solve_decision. Defined.

Record Token : Type := mk_token { token_type : TokenType; value : string; tpos : nat }.

Record Lexer : Type := mk_lexer { input : list N; pos : nat; ch : N }.

Section lexer.
Context {tables : UnicodeTables}.

(** A method of [Lexer]; a [Result<_, String>] where it can fail. *)
Notation M := (ST Lexer string).

Definition is_letter (c : N) : bool := is_alphabetic c.
Definition is_digit (c : N) : bool := is_numeric c.

Definition lookup_keyword (ident : string) : TokenType :=
  let w := to_lowercase ident in
  if String.eqb w "and" then TAnd
  else if String.eqb w "or" then TOr
  else if String.eqb w "not" then TNot
  else if String.eqb w "is" then TIs
  else if String.eqb w "exists" then TExists
  else if String.eqb w "has" then THas
  else if String.eqb w "any" then TAny
  else if String.eqb w "all" then TAll
  else if String.eqb w "true" then TTrue
  else if String.eqb w "false" then TFalse
  else if String.eqb w "null" then TNull
  else TIdent.

Definition read_char : M unit := st_modify (fun lx =>
  {| input := input lx;
     pos := S (pos lx);
     ch := if (length (input lx) <=? pos lx)%nat then 0 else default 0 (input lx !! pos lx) |}).

Definition peek_char (lx : Lexer) : N :=
  if (length (input lx) <=? pos lx)%nat then 0 else default 0 (input lx !! pos lx).

Definition lexer_new (query : string) : Lexer :=
  (read_char {| input := chars query; pos := 0; ch := 0 |}).2.

(** Rounds that suffice for each of the loops: one per character, and the exit. *)
Definition scan_fuel (lx : Lexer) : nat := S (length (input lx)).

Definition read_while (cond : Lexer -> bool) : M unit :=
  let! fuel := st_get scan_fuel in st_while fuel cond read_char.

Definition skip_whitespace : M unit := read_while (fun lx => is_whitespace (ch lx)).

(** [self.pos - 1], which is checked arithmetic. *)
Definition pos_minus_1 : M nat := fun lx =>
  match pos lx with 0%nat => (Panic, lx) | S p => (Ok p, lx) end.

(** [self.input[start..self.pos - 1].iter().collect()]. *)
Definition slice_from (start : nat) : M string :=
  let! stop := pos_minus_1 in
  let! cs := st_get input in
  st_lift (if ((start <=? stop) && (stop <=? length cs))%nat
           then Ok (collect (take (stop - start) (drop start cs))) else Panic).

Definition read_identifier : M string :=
  let! start := pos_minus_1 in
  let! _ := read_while (fun lx => is_letter (ch lx) || is_digit (ch lx) || (ch lx =? 95)) in
  slice_from start.

Definition read_number : M string :=
  let! start := pos_minus_1 in
  let! _ := read_while (fun lx => is_digit (ch lx)) in
  let! point := st_get (fun lx => (ch lx =? 46) && is_digit (peek_char lx)) in
  let! _ := (if (point : bool) then let! _ := read_char in read_while (fun lx => is_digit (ch lx))
             else st_ret tt) in
  slice_from start.

Definition read_string : M string :=
  let! quote := st_get ch in
  let! _ := read_char in
  let! start := pos_minus_1 in
  let! _ := read_while (fun lx => negb (ch lx =? quote) && negb (ch lx =? 0)) in
  let! value := slice_from start in
  let! _ := read_char in
  st_ret value.

(** A token of one character, with the character as its value. *)
Definition single (tt : TokenType) (p : nat) : M Token :=
  let! c := st_get ch in
  let! _ := read_char in
  st_ret (mk_token tt (char_to_string c) p).

(** ['>'] and ['<'], alone or before ['=']. *)
Definition angle (one : TokenType) (v1 : string) (two : TokenType) (v2 : string) (p : nat) : M Token :=
  let! next := st_get peek_char in
  if next =? 61 then
    let! _ := read_char in
    let! _ := read_char in
    st_ret (mk_token two v2 p)
  else
    let! _ := read_char in
    st_ret (mk_token one v1 p).

Definition next_token : M Token :=
  let! _ := skip_whitespace in
  let! p := st_get (fun lx => (pos lx - 1)%nat) in
  let! c := st_get ch in
  if c =? 0 then st_ret (mk_token TEof "" p)
  else if c =? 40 then single TLParen p
  else if c =? 41 then single TRParen p
  else if c =? 91 then single TLBracket p
  else if c =? 93 then single TRBracket p
  else if c =? 44 then single TComma p
  else if c =? 46 then single TDot p
  else if c =? 62 then angle TGt ">" TGte ">=" p
  else if c =? 60 then angle TLt "<" TLte "<=" p
  else if (c =? 34) || (c =? 39) then
    let! v := read_string in st_ret (mk_token TString v p)
  else if is_letter c then
    let! v := read_identifier in st_ret (mk_token (lookup_keyword v) v p)
  else if is_digit c then
    let! v := read_number in st_ret (mk_token TNumber v p)
  else single TIllegal p.

Fixpoint tokenize_loop (fuel : nat) (tokens : list Token) : M (list Token) :=
  match fuel with
  | 0%nat => st_lift OutOfFuel
  | S fuel =>
    let! token := next_token in
    if bool_decide (token_type token = TIllegal) then
      st_fail ("illegal token at position " +:+ pretty (tpos token) +:+ ": " +:+ value token)
    else
      let tokens := tokens ++ [token] in
      if bool_decide (token_type token = TEof) then st_ret tokens else tokenize_loop fuel tokens
  end.

Definition tokenize (query : string) : outcome string (list Token) :=
  let lexer := lexer_new query in
  (tokenize_loop (S (length (input lexer))) [] lexer).1.
End lexer.

(** ** A reference scanner on the remaining characters *)
Fixpoint span (p : N -> bool) (cs : list N) : list N * list N :=
  match cs with
  | [] => ([], [])
  | c :: cs' => if p c then let '(a, b) := span p cs' in (c :: a, b) else ([], cs)
  end.

Section scanner.
Context {tables : UnicodeTables}.
Implicit Types (cs pre rest : list N) (c : N).

Definition id_char c : bool := is_letter c || is_digit c || (c =? 95).

Definition scan_number cs : list N * list N :=
  let '(w, r) := span is_digit cs in
  match r with
  | c :: d :: r' =>
    if (c =? 46) && is_digit d then let '(f, r2) := span is_digit (d :: r') in (w ++ c :: f, r2)
    else (w, r)
  | _ => (w, r)
  end.

Definition scan_angle (one : TokenType) (v1 : string) (two : TokenType) (v2 : string) r
    : TokenType * string * list N :=
  match r with
  | d :: r' => if d =? 61 then (two, v2, r') else (one, v1, r)
  | [] => (one, v1, r)
  end.

Definition scan_token c r : TokenType * string * list N :=
  if c =? 0 then (TEof, "", c :: r)
  else if c =? 40 then (TLParen, char_to_string c, r)
  else if c =? 41 then (TRParen, char_to_string c, r)
  else if c =? 91 then (TLBracket, char_to_string c, r)
  else if c =? 93 then (TRBracket, char_to_string c, r)
  else if c =? 44 then (TComma, char_to_string c, r)
  else if c =? 46 then (TDot, char_to_string c, r)
  else if c =? 62 then scan_angle TGt ">" TGte ">=" r
  else if c =? 60 then scan_angle TLt "<" TLte "<=" r
  else if (c =? 34) || (c =? 39) then
    let '(s, r') := span (fun d => negb (d =? c) && negb (d =? 0)) r in (TString, collect s, tail r')
  else if is_letter c then
    let '(w, r') := span id_char (c :: r) in (lookup_keyword (collect w), collect w, r')
  else if is_digit c then
    let '(w, r') := scan_number (c :: r) in (TNumber, collect w, r')
  else (TIllegal, char_to_string c, r).

Definition scan cs : TokenType * string * list N :=
  match (span is_whitespace cs).2 with
  | [] => (TEof, "", [])
  | c :: r => scan_token c r
  end.

(** The lexer of the characters [pre ++ rest] that has read [pre]; and the one that has read
    beyond the end, after a string without its closing quote. *)
Definition lex_at pre rest : Lexer :=
  {| input := pre ++ rest; pos := S (length pre); ch := default 0 (head rest) |}.
Definition lex_over cs : Lexer := {| input := cs; pos := S (S (length cs)); ch := 0 |}.

Lemma span_app p cs : (span p cs).1 ++ (span p cs).2 = cs.
Proof.
  induction cs as [|c cs IH]; simpl; [done|]. destruct (p c); [|done].
  destruct (span p cs). simpl in *. by rewrite IH.
Qed.

Lemma span_yes p w c cs : Forall (fun d => p d = true) w -> p c = false -> span p (w ++ c :: cs) = (w, c :: cs).
Proof. intros Hw Hc. induction Hw as [|d w Hd _ IH]; simpl; [by rewrite Hc|]. by rewrite Hd, IH. Qed.

Lemma span_rest p cs : match (span p cs).2 with [] => True | c :: _ => p c = false end.
Proof.
  induction cs as [|c cs IH]; simpl; [done|]. destruct (p c) eqn:E; [|done].
  by destruct (span p cs).
Qed.

Lemma scan_number_app cs : (scan_number cs).1 ++ (scan_number cs).2 = cs.
Proof.
  unfold scan_number. pose proof (span_app is_digit cs) as H1. destruct (span is_digit cs) as [w r].
  cbn [fst snd] in H1. destruct r as [|c [|d r]]; [done..|].
  destruct ((c =? 46) && is_digit d); [|done]. pose proof (span_app is_digit (d :: r)) as H2.
  destruct (span is_digit (d :: r)) as [f r2]. cbn [fst snd] in *. rewrite <-H1, <-H2, <-app_assoc. done.
Qed.

Lemma char_at pre rest : default 0 ((pre ++ rest) !! length pre) = default 0 (head rest).
Proof. rewrite lookup_app_r, Nat.sub_diag by done. by destruct rest. Qed.

Lemma read_char_at pre c rest : read_char (lex_at pre (c :: rest)) = (Ok tt, lex_at (pre ++ [c]) rest).
Proof.
  unfold read_char, st_modify, lex_at. simpl. rewrite <-!app_assoc. simpl. do 2 f_equal.
  - rewrite length_app. simpl. lia.
  - change (c :: rest) with ([c] ++ rest). rewrite app_assoc.
    replace (S (length pre)) with (length (pre ++ [c])) by (rewrite length_app; simpl; lia).
    rewrite char_at. destruct rest as [|d rest]; simpl.
    + by destruct (_ <=? _)%nat.
    + destruct (Nat.leb_spec (length ((pre ++ [c]) ++ d :: rest)) (length (pre ++ [c]))) as [Hl|]; [|done].
      rewrite (length_app (pre ++ [c])) in Hl. simpl in Hl. lia.
Qed.

Lemma read_char_end pre : read_char (lex_at pre []) = (Ok tt, lex_over pre).
Proof.
  unfold read_char, st_modify, lex_at, lex_over. simpl. rewrite app_nil_r.
  by destruct (Nat.leb_spec (length pre) (S (length pre))); [|lia].
Qed.

Lemma peek_char_at pre c rest : peek_char (lex_at pre (c :: rest)) = default 0 (head rest).
Proof.
  exact (f_equal (fun r : outcome string unit * Lexer => ch r.2) (read_char_at pre c rest)).
Qed.

Lemma new_lexer_at q : lexer_new q = lex_at [] (chars q).
Proof.
  unfold lexer_new, lex_at, read_char, st_modify. simpl. f_equal.
  by destruct (chars q).
Qed.

Lemma while_at (p : N -> bool) cond fuel pre rest :
  (forall lx, cond lx = p (ch lx)) -> p 0 = false -> (length rest < fuel)%nat ->
  st_while fuel cond read_char (lex_at pre rest) =
    (Ok tt, lex_at (pre ++ (span p rest).1) (span p rest).2).
Proof.
  intros Hc H0. revert fuel pre. induction rest as [|c rest IH]; intros [|fuel] pre Hf; simpl in Hf; try lia;
    simpl st_while; rewrite Hc; simpl ch.
  - rewrite H0. by rewrite app_nil_r.
  - destruct (p c) eqn:Ep; simpl; rewrite Ep; [|by rewrite app_nil_r].
    rewrite (st_bind_ok _ _ _ _ _ (read_char_at _ _ _)), IH by lia.
    destruct (span p rest). simpl. by rewrite <-app_assoc.
Qed.

Lemma read_while_at (p : N -> bool) cond pre rest :
  (forall lx, cond lx = p (ch lx)) -> p 0 = false ->
  read_while cond (lex_at pre rest) = (Ok tt, lex_at (pre ++ (span p rest).1) (span p rest).2).
Proof.
  intros. unfold read_while, st_bind, st_get. apply while_at; [done..|]. unfold scan_fuel, lex_at. simpl. rewrite length_app. lia.
Qed.

Lemma slice_at pre w rest :
  slice_from (length pre) (lex_at (pre ++ w) rest) = (Ok (collect w), lex_at (pre ++ w) rest).
Proof.
  unfold slice_from, pos_minus_1, st_bind, st_get, st_lift, lex_at. simpl.
  rewrite !length_app. destruct (Nat.leb_spec (length pre) (length pre + length w)); [|lia].
  destruct (Nat.leb_spec (length pre + length w) (length pre + length w + length rest)); [|lia].
  simpl. rewrite <-app_assoc, drop_app_length.
  replace (length pre + length w - length pre)%nat with (length w) by lia. by rewrite take_app_length.
Qed.

Lemma pos_minus_1_at pre rest : pos_minus_1 (lex_at pre rest) = (Ok (length pre), lex_at pre rest).
Proof. done. Qed.

Lemma single_at tt p pre c rest :
  single tt p (lex_at pre (c :: rest)) =
    (Ok (mk_token tt (char_to_string c) p), lex_at (pre ++ [c]) rest).
Proof. unfold single, st_get. unfold st_bind at 1. by rewrite (st_bind_ok _ _ _ _ _ (read_char_at _ _ _)). Qed.

Lemma read_identifier_at pre rest :
  read_identifier (lex_at pre rest) =
    (Ok (collect (span id_char rest).1), lex_at (pre ++ (span id_char rest).1) (span id_char rest).2).
Proof.
  unfold read_identifier. rewrite (st_bind_ok _ _ _ _ _ (pos_minus_1_at _ _)).
  rewrite (st_bind_ok _ _ _ _ _ (read_while_at id_char _ _ _ (fun _ => eq_refl) eq_refl)).
  apply slice_at.
Qed.

Lemma read_number_at pre rest :
  read_number (lex_at pre rest) =
    (Ok (collect (scan_number rest).1), lex_at (pre ++ (scan_number rest).1) (scan_number rest).2).
Proof.
  unfold read_number, scan_number. rewrite (st_bind_ok _ _ _ _ _ (pos_minus_1_at _ _)).
  rewrite (st_bind_ok _ _ _ _ _ (read_while_at is_digit _ _ _ (fun _ => eq_refl) eq_refl)).
  destruct (span is_digit rest) as [w r] eqn:Er. cbn [fst snd]. unfold st_get. unfold st_bind at 1.
  destruct r as [|c [|d r]]; [apply slice_at|rewrite peek_char_at, andb_comm; apply slice_at|].
  rewrite peek_char_at. cbn [ch lex_at from_option id head].
  unfold id. destruct ((c =? 46) && is_digit d); [|apply slice_at]. rewrite st_bind_assoc.
  rewrite (st_bind_ok _ _ _ _ _ (read_char_at _ _ _)).
  rewrite (st_bind_ok _ _ _ _ _ (read_while_at is_digit _ _ _ (fun _ => eq_refl) eq_refl)).
  destruct (span is_digit (d :: r)) as [f r2]. cbn [fst snd].
  rewrite <-!app_assoc. simpl. apply slice_at.
Qed.

Lemma read_string_at pre c rest :
  let q := fun d => negb (d =? c) && negb (d =? 0) in
  exists lx', read_string (lex_at pre (c :: rest)) = (Ok (collect (span q rest).1), lx') /\
    ((exists w, c :: rest = w ++ tail (span q rest).2 /\ lx' = lex_at (pre ++ w) (tail (span q rest).2)) \/
     ((span q rest).2 = [] /\ lx' = lex_over (pre ++ c :: rest))).
Proof.
  intros q. unfold read_string, st_get. unfold st_bind at 1.
  rewrite (st_bind_ok _ _ _ _ _ (read_char_at _ _ _)), (st_bind_ok _ _ _ _ _ (pos_minus_1_at _ _)).
  rewrite (st_bind_ok _ _ _ _ _ (read_while_at q _ _ _ (fun _ => eq_refl) (andb_false_r _))).
  rewrite (st_bind_ok _ _ _ _ _ (slice_at _ _ _)).
  pose proof (span_app q rest) as Happ. destruct (span q rest) as [w [|d r]]; simpl in *.
  - rewrite (st_bind_ok _ _ _ _ _ (read_char_end _)). eexists. split; [done|]. right.
    rewrite app_nil_r in Happ. subst w. by rewrite <-app_assoc.
  - rewrite (st_bind_ok _ _ _ _ _ (read_char_at _ _ _)). eexists. split; [done|]. left.
    exists (c :: w ++ [d]). simpl. rewrite <-Happ, <-!app_assoc. done.
Qed.

Lemma angle_at one v1 two v2 p pre c rest :
  angle one v1 two v2 p (lex_at pre (c :: rest)) =
    match rest with
    | d :: r' => if d =? 61 then (Ok (mk_token two v2 p), lex_at (pre ++ [c; d]) r')
                 else (Ok (mk_token one v1 p), lex_at (pre ++ [c]) rest)
    | [] => (Ok (mk_token one v1 p), lex_at (pre ++ [c]) rest)
    end.
Proof.
  unfold angle, st_get. unfold st_bind at 1. rewrite peek_char_at.
  destruct rest as [|d rest]; cbn [from_option id head].
  - change (0 =? 61) with false. cbv iota. by rewrite (st_bind_ok _ _ _ _ _ (read_char_at _ _ _)).
  - unfold id. destruct (d =? 61); rewrite (st_bind_ok _ _ _ _ _ (read_char_at _ _ _)); [|done].
    rewrite (st_bind_ok _ _ _ _ _ (read_char_at _ _ _)). by rewrite <-app_assoc.
Qed.

(** The lexer after a token: at the remaining characters, or beyond the end. *)
Definition lexed pre rest (lx : Lexer) (rest' : list N) : Prop :=
  (exists w, rest = w ++ rest' /\ lx = lex_at (pre ++ w) rest') \/
  (rest' = [] /\ lx = lex_over (pre ++ rest)).

Lemma lexed_at pre w rest' : lexed pre (w ++ rest') (lex_at (pre ++ w) rest') rest'.
Proof. left. by exists w. Qed.

Lemma lexed_skip pre w rest lx rest' : lexed (pre ++ w) rest lx rest' -> lexed pre (w ++ rest) lx rest'.
Proof.
  intros [(x & -> & ->)|[-> ->]].
  - left. exists (w ++ x). by rewrite !app_assoc.
  - right. by rewrite app_assoc.
Qed.

Lemma next_token_at pre rest :
  exists p lx', next_token (lex_at pre rest) =
      (Ok (mk_token (scan rest).1.1 (scan rest).1.2 p), lx') /\ lexed pre rest lx' (scan rest).2.
Proof.
  unfold next_token, skip_whitespace, scan, scan_token.
  rewrite (st_bind_ok _ _ _ _ _ (read_while_at is_whitespace _ _ _ (fun _ => eq_refl) eq_refl)).
  pose proof (span_app is_whitespace rest) as Happ.
  destruct (span is_whitespace rest) as [w r]. cbn [fst snd] in *. subst rest.
  unfold st_get. unfold st_bind at 1. unfold st_bind at 1. eexists.
  destruct r as [|c r]; cbn [ch lex_at from_option id head].
  { eexists. split; [done|]. apply lexed_at. }
  unfold id.
  assert (forall tt p, exists lx', single tt p (lex_at (pre ++ w) (c :: r)) =
    (Ok (mk_token tt (char_to_string c) p), lx') /\ lexed pre (w ++ c :: r) lx' r) as Hsingle.
  { intros tt p. rewrite single_at. eexists. split; [done|]. apply lexed_skip, (lexed_at _ [c]). }
  assert (forall one v1 two v2 p, exists lx', angle one v1 two v2 p (lex_at (pre ++ w) (c :: r)) =
    (Ok (mk_token (scan_angle one v1 two v2 r).1.1 (scan_angle one v1 two v2 r).1.2 p), lx') /\
    lexed pre (w ++ c :: r) lx' (scan_angle one v1 two v2 r).2) as Hangle.
  { intros. rewrite angle_at. destruct r as [|d r]; simpl; [|destruct (d =? 61)]; (eexists; split; [done|]);
      apply lexed_skip; [apply (lexed_at _ [c])|apply (lexed_at _ [c; d])|apply (lexed_at _ [c])]. }
  destruct (c =? 0); [eexists; split; [done|apply lexed_at]|].
  do 6 (case_match; [apply Hsingle|]). do 2 (case_match; [apply Hangle|]).
  destruct ((c =? 34) || (c =? 39)).
  { destruct (read_string_at (pre ++ w) c r) as (lx' & E & Hlx). rewrite (st_bind_ok _ _ _ _ _ E).
    eexists. destruct (span _ r) as [s r'] eqn:Es. cbn [fst snd]. split; [done|]. apply lexed_skip.
    destruct Hlx as [(x & Hx & ->)|[Hr ->]]; [left; by exists x|right]. cbn [snd] in Hr. by subst r'. }
  destruct (is_letter c); [|destruct (is_digit c); [|apply Hsingle]].
  - rewrite (st_bind_ok _ _ _ _ _ (read_identifier_at _ _)). pose proof (span_app id_char (c :: r)) as Hs.
    destruct (span id_char (c :: r)) as [x r']. cbn [fst snd] in *. eexists. split; [done|].
    rewrite <-Hs. apply lexed_skip, lexed_at.
  - rewrite (st_bind_ok _ _ _ _ _ (read_number_at _ _)). pose proof (scan_number_app (c :: r)) as Hs.
    destruct (scan_number (c :: r)) as [x r']. cbn [fst snd] in *. eexists. split; [done|].
    rewrite <-Hs. apply lexed_skip, lexed_at.
Qed.

(** ** The tokens of a query *)
Definition lexing (lx : Lexer) rest : Prop :=
  (exists pre, lx = lex_at pre rest) \/ (rest = [] /\ exists cs, lx = lex_over cs).

Lemma next_token_lexing lx rest :
  lexing lx rest ->
  exists p lx', next_token lx = (Ok (mk_token (scan rest).1.1 (scan rest).1.2 p), lx') /\
    lexing lx' (scan rest).2.
Proof.
  intros [[pre ->]|[-> [cs ->]]].
  - destruct (next_token_at pre rest) as (p & lx' & -> & Hl). exists p, lx'. split; [done|].
    destruct Hl as [(w & _ & ->)|[-> ->]]; [left|right]; eauto.
  - exists (S (length cs)), (lex_over cs). split; [done|]. right. eauto.
Qed.

Fixpoint scan_all (fuel : nat) cs : option (list (TokenType * string)) :=
  match fuel with
  | 0%nat => None
  | S fuel =>
    if decide ((scan cs).1.1 = TIllegal) then None
    else if decide ((scan cs).1.1 = TEof) then Some [(scan cs).1]
    else cons (scan cs).1 <$> scan_all fuel (scan cs).2
  end.

Lemma scan_number_progress c r : is_digit c = true -> (length (scan_number (c :: r)).2 <= length r)%nat.
Proof.
  intros Hd. pose proof (scan_number_app (c :: r)) as H%(f_equal length). rewrite length_app in H. simpl in H.
  enough ((scan_number (c :: r)).1 <> []) by (destruct (scan_number (c :: r)).1; simpl in *; [done|lia]).
  unfold scan_number. cbn [span]. rewrite Hd.
  destruct (span is_digit r) as [w [|d [|d' r']]]; cbn [fst]; try discriminate.
  destruct ((d =? 46) && is_digit d'); [|discriminate].
  destruct (is_digit d'); [destruct (span is_digit r')|]; discriminate.
Qed.

Lemma span_length p cs : (length (span p cs).2 <= length cs)%nat.
Proof. rewrite <-(span_app p cs) at 2. rewrite length_app. lia. Qed.

Lemma scan_progress cs : (scan cs).1.1 <> TEof -> (length (scan cs).2 < length cs)%nat.
Proof.
  unfold scan, scan_token. pose proof (span_length is_whitespace cs) as Hw.
  destruct (span is_whitespace cs).2 as [|c r]; [done|]. simpl in Hw.
  destruct (c =? 0); [done|]. do 6 (case_match; [simpl; lia|]).
  do 2 (case_match; [unfold scan_angle; destruct r as [|d r]; [simpl; lia|]; case_match; simpl in *; lia|]).
  case_match.
  { pose proof (span_length (fun d => negb (d =? c) && negb (d =? 0)) r).
    destruct (span _ r) as [s r']. cbn [snd] in *. intros _. destruct r'; simpl in *; lia. }
  destruct (is_letter c) eqn:El; [|destruct (is_digit c) eqn:Ed; [|simpl; lia]].
  - simpl span. assert (id_char c = true) as -> by (unfold id_char; by rewrite El).
    pose proof (span_length id_char r). destruct (span id_char r). cbn [snd] in *. lia.
  - pose proof (scan_number_progress c r Ed). destruct (scan_number (c :: r)). cbn [snd] in *. lia.
Qed.

Lemma tokenize_loop_scan fuel toks lx rest :
  lexing lx rest -> (length rest < fuel)%nat ->
  match scan_all fuel rest with
  | Some ts => exists ts', (tokenize_loop fuel toks lx).1 = Ok (toks ++ ts') /\
      map (fun t => (token_type t, value t)) ts' = ts
  | None => exists msg, (tokenize_loop fuel toks lx).1 = Err msg
  end.
Proof.
  revert toks lx rest. induction fuel as [|fuel IH]; intros toks lx rest Hl Hf; [lia|]. simpl.
  destruct (next_token_lexing lx rest Hl) as (p & lx' & E & Hl').
  rewrite (st_bind_ok _ _ _ _ _ E). simpl token_type. simpl value.
  destruct (decide ((scan rest).1.1 = TIllegal)) as [E1|E1].
  { rewrite bool_decide_eq_true_2 by done. by eexists. }
  rewrite bool_decide_eq_false_2 by done.
  destruct (decide ((scan rest).1.1 = TEof)) as [E2|E2].
  { rewrite bool_decide_eq_true_2 by done. eexists [_]. split; [done|]. simpl. by destruct (scan rest).1. }
  rewrite bool_decide_eq_false_2 by done. pose proof (scan_progress rest E2).
  specialize (IH (toks ++ [mk_token (scan rest).1.1 (scan rest).1.2 p]) lx' (scan rest).2 Hl' ltac:(lia)).
  destruct (scan_all fuel (scan rest).2) as [ts|]; simpl.
  - destruct IH as (ts' & -> & Hts). eexists (_ :: ts'). rewrite <-app_assoc. split; [done|].
    simpl. rewrite Hts. by destruct (scan rest).1.
  - done.
Qed.

Lemma tokenize_scan q :
  match scan_all (S (length (chars q))) (chars q) with
  | Some ts => exists ts', tokenize q = Ok ts' /\ map (fun t => (token_type t, value t)) ts' = ts
  | None => exists msg, tokenize q = Err msg
  end.
Proof.
  unfold tokenize. rewrite new_lexer_at. simpl app.
  assert (lexing (lex_at [] (chars q)) (chars q)) as Hl by (left; by exists []).
  apply (tokenize_loop_scan _ [] _ (chars q) Hl). lia.
Qed.

Lemma scan_all_shape fuel cs ts :
  scan_all fuel cs = Some ts ->
  exists ts' v, ts = ts' ++ [(TEof, v)] /\ Forall (fun t => t.1 <> TEof /\ t.1 <> TIllegal) ts'.
Proof.
  revert cs ts. induction fuel as [|fuel IH]; intros cs ts; simpl; [done|].
  case_decide as E1; [done|]. case_decide as E2.
  - intros [= <-]. exists [], (scan cs).1.2. split; [|constructor]. simpl.
    by destruct (scan cs).1; simplify_eq/=.
  - destruct (scan_all fuel (scan cs).2) as [us|] eqn:E; [|done]. intros [= <-].
    destruct (IH _ _ E) as (ts' & v & -> & Hts). exists ((scan cs).1 :: ts'), v. split; [done|by constructor].
Qed.

(** The lexer accepts or rejects every string: it never reads outside its input and its
    loops always end; the tokens that it accepts end with the only end-of-input token, and
    none of them is illegal. *)
Lemma tokenize_cases q :
  (exists msg, tokenize q = Err msg) \/
  (exists ts eof, tokenize q = Ok (ts ++ [eof]) /\ token_type eof = TEof /\
    Forall (fun t => token_type t <> TEof /\ token_type t <> TIllegal) ts).
Proof.
  pose proof (tokenize_scan q) as H1.
  destruct (scan_all (S (length (chars q))) (chars q)) as [ts|] eqn:E; [right|by left].
  destruct H1 as (ts' & -> & Hm). destruct (scan_all_shape _ _ _ E) as (us & v & -> & Hus).
  destruct ts' as [|t ts' _] using rev_ind; [by destruct us|]. rewrite map_app in Hm. simpl in Hm.
  apply app_inj_tail in Hm as [<- Ht]. exists ts', t. split; [done|]. split; [by injection Ht|].
  by apply Forall_map in Hus.
Qed.

(** ** Writing tokens down *)
Definition ascii_digit c : bool := in_range 48 57 c.

(** Digits, or digits with a fraction. *)
Definition number_chars cs : bool :=
  let '(w, r) := span ascii_digit cs in
  negb (bool_decide (w = [])) &&
  match r with
  | [] => true
  | c :: f => (c =? 46) && negb (bool_decide (f = [])) && forallb ascii_digit f
  end.

Definition word_chars cs : bool :=
  match cs with [] => false | c :: r => is_letter c && forallb id_char r end.

(** The tokens that some text denotes. *)
Definition token_ok (t : TokenType * string) : Prop :=
  match t.1 with
  | TEof | TIllegal | TIsNot => False
  | TLParen => t.2 = "("
  | TRParen => t.2 = ")"
  | TLBracket => t.2 = "["
  | TRBracket => t.2 = "]"
  | TComma => t.2 = ","
  | TDot => t.2 = "."
  | TGt => t.2 = ">"
  | TGte => t.2 = ">="
  | TLt => t.2 = "<"
  | TLte => t.2 = "<="
  | TString => rust_string t.2 /\ Forall (fun c => c <> 34 /\ c <> 0) (chars t.2)
  | TNumber => rust_string t.2 /\ number_chars (chars t.2) = true
  | k => rust_string t.2 /\ word_chars (chars t.2) = true /\ lookup_keyword t.2 = k
  end.

Definition token_text (t : TokenType * string) : list N :=
  match t.1 with TString => 34 :: chars t.2 ++ [34] | _ => chars t.2 end.

Definition spaced (ts : list (TokenType * string)) : list N := ts ≫= fun t => token_text t ++ [32].

Definition render (ts : list (TokenType * string)) : string := collect (spaced ts).

(** [c] starts a word. *)
Lemma scan_word `{!UnicodeLaws} c w rest :
  is_letter c = true -> forallb id_char w = true ->
  is_whitespace c = false /\
  scan_token c (w ++ 32 :: rest) = (lookup_keyword (collect (c :: w)), collect (c :: w), 32 :: rest).
Proof.
  intros Hc Hw. assert (is_whitespace c = false) as Hs.
  { unfold is_letter, is_alphabetic, is_whitespace, in_range in *. destruct (N.ltb_spec c 128).
    - repeat match goal with |- context [?a <=? ?b] => destruct (N.leb_spec a b) | |- context [?a =? ?b] => destruct (N.eqb_spec a b)
        | _ : context [?a <=? ?b] |- _ => destruct (N.leb_spec a b) end; simpl in *; try done; lia.
    - by apply alphabetic_not_white. }
  split; [done|]. assert (forall k, (k < 65 \/ 90 < k < 97) -> c =? k = false) as Hk.
  { intros k Hk. apply N.eqb_neq. intros ->. unfold is_letter, is_alphabetic, in_range in Hc.
    destruct (N.ltb_spec k 128); [|lia].
    repeat match goal with _ : context [?a <=? ?b] |- _ => destruct (N.leb_spec a b) end; simpl in *; try done; lia. }
  unfold scan_token. rewrite !Hk by lia. simpl orb. rewrite Hc.
  change (c :: w ++ 32 :: rest) with ((c :: w) ++ 32 :: rest).
  rewrite (span_yes id_char (c :: w) 32); [done| |done].
  constructor; [unfold id_char; by rewrite Hc|]. by apply forallb_Forall.
Qed.

Lemma ascii_digit_digit c : ascii_digit c = true -> is_digit c = true /\ 48 <= c <= 57.
Proof.
  unfold is_digit, is_numeric, ascii_digit, in_range. intros [H1%N.leb_le H2%N.leb_le]%andb_prop.
  split; [|lia]. destruct (N.ltb_spec c 128); [|lia].
  apply andb_true_intro. by rewrite !N.leb_le.
Qed.

(** [c] starts a number. *)
Lemma scan_number_text c w rest :
  number_chars (c :: w) = true ->
  is_whitespace c = false /\
  scan_token c (w ++ 32 :: rest) = (TNumber, collect (c :: w), 32 :: rest).
Proof.
  unfold number_chars. intros Hn. pose proof (span_app ascii_digit (c :: w)) as Happ.
  assert (Forall (fun d => ascii_digit d = true) (span ascii_digit (c :: w)).1) as Hd.
  { clear. generalize (c :: w). intros cs. induction cs as [|d cs IH]; simpl; [constructor|].
    destruct (ascii_digit d) eqn:E; [|constructor]. destruct (span ascii_digit cs). by constructor. }
  destruct (span ascii_digit (c :: w)) as [u r]. cbn [fst snd] in *.
  destruct u as [|c' u]; [done|]. injection Happ as -> Happ. bool_hyps.
  apply Forall_cons in Hd as [[Hc1 Hc2]%ascii_digit_digit Hu].
  assert (Forall (fun d => is_digit d = true) (c :: u)) as Hcu.
  { constructor; [done|]. eapply Forall_impl; [done|]. intros d Hd. by apply ascii_digit_digit. }
  split.
  { unfold is_whitespace, in_range. destruct (N.ltb_spec c 128); [|lia].
    repeat match goal with |- context [?a <=? ?b] => destruct (N.leb_spec a b) | |- context [?a =? ?b] => destruct (N.eqb_spec a b) end;
      simpl; lia || done. }
  assert (scan_number (c :: w ++ 32 :: rest) = (c :: w, 32 :: rest)) as Hscan.
  { unfold scan_number. subst w. destruct r as [|d f].
    - rewrite app_nil_r. change (c :: u ++ 32 :: rest) with ((c :: u) ++ 32 :: rest).
      rewrite (span_yes is_digit (c :: u)) by done. by destruct rest.
    - bool_hyps. subst d. destruct f as [|d f]; [done|].
      match goal with H : forallb _ _ = true |- _ => apply forallb_Forall, Forall_cons in H as [[Hd1 _]%ascii_digit_digit Hf] end.
      rewrite <-app_assoc. change (c :: u ++ (46 :: d :: f) ++ 32 :: rest) with ((c :: u) ++ 46 :: (d :: f) ++ 32 :: rest).
      rewrite (span_yes is_digit (c :: u)) by done. cbn [app]. cbv beta iota. rewrite Hd1. simpl andb. cbv iota.
      change (d :: f ++ 32 :: rest) with ((d :: f) ++ 32 :: rest).
      rewrite (span_yes is_digit (d :: f)); [done| |done]. constructor; [done|].
      eapply Forall_impl; [done|]. intros x Hx. by apply ascii_digit_digit. }
  assert (forall k, (k < 48 \/ 57 < k) -> c =? k = false) as Hk by (intros; apply N.eqb_neq; lia).
  unfold scan_token. rewrite !Hk by lia. simpl orb. rewrite Hscan.
  replace (is_letter c) with false; [by rewrite Hc1|]. symmetry.
  unfold is_letter, is_alphabetic, in_range. destruct (N.ltb_spec c 128); [|lia].
  repeat match goal with |- context [?a <=? ?b] => destruct (N.leb_spec a b) end; simpl; lia || done.
Qed.

Lemma scan_text `{!UnicodeLaws} t ws rest :
  token_ok t -> (ws = [] \/ ws = [32]) ->
  scan (ws ++ token_text t ++ 32 :: rest) = (t, 32 :: rest) /\ t.1 <> TEof /\ t.1 <> TIllegal.
Proof.
  intros Ht Hws.
  assert (forall c r, is_whitespace c = false -> scan (ws ++ c :: r) = scan_token c r) as Hscan.
  { intros c r Hc. unfold scan. rewrite span_yes; [done| |done]. destruct Hws as [->| ->]; by repeat constructor. }
  destruct t as [k v]. unfold token_ok, token_text in *. cbn [fst snd] in *.
  assert (rust_string v -> word_chars (chars v) = true ->
    scan (ws ++ chars v ++ 32 :: rest) = (lookup_keyword v, v, 32 :: rest)) as Hword.
  { intros Hv Hw. pose proof (collect_chars v Hv) as Hcv. destruct (chars v) as [|c w]; [done|].
    simpl in Hw. apply andb_prop in Hw as [Hc Hw]. destruct (scan_word c w rest Hc Hw) as [Hs Hscw].
    cbn [app]. rewrite Hscan, Hscw, Hcv by done. done. }
  destruct k; try done;
    try (subst v; split; [set (cs := chars _); vm_compute in cs; subst cs; cbn [app]; by rewrite Hscan|done]).
  all: split; [|done].
  all: try (destruct Ht as (Hv & Hw & Hk); by rewrite Hword, Hk).
  - destruct Ht as [Hv Hq]. simpl app. rewrite Hscan by done. unfold scan_token. simpl orb. cbv iota. simpl N.eqb. cbv iota.
    rewrite <-app_assoc. simpl app.
    rewrite (span_yes _ (chars v) 34); [|
      eapply Forall_impl; [done|]; intros d [H1%N.eqb_neq H2%N.eqb_neq]; by rewrite H1, H2|done].
    by rewrite collect_chars.
  - destruct Ht as [Hv Hn]. pose proof (collect_chars v Hv) as Hcv. destruct (chars v) as [|c w]; [done|].
    destruct (scan_number_text c w rest Hn) as [Hs Hscn]. cbn [app]. rewrite Hscan, Hscn, Hcv by done. done.
Qed.

Lemma token_ok_string t : token_ok t -> rust_string t.2.
Proof.
  destruct t as [k v]. unfold token_ok. cbn [fst snd].
  destruct k; try done; try (by intros ->); by intros [? _].
Qed.

Lemma spaced_scalar ts : Forall token_ok ts -> Forall scalar (spaced ts).
Proof.
  assert (forall c, (c < 128)%N -> scalar c) as Hs by (intros; left; lia).
  induction 1 as [|t ts Ht _ IH]; [constructor|]. unfold spaced. rewrite bind_cons.
  pose proof (chars_scalar _ (token_ok_string t Ht)) as Hc.
  repeat apply Forall_app_2; [|repeat constructor; by apply Hs|done].
  unfold token_text. destruct t.1; try done. constructor; [by apply Hs|].
  apply Forall_app_2; [done|repeat constructor; by apply Hs].
Qed.

Lemma scan_all_spaced `{!UnicodeLaws} ts fuel ws :
  Forall token_ok ts -> (ws = [] \/ ws = [32]) -> (length (ws ++ spaced ts) < fuel)%nat ->
  scan_all fuel (ws ++ spaced ts) = Some (ts ++ [(TEof, "")]).
Proof.
  intros Hts. revert fuel ws. induction Hts as [|t ts Ht _ IH]; intros [|fuel] ws Hws Hf; try lia.
  - simpl. rewrite app_nil_r. by destruct Hws as [->| ->].
  - change (spaced (t :: ts)) with ((token_text t ++ [32]) ++ spaced ts) in *. rewrite <-app_assoc in *.
    cbn [app] in *. destruct (scan_text t ws (spaced ts) Ht Hws) as (E & Hne & Hni).
    pose proof (scan_progress (ws ++ token_text t ++ 32 :: spaced ts)) as Hp. rewrite E in Hp. specialize (Hp Hne).
    cbn [scan_all]. rewrite E. cbn [fst snd] in *. rewrite !decide_False by done.
    change (32 :: spaced ts) with ([32] ++ spaced ts). rewrite IH; [done|by right|].
    simpl in *. lia.
Qed.

Lemma scan_render `{!UnicodeLaws} ts :
  Forall token_ok ts ->
  scan_all (S (length (chars (render ts)))) (chars (render ts)) = Some (ts ++ [(TEof, "")]).
Proof.
  intros Hts. unfold render. rewrite chars_collect by (by apply spaced_scalar).
  apply (scan_all_spaced ts _ [] Hts); [by left|]. simpl. lia.
Qed.

(** What is written down reads back: the tokens of the text of a list of well-formed
    tokens, separated by blanks, are these tokens, and the end of the input. *)
Theorem tokenize_render `{!UnicodeLaws} ts :
  Forall token_ok ts ->
  exists ts', tokenize (render ts) = Ok ts' /\
    map (fun t => (token_type t, value t)) ts' = ts ++ [(TEof, "")].
Proof.
  intros Hts. pose proof (tokenize_scan (render ts)) as Hq. by rewrite scan_render in Hq.
Qed.
End scanner.

Definition sample_tokens : list (TokenType * string) :=
  [(TIdent, "age"); (TGte, ">="); (TNumber, "10.5"); (TAnd, "AND"); (TIdent, "name"); (TIs, "is"); (TString, "x y")].

Lemma tokenize_render_witness :
  exists ts', @tokenize ascii_tables (render sample_tokens) = Ok ts' /\
    map (fun t => (token_type t, value t)) ts' = sample_tokens ++ [(TEof, "")].
Proof.
  apply (@tokenize_render ascii_tables ascii_tables_laws). repeat constructor; vm_compute; done.
Defined.
