(* ===== verification/QueryParser.v ===== *)
(** * Query parser and evaluation

    [src/src/core/query/parser.rs]: the syntax tree of a query and its evaluation on a
    document, and the recursive-descent parser. The three methods for expressions call each
    other; they run on fuel here. *)

From stdpp Require Import base list strings pretty.
From Stdlib Require Import NArith ZArith Lia Ascii Floats.SpecFloat.
From S2P Require Import Prelude Constants Bytes Text Order Json QueryLexer.

(** ** The syntax tree *)
Inductive Node `{!SerdeNumber} : Type :=
| BinaryOp (op : string) (left right : Node)
| UnaryOp (op : string) (child : Node)
| CompareOp (field op : string) (value : Value)
| ExistsOp (field : string) (not : bool)
| HasOp (field op : string) (values : list Value).

Section eval.
Context {numbers : SerdeNumber}.

Fixpoint get_path (parts : list string) (current : Value) : Value :=
  match parts with
  | [] => current
  | part :: parts =>
    match as_object current with
    | Some obj => get_path parts (default Null (map_get part obj))
    | None => Null
    end
  end.

Definition get_field (doc : Map) (field : string) : Value :=
  get_path (split_at "." field) (Object doc).

Definition compare_equal (a b : Value) : bool :=
  match a, b with
  | Number na, Number nb => f64_eqb (num_f64 na) (num_f64 nb)
  | _, _ => Value_eqb a b
  end.

Definition compare_greater (a b : Value) : bool :=
  match a, b with
  | Number na, Number nb => f64_gtb (num_f64 na) (num_f64 nb)
  | Str sa, Str sb => String.ltb sb sa
  | _, _ => false
  end.

Definition compare_less (a b : Value) : bool :=
  match a, b with
  | Number na, Number nb => f64_ltb (num_f64 na) (num_f64 nb)
  | Str sa, Str sb => String.ltb sa sb
  | _, _ => false
  end.

Definition eval_compare (op : string) (field_value value : Value) : bool :=
  if String.eqb op ">" then compare_greater field_value value
  else if String.eqb op ">=" then compare_greater field_value value || compare_equal field_value value
  else if String.eqb op "<" then compare_less field_value value
  else if String.eqb op "<=" then compare_less field_value value || compare_equal field_value value
  else if String.eqb op "is" then compare_equal field_value value
  else if String.eqb op "is_not" then negb (compare_equal field_value value)
  else false.

Definition eval_has (op : string) (values : list Value) (field_value : Value) : bool :=
  match as_array field_value with
  | Some arr =>
    let found val := existsb (fun v => compare_equal v val) arr in
    if String.eqb op "has" then
      match values with val :: _ => found val | [] => false end
    else if String.eqb op "has_any" then existsb found values
    else if String.eqb op "has_all" then forallb found values
    else false
  | None => false
  end.

Fixpoint eval (n : Node) (doc : Map) : bool :=
  match n with
  | BinaryOp op lhs rhs =>
    if String.eqb op "and" then eval lhs doc && eval rhs doc
    else if String.eqb op "or" then eval lhs doc || eval rhs doc
    else false
  | UnaryOp op child => if String.eqb op "not" then negb (eval child doc) else false
  | CompareOp field op value => eval_compare op (get_field doc field) value
  | ExistsOp field not =>
    let exists_ := negb (is_null (get_field doc field)) in if not then negb exists_ else exists_
  | HasOp field op values => eval_has op values (get_field doc field)
  end.
End eval.

(** *** The comparisons of two numbers, or of two strings *)
Section comparisons.
Context {numbers : SerdeNumber} {laws : SerdeNumberLaws}.

Definition comparable (a b : Value) : bool :=
  match a, b with Number _, Number _ | Str _, Str _ => true | _, _ => false end.

Lemma comparisons_order a b :
  comparable a b = true ->
  exists c, compare_less a b = bool_decide (c = Lt) /\ compare_equal a b = bool_decide (c = Eq) /\
    compare_greater a b = bool_decide (c = Gt).
Proof.
  destruct a as [| |m|s| |], b as [| |n|s'| |]; try done; intros _; simpl.
  - unfold f64_ltb, f64_eqb, f64_gtb, SFltb, SFeqb.
    pose proof (f64_compare_key _ _ (num_f64_not_nan m) (num_f64_not_nan n)) as H1.
    pose proof (ord_antisym _ _ _ (f64_total_order _ (num_f64_not_nan m)) _ (num_f64_not_nan n)) as H2.
    pose proof (f64_compare_key _ _ (num_f64_not_nan n) (num_f64_not_nan m)) as H3.
    unfold f64_cmp, f64_partial_cmp in *. rewrite H3 in *. rewrite H1 in *. simpl in H2. rewrite H2.
    exists (key_compare (f64_key (num_f64 m)) (f64_key (num_f64 n))). by destruct (key_compare _ _).
  - exists (String.compare s s'). unfold String.ltb. rewrite (bool_decide_ext _ _ (iff_sym (str_compare_eq s s'))).
    rewrite (String.compare_antisym s s'). by destruct (String.compare s' s).
Qed.

Lemma incomparable a b :
  comparable a b = false -> compare_less a b = false /\ compare_greater a b = false.
Proof. by destruct a, b. Qed.

(** On two numbers or two strings exactly one of [<], [is] and [>] holds, [>=] is the
    negation of [<] and [<=] that of [>]; on other operands [<] and [>] never hold, and [>=]
    and [<=] mean [is]. In both cases [is not] is the negation of [is]. *)
Theorem comparison_laws (f : string) (v : Value) (doc : Map) :
  let holds op := eval (CompareOp f op v) doc in
  holds "is_not" = negb (holds "is") /\
  if comparable (get_field doc f) v
  then holds ">=" = negb (holds "<") /\ holds "<=" = negb (holds ">") /\
    ((holds "<" && negb (holds "is") && negb (holds ">")) ||
     (negb (holds "<") && holds "is" && negb (holds ">")) ||
     (negb (holds "<") && negb (holds "is") && holds ">")) = true
  else holds "<" = false /\ holds ">" = false /\ holds ">=" = holds "is" /\ holds "<=" = holds "is".
Proof.
  cbv zeta. unfold eval, eval_compare. simpl String.eqb. cbv iota. split; [done|].
  destruct (comparable _ _) eqn:Hc.
  - destruct (comparisons_order _ _ Hc) as (c & -> & -> & ->). by destruct c.
  - destruct (incomparable _ _ Hc) as [-> ->]. done.
Qed.
End comparisons.

Lemma comparison_laws_witness :
  let zero := @Number float_numbers f64_zero in
  eval (CompareOp "a" ">=" zero) [("a", zero)] = negb (eval (CompareOp "a" "<" zero) [("a", zero)]).
Proof.
  destruct (@comparison_laws float_numbers float_numbers_laws "a" (@Number float_numbers f64_zero)
    [("a", @Number float_numbers f64_zero)]) as [_ [H _]]. exact H.
Defined.

(** ** Numbers: [num_str.parse::<f64>()]

    Of the forms that [f64::from_str] reads, a number token can only have the digits with an
    optional fraction; a character that is numeric but not an ASCII digit is an error. *)
Fixpoint digits_value (acc : Z) (cs : list N) : Z :=
  match cs with [] => acc | c :: cs => digits_value (10 * acc + Z.of_N (c - 48))%Z cs end.

(** The f64 nearest to [m / 10^k]. *)
Definition f64_of_decimal (m : Z) (k : nat) : f64 :=
  match m with
  | Z.pos p => SFdiv 53 1024 (S754_finite false p 0) (S754_finite false (Z.to_pos (10 ^ Z.of_nat k)) 0)
  | _ => f64_zero
  end.

Definition parse_f64 (s : string) : option f64 :=
  let '(w, r) := span ascii_digit (chars s) in
  match r with
  | [] => if bool_decide (w = []) then None else Some (f64_of_decimal (digits_value 0 w) 0)
  | c :: f =>
    if (c =? 46)%N && forallb ascii_digit f && negb (bool_decide (w ++ f = []))
    then Some (f64_of_decimal (digits_value 0 (w ++ f)) (length f)) else None
  end.

(** [{:?}] of a token type. *)
Definition token_debug (t : TokenType) : string :=
  match t with
  | TEof => "Eof" | TIllegal => "Illegal" | TIdent => "Ident" | TString => "String"
  | TNumber => "Number" | TTrue => "True" | TFalse => "False" | TNull => "Null"
  | TGt => "Gt" | TGte => "Gte" | TLt => "Lt" | TLte => "Lte" | TIs => "Is" | TIsNot => "IsNot"
  | TAnd => "And" | TOr => "Or" | TNot => "Not" | TExists => "Exists" | THas => "Has"
  | TAny => "Any" | TAll => "All" | TLParen => "LParen" | TRParen => "RParen"
  | TLBracket => "LBracket" | TRBracket => "RBracket" | TComma => "Comma" | TDot => "Dot"
  end.

(** ** The parser *)
Record Parser : Type := mk_parser { tokens : list Token; ppos : nat }.

Section parser.
Context {tables : UnicodeTables} {numbers : SerdeNumber}.

(** A method of [Parser] that returns a [Result<_, String>]. *)
Notation M := (ST Parser string).

Definition current : M Token := fun p =>
  let i := if (length (tokens p) <=? ppos p)%nat then (length (tokens p) - 1)%nat else ppos p in
  (of_option Panic (tokens p !! i), p).

Definition previous : M Token := fun p =>
  match ppos p with
  | 0 => (Panic, p)
  | S i => (of_option Panic (tokens p !! i), p)
  end.

Definition is_at_end : M bool :=
  let! t := current in st_ret (bool_decide (token_type t = TEof)).

Definition check (k : TokenType) : M bool :=
  let! at_end := is_at_end in
  if at_end : bool then st_ret false
  else let! t := current in st_ret (bool_decide (token_type t = k)).

Definition advance : M Token :=
  let! at_end := is_at_end in
  let! _ := (if at_end : bool then st_ret tt
             else st_modify (fun p => mk_parser (tokens p) (S (ppos p)))) in
  previous.

Fixpoint match_token (types : list TokenType) : M bool :=
  match types with
  | [] => st_ret false
  | k :: types =>
    let! found := check k in
    if found : bool then let! _ := advance in st_ret true else match_token types
  end.

(** [Err(format!("... at position {}", self.current().pos))]. *)
Definition fail_at {A} (msg : string) : M A :=
  let! t := current in st_fail (msg +:+ " at position " +:+ pretty (tpos t)).

Definition parse_value : M Value :=
  let! number := match_token [TNumber] in
  if number : bool then
    let! t := previous in
    match parse_f64 (value t) with
    | Some val =>
      match from_f64 val with
      | Some n => st_ret (Number n)
      | None => st_fail ("invalid number (NaN or Infinity not supported): " +:+ value t)
      end
    | None => st_fail ("invalid number: " +:+ value t)
    end
  else
  let! text := match_token [TString] in
  if text : bool then let! t := previous in st_ret (Str (value t)) else
  let! ident := match_token [TIdent] in
  if ident : bool then let! t := previous in st_ret (Str (value t)) else
  let! yes := match_token [TTrue] in
  if yes : bool then st_ret (Bool true) else
  let! no := match_token [TFalse] in
  if no : bool then st_ret (Bool false) else
  let! null := match_token [TNull] in
  if null : bool then st_ret Null else
  fail_at "expected value".

(** The loop of [parse_has] over the elements of a list. *)
Fixpoint has_values (fuel : nat) (values : list Value) : M (list Value) :=
  match fuel with
  | 0 => st_lift OutOfFuel
  | S fuel =>
    let! close := check TRBracket in
    if close : bool then st_ret values else
    let! value := parse_value in
    let values := values ++ [value] in
    let! comma := match_token [TComma] in
    if comma : bool then has_values fuel values else st_ret values
  end.

Definition parse_has (field : string) : M Node :=
  let! any := match_token [TAny] in
  let! has_op := (if any : bool then st_ret "has_any" else
                  let! all := match_token [TAll] in
                  st_ret (if all : bool then "has_all" else "has")) in
  if String.eqb has_op "has" then
    let! value := parse_value in
    st_ret (HasOp field has_op [value])
  else
    let! open := match_token [TLBracket] in
    if negb open then fail_at "expected '[' after 'has any/all'" else
    let! fuel := st_get (fun p => S (length (tokens p))) in
    let! values := has_values fuel [] in
    let! close := match_token [TRBracket] in
    if negb close then fail_at "expected ']'" else
    st_ret (HasOp field has_op values).

(** The loop of [comparison] over the parts of a dotted field name. *)
Fixpoint field_parts (fuel : nat) (field : string) : M string :=
  match fuel with
  | 0 => st_lift OutOfFuel
  | S fuel =>
    let! dot := match_token [TDot] in
    if dot : bool then
      let! ident := check TIdent in
      if negb ident then fail_at "expected field name after '.'" else
      let! t := advance in
      field_parts fuel (field +:+ "." +:+ value t)
    else st_ret field
  end.

(** The comparison operator of [comparison]; [None] for a field that stands alone. *)
Definition compare_op : M (option string) :=
  let! gt := match_token [TGt] in
  if gt : bool then st_ret (Some ">") else
  let! gte := match_token [TGte] in
  if gte : bool then st_ret (Some ">=") else
  let! lt := match_token [TLt] in
  if lt : bool then st_ret (Some "<") else
  let! lte := match_token [TLte] in
  if lte : bool then st_ret (Some "<=") else
  let! is_ := match_token [TIs] in
  if is_ : bool then
    let! not := match_token [TNot] in
    st_ret (Some (if not : bool then "is_not" else "is"))
  else
  let! at_end := is_at_end in
  let! and := check TAnd in
  let! or := check TOr in
  let! close := check TRParen in
  if at_end || and || or || close then st_ret None
  else fail_at "expected comparison operator".

(** The part of [comparison] that follows a field name. *)
Definition field_predicate (field : string) : M Node :=
  let! exists_ := match_token [TExists] in
  if exists_ : bool then st_ret (ExistsOp field false) else
  let! not := match_token [TNot] in
  if not : bool then
    let! exists_ := match_token [TExists] in
    if negb exists_ then fail_at "expected 'exists' after 'not'" else st_ret (ExistsOp field true)
  else
  let! has := match_token [THas] in
  if has : bool then parse_has field else
  let! op := compare_op in
  match op with
  | None => st_ret (CompareOp field "is" (Bool true))
  | Some op => let! v := parse_value in st_ret (CompareOp field op v)
  end.

Fixpoint or_expr (fuel : nat) : M Node :=
  match fuel with
  | 0 => st_lift OutOfFuel
  | S fuel => let! left := and_expr fuel in or_loop fuel left
  end
with or_loop (fuel : nat) (left : Node) : M Node :=
  match fuel with
  | 0 => st_lift OutOfFuel
  | S fuel =>
    let! or := match_token [TOr] in
    if or : bool then
      let! right := and_expr fuel in or_loop fuel (BinaryOp "or" left right)
    else st_ret left
  end
with and_expr (fuel : nat) : M Node :=
  match fuel with
  | 0 => st_lift OutOfFuel
  | S fuel => let! left := comparison fuel in and_loop fuel left
  end
with and_loop (fuel : nat) (left : Node) : M Node :=
  match fuel with
  | 0 => st_lift OutOfFuel
  | S fuel =>
    let! and := match_token [TAnd] in
    if and : bool then
      let! right := comparison fuel in and_loop fuel (BinaryOp "and" left right)
    else st_ret left
  end
with comparison (fuel : nat) : M Node :=
  match fuel with
  | 0 => st_lift OutOfFuel
  | S fuel =>
    let! open := match_token [TLParen] in
    if open : bool then
      let! node := or_expr fuel in
      let! close := match_token [TRParen] in
      if negb close then fail_at "expected ')'" else st_ret node
    else
    let! not := match_token [TNot] in
    if not : bool then
      let! child := comparison fuel in st_ret (UnaryOp "not" child)
    else
    let! ident := check TIdent in
    if negb ident then
      let! t := current in
      st_fail ("expected field name at position " +:+ pretty (tpos t) +:+ ", got " +:+ token_debug (token_type t))
    else
    let! t := advance in
    let! parts_fuel := st_get (fun p => S (length (tokens p))) in
    let! field := field_parts parts_fuel (value t) in
    field_predicate field
  end.

Definition parse : M Node :=
  let! empty := st_get (fun p =>
    match tokens p with [] => true | [t] => bool_decide (token_type t = TEof) | _ => false end) in
  if empty : bool then st_fail "empty query" else
  let! fuel := st_get (fun p => 4 * length (tokens p) + 4)%nat in
  or_expr fuel.

Definition parse_query (query : string) : outcome string Node :=
  let? toks := tokenize query in
  (parse (mk_parser toks 0)).1.
End parser.
