(* ===== verification/QueryGrammar.v ===== *)
(** * The grammar of queries

    A declarative grammar over token kinds, with the precedence [not] > [and] > [or] and
    left-associative operators, and the parser of QueryParser.v shown sound and complete for
    it. *)

From stdpp Require Import base list strings pretty.
From Stdlib Require Import NArith ZArith Lia Ascii.
From S2P Require Import Prelude Constants Bytes Text Json QueryLexer QueryParser.

(** A token without its position. *)
Notation kind := (TokenType * string)%type.

Definition kind_of (t : Token) : kind := (token_type t, value t).
Notation kinds := (map kind_of).

Section grammar.
Context {numbers : SerdeNumber}.

Inductive value_kind : kind -> Value -> Prop :=
| vk_number s x n : parse_f64 s = Some x -> from_f64 x = Some n -> value_kind (TNumber, s) (Number n)
| vk_string s : value_kind (TString, s) (Str s)
| vk_ident s : value_kind (TIdent, s) (Str s)
| vk_true s : value_kind (TTrue, s) (Bool true)
| vk_false s : value_kind (TFalse, s) (Bool false)
| vk_null s : value_kind (TNull, s) Null.

(** The elements between brackets; a comma may follow the last one. *)
Inductive list_kinds : list kind -> list Value -> Prop :=
| lk_nil : list_kinds [] []
| lk_one t v : value_kind t v -> list_kinds [t] [v]
| lk_cons t v c ts vs :
    value_kind t v -> list_kinds ts vs -> list_kinds (t :: (TComma, c) :: ts) (v :: vs).

(** A field name and the parts that follow it. *)
Inductive parts_kinds : string -> list kind -> string -> Prop :=
| pk_nil f : parts_kinds f [] f
| pk_cons f d g ts f' :
    parts_kinds (f +:+ "." +:+ g) ts f' -> parts_kinds f ((TDot, d) :: (TIdent, g) :: ts) f'.

Inductive op_kinds : list kind -> string -> Prop :=
| ok_gt s : op_kinds [(TGt, s)] ">"
| ok_gte s : op_kinds [(TGte, s)] ">="
| ok_lt s : op_kinds [(TLt, s)] "<"
| ok_lte s : op_kinds [(TLte, s)] "<="
| ok_is s : op_kinds [(TIs, s)] "is"
| ok_is_not s s' : op_kinds [(TIs, s); (TNot, s')] "is_not".

Inductive predicate_kinds (f : string) : list kind -> Node -> Prop :=
| rk_exists s : predicate_kinds f [(TExists, s)] (ExistsOp f false)
| rk_not_exists s s' : predicate_kinds f [(TNot, s); (TExists, s')] (ExistsOp f true)
| rk_has s t v : value_kind t v -> predicate_kinds f [(THas, s); t] (HasOp f "has" [v])
| rk_has_any s s' o ts c vs :
    list_kinds ts vs ->
    predicate_kinds f ([(THas, s); (TAny, s'); (TLBracket, o)] ++ ts ++ [(TRBracket, c)]) (HasOp f "has_any" vs)
| rk_has_all s s' o ts c vs :
    list_kinds ts vs ->
    predicate_kinds f ([(THas, s); (TAll, s'); (TLBracket, o)] ++ ts ++ [(TRBracket, c)]) (HasOp f "has_all" vs)
| rk_compare ts op t v : op_kinds ts op -> value_kind t v -> predicate_kinds f (ts ++ [t]) (CompareOp f op v)
| rk_alone : predicate_kinds f [] (CompareOp f "is" (Bool true)).

Inductive level : Type := LOr | LAnd | LComparison.

Inductive derives : level -> list kind -> Node -> Prop :=
| d_or ts1 l s ts2 r :
    derives LOr ts1 l -> derives LAnd ts2 r -> derives LOr (ts1 ++ (TOr, s) :: ts2) (BinaryOp "or" l r)
| d_or_and ts n : derives LAnd ts n -> derives LOr ts n
| d_and ts1 l s ts2 r :
    derives LAnd ts1 l -> derives LComparison ts2 r ->
    derives LAnd (ts1 ++ (TAnd, s) :: ts2) (BinaryOp "and" l r)
| d_and_comparison ts n : derives LComparison ts n -> derives LAnd ts n
| d_parens o ts c n : derives LOr ts n -> derives LComparison ((TLParen, o) :: ts ++ [(TRParen, c)]) n
| d_not s ts n : derives LComparison ts n -> derives LComparison ((TNot, s) :: ts) (UnaryOp "not" n)
| d_field f0 ts f ps n :
    parts_kinds f0 ts f -> predicate_kinds f ps n -> derives LComparison ((TIdent, f0) :: ts ++ ps) n.
End grammar.

(** ** What the parser does, from the tokens that remain *)
Section parsing.
Context {tables : UnicodeTables} {numbers : SerdeNumber}.
Notation M := (ST Parser string).
Implicit Types (pre rest : list Token).

Definition reading pre rest : Parser := mk_parser (pre ++ rest) (length pre).

(** The only end-of-input token is the last one. *)
Definition ends_eof rest : Prop :=
  exists ts eof, rest = ts ++ [eof] /\ token_type eof = TEof /\ Forall (fun t => token_type t <> TEof) ts.

(** [m] fails, or reads tokens that are in the relation [Q] to its result; it neither panics
    nor runs out of fuel, with at most [n] tokens to read. *)
Definition parses {A} (n : nat) (m : M A) (Q : A -> list kind -> Prop) : Prop :=
  forall pre rest, ends_eof rest -> length rest <= n ->
  match m (reading pre rest) with
  | (Ok a, p) => exists ts rest', rest = ts ++ rest' /\ p = reading (pre ++ ts) rest' /\
      ends_eof rest' /\ Q a (kinds ts)
  | (Err _, _) => True
  | _ => False
  end.

Lemma ends_eof_cons t rest :
  ends_eof (t :: rest) <-> (token_type t = TEof /\ rest = []) \/ (token_type t <> TEof /\ ends_eof rest).
Proof.
  split.
  - intros ([|t' ts] & eof & H & He & Hts); [left; by simplify_eq/=|right].
    apply Forall_cons in Hts as [Ht Hts]. injection H as -> ->. split; [done|]. by exists ts, eof.
  - intros [[Ht ->]|[Ht (ts & eof & -> & He & Hts)]].
    + by exists [], t.
    + exists (t :: ts), eof. repeat split; [done|by constructor].
Qed.

Lemma ends_eof_nil : ~ ends_eof [].
Proof. intros ([|] & ? & ? & _); done. Qed.

Lemma reading_snoc pre t rest : reading (pre ++ [t]) rest = mk_parser (pre ++ t :: rest) (S (length pre)).
Proof. unfold reading. rewrite <-app_assoc, length_app. simpl. f_equal. lia. Qed.

Lemma current_at pre t rest : current (reading pre (t :: rest)) = (Ok t, reading pre (t :: rest)).
Proof.
  unfold current, reading. simpl. rewrite length_app. simpl.
  destruct (Nat.leb_spec (length pre + S (length rest)) (length pre)); [lia|].
  by rewrite lookup_app_r, Nat.sub_diag by done.
Qed.

Lemma previous_at pre t rest : previous (reading (pre ++ [t]) rest) = (Ok t, reading (pre ++ [t]) rest).
Proof.
  rewrite reading_snoc. unfold previous. simpl.
  by rewrite lookup_app_r, Nat.sub_diag by done.
Qed.

Lemma is_at_end_at pre t rest :
  is_at_end (reading pre (t :: rest)) = (Ok (bool_decide (token_type t = TEof)), reading pre (t :: rest)).
Proof. unfold is_at_end. by rewrite (st_bind_ok _ _ _ _ _ (current_at _ _ _)). Qed.

Lemma check_at k pre t rest :
  k <> TEof ->
  check k (reading pre (t :: rest)) = (Ok (bool_decide (token_type t = k)), reading pre (t :: rest)).
Proof.
  intros Hk. unfold check. rewrite (st_bind_ok _ _ _ _ _ (is_at_end_at _ _ _)).
  case_bool_decide as Ht; [|by rewrite (st_bind_ok _ _ _ _ _ (current_at _ _ _))].
  rewrite bool_decide_eq_false_2 by congruence. done.
Qed.

Lemma advance_at pre t rest :
  token_type t <> TEof -> advance (reading pre (t :: rest)) = (Ok t, reading (pre ++ [t]) rest).
Proof.
  intros Ht. unfold advance. rewrite (st_bind_ok _ _ _ _ _ (is_at_end_at _ _ _)).
  rewrite bool_decide_eq_false_2 by done. rewrite <-previous_at, reading_snoc. done.
Qed.

Lemma match_at k pre t rest :
  k <> TEof ->
  match_token [k] (reading pre (t :: rest)) =
    if decide (token_type t = k) then (Ok true, reading (pre ++ [t]) rest)
    else (Ok false, reading pre (t :: rest)).
Proof.
  intros Hk. simpl. rewrite (st_bind_ok _ _ _ _ _ (check_at _ _ _ _ Hk)).
  case_bool_decide as Ht; case_decide; try done. assert (token_type t <> TEof) as Hne by congruence.
  by rewrite (st_bind_ok _ _ _ _ _ (advance_at _ _ _ Hne)).
Qed.

(** *** Rules for [parses] *)
Lemma parses_ret {A} n (a : A) (Q : A -> list kind -> Prop) : Q a [] -> parses n (st_ret a) Q.
Proof. intros Hq pre rest Hr _. exists [], rest. by rewrite app_nil_r. Qed.

Lemma parses_fail {A} n msg (Q : A -> list kind -> Prop) : parses n (st_fail msg) Q.
Proof. by intros pre rest _ _. Qed.

Lemma parses_fail_at {A} n msg (Q : A -> list kind -> Prop) : parses n (fail_at msg) Q.
Proof.
  intros pre [|t rest] Hr _; [by apply ends_eof_nil in Hr|]. unfold fail_at.
  by rewrite (st_bind_ok _ _ _ _ _ (current_at _ _ _)).
Qed.

Lemma parses_bind {A B} n (m : M A) Q (k : A -> M B) R :
  parses n m Q ->
  (forall a ts, Q a ts -> length ts <= n -> parses (n - length ts) (k a) (fun b ts' => R b (ts ++ ts'))) ->
  parses n (st_bind k m) R.
Proof.
  intros Hm Hk pre rest Hr Hn. specialize (Hm pre rest Hr Hn). unfold st_bind.
  destruct (m (reading pre rest)) as [[a|e| |] p]; try done.
  destruct Hm as (ts & rest' & -> & -> & Hr' & Hq). rewrite length_app in Hn.
  specialize (Hk a (kinds ts) Hq). rewrite length_map in Hk.
  specialize (Hk ltac:(lia) (pre ++ ts) rest' Hr' ltac:(lia)). destruct (k a (reading (pre ++ ts) rest')) as [[b|e| |] p]; try done.
  destruct Hk as (ts' & rest'' & -> & -> & Hr'' & HR). exists (ts ++ ts'), rest''.
  by rewrite map_app, !app_assoc.
Qed.

Lemma parses_impl {A} n (m : M A) Q R :
  parses n m Q -> (forall a ts, Q a ts -> R a ts) -> parses n m R.
Proof.
  intros Hm HQ pre rest Hr Hn. specialize (Hm pre rest Hr Hn).
  destruct (m (reading pre rest)) as [[a|e| |] p]; try done. naive_solver.
Qed.

Lemma parses_get {A} n (g : Parser -> nat) (k : nat -> M A) R :
  (forall pre rest, length rest <= n -> parses (length rest) (k (g (reading pre rest))) R) ->
  parses n (st_bind k (st_get g)) R.
Proof. intros Hk pre rest Hr Hn. unfold st_bind, st_get. by apply Hk. Qed.

Lemma parses_match {A} k n (yes no : M A) R :
  k <> TEof ->
  (forall s, 0 < n -> parses (n - 1) yes (fun b ts => R b ((k, s) :: ts))) -> parses n no R ->
  parses n (let! b := match_token [k] in if b : bool then yes else no) R.
Proof.
  intros Hk Hyes Hno pre [|t rest] Hr Hn; [by apply ends_eof_nil in Hr|]. unfold st_bind.
  rewrite match_at by done. case_decide as Ht; [|by apply Hno].
  apply ends_eof_cons in Hr as [[Ht' ->]|[_ Hr]]; [congruence|].
  simpl in Hn. specialize (Hyes (value t) ltac:(lia) (pre ++ [t]) rest Hr ltac:(lia)).
  destruct (yes (reading (pre ++ [t]) rest)) as [[a|e| |] p]; try done.
  destruct Hyes as (ts & rest' & -> & -> & Hr' & HR). exists (t :: ts), rest'.
  rewrite <-app_assoc. repeat split; [done|]. simpl. unfold kind_of at 1. by rewrite Ht.
Qed.

(** The same where the failing branch comes first. *)
Lemma parses_expect {A} k n (yes no : M A) R :
  k <> TEof ->
  (forall s, 0 < n -> parses (n - 1) yes (fun b ts => R b ((k, s) :: ts))) -> parses n no R ->
  parses n (let! b := match_token [k] in if negb b then no else yes) R.
Proof.
  intros Hk Hyes Hno pre rest Hr Hn. rewrite (st_bind_ext _ _ (fun b : bool => if b then yes else no)).
  - exact (parses_match k n yes no R Hk Hyes Hno pre rest Hr Hn).
  - by intros [] ? _.
Qed.

(** A matched token whose value is used. *)
Lemma parses_match_value {A} k n (yes : Token -> M A) (no : M A) R :
  k <> TEof ->
  (forall t, token_type t = k -> 0 < n -> parses (n - 1) (yes t) (fun b ts => R b ((k, value t) :: ts))) ->
  parses n no R ->
  parses n (let! b := match_token [k] in if b : bool then let! t := previous in yes t else no) R.
Proof.
  intros Hk Hyes Hno pre [|t rest] Hr Hn; [by apply ends_eof_nil in Hr|]. unfold st_bind at 1.
  rewrite match_at by done. case_decide as Ht; [|by apply Hno].
  apply ends_eof_cons in Hr as [[Ht' ->]|[_ Hr]]; [congruence|].
  rewrite (st_bind_ok _ _ _ _ _ (previous_at _ _ _)).
  simpl in Hn. specialize (Hyes t Ht ltac:(lia) (pre ++ [t]) rest Hr ltac:(lia)).
  destruct (yes t (reading (pre ++ [t]) rest)) as [[a|e| |] p]; try done.
  destruct Hyes as (ts & rest' & -> & -> & Hr' & HR). exists (t :: ts), rest'.
  rewrite <-app_assoc. repeat split; [done|]. simpl. unfold kind_of at 1. by rewrite Ht.
Qed.

(** [check] followed by [advance]. *)
Lemma parses_check_advance {A} k n (yes : Token -> M A) (no : M A) R :
  k <> TEof ->
  (forall t, token_type t = k -> 0 < n -> parses (n - 1) (yes t) (fun b ts => R b ((k, value t) :: ts))) ->
  parses n no R ->
  parses n (let! b := check k in if negb b then no else let! t := advance in yes t) R.
Proof.
  intros Hk Hyes Hno pre [|t rest] Hr Hn; [by apply ends_eof_nil in Hr|]. unfold st_bind at 1.
  rewrite check_at by done. case_bool_decide as Ht; simpl; [|by apply Hno].
  apply ends_eof_cons in Hr as [[Ht' ->]|[Hne Hr]]; [congruence|].
  rewrite (st_bind_ok _ _ _ _ _ (advance_at _ _ _ Hne)).
  simpl in Hn. specialize (Hyes t Ht ltac:(lia) (pre ++ [t]) rest Hr ltac:(lia)).
  destruct (yes t (reading (pre ++ [t]) rest)) as [[a|e| |] p]; try done.
  destruct Hyes as (ts & rest' & -> & -> & Hr' & HR). exists (t :: ts), rest'.
  rewrite <-app_assoc. repeat split; [done|]. simpl. unfold kind_of at 1. by rewrite Ht.
Qed.

Lemma parses_match_any k n :
  k <> TEof ->
  parses n (match_token [k]) (fun b ts => if b : bool then exists s, ts = [(k, s)] else ts = []).
Proof.
  intros Hk pre rest Hr Hn. rewrite (st_bind_id (match_token [k])).
  apply (parses_match k n (st_ret true) (st_ret false)
    (fun b ts => if b : bool then exists s, ts = [(k, s)] else ts = []) Hk); [|by apply parses_ret|done..].
  intros s _. apply parses_ret. by exists s.
Qed.

Lemma parses_check k n : k <> TEof -> parses n (check k) (fun _ ts => ts = []).
Proof.
  intros Hk pre [|t rest] Hr Hn; [by apply ends_eof_nil in Hr|]. rewrite check_at by done.
  exists [], (t :: rest). by rewrite app_nil_r.
Qed.

Lemma parses_is_at_end n : parses n is_at_end (fun _ ts => ts = []).
Proof.
  intros pre [|t rest] Hr Hn; [by apply ends_eof_nil in Hr|]. rewrite is_at_end_at.
  exists [], (t :: rest). by rewrite app_nil_r.
Qed.
End parsing.

(** ** Soundness and termination *)
Section soundness.
Context {tables : UnicodeTables} {numbers : SerdeNumber}.
Notation M := (ST Parser string).

Lemma parses_value n : parses n parse_value (fun v ts => exists t, ts = [t] /\ value_kind t v).
Proof.
  unfold parse_value.
  apply parses_match_value; [done| |].
  { intros t _ _. destruct (parse_f64 (value t)) as [x|] eqn:Ex; [|apply parses_fail].
    destruct (from_f64 x) as [m|] eqn:Em; [|apply parses_fail].
    apply parses_ret. eexists. split; [done|]. by eapply vk_number. }
  do 2 (apply parses_match_value; [done|intros t _ _; apply parses_ret; eexists; split; [done|constructor]|]).
  do 3 (apply parses_match; [done|intros s _; apply parses_ret; eexists; split; [done|constructor]|]).
  apply parses_fail_at.
Qed.

Lemma parses_has_values fuel n values :
  n < fuel -> parses n (has_values fuel values) (fun vs ts => exists us, vs = values ++ us /\ list_kinds ts us).
Proof.
  revert n values. induction fuel as [|fuel IH]; intros n values Hf; [lia|]. simpl.
  eapply parses_bind; [by apply parses_check|]. intros [] ts -> _; simpl.
  { apply parses_ret. exists []. rewrite app_nil_r. split; [done|constructor]. }
  eapply parses_bind; [apply parses_value|]. intros v ts (t & -> & Ht) Hl. simpl in *.
  apply parses_match; [done| |].
  - intros s Hn. eapply parses_impl; [apply IH; lia|]. intros vs ts (us & -> & Hus).
    exists (v :: us). rewrite <-app_assoc. split; [done|by constructor].
  - apply parses_ret. exists [v]. split; [done|by constructor].
Qed.

Lemma parses_has f s n : parses n (parse_has f) (fun x ts => predicate_kinds f ((THas, s) :: ts) x).
Proof.
  unfold parse_has.
  apply (parses_bind _ _ (fun b ts => if b : bool then exists s, ts = [(TAny, s)] else ts = [])); [by apply parses_match_any|].
  intros any ts1 H1 _.
  eapply (parses_bind _ _ (fun op ts => (op = "has" /\ ts1 ++ ts = []) \/
    (op <> "has" /\ exists k s', ts1 ++ ts = [(k, s')] /\ (k = TAny /\ op = "has_any" \/ k = TAll /\ op = "has_all")))).
  { destruct any.
    - apply parses_ret. right. destruct H1 as [s' ->]. split; [done|]. exists TAny, s'. auto.
    - subst ts1. apply (parses_bind _ _ _ _ _ (parses_match_any TAll _ ltac:(done))).
      intros [] ts2 H2 _; apply parses_ret; rewrite app_nil_r; simpl.
      + right. destruct H2 as [s' ->]. split; [done|]. exists TAll, s'. auto.
      + by left. }
  intros op ts2 [[-> H2]|[Hop (k & s' & H2 & Hk)]] _.
  { apply (parses_bind _ _ _ _ _ (parses_value _)). intros v ts3 (t & -> & Ht) _. apply parses_ret.
    rewrite app_nil_r, app_assoc, H2. by constructor. }
  apply String.eqb_neq in Hop as ->.
  apply parses_expect; [done| |apply parses_fail_at]. intros o _.
  apply parses_get. intros pre rest Hn. eapply parses_bind.
  { apply parses_has_values. unfold reading. simpl. rewrite length_app. lia. }
  intros vs ts (us & -> & Hus) _. apply parses_expect; [done| |apply parses_fail_at].
  intros c _. apply parses_ret. simpl.
  replace ((THas, s) :: ts1 ++ ts2 ++ (TLBracket, o) :: ts ++ [(TRBracket, c)])
    with ((THas, s) :: (k, s') :: (TLBracket, o) :: ts ++ [(TRBracket, c)]).
  - destruct Hk as [[-> ->]|[-> ->]]; by constructor.
  - rewrite (app_assoc ts1), H2. done.
Qed.

Lemma parses_field_parts fuel n f :
  n < fuel -> parses n (field_parts fuel f) (fun f' ts => parts_kinds f ts f').
Proof.
  revert n f. induction fuel as [|fuel IH]; intros n f Hf; [lia|]. simpl.
  apply parses_match; [done| |apply parses_ret; constructor].
  intros d Hd. apply parses_check_advance; [done| |apply parses_fail_at].
  intros t _ Ht. eapply parses_impl; [apply IH; lia|]. intros f' ts Hts. by constructor.
Qed.

Lemma parses_compare_op n :
  parses n compare_op (fun o ts => match o with Some op => op_kinds ts op | None => ts = [] end).
Proof.
  unfold compare_op.
  do 4 (apply parses_match; [done|intros s _; apply parses_ret; constructor|]).
  apply parses_match; [done| |].
  - intros s _. apply (parses_bind _ _ _ _ _ (parses_match_any TNot _ ltac:(done))).
    intros [] ts Hts _; apply parses_ret; rewrite app_nil_r; [destruct Hts as [s' ->]|subst]; constructor.
  - apply (parses_bind _ _ _ _ _ (parses_is_at_end _)). intros at_end ts -> _.
    do 3 (eapply parses_bind; [by apply parses_check|]; intros ? ? -> _).
    case_match; [by apply parses_ret|apply parses_fail_at].
Qed.

Lemma parses_predicate f n : parses n (field_predicate f) (fun x ts => predicate_kinds f ts x).
Proof.
  unfold field_predicate. apply parses_match; [done|intros s _; apply parses_ret; constructor|].
  apply parses_match; [done| |].
  { intros s _. apply parses_expect; [done| |apply parses_fail_at].
    intros s' _. apply parses_ret. constructor. }
  apply parses_match; [done|intros s _; apply parses_has|].
  apply (parses_bind _ _ _ _ _ (parses_compare_op _)). intros [op|] ts Hop _.
  - apply (parses_bind _ _ _ _ _ (parses_value _)). intros v ts' (t & -> & Ht) _. apply parses_ret.
    rewrite app_nil_r. by constructor.
  - subst ts. apply parses_ret. constructor.
Qed.

Lemma derives_nonempty l ts n : derives l ts n -> 1 <= length ts.
Proof. induction 1; rewrite ?length_app; simpl; lia. Qed.

Lemma parses_expressions fuel n :
  (4 * n + 3 <= fuel -> parses n (or_expr fuel) (fun x ts => derives LOr ts x)) /\
  (4 * n + 1 <= fuel -> forall l ts0, derives LOr ts0 l ->
    parses n (or_loop fuel l) (fun x ts => derives LOr (ts0 ++ ts) x)) /\
  (4 * n + 2 <= fuel -> parses n (and_expr fuel) (fun x ts => derives LAnd ts x)) /\
  (4 * n + 1 <= fuel -> forall l ts0, derives LAnd ts0 l ->
    parses n (and_loop fuel l) (fun x ts => derives LAnd (ts0 ++ ts) x)) /\
  (4 * n + 1 <= fuel -> parses n (comparison fuel) (fun x ts => derives LComparison ts x)).
Proof.
  revert n. induction fuel as [|fuel IH]; intros n; [repeat split; lia|]. split_and!; intros Hf; simpl.
  - eapply parses_bind; [apply IH; lia|]. intros l ts Hl Hn. pose proof (derives_nonempty _ _ _ Hl).
    apply IH; [lia|by constructor].
  - intros l ts0 Hl. apply parses_match; [done| |apply parses_ret; by rewrite app_nil_r].
    intros s Hn. eapply parses_bind; [apply IH; lia|]. intros r ts Hr Hlen.
    eapply parses_impl; [eapply IH; [lia|by apply (d_or ts0 l s ts r)]|].
    intros x us Hx. simpl in Hx. by rewrite <-app_assoc in Hx.
  - eapply parses_bind; [apply IH; lia|]. intros l ts Hl Hn. pose proof (derives_nonempty _ _ _ Hl).
    apply IH; [lia|by constructor].
  - intros l ts0 Hl. apply parses_match; [done| |apply parses_ret; by rewrite app_nil_r].
    intros s Hn. eapply parses_bind; [apply IH; lia|]. intros r ts Hr Hlen.
    eapply parses_impl; [eapply IH; [lia|by apply (d_and ts0 l s ts r)]|].
    intros x us Hx. simpl in Hx. by rewrite <-app_assoc in Hx.
  - apply parses_match; [done| |].
    { intros o Hn. eapply parses_bind; [apply IH; lia|]. intros x ts Hx Hlen.
      apply parses_expect; [done| |apply parses_fail_at]. intros c _. apply parses_ret. by constructor. }
    apply parses_match; [done| |].
    { intros s Hn. eapply parses_bind; [apply IH; lia|]. intros x ts Hx Hlen. apply parses_ret.
      rewrite app_nil_r. by constructor. }
    apply parses_check_advance; [done| |].
    { intros t _ Hn. apply parses_get. intros pre rest Hr. eapply parses_bind.
      - apply parses_field_parts. unfold reading. simpl. rewrite length_app. lia.
      - intros f ts Hts _. eapply parses_impl; [apply parses_predicate|]. intros x us Hx.
        exact (d_field _ _ _ _ _ Hts Hx). }
    intros pre [|t rest] Hr Hlen; [by apply ends_eof_nil in Hr|].
    by rewrite (st_bind_ok _ _ _ _ _ (current_at _ _ _)).
Qed.

Lemma parse_run toks :
  ends_eof toks ->
  match (parse (mk_parser toks 0)).1 with
  | Ok n => exists ts rest, kinds toks = ts ++ kinds rest /\ ends_eof rest /\ derives LOr ts n
  | Err _ => True
  | _ => False
  end.
Proof.
  intros Ht. unfold parse, st_bind, st_get. cbn beta iota zeta.
  match goal with |- context [if ?b then _ else _] => destruct b end; [done|].
  change (mk_parser toks 0) with (reading [] toks).
  destruct (parses_expressions (4 * length (tokens (reading [] toks)) + 4) (length toks)) as [Hor _].
  specialize (Hor ltac:(simpl; lia) [] toks Ht ltac:(lia)).
  destruct (or_expr _ (reading [] toks)) as [[n|e| |] p]; try done.
  destruct Hor as (ts & rest & -> & _ & Hr & Hd). exists (kinds ts), rest. by rewrite map_app.
Qed.

Lemma parse_query_cases query :
  (exists msg, parse_query query = Err msg) \/
  (exists n toks ts rest, parse_query query = Ok n /\ tokenize query = Ok toks /\
    kinds toks = ts ++ rest /\ derives LOr ts n).
Proof.
  unfold parse_query. destruct (tokenize_cases query) as [[msg ->]|(ts & eof & -> & He & Hts)]; [left; by eexists|].
  simpl. assert (ends_eof (ts ++ [eof])) as Ht.
  { exists ts, eof. repeat split; [done|]. eapply Forall_impl; [done|]. by intros t [? _]. }
  pose proof (parse_run _ Ht) as Hp. destruct (parse _).1 as [n|msg| |]; try done; [|left; by eexists].
  right. destruct Hp as (us & rest & Hk & _ & Hd). by exists n, (ts ++ [eof]), us, (kinds rest).
Qed.
(** C32: The parser never panics and always terminates, on any query string: it gives an error
    message, or a syntax tree that the grammar derives from a prefix of the tokens of the
    query. *)
Theorem parse_query_sound query :
  (exists msg, parse_query query = Err msg) \/
  (exists n toks ts rest, parse_query query = Ok n /\ tokenize query = Ok toks /\
    kinds toks = ts ++ rest /\ derives LOr ts n).
Proof. apply parse_query_cases. Qed.
End soundness.

(** ** Completeness *)
Section completeness.
Context {tables : UnicodeTables} {numbers : SerdeNumber}.
Notation M := (ST Parser string).
Implicit Types (pre rest us : list Token) (t : Token).

Lemma match_yes k pre t rest :
  token_type t = k -> k <> TEof ->
  match_token [k] (reading pre (t :: rest)) = (Ok true, reading (pre ++ [t]) rest).
Proof. intros Ht Hk. by rewrite match_at, decide_True. Qed.

Lemma match_no k pre t rest :
  token_type t <> k -> k <> TEof ->
  match_token [k] (reading pre (t :: rest)) = (Ok false, reading pre (t :: rest)).
Proof. intros Ht Hk. by rewrite match_at, decide_False. Qed.

Lemma check_is k pre t rest (b : bool) :
  k <> TEof -> (if b then token_type t = k else token_type t <> k) ->
  check k (reading pre (t :: rest)) = (Ok b, reading pre (t :: rest)).
Proof.
  intros Hk Hb. rewrite check_at by done. destruct b; [by rewrite bool_decide_eq_true_2|by rewrite bool_decide_eq_false_2].
Qed.

(** One step of the parser: the next token is, or is not, the one asked for. *)
Ltac token_step :=
  first [ erewrite st_bind_ok by (apply match_yes; [congruence|congruence])
        | erewrite st_bind_ok by (apply match_no; [congruence|congruence])
        | erewrite st_bind_ok by (apply previous_at) ];
  cbn iota beta.

Lemma kinds_cons us k s ts :
  kinds us = (k, s) :: ts ->
  exists t us', us = t :: us' /\ token_type t = k /\ value t = s /\ kinds us' = ts.
Proof. destruct us as [|t us]; simpl; [done|]. intros [= <- <- <-]. by exists t, us. Qed.

Lemma parse_value_complete k v t pre rest :
  value_kind k v -> kind_of t = k -> parse_value (reading pre (t :: rest)) = (Ok v, reading (pre ++ [t]) rest).
Proof.
  intros Hk Ht. unfold kind_of in Ht. unfold parse_value.
  destruct Hk as [s x n Hx Hn|s|s|s|s|s]; injection Ht as Ht Hs; repeat token_step; try (by rewrite ?Hs).
  by rewrite Hs, Hx, Hn.
Qed.

Lemma has_values_complete ts vs us pre t rest fuel vs0 :
  list_kinds ts vs -> kinds us = ts -> length us < fuel -> token_type t = TRBracket ->
  has_values fuel vs0 (reading pre (us ++ t :: rest)) = (Ok (vs0 ++ vs), reading (pre ++ us) (t :: rest)).
Proof.
  intros Hl. revert us pre fuel vs0. induction Hl as [|k v Hk|k v c ts vs Hk Hl IH]; intros us pre [|fuel] vs0 Hu Hf Ht; try lia.
  - destruct us; [|done]. simpl. erewrite st_bind_ok by (by apply (check_is _ _ _ _ true)). simpl.
    by rewrite !app_nil_r.
  - destruct us as [|u [|]]; [done| |done]. injection Hu as Hu. simpl.
    assert (token_type u <> TRBracket) as Hne by (destruct Hk; injection Hu as Hu _; by rewrite Hu).
    erewrite st_bind_ok by (by apply (check_is _ _ _ _ false)). cbn iota.
    erewrite st_bind_ok by (by eapply parse_value_complete). by token_step.
  - destruct us as [|u us]; [done|]. injection Hu as Hu Hus.
    destruct (kinds_cons _ _ _ _ Hus) as (u' & us' & -> & Hu' & _ & Hus'). simpl.
    assert (token_type u <> TRBracket) as Hne by (destruct Hk; injection Hu as Hu _; by rewrite Hu).
    erewrite st_bind_ok by (by apply (check_is _ _ _ _ false)). cbn iota.
    erewrite st_bind_ok by (by eapply parse_value_complete). token_step. simpl in Hf.
    rewrite IH by (done || lia). by rewrite <-!app_assoc.
Qed.

Lemma field_parts_complete f ts f' us pre t rest fuel :
  parts_kinds f ts f' -> kinds us = ts -> length us < fuel -> token_type t <> TDot ->
  field_parts fuel f (reading pre (us ++ t :: rest)) = (Ok f', reading (pre ++ us) (t :: rest)).
Proof.
  intros Hp. revert us pre fuel. induction Hp as [f|f d g ts f' Hp IH]; intros us pre [|fuel] Hu Hf Ht; try lia.
  - destruct us; [|done]. simpl app. cbn [field_parts]. token_step. by rewrite app_nil_r.
  - destruct (kinds_cons _ _ _ _ Hu) as (u & us' & -> & Hd & _ & Hu').
    destruct (kinds_cons _ _ _ _ Hu') as (u' & us'' & -> & Hi & Hg & Hus). cbn [app field_parts].
    token_step. erewrite st_bind_ok by (by apply (check_is _ _ _ _ true)). cbn [negb].
    assert (token_type u' <> TEof) as Hne by congruence.
    rewrite (st_bind_ok _ _ _ _ _ (advance_at _ _ _ Hne)), Hg. simpl in Hf.
    rewrite IH by (done || lia). by rewrite <-!app_assoc.
Qed.

(** The tokens that can follow a comparison. *)
Definition follows_comparison t : Prop :=
  token_type t = TEof \/ token_type t = TAnd \/ token_type t = TOr \/ token_type t = TRParen.

Lemma compare_op_complete ts op us pre t rest :
  op_kinds ts op -> kinds us = ts -> token_type t <> TNot ->
  compare_op (reading pre (us ++ t :: rest)) = (Ok (Some op), reading (pre ++ us) (t :: rest)).
Proof.
  intros Ho Hu Ht. unfold compare_op.
  destruct Ho; destruct (kinds_cons _ _ _ _ Hu) as (u & us' & -> & Hk & _ & Hu'); cbn [app];
    try (destruct us'; [|done]; cbn [app]; repeat token_step; done).
  destruct (kinds_cons _ _ _ _ Hu') as (u' & us'' & -> & Hk' & _ & Hus). destruct us''; [|done].
  cbn [app]. repeat token_step. by rewrite <-app_assoc.
Qed.

Lemma kinds_app us ts1 ts2 :
  kinds us = ts1 ++ ts2 -> exists us1 us2, us = us1 ++ us2 /\ kinds us1 = ts1 /\ kinds us2 = ts2.
Proof. intros H. by apply map_eq_app in H. Qed.

Ltac kinds_inv :=
  repeat match goal with
  | H : kinds _ = (_, _) :: _ |- _ =>
    let u := fresh "u" in let us := fresh "us" in let Hk := fresh "Hk" in
    apply kinds_cons in H as (u & us & -> & Hk & _ & H)
  | H : kinds _ = _ ++ _ |- _ => apply kinds_app in H as (? & ? & -> & ? & H)
  | H : kinds ?us = [] |- _ => destruct us; [clear H|done]
  end.

(** The brackets of [has any] and [has all]. *)
Lemma brackets_complete f op ts vs o c us pre t rest :
  list_kinds ts vs -> kinds us = (TLBracket, o) :: ts ++ [(TRBracket, c)] ->
  (let! open := match_token [TLBracket] in
   if negb open then fail_at "expected '[' after 'has any/all'" else
   let! fuel := st_get (fun p => S (length (tokens p))) in
   let! values := has_values fuel [] in
   let! close := match_token [TRBracket] in
   if negb close then fail_at "expected ']'" else
   st_ret (HasOp f op values)) (reading pre (us ++ t :: rest)) =
  (Ok (HasOp f op vs), reading (pre ++ us) (t :: rest)).
Proof.
  intros Hl Hu. kinds_inv. cbn [app]. rewrite <-app_assoc. cbn [app]. token_step. cbn [negb].
  unfold st_bind at 1, st_get at 1. erewrite st_bind_ok; [|eapply has_values_complete; [done..| |done]].
  - simpl app. token_step. cbn [negb]. unfold st_ret. by rewrite <-!app_assoc.
  - unfold reading. simpl. rewrite !length_app. simpl. lia.
Qed.

Lemma predicate_complete f ts n us pre t rest :
  predicate_kinds f ts n -> kinds us = ts -> follows_comparison t ->
  field_predicate f (reading pre (us ++ t :: rest)) = (Ok n, reading (pre ++ us) (t :: rest)).
Proof.
  intros Hp Hu Ht. unfold field_predicate.
  assert (token_type t <> TNot /\ token_type t <> TExists /\ token_type t <> THas /\ token_type t <> TGt /\
    token_type t <> TGte /\ token_type t <> TLt /\ token_type t <> TLte /\ token_type t <> TIs)
    as (Hn1 & Hn2 & Hn3 & Hn4 & Hn5 & Hn6 & Hn7 & Hn8)
    by (unfold follows_comparison in Ht; repeat split; intros E; rewrite E in Ht; naive_solver).
  destruct Hp as [s|s s'|s k v Hv|s s' o ts c vs Hl|s s' o ts c vs Hl|ts op k v Ho Hv|].
  - kinds_inv. cbn [app]. by token_step.
  - kinds_inv. cbn [app]. repeat token_step. cbn [negb]. unfold st_ret. by rewrite <-app_assoc.
  - kinds_inv. destruct us0 as [|u' [|]]; [done| |done]. injection Hu as Hu. cbn [app]. repeat token_step.
    assert (token_type u' <> TAny /\ token_type u' <> TAll) as [Ha Hb]
      by (destruct Hv; injection Hu as Hu _; by rewrite Hu).
    unfold parse_has. token_step. rewrite st_bind_assoc. token_step.
    unfold st_bind at 1, st_ret at 1.
    change (String.eqb "has" "has") with true. cbn iota.
    erewrite st_bind_ok by (by eapply parse_value_complete). unfold st_ret. by rewrite <-app_assoc.
  - cbn [app] in Hu. apply kinds_cons in Hu as (u & us' & -> & Hk & _ & Hu).
    apply kinds_cons in Hu as (u' & us'' & -> & Hk' & _ & Hu). cbn [app]. repeat token_step.
    unfold parse_has. token_step. unfold st_bind at 1, st_ret at 1.
    change (String.eqb "has_any" "has") with false. cbn iota.
    rewrite (brackets_complete _ _ ts vs o c); [|done..]. by rewrite <-!app_assoc.
  - cbn [app] in Hu. apply kinds_cons in Hu as (u & us' & -> & Hk & _ & Hu).
    apply kinds_cons in Hu as (u' & us'' & -> & Hk' & _ & Hu). cbn [app]. repeat token_step.
    unfold parse_has. token_step. rewrite st_bind_assoc. token_step. unfold st_bind at 1, st_ret at 1.
    change (String.eqb "has_all" "has") with false. cbn iota.
    rewrite (brackets_complete _ _ ts vs o c); [|done..]. by rewrite <-!app_assoc.
  - apply kinds_app in Hu as (us1 & us2 & -> & Hu1 & Hu2). destruct us2 as [|u [|]]; [done| |done].
    injection Hu2 as Hu2. rewrite <-app_assoc. cbn [app].
    assert (token_type u <> TNot) as Hne by (destruct Hv; injection Hu2 as Hu2 _; by rewrite Hu2).
    pose proof (compare_op_complete ts op us1 pre u (t :: rest) Ho Hu1 Hne) as Hop.
    destruct us1 as [|u1 us1]; [destruct Ho; done|]. cbn [app] in *.
    assert (token_type u1 <> TExists /\ token_type u1 <> TNot /\ token_type u1 <> THas) as (He1 & He2 & He3)
      by (destruct Ho; injection Hu1 as Hu1 _; by rewrite Hu1).
    do 3 token_step. rewrite (st_bind_ok _ _ _ _ _ Hop).
    erewrite st_bind_ok by (by eapply parse_value_complete). unfold st_ret. by rewrite <-!app_assoc.
  - kinds_inv. cbn [app]. do 3 token_step. unfold compare_op.
    rewrite st_bind_assoc. token_step. do 4 (rewrite st_bind_assoc; token_step).
    rewrite st_bind_assoc. erewrite st_bind_ok by (apply is_at_end_at).
    do 3 (rewrite st_bind_assoc; erewrite st_bind_ok by (by apply check_at)).
    rewrite app_nil_r. by destruct Ht as [E|[E|[E|E]]]; rewrite E.
Qed.

Definition completes (l : level) ts n : Prop :=
  forall us pre t rest fuel, kinds us = ts -> follows_comparison t ->
  match l with
  | LComparison =>
    4 * length (us ++ t :: rest) + 1 <= fuel ->
    comparison fuel (reading pre (us ++ t :: rest)) = (Ok n, reading (pre ++ us) (t :: rest))
  | LAnd =>
    4 * length (us ++ t :: rest) + 2 <= fuel ->
    exists fuel', 4 * length (t :: rest) + 1 <= fuel' /\
      and_expr fuel (reading pre (us ++ t :: rest)) = and_loop fuel' n (reading (pre ++ us) (t :: rest))
  | LOr =>
    4 * length (us ++ t :: rest) + 3 <= fuel -> token_type t <> TAnd ->
    exists fuel', 4 * length (t :: rest) + 1 <= fuel' /\
      or_expr fuel (reading pre (us ++ t :: rest)) = or_loop fuel' n (reading (pre ++ us) (t :: rest))
  end.

Lemma and_loop_stops fuel n pre t rest :
  1 <= fuel -> token_type t <> TAnd -> and_loop fuel n (reading pre (t :: rest)) = (Ok n, reading pre (t :: rest)).
Proof. intros Hf Ht. destruct fuel; [lia|]. cbn [and_loop]. by token_step. Qed.

Lemma or_loop_stops fuel n pre t rest :
  1 <= fuel -> token_type t <> TOr -> or_loop fuel n (reading pre (t :: rest)) = (Ok n, reading pre (t :: rest)).
Proof. intros Hf Ht. destruct fuel; [lia|]. cbn [or_loop]. by token_step. Qed.

Lemma derives_complete l ts n : derives l ts n -> completes l ts n.
Proof.
  induction 1 as [ts1 l s ts2 r _ IH1 _ IH2|ts n _ IH|ts1 l s ts2 r _ IH1 _ IH2|ts n _ IH
    |o ts c n _ IH|s ts n _ IH|f0 ts f ps n Hp Hr];
    intros us pre t rest [|fuel] Hu Ht Hf; try lia.
  - intros Hna. apply kinds_app in Hu as (us1 & us2 & -> & Hu1 & Hu2).
    apply kinds_cons in Hu2 as (u & us2' & -> & Hk & _ & Hu2). rewrite <-app_assoc in *. cbn [app] in *.
    destruct (IH1 us1 pre u (us2' ++ t :: rest) (S fuel) Hu1 ltac:(unfold follows_comparison; auto) Hf ltac:(congruence))
      as ([|fuel1] & Hf1 & E1); [lia|].
    rewrite E1. cbn [or_loop]. token_step. simpl in Hf1.
    destruct (IH2 us2' ((pre ++ us1) ++ [u]) t rest fuel1 Hu2 Ht ltac:(rewrite length_app in *; simpl in *; lia))
      as (fuel2 & Hf2 & E2).
    erewrite st_bind_ok; [|rewrite E2; apply and_loop_stops; [lia|done]].
    exists fuel1. split; [rewrite length_app in *; simpl in *; lia|]. by rewrite <-!app_assoc.
  - intros Hna. cbn [or_expr]. destruct (IH us pre t rest fuel Hu Ht ltac:(lia)) as (fuel1 & Hf1 & E1).
    erewrite st_bind_ok; [|rewrite E1; apply and_loop_stops; [lia|done]].
    exists fuel. split; [rewrite length_app in *; simpl in *; lia|done].
  - apply kinds_app in Hu as (us1 & us2 & -> & Hu1 & Hu2).
    apply kinds_cons in Hu2 as (u & us2' & -> & Hk & _ & Hu2). rewrite <-app_assoc in *. cbn [app] in *.
    destruct (IH1 us1 pre u (us2' ++ t :: rest) (S fuel) Hu1 ltac:(unfold follows_comparison; auto) Hf)
      as ([|fuel1] & Hf1 & E1); [lia|].
    rewrite E1. cbn [and_loop]. token_step. simpl in Hf1.
    erewrite st_bind_ok; [|apply (IH2 us2' _ t rest fuel1 Hu2 Ht); rewrite length_app in *; simpl in *; lia].
    exists fuel1. split; [rewrite length_app in *; simpl in *; lia|]. by rewrite <-!app_assoc.
  - cbn [and_expr]. erewrite st_bind_ok; [|apply (IH us _ t rest fuel Hu Ht); lia].
    exists fuel. split; [rewrite length_app in *; simpl in *; lia|done].
  - apply kinds_cons in Hu as (u & us1 & -> & Hk & _ & Hu). apply kinds_app in Hu as (us2 & us3 & -> & Hu2 & Hu3).
    apply kinds_cons in Hu3 as (u' & us4 & -> & Hk' & _ & Hu4). destruct us4; [|done].
    cbn [app] in *. rewrite <-app_assoc in *. cbn [app comparison] in *. token_step.
    destruct (IH us2 (pre ++ [u]) u' (t :: rest) fuel Hu2 ltac:(unfold follows_comparison; auto)
      ltac:(simpl in *; rewrite length_app in *; simpl in *; lia) ltac:(congruence)) as (fuel1 & Hf1 & E1).
    erewrite st_bind_ok; [|rewrite E1; apply or_loop_stops; [lia|congruence]].
    token_step. cbn [negb]. unfold st_ret. by rewrite <-!app_assoc.
  - apply kinds_cons in Hu as (u & us1 & -> & Hk & _ & Hu). cbn [app comparison] in *. do 2 token_step.
    erewrite st_bind_ok; [|apply (IH us1 _ t rest fuel Hu Ht); simpl in *; lia].
    unfold st_ret. by rewrite <-!app_assoc.
  - apply kinds_cons in Hu as (u & us1 & -> & Hk & Hv & Hu).
    apply kinds_app in Hu as (us2 & us3 & -> & Hu2 & Hu3). cbn [app comparison] in *. do 2 token_step.
    erewrite st_bind_ok by (by apply (check_is _ _ _ _ true)). cbn [negb].
    assert (token_type u <> TEof) as Hne by congruence.
    rewrite (st_bind_ok _ _ _ _ _ (advance_at _ _ _ Hne)), Hv. unfold st_bind at 1, st_get at 1.
    assert (exists w ws, us3 ++ t :: rest = w :: ws /\ token_type w <> TDot) as (w & ws & Hw & Hwd).
    { destruct us3 as [|w us3]; [exists t, rest|exists w, (us3 ++ t :: rest)]; (split; [done|]).
      - by destruct Ht as [E|[E|[E|E]]]; rewrite E.
      - destruct Hr as [| | | | |ts' op k v Ho _|]; simpl in Hu3; try (injection Hu3 as Hu3 _; by rewrite Hu3);
          [destruct Ho; injection Hu3 as Hu3 _; by rewrite Hu3|done]. }
    rewrite <-app_assoc, Hw. erewrite st_bind_ok; [|eapply field_parts_complete; [done|done| |done]].
    + rewrite <-Hw. rewrite (predicate_complete f ps n us3 _ t rest Hr Hu3 Ht). by rewrite <-!app_assoc.
    + unfold reading. simpl. rewrite !length_app. simpl. lia.
Qed.

(** C31: The parser accepts every sentence of the grammar: the text of well-formed tokens that
    the grammar derives a syntax tree from is parsed to that tree. In particular [and] binds
    tighter than [or], [not] tighter than [and], and [and] and [or] associate to the left. *)
Theorem parse_query_complete `{!UnicodeLaws} ts n :
  Forall token_ok ts -> derives LOr ts n -> parse_query (render ts) = Ok n.
Proof.
  intros Hts Hd. unfold parse_query. pose proof (tokenize_scan (render ts)) as Hq.
  rewrite scan_render in Hq by done. destruct Hq as (toks & -> & Hk). simpl.
  change (kinds toks = ts ++ [(TEof, "")]) in Hk.
  apply kinds_app in Hk as (us & us' & -> & Hus & Hk).
  apply kinds_cons in Hk as (eof & us'' & -> & He & _ & Hk). destruct us''; [|done].
  unfold parse, st_bind, st_get. cbn beta iota zeta. pose proof (derives_nonempty _ _ _ Hd) as Hne.
  rewrite <-Hus, length_map in Hne.
  replace (match us ++ [eof] with [] => true | [t] => _ | _ => false end) with false
    by (by destruct us as [|u [|u' us]]; [simpl in Hne; lia|..]).
  change (mk_parser (us ++ [eof]) 0) with (reading [] (us ++ [eof])).
  destruct (derives_complete _ _ _ Hd us [] eof [] (4 * length (us ++ [eof]) + 4) Hus
    ltac:(unfold follows_comparison; auto) ltac:(lia) ltac:(congruence)) as (fuel & Hf & E).
  simpl tokens. rewrite E. by rewrite or_loop_stops by (lia || congruence).
Qed.
End completeness.

#[local] Existing Instance ascii_tables.
#[local] Existing Instance ascii_tables_laws.
#[local] Existing Instance float_numbers.

Definition sample_query : list kind :=
  [(TNot, "not"); (TIdent, "c"); (TAnd, "and"); (TIdent, "user"); (TDot, "."); (TIdent, "age"); (TGte, ">=");
   (TNumber, "10.5"); (TOr, "or"); (TIdent, "name"); (TIs, "is"); (TString, "x y")].

Definition sample_tree : Node :=
  BinaryOp "or"
    (BinaryOp "and" (UnaryOp "not" (CompareOp "c" "is" (Bool true)))
      (CompareOp "user.age" ">=" (Number (f64_of_decimal 105 1))))
    (CompareOp "name" "is" (Str "x y")).

Lemma parse_query_complete_witness : parse_query (render sample_query) = Ok sample_tree.
Proof.
  apply (parse_query_complete sample_query sample_tree).
  - repeat constructor; vm_compute; done.
  - apply (d_or [_; _; _; _; _; _; _; _] _ _ [_; _; _]).
    + apply d_or_and. apply (d_and [_; _] _ _ [_; _; _; _; _]).
      * apply d_and_comparison, d_not, (d_field "c" [] "c" []); constructor.
      * apply (d_field "user" [_; _] "user.age" [_; _]); [repeat constructor|].
        apply (rk_compare _ [_]); [constructor|]. by eapply vk_number.
    + apply d_and_comparison, (d_field "name" [] "name" [_; _]); [constructor|].
      apply (rk_compare _ [_]); constructor.
Defined.
