(* ===== verification/IndexKey.v ===== *)
(** * Index keys

    [src/src/core/index_key.rs]: the order of JSON values and of index keys, the text form of
    simple and compound keys, and the values that a document has for an indexed field. *)

From stdpp Require Import base list strings sorting pretty.
From Stdlib Require Import NArith ZArith Lia Ascii Floats.SpecFloat.
From S2P Require Import Prelude Constants Bytes Order Json.

Record IndexKey `{!SerdeNumber} : Type := { field_value : Value; doc_id : string }.

Record CompoundIndexKey `{!SerdeNumber} : Type := { field_values : list Value; cdoc_id : string }.

Section index_key.
Context {numbers : SerdeNumber} {text : SerdeText}.

(** Entries of objects are compared by key and, for equal keys, by value; a map lists its
    entries in the order of the keys, the order that the code sorts the keys into. *)
Fixpoint compare_values (a b : Value) : comparison :=
  match a, b with
  | Null, Null => Eq
  | Null, _ => Lt
  | _, Null => Gt
  | Bool x, Bool y => Bool.compare x y
  | Bool _, _ => Lt
  | _, Bool _ => Gt
  | Number x, Number y =>
    if f64_ltb (num_f64 x) (num_f64 y) then Lt
    else if f64_gtb (num_f64 x) (num_f64 y) then Gt
    else Eq
  | Number _, _ => Lt
  | _, Number _ => Gt
  | Str x, Str y => String.compare x y
  | Str _, _ => Lt
  | _, Str _ => Gt
  | Array xs, Array ys =>
    match lex_zip compare_values xs ys with
    | Eq => Nat.compare (length xs) (length ys)
    | c => c
    end
  | Array _, _ => Lt
  | _, Array _ => Gt
  | Object xs, Object ys =>
    match lex_zip (fun p q =>
        match String.compare p.1 q.1 with
        | Eq => compare_values p.2 q.2
        | c => c
        end) xs ys with
    | Eq => Nat.compare (length xs) (length ys)
    | c => c
    end
  end.

Definition compare_index_keys (a b : IndexKey) : comparison :=
  match compare_values (field_value a) (field_value b) with
  | Eq => String.compare (doc_id a) (doc_id b)
  | c => c
  end.

Definition json_error (e : string) : Error := Other ("JSON error: " +:+ e).

(** [serde_json::to_string(v)?] and [serde_json::from_str(s)?]. *)
Definition to_string (v : Value) : Result string :=
  match json_to_string v with inl s => Ok s | inr e => Err (json_error e) end.
Definition from_str (s : string) : Result Value :=
  match json_from_str s with inl v => Ok v | inr e => Err (json_error e) end.

Definition serialize_index_key (key : IndexKey) : Result string :=
  let? value_json := to_string (field_value key) in
  Ok (value_json +:+ "|" +:+ doc_id key).

(** The text before and after the first [c]. *)
Fixpoint split_first (c : ascii) (s : string) : option (string * string) :=
  match s with
  | EmptyString => None
  | String c' s' =>
    if decide (c' = c) then Some ("", s')
    else match split_first c s' with Some (a, b) => Some (String c' a, b) | None => None end
  end.

Definition deserialize_index_key (s : string) : Result IndexKey :=
  match split_first "|" s with
  | Some (value_str, id) =>
    let? v := from_str value_str in
    Ok {| field_value := v; doc_id := id |}
  | None => Err (Other "invalid index key format")
  end.

Fixpoint extract_path (parts : list string) (current : Value) : Value :=
  match parts with
  | [] => current
  | part :: parts =>
    match current with
    | Object obj =>
      match map_get part obj with
      | Some v => extract_path parts v
      | None => Null
      end
    | _ => Null
    end
  end.

Definition extract_field_value (doc : Map) (field : string) : Value :=
  extract_path (split_at "." field) (Object doc).

(** The values of a key, up to the first that has no text. *)
Fixpoint to_strings (vs : list Value) : Result (list string) :=
  match vs with
  | [] => Ok []
  | v :: vs =>
    let? s := to_string v in
    let? ss := to_strings vs in
    Ok (s :: ss)
  end.

Definition serialize_compound_index_key (key : CompoundIndexKey) : Result string :=
  let? parts := to_strings (field_values key) in
  Ok (join "|" (parts ++ [cdoc_id key])).

Fixpoint from_strs (ss : list string) : Result (list Value) :=
  match ss with
  | [] => Ok []
  | s :: ss =>
    let? v := from_str s in
    let? vs := from_strs ss in
    Ok (v :: vs)
  end.

Definition deserialize_compound_index_key (s : string) (num_fields : nat) : Result CompoundIndexKey :=
  let parts := split_at "|" s in
  if (length parts <? num_fields + 1)%nat then
    Err (Other ("invalid compound index key format: expected " +:+ pretty num_fields +:+
      " fields + doc_id, got " +:+ pretty (length parts) +:+ " parts"))
  else
    let? vs := from_strs (take num_fields parts) in
    Ok {| field_values := vs; cdoc_id := join "|" (drop num_fields parts) |}.

Definition compare_compound_index_keys (a b : CompoundIndexKey) : comparison :=
  match lex_zip compare_values (field_values a) (field_values b) with
  | Eq =>
    match Nat.compare (length (field_values a)) (length (field_values b)) with
    | Eq => String.compare (cdoc_id a) (cdoc_id b)
    | c => c
    end
  | c => c
  end.

Definition extract_field_values (doc : Map) (fields : list string) : list Value :=
  map (extract_field_value doc) fields.
End index_key.

(** ** The order *)
Section order.
Context {numbers : SerdeNumber} {laws : SerdeNumberLaws}.

Lemma compare_Array xs ys : compare_values (Array xs) (Array ys) = lex_list compare_values xs ys.
Proof. simpl. unfold lex_list. by destruct (lex_zip _ _ _). Qed.

Definition compare_entries (p q : string * Value) : comparison :=
  cmp_then (String.compare p.1 q.1) (compare_values p.2 q.2).

Lemma compare_Object xs ys : compare_values (Object xs) (Object ys) = lex_list compare_entries xs ys.
Proof.
  simpl. unfold lex_list. replace (lex_zip _ xs ys) with (lex_zip compare_entries xs ys).
  - by destruct (lex_zip _ _ _).
  - revert ys. induction xs as [|p xs IH]; intros [|q ys]; try done. simpl. rewrite IH.
    unfold compare_entries, cmp_then. by destruct (String.compare p.1 q.1).
Qed.

Lemma compare_Number x y : compare_values (Number x) (Number y) = f64_cmp (num_f64 x) (num_f64 y).
Proof.
  simpl. unfold f64_cmp, f64_partial_cmp, f64_ltb, f64_gtb, SFltb.
  pose proof (num_f64_not_nan x) as Hx. pose proof (num_f64_not_nan y) as Hy.
  pose proof (ord_antisym _ _ _ (f64_total_order _ Hx) _ Hy) as Ha. unfold f64_cmp, f64_partial_cmp in Ha.
  rewrite !f64_compare_key in * by done. simpl in *. rewrite Ha. clear Ha. by destruct (key_compare (f64_key (num_f64 x)) (f64_key (num_f64 y))).
Qed.

Lemma ord_at_value v : ord_at (fun _ => True) compare_values v.
Proof.
  induction v as [|b|n|s|vs IH|m IH] using Value_nested_ind; apply (ord_at_rank value_rank);
    try (intros [] []; simpl; by (lia || done)).
  - split; [done|by intros []|by intros [] []].
  - destruct (total_order_bool b I) as [R0 A0 T0].
    split; [done|by intros []; try done; intros; apply A0|intros [] []; try done; intros; by apply T0].
  - assert (forall y, (fun _ => True) y -> not_nan (num_f64 y)) as Hn by (intros; apply num_f64_not_nan).
    pose proof (ord_at_map not_nan (fun _ => True) num_f64 f64_cmp n Hn (f64_total_order _ (num_f64_not_nan n)))
      as [R0 A0 T0].
    split; [by rewrite compare_Number|intros []|intros [] []]; try done; rewrite !compare_Number; auto.
  - destruct (total_order_str s I) as [R0 A0 T0].
    split; [done|by intros []; try done; intros; apply A0|intros [] []; try done; intros; by apply T0].
  - pose proof (ord_at_lex _ _ _ IH) as [R0 A0 T0].
    split; [by rewrite compare_Array|intros []|intros [] []]; try done; rewrite !compare_Array; auto using Forall_true.
  - assert (Forall (ord_at (fun _ => True) compare_entries) m) as He.
    { eapply Forall_impl; [exact IH|]. intros [k v] Hv. apply ord_at_then.
      - by apply (ord_at_map (fun _ => True) _ fst), total_order_str.
      - by apply (ord_at_map (fun _ => True) _ snd). }
    pose proof (ord_at_lex _ _ _ He) as [R0 A0 T0].
    split; [by rewrite compare_Object|intros []|intros [] []]; try done; rewrite !compare_Object; auto using Forall_true.
Qed.

(** The order of index keys is total, for simple and for compound keys: reflexive,
    antisymmetric and transitive over all JSON values (null < booleans < numbers < strings <
    arrays < objects), with the document identifier deciding between equal values. *)
Theorem index_keys_ordered :
  total_order (fun _ => True) compare_index_keys /\
  total_order (fun _ => True) compare_compound_index_keys.
Proof.
  assert (forall vs, ord_at (fun _ => True) (lex_list compare_values) vs) as Hlex.
  { intros vs. pose proof (ord_at_lex (fun _ => True) compare_values vs) as H.
    destruct H as [R0 A0 T0]; [apply Forall_true; apply ord_at_value|].
    split; [done|auto using Forall_true..]. }
  split; intros a _.
  - apply (ord_at_ext _ (fun a b => cmp_then (compare_values (field_value a) (field_value b))
      (String.compare (doc_id a) (doc_id b)))); [done| |].
    + apply (ord_at_then _ (fun a b => compare_values (field_value a) (field_value b))).
      * by apply (ord_at_map (fun _ => True) _ field_value compare_values), ord_at_value.
      * by apply (ord_at_map (fun _ => True) _ doc_id String.compare), total_order_str.
    + intros x y _ _. unfold compare_index_keys. by destruct (compare_values _ _).
  - apply (ord_at_ext _ (fun a b => cmp_then (lex_list compare_values (field_values a) (field_values b))
      (String.compare (cdoc_id a) (cdoc_id b)))); [done| |].
    + apply (ord_at_then _ (fun a b => lex_list compare_values (field_values a) (field_values b))).
      * by apply (ord_at_map (fun _ => True) _ field_values (lex_list compare_values)).
      * by apply (ord_at_map (fun _ => True) _ cdoc_id String.compare), total_order_str.
    + intros x y _ _. unfold compare_compound_index_keys, lex_list.
      by destruct (lex_zip _ _ _), (Nat.compare _ _).
Qed.
End order.

Lemma index_keys_ordered_witness :
  total_order (fun _ => True) (@compare_index_keys float_numbers) /\
  total_order (fun _ => True) (@compare_compound_index_keys float_numbers).
Proof. exact (@index_keys_ordered float_numbers float_numbers_laws). Defined.

(** ** The text form *)
Section text.
Context {numbers : SerdeNumber} {text : SerdeText}.

(** The text of [v] is [s], and reads back. *)
Definition reads_back (v : Value) (s : string) : Prop :=
  json_to_string v = inl s /\ json_from_str s = inl v.

Lemma split_first_none c s t :
  contains_char c s = false -> split_first c (s +:+ String c t) = Some (s, t).
Proof.
  induction s as [|c' s IH]; simpl; [by rewrite decide_True|]. intros [H1 H2]%orb_false_elim.
  apply bool_decide_eq_false in H1. rewrite decide_False by done. by rewrite IH.
Qed.

Lemma split_first_app c s t a b : split_first c s = Some (a, b) -> split_first c (s +:+ t) = Some (a, b +:+ t).
Proof.
  revert a. induction s as [|c' s IH]; simpl; [done|]. intros a. case_decide; [by intros [= <- <-]|].
  destruct (split_first c s) as [[a' b']|]; [|done]. intros [= <- <-]. by rewrite (IH a').
Qed.

(** An index key whose value's JSON text holds no bar reads back as it was written; when
    the text does hold one, reading takes only the part before the first bar for the value,
    and the rest goes to the document identifier. *)
Theorem index_key_roundtrip key s :
  reads_back (field_value key) s ->
  exists t, serialize_index_key key = Ok t /\
    match split_first "|" s with
    | None => deserialize_index_key t = Ok key
    | Some (a, b) => deserialize_index_key t =
        (let? v := from_str a in Ok {| field_value := v; doc_id := b +:+ "|" +:+ doc_id key |})
    end.
Proof.
  intros [Hto Hfrom]. unfold serialize_index_key, to_string. rewrite Hto. simpl. eexists. split; [done|].
  unfold deserialize_index_key. destruct (split_first "|" s) as [[a b]|] eqn:E.
  - by rewrite (split_first_app _ _ _ _ _ E).
  - change ("|" +:+ doc_id key) with (String "|" (doc_id key)).
    assert (contains_char "|" s = false) as Hs.
    { clear -E. induction s as [|c s IH]; simpl in *; [done|]. case_decide; [done|].
      rewrite bool_decide_eq_false_2 by done. by destruct (split_first "|" s) as [[]|]; [|apply IH]. }
    rewrite split_first_none by done. unfold from_str. rewrite Hfrom. simpl. by destruct key.
Qed.

Lemma split_at_join_app c ss t :
  Forall (fun s => contains_char c s = false) ss ->
  split_at c (join (String c EmptyString) (ss ++ [t])) = ss ++ split_at c t.
Proof.
  induction 1 as [|s ss Hs _ IH]; [done|]. simpl app. rewrite join_cons by (by destruct ss).
  change (String c "" +:+ ?x) with (String c x). by rewrite split_at_app, IH.
Qed.

(** A compound index key reads back as it was written when the JSON texts of its values
    hold no bar, whatever its document identifier is. *)
Lemma compound_key_roundtrip key :
  Forall (fun v => exists s, reads_back v s /\ contains_char "|" s = false) (field_values key) ->
  exists t, serialize_compound_index_key key = Ok t /\
    deserialize_compound_index_key t (length (field_values key)) = Ok key.
Proof.
  intros Hvs. unfold serialize_compound_index_key, deserialize_compound_index_key.
  assert (exists ss, to_strings (field_values key) = Ok ss /\ from_strs ss = Ok (field_values key) /\
    length ss = length (field_values key) /\ Forall (fun s => contains_char "|" s = false) ss)
    as (ss & -> & Hfrom & Hlen & Hss).
  { induction Hvs as [|v vs (s & [Hto Hfrom] & Hs) _ (ss & IH1 & IH2 & IH3 & IH4)]; [by exists []|].
    exists (s :: ss). simpl. unfold to_string, from_str. rewrite Hto, Hfrom. simpl. rewrite IH1, IH2. simpl.
    split_and!; [done..|by rewrite IH3|by constructor]. }
  simpl obind. eexists. split; [done|]. rewrite split_at_join_app by done.
  destruct (split_at_cons "|" (cdoc_id key)) as (w & ws & E).
  destruct (Nat.ltb_spec (length (ss ++ split_at "|" (cdoc_id key))) (length (field_values key) + 1)) as [Hl|_].
  { rewrite length_app, E in Hl. simpl in Hl. lia. }
  rewrite <-Hlen, take_app_length, drop_app_length, Hfrom. simpl. rewrite join_split. by destruct key.
Qed.
End text.

(** A text format for some values, for the examples. *)
Definition tiny_text : @SerdeText float_numbers :=
  let print v := match v with Null => "null" | Str s => "'" +:+ s +:+ "'" | _ => "true" end in
  {| value_to_string := print;
     json_to_string v := inl (print v);
     json_from_str s :=
       if String.eqb s "null" then inl Null else if String.eqb s "true" then inl (Bool true)
       else inr "expected value" |}.

Lemma index_key_roundtrip_witness :
  exists t, @serialize_index_key float_numbers tiny_text {| field_value := Null; doc_id := "a|b" |} = Ok t /\
    @deserialize_index_key float_numbers tiny_text t = Ok {| field_value := Null; doc_id := "a|b" |}.
Proof.
  destruct (@index_key_roundtrip float_numbers tiny_text {| field_value := Null; doc_id := "a|b" |} "null")
    as (t & H1 & H2); [done|]. exists t. split; [exact H1|exact H2].
Defined.
