(* ===== verification/QueryBuilder.v ===== *)
(** * Query builder

    [src/src/core/query_builder.rs]: filtering, sorting, paging and projection of the
    documents of a collection. What it uses of the collection is the interface
    [CollectionReads]. *)

From stdpp Require Import base list strings sorting pretty.
From Stdlib Require Import NArith ZArith Lia Ascii.
From S2P Require Import Prelude Constants Bytes Text Order Json QueryParser IndexKey.

(** The reading operations of [Collection] that clients use. *)
Class CollectionReads `{!SerdeNumber} := {
  find_all : Result (list Value);
  coll_count : Result nat }.

(** Both read the same documents. *)
Class CollectionReadsLaws `{!SerdeNumber} `{!CollectionReads} : Prop :=
  count_find_all : coll_count =
    match find_all with
    | Ok docs => Ok (length docs)
    | Err e => Err e
    | Panic => Panic
    | OutOfFuel => OutOfFuel
    end.

Inductive SortOrder : Type := Asc | Desc.

Inductive Projection : Type :=
| Include (fields : list string)
| Exclude (fields : list string).

Record QueryBuilder : Type := {
  query : option string;
  sort_fields : list (string * SortOrder);
  limit_count : option nat;
  skip_count : nat;
  projection : option Projection }.

Definition builder_new : QueryBuilder :=
  {| query := None; sort_fields := []; limit_count := None; skip_count := 0; projection := None |}.

Definition filter_by (q : string) (b : QueryBuilder) : QueryBuilder :=
  {| query := Some q; sort_fields := sort_fields b; limit_count := limit_count b;
     skip_count := skip_count b; projection := projection b |}.

Definition sort_by_field (field : string) (order : SortOrder) (b : QueryBuilder) : QueryBuilder :=
  {| query := query b; sort_fields := sort_fields b ++ [(field, order)]; limit_count := limit_count b;
     skip_count := skip_count b; projection := projection b |}.

Definition limit (n : nat) (b : QueryBuilder) : QueryBuilder :=
  {| query := query b; sort_fields := sort_fields b; limit_count := Some n;
     skip_count := skip_count b; projection := projection b |}.

Definition skip (n : nat) (b : QueryBuilder) : QueryBuilder :=
  {| query := query b; sort_fields := sort_fields b; limit_count := limit_count b;
     skip_count := n; projection := projection b |}.

Definition project (fields : list string) (b : QueryBuilder) : QueryBuilder :=
  {| query := query b; sort_fields := sort_fields b; limit_count := limit_count b;
     skip_count := skip_count b; projection := Some (Include fields) |}.

Definition exclude (fields : list string) (b : QueryBuilder) : QueryBuilder :=
  {| query := query b; sort_fields := sort_fields b; limit_count := limit_count b;
     skip_count := skip_count b; projection := Some (Exclude fields) |}.

(** [msg.contains(sub)]. *)
Definition str_contains (sub msg : string) : bool :=
  match String.index 0 sub msg with Some _ => true | None => false end.

Section builder.
Context {tables : UnicodeTables} {numbers : SerdeNumber} {text : SerdeText} {coll : CollectionReads}.

(** The loop of [get_nested_field] over the parts of a path. *)
Fixpoint nested_parts (parts : list string) (current : Value) : Value :=
  match parts with
  | [] => current
  | part :: parts =>
    match as_object current with
    | Some obj => nested_parts parts (default Null (map_get part obj))
    | None => Null
    end
  end.

Definition get_nested_field (v : Value) (field : string) : Value := nested_parts (split_at "." field) v.

(** [serde_json::to_string(v).unwrap_or_default()]. *)
Definition json_text (v : Value) : string := match json_to_string v with inl s => s | inr _ => "" end.

Definition type_order (v : Value) : nat :=
  match v with
  | Null => 0 | Bool _ => 1 | Number _ => 2 | Str _ => 3 | Array _ => 4 | Object _ => 5
  end.

Fixpoint compare_values (a b : Value) : Datatypes.comparison :=
  match a, b with
  | Null, Null => Eq
  | Null, _ => Lt
  | _, Null => Gt
  | Number x, Number y => default Eq (f64_partial_cmp (num_f64 x) (num_f64 y))
  | Str x, Str y => String.compare x y
  | Bool x, Bool y => Bool.compare x y
  | Array xs, Array ys =>
    match lex_zip compare_values xs ys with
    | Eq => Nat.compare (length xs) (length ys)
    | c => c
    end
  | Object _, Object _ => String.compare (json_text a) (json_text b)
  | _, _ => Nat.compare (type_order a) (type_order b)
  end.

(** The comparison of two documents by the sort fields. *)
Fixpoint compare_docs (fields : list (string * SortOrder)) (a b : Value) : Datatypes.comparison :=
  match fields with
  | [] => Eq
  | (field, order) :: fields =>
    let cmp := compare_values (get_nested_field a field) (get_nested_field b field) in
    match (match order with Asc => cmp | Desc => CompOpp cmp end) with
    | Eq => compare_docs fields a b
    | c => c
    end
  end.

(** The loop of [get_nested_field_from_map]. *)
Fixpoint find_parts (parts : list string) (current : Value) : option Value :=
  match parts with
  | [] => Some current
  | part :: parts =>
    match as_object current with
    | Some obj => match map_get part obj with Some v => find_parts parts v | None => None end
    | None => None
    end
  end.

Definition get_nested_field_from_map (obj : Map) (path : string) : option Value :=
  find_parts (split_at "." path) (Object obj).

Fixpoint set_nested_field_recursive (obj : Map) (parts : list string) (v : Value) : Map :=
  match parts with
  | [] => obj
  | [part] => map_insert part v obj
  | part :: parts =>
    let obj := if contains_key part obj then obj else map_insert part (Object []) obj in
    match map_get part obj with
    | Some (Object nested) => map_insert part (Object (set_nested_field_recursive nested parts v)) obj
    | _ => obj
    end
  end.

Definition set_nested_field (obj : Map) (path : string) (v : Value) : Map :=
  set_nested_field_recursive obj (split_at "." path) v.

Fixpoint remove_nested_field_recursive (obj : Map) (parts : list string) : Map :=
  match parts with
  | [] => obj
  | [part] => map_remove part obj
  | part :: parts =>
    match map_get part obj with
    | Some (Object nested) => map_insert part (Object (remove_nested_field_recursive nested parts)) obj
    | _ => obj
    end
  end.

Definition remove_nested_field (obj : Map) (path : string) : Map :=
  remove_nested_field_recursive obj (split_at "." path).

(** One field of an inclusion and of an exclusion. *)
Definition include_field (obj result : Map) (field : string) : Map :=
  if String.eqb field "_id" then result
  else if contains_char "." field then
    match get_nested_field_from_map obj field with
    | Some v => set_nested_field result field v
    | None => result
    end
  else
    match map_get field obj with
    | Some v => map_insert field v result
    | None => result
    end.

Definition exclude_field (result : Map) (field : string) : Map :=
  if contains_char "." field then remove_nested_field result field else map_remove field result.

Definition apply_projection (doc : Value) (p : Projection) : Value :=
  match doc with
  | Object obj =>
    match p with
    | Include fields =>
      let result := match map_get "_id" obj with Some id => map_insert "_id" id [] | None => [] end in
      Object (foldl (include_field obj) result fields)
    | Exclude fields => Object (foldl exclude_field obj fields)
    end
  | _ => doc
  end.

(** [find_all], with the documents of a missing collection taken to be none. *)
Definition all_docs : Result (list Value) :=
  match find_all with
  | Err (Other msg) => if str_contains "not found" msg then Ok [] else Err (Other msg)
  | r => r
  end.

Definition matches (ast : Node) (doc : Value) : bool :=
  match as_object doc with Some m => eval ast m | None => false end.

(** [parse_query(q).map_err(...)?]. *)
Definition parse_or_fail (q : string) : Result Node :=
  match parse_query q with
  | Ok ast => Ok ast
  | Err e => Err (Other ("failed to parse query: " +:+ e))
  | Panic => Panic
  | OutOfFuel => OutOfFuel
  end.

Definition filtered_docs (b : QueryBuilder) : Result (list Value) :=
  match query b with
  | Some q =>
    let? ast := parse_or_fail q in
    let? docs := all_docs in
    Ok (filter (fun doc => matches ast doc = true) docs)
  | None => all_docs
  end.

Definition execute (b : QueryBuilder) : Result (list Value) :=
  let? results := filtered_docs b in
  let? results :=
    match sort_fields b with
    | [] => Ok results
    | fields => sort_by (compare_docs fields) results
    end in
  let results := drop (skip_count b) results in
  let results := match limit_count b with Some n => take n results | None => results end in
  Ok (match projection b with Some p => map (fun doc => apply_projection doc p) results | None => results end).

Definition first (b : QueryBuilder) : Result (option Value) :=
  let? results := execute (limit 1 b) in
  Ok (head results).

Definition count (b : QueryBuilder) : Result nat :=
  let? results :=
    match query b with
    | Some q =>
      let? ast := parse_or_fail q in
      let? docs := all_docs in
      Ok (length (filter (fun doc => matches ast doc = true) docs))
    | None =>
      match coll_count with
      | Err (Other msg) => if str_contains "not found" msg then Ok 0 else Err (Other msg)
      | r => r
      end
    end in
  if (results <=? skip_count b)%nat then Ok 0
  else
    let after_skip := results - skip_count b in
    Ok (match limit_count b with Some n => Nat.min n after_skip | None => after_skip end).
End builder.

(** ** Sorting, paging and counting *)
Section execution.
Context {tables : UnicodeTables} {numbers : SerdeNumber} {text : SerdeText} {coll : CollectionReads}
  {nlaws : SerdeNumberLaws}.

Lemma compare_values_Array xs ys : compare_values (Array xs) (Array ys) = lex_list compare_values xs ys.
Proof. simpl. unfold lex_list. by destruct (lex_zip _ _ _). Qed.

Lemma sort_order_at_value v : ord_at (fun _ => True) compare_values v.
Proof.
  induction v as [|b|n|s|vs IH|m IH] using Value_nested_ind; apply (ord_at_rank type_order);
    try (intros [] []; simpl; by (lia || done)).
  - split; [done|by intros []|by intros [] []].
  - destruct (total_order_bool b I) as [R0 A0 T0].
    split; [done|by intros []; try done; intros; apply A0|intros [] []; try done; intros; by apply T0].
  - assert (forall y, (fun _ => True) y -> not_nan (num_f64 y)) as Hn by (intros; apply num_f64_not_nan).
    pose proof (ord_at_map not_nan (fun _ => True) num_f64 f64_cmp n Hn (f64_total_order _ (num_f64_not_nan n)))
      as [R0 A0 T0].
    split; [done|intros []|intros [] []]; try done; intros; [by apply A0|by apply T0].
  - destruct (total_order_str s I) as [R0 A0 T0].
    split; [done|by intros []; try done; intros; apply A0|intros [] []; try done; intros; by apply T0].
  - pose proof (ord_at_lex _ _ _ IH) as [R0 A0 T0].
    split; [by rewrite compare_values_Array|intros []|intros [] []]; try done;
      rewrite !compare_values_Array; auto using Forall_true.
  - pose proof (ord_at_map (fun _ => True) (fun _ => True) json_text String.compare (Object m)
      (fun _ _ => I) (total_order_str _ I)) as [R0 A0 T0].
    split; [done|intros []|intros [] []]; try done; intros; [by apply A0|by apply T0].
Qed.

Lemma compare_docs_order fields : total_order (fun _ => True) (compare_docs fields).
Proof.
  intros d _. induction fields as [|[field order] fields IH]; [by split|].
  apply (ord_at_ext _ (fun a b => cmp_then
    (match order with Asc => compare_values (get_nested_field a field) (get_nested_field b field)
     | Desc => CompOpp (compare_values (get_nested_field a field) (get_nested_field b field)) end)
    (compare_docs fields a b))); [done| |].
  - apply ord_at_then; [|done]. destruct order.
    + by apply (ord_at_map (fun _ => True) _ (fun d => get_nested_field d field) compare_values), sort_order_at_value.
    + apply (ord_at_map (fun _ => True) _ (fun d => get_nested_field d field)
        (fun a b => CompOpp (compare_values a b))); [done|]. apply ord_at_rev; [|done].
      intros x _. apply sort_order_at_value.
  - intros x y _ _. simpl. unfold cmp_then. by destruct order, (compare_values _ _).
Qed.

(** The page and the projection of a builder. *)
Definition page (b : QueryBuilder) (l : list Value) : list Value :=
  let l := drop (skip_count b) l in
  match limit_count b with Some n => take n l | None => l end.

Definition shown (b : QueryBuilder) (l : list Value) : list Value :=
  match projection b with Some p => map (fun doc => apply_projection doc p) (page b l) | None => page b l end.

Lemma stable_sort_nil {A} (l : list A) : stable_sort (fun _ _ => Eq) l = l.
Proof. unfold stable_sort. induction l as [|x l IH]; [done|]. simpl. rewrite IH. by destruct l. Qed.

Lemma execute_sorted b matching :
  filtered_docs b = Ok matching ->
  execute b = Ok (shown b (stable_sort (compare_docs (sort_fields b)) matching)).
Proof.
  intros Hm. unfold execute. rewrite Hm. simpl. destruct (sort_fields b) as [|f fs] eqn:Ef.
  - simpl. change (compare_docs []) with (fun _ _ : Value => Eq). by rewrite stable_sort_nil.
  - rewrite (sort_by_ok _ _ (compare_docs_order (f :: fs))) by (by apply Forall_true). done.
Qed.

Lemma length_shown b l :
  length (shown b l) = if (length l <=? skip_count b)%nat then 0
    else match limit_count b with Some n => Nat.min n (length l - skip_count b) | None => length l - skip_count b end.
Proof.
  assert (length (shown b l) = length (page b l)) as ->.
  { unfold shown. destruct (projection b); [apply length_map|done]. }
  unfold page. destruct (Nat.leb_spec (length l) (skip_count b)), (limit_count b);
    rewrite ?length_take, length_drop; lia.
Qed.

(** [count] gives the number of documents that [execute] returns, or its error, although
    it neither sorts nor builds the result. *)
Theorem count_is_length `{!CollectionReadsLaws} b :
  count b = (let? docs := execute b in Ok (length docs)).
Proof.
  assert (count b = (let? matching := filtered_docs b in Ok (length (shown b matching)))) as ->.
  { unfold count, filtered_docs, all_docs. destruct (query b) as [q|].
    - destruct (parse_or_fail q); try done. simpl. destruct find_all as [docs|[]| |]; try done; cbn [obind];
        [|destruct (str_contains "not found" msg); [cbn [obind]|done]];
        rewrite length_shown; by destruct (_ <=? _)%nat.
    - rewrite count_find_all. destruct find_all as [docs|[]| |]; try done; cbn [obind];
        [|destruct (str_contains "not found" msg); [cbn [obind]|done]];
        rewrite length_shown; by destruct (_ <=? _)%nat. }
  destruct (filtered_docs b) as [matching|e| |] eqn:Hm; [|unfold execute; by rewrite Hm..].
  rewrite (execute_sorted b matching Hm). simpl. f_equal. rewrite !length_shown.
  by rewrite (Permutation_length (stable_sort_Permutation (compare_docs (sort_fields b)) matching)).
Qed.
End execution.

(** ** Paths *)
Section paths.
Context {numbers : SerdeNumber}.
Implicit Types (p q : list string) (m : Map) (v : Value).

(** Neither path is a prefix of the other. *)
Definition apart p q : Prop := ~ p `prefix_of` q /\ ~ q `prefix_of` p.

Lemma apart_cons x p y q : apart (x :: p) (y :: q) <-> x <> y \/ apart p q.
Proof.
  unfold apart. destruct (decide (x = y)) as [->|Hne].
  - split.
    + intros [H1 H2]. right. split; [intros ?; apply H1|intros ?; apply H2]; by apply prefix_cons.
    + intros [?|[H1 H2]]; [done|]. split; intros H; apply prefix_cons_inv_2 in H; tauto.
  - split; [by left|]. intros _. split; intros H; apply prefix_cons_inv_1 in H; congruence.
Qed.

Lemma apart_nil p : ~ apart p [].
Proof. intros [_ H]. apply H, prefix_nil. Qed.

Lemma value_wf_insert k v m :
  value_wf (Object m) -> value_wf v -> rust_string k -> value_wf (Object (map_insert k v m)).
Proof.
  rewrite !value_wf_Object. intros [Hm Hf] Hv Hk. split; [by apply map_insert_wf|].
  clear Hm. induction m as [|[k' v'] m IH]; simpl; [by repeat constructor|].
  apply Forall_cons in Hf as [Hkv Hf]. destruct (String.compare k k'); repeat constructor; try done; naive_solver.
Qed.

Lemma map_get_key k m v : value_wf (Object m) -> map_get k m = Some v -> rust_string k.
Proof.
  intros [_ Hm]%value_wf_Object Hg%map_get_Some. rewrite Forall_forall in Hm. by destruct (Hm _ Hg).
Qed.

Lemma value_wf_remove k m : value_wf (Object m) -> value_wf (Object (map_remove k m)).
Proof.
  rewrite !value_wf_Object. intros [Hm Hf]. split; [by apply map_remove_wf|].
  clear Hm. induction m as [|[k' v'] m IH]; simpl; [done|].
  apply Forall_cons in Hf as [Hkv Hf]. case_decide; [done|]. constructor; [done|by apply IH].
Qed.

Lemma remove_cons_cons m x y p :
  remove_nested_field_recursive m (x :: y :: p) =
    match map_get x m with
    | Some (Object n) => map_insert x (Object (remove_nested_field_recursive n (y :: p))) m
    | _ => m
    end.
Proof. done. Qed.

Lemma remove_wf p m : value_wf (Object m) -> value_wf (Object (remove_nested_field_recursive m p)).
Proof.
  revert m. induction p as [|x [|y p] IH]; intros m Hm; [done|by apply value_wf_remove|].
  rewrite remove_cons_cons. destruct (map_get x m) as [[| | | | |n]|] eqn:E; try done.
  apply value_wf_insert; [done| |by eapply map_get_key]. by apply IH; eapply value_wf_get.
Qed.

Lemma find_remove p m :
  p <> [] -> value_wf (Object m) -> find_parts p (Object (remove_nested_field_recursive m p)) = None.
Proof.
  revert m. induction p as [|x [|y p] IH]; intros m Hp Hm; [done| |].
  - simpl. apply value_wf_Object in Hm as [Hm _]. by rewrite map_get_remove, decide_True.
  - rewrite remove_cons_cons. cbn [find_parts as_object].
    destruct (map_get x m) as [[| | | | |n]|] eqn:E; try (rewrite E; done).
    rewrite map_get_insert, decide_True by done. apply (IH n); [done|by eapply value_wf_get].
Qed.

Lemma find_remove_apart p q m :
  apart p q -> value_wf (Object m) ->
  find_parts q (Object (remove_nested_field_recursive m p)) = find_parts q (Object m).
Proof.
  revert q m. induction p as [|x [|y p] IH]; intros q m Ha Hm.
  - by destruct Ha as [[] _]; apply prefix_nil.
  - destruct q as [|z q]; [by apply apart_nil in Ha|]. apply apart_cons in Ha as [Hne|[[] _]]; [|apply prefix_nil].
    simpl. apply value_wf_Object in Hm as [Hm _]. by rewrite map_get_remove, decide_False.
  - destruct q as [|z q]; [by apply apart_nil in Ha|]. rewrite remove_cons_cons. cbn [find_parts as_object].
    destruct (map_get x m) as [[| | | | |n]|] eqn:E; try done. rewrite map_get_insert.
    case_decide as Hz; [|done]. subst z. rewrite E. apply apart_cons in Ha as [?|Ha]; [done|].
    apply IH; [done|by eapply value_wf_get].
Qed.

Lemma find_remove_None p q m :
  value_wf (Object m) -> find_parts q (Object m) = None ->
  find_parts q (Object (remove_nested_field_recursive m p)) = None.
Proof.
  revert q m. induction p as [|x [|y p] IH]; intros q m Hm Hq; [done| |]; (destruct q as [|z q]; [done|]).
  - simpl in *. apply value_wf_Object in Hm as [Hm _]. rewrite map_get_remove by done. by case_decide.
  - rewrite remove_cons_cons. destruct (map_get x m) as [[| | | | |n]|] eqn:E; try done.
    cbn [find_parts as_object] in *. rewrite map_get_insert. case_decide as Hz; [|done]. subst z.
    rewrite E in Hq. apply IH; [by eapply value_wf_get|done].
Qed.

Lemma exclude_field_path m f : exclude_field m f = remove_nested_field_recursive m (split_at "." f).
Proof.
  unfold exclude_field, remove_nested_field. destruct (contains_char "." f) eqn:E; [done|].
  by rewrite split_at_none.
Qed.

(** An exclusion removes exactly the fields that it names: in the projected document the
    path of an excluded field leads nowhere, and a path that neither is nor is part of nor goes
    through an excluded one leads to the same value as before. *)
Theorem exclusion_removes (m : Map) (fields : list string) :
  value_wf (Object m) ->
  exists m', apply_projection (Object m) (Exclude fields) = Object m' /\
    (forall f, f ∈ fields -> get_nested_field_from_map m' f = None) /\
    (forall g, Forall (fun f => apart (split_at "." f) (split_at "." g)) fields ->
      get_nested_field_from_map m' g = get_nested_field_from_map m g).
Proof.
  intros Hm. exists (foldl exclude_field m fields). split; [done|]. unfold get_nested_field_from_map.
  assert (forall fs m, value_wf (Object m) -> value_wf (Object (foldl exclude_field m fs)) /\
    (forall g, find_parts g (Object m) = None -> find_parts g (Object (foldl exclude_field m fs)) = None) /\
    (forall g, Forall (fun f => apart (split_at "." f) g) fs ->
      find_parts g (Object (foldl exclude_field m fs)) = find_parts g (Object m))) as Hfold.
  { clear. intros fs. induction fs as [|f fs IH]; intros m Hm; [done|]. simpl. rewrite exclude_field_path.
    destruct (IH _ (remove_wf (split_at "." f) m Hm)) as (H1 & H2 & H3). split; [done|split].
    - intros g Hg. by apply H2, find_remove_None.
    - intros g [Ha Hf]%Forall_cons. rewrite H3 by done. by apply find_remove_apart. }
  split.
  - intros f Hf. apply list_elem_of_split in Hf as (fs1 & fs2 & ->). rewrite foldl_app. simpl.
    destruct (Hfold fs1 m Hm) as [Hm1 _]. rewrite exclude_field_path.
    apply Hfold; [by apply remove_wf|]. apply find_remove; [|done].
    by destruct (split_at_cons "." f) as (w & ws & ->).
  - intros g Hg. by apply Hfold.
Qed.

Lemma find_app p q v : find_parts (p ++ q) v = find_parts p v ≫= find_parts q.
Proof.
  revert v. induction p as [|x p IH]; intros v; [done|]. simpl.
  destruct (as_object v) as [m|]; [|done]. by destruct (map_get x m).
Qed.

(** Every path of [r] is one of [o], to the same value or, in both, to an object. *)
Definition part_of (r o : Value) : Prop :=
  forall q w, find_parts q r = Some w ->
  exists w', find_parts q o = Some w' /\ (w = w' \/ exists n n', w = Object n /\ w' = Object n').

Lemma part_of_get x r o a :
  part_of (Object r) (Object o) -> map_get x r = Some a ->
  exists b, map_get x o = Some b /\ part_of a b.
Proof.
  intros Hp Ha. destruct (Hp [x] a) as (b & Hb & _); [simpl; by rewrite Ha|].
  simpl in Hb. destruct (map_get x o) as [b'|] eqn:E; [|done]. injection Hb as ->. exists b. split; [done|].
  intros q w Hq. destruct (Hp (x :: q) w) as (w' & Hw & Hor); [simpl; by rewrite Ha|].
  simpl in Hw. rewrite E in Hw. by exists w'.
Qed.

Lemma part_of_insert x r o a b :
  part_of (Object r) (Object o) -> map_get x o = Some b -> part_of a b ->
  part_of (Object (map_insert x a r)) (Object o).
Proof.
  intros Hp Hb Hab [|z q] w Hw.
  - injection Hw as <-. eexists. split; [done|]. right. by do 2 eexists.
  - cbn [find_parts as_object] in *. rewrite map_get_insert in Hw. case_decide as Hz.
    + subst z. rewrite Hb. by apply Hab.
    + apply (Hp (z :: q)). done.
Qed.

Lemma part_of_refl v : part_of v v.
Proof. intros q w Hw. exists w. auto. Qed.

Lemma part_of_empty o : part_of (Object []) (Object o).
Proof. intros [|x q] w Hw; [|done]. injection Hw as <-. eexists. split; [done|]. right. by do 2 eexists. Qed.

(** Objects made on the way to a path. *)
Definition ensure_object x m : Map := if contains_key x m then m else map_insert x (Object []) m.

Lemma set_cons_cons m x y p v :
  set_nested_field_recursive m (x :: y :: p) v =
    match map_get x (ensure_object x m) with
    | Some (Object n) => map_insert x (Object (set_nested_field_recursive n (y :: p) v)) (ensure_object x m)
    | _ => ensure_object x m
    end.
Proof. done. Qed.

(** Along a path of [o], a part of [o] holds an object where the path goes on. *)
Lemma ensure_object_get x y p r o v :
  part_of (Object r) (Object o) -> find_parts (x :: y :: p) (Object o) = Some v ->
  exists n o', map_get x (ensure_object x r) = Some (Object n) /\ map_get x o = Some (Object o') /\
    part_of (Object n) (Object o') /\ find_parts (y :: p) (Object o') = Some v /\
    part_of (Object (ensure_object x r)) (Object o) /\
    (map_get x r = Some (Object n) /\ ensure_object x r = r \/ map_get x r = None /\ n = []).
Proof.
  intros Hp Hf. cbn [find_parts as_object] in Hf. destruct (map_get x o) as [b|] eqn:Eo; [|done].
  destruct b as [| | | | |o']; try done. unfold ensure_object, contains_key.
  destruct (map_get x r) as [a|] eqn:Er.
  - destruct (part_of_get x r o a Hp Er) as (b & Hb & Hab). rewrite Eo in Hb. injection Hb as <-.
    destruct (Hab [] a eq_refl) as (w' & [= <-] & Hor).
    assert (exists n, a = Object n) as [n ->] by (destruct Hor as [->|(n & _ & -> & _)]; by eexists).
    exists n, o'. rewrite Er. auto 10.
  - exists [], o'. rewrite map_get_insert, decide_True by done. split_and!; [done|done|apply part_of_empty|done| |by right].
    eapply part_of_insert; [done..|apply part_of_empty].
Qed.

Lemma set_part_of p r o v :
  p <> [] -> part_of (Object r) (Object o) -> find_parts p (Object o) = Some v ->
  part_of (Object (set_nested_field_recursive r p v)) (Object o) /\
  find_parts p (Object (set_nested_field_recursive r p v)) = Some v.
Proof.
  revert r o. induction p as [|x [|y p] IH]; intros r o Hne Hp Hf; [done| |].
  - simpl in Hf. destruct (map_get x o) as [b|] eqn:E; [|done]. injection Hf as ->. simpl.
    rewrite map_get_insert, decide_True by done. split; [|done].
    eapply part_of_insert; [done..|apply part_of_refl].
  - destruct (ensure_object_get _ _ _ _ _ _ Hp Hf) as (n & o' & En & Eo & Hn & Hf' & He & _).
    rewrite set_cons_cons, En. destruct (IH n o' ltac:(done) Hn Hf') as [H1 H2]. split.
    + by eapply part_of_insert.
    + cbn [find_parts as_object]. by rewrite map_get_insert, decide_True.
Qed.

Lemma set_apart p q r o v :
  part_of (Object r) (Object o) -> find_parts p (Object o) = Some v -> apart p q ->
  find_parts q (Object (set_nested_field_recursive r p v)) = find_parts q (Object r).
Proof.
  revert q r o. induction p as [|x [|y p] IH]; intros q r o Hp Hf Ha.
  - by destruct Ha as [[] _]; apply prefix_nil.
  - destruct q as [|z q]; [by apply apart_nil in Ha|]. apply apart_cons in Ha as [Hne|[[] _]]; [|apply prefix_nil].
    simpl. by rewrite map_get_insert, decide_False.
  - destruct q as [|z q]; [by apply apart_nil in Ha|].
    destruct (ensure_object_get _ _ _ _ _ _ Hp Hf) as (n & o' & En & Eo & Hn & Hf' & He & Hr).
    rewrite set_cons_cons, En. cbn [find_parts as_object]. rewrite map_get_insert. case_decide as Hz.
    + subst z. apply apart_cons in Ha as [?|Ha]; [done|]. etrans; [by apply (IH q n o')|].
      destruct Hr as [[-> _]|[-> ->]]; [done|]. by destruct q; [apply apart_nil in Ha|].
    + destruct Hr as [[_ ->]|[Er _]]; [done|]. unfold ensure_object, contains_key. rewrite Er.
      by rewrite map_get_insert, decide_False.
Qed.

Lemma set_same p r v :
  p <> [] -> value_wf (Object r) -> find_parts p (Object r) = Some v -> set_nested_field_recursive r p v = r.
Proof.
  revert r. induction p as [|x [|y p] IH]; intros r Hne Hr Hf; [done| |].
  - simpl in *. apply value_wf_Object in Hr as [Hr _]. destruct (map_get x r) as [a|] eqn:E; [|done].
    injection Hf as ->. by apply map_insert_same.
  - cbn [find_parts as_object] in Hf. destruct (map_get x r) as [a|] eqn:E; [|done].
    destruct a as [| | | | |n]; try done. rewrite set_cons_cons. unfold ensure_object, contains_key.
    rewrite E, E, IH; [|done|by eapply value_wf_get|done].
    apply map_insert_same; [|done]. by apply value_wf_Object in Hr as [? _].
Qed.

Lemma set_wf p r v :
  value_wf (Object r) -> value_wf v -> Forall rust_string p -> value_wf (Object (set_nested_field_recursive r p v)).
Proof.
  revert r. induction p as [|x [|y p] IH]; intros r Hr Hv Hp; [done| |]; apply Forall_cons in Hp as [Hx Hp].
  - by apply value_wf_insert.
  - rewrite set_cons_cons. assert (value_wf (Object (ensure_object x r))) as He.
    { unfold ensure_object. destruct (contains_key x r); [done|]. apply value_wf_insert; [done| |done].
      apply value_wf_Object. split; constructor. }
    destruct (map_get x (ensure_object x r)) as [[| | | | |n]|] eqn:E; try done.
    apply value_wf_insert; [done| |done]. apply IH; [by eapply value_wf_get|done..].
Qed.

(** The paths of an object are made of its keys. *)
Lemma find_keys p m v : value_wf (Object m) -> find_parts p (Object m) = Some v -> Forall rust_string p /\ value_wf v.
Proof.
  intros Hm. change (value_wf (Object m)) with (value_wf (Object m)) in Hm. revert Hm. generalize (Object m). clear m.
  induction p as [|x p IH]; intros w Hw Hf; [injection Hf as <-; by split; [constructor|]|].
  simpl in Hf. destruct w as [| | | | |m]; try done. simpl in Hf. destruct (map_get x m) as [a|] eqn:E; [|done].
  destruct (IH a) as [H1 H2]; [by eapply value_wf_get|done|]. split; [|done].
  constructor; [by eapply map_get_key|done].
Qed.

Definition include_path (o r : Map) p : Map :=
  match find_parts p (Object o) with Some v => set_nested_field_recursive r p v | None => r end.

Lemma include_field_path o r f :
  f <> "_id" -> include_field o r f = include_path o r (split_at "." f).
Proof.
  intros Hf. unfold include_field, include_path, get_nested_field_from_map, set_nested_field.
  apply String.eqb_neq in Hf as ->. destruct (contains_char "." f) eqn:E; [done|].
  rewrite split_at_none by done. simpl. by destruct (map_get f o).
Qed.

(** What has been included so far, after the paths [ps]. *)
Record included (o r : Map) (ps : list (list string)) : Prop := {
  inc_wf : value_wf (Object r);
  inc_part : part_of (Object r) (Object o);
  inc_same p : p ∈ ps -> find_parts p (Object r) = find_parts p (Object o);
  inc_apart q : q <> [] -> Forall (fun p => apart p q) ps -> find_parts q (Object r) = None }.

Lemma included_nil o : included o [] [].
Proof.
  split.
  - apply value_wf_Object. split; constructor.
  - apply part_of_empty.
  - by intros p ?%elem_of_nil.
  - by intros [].
Qed.

Lemma part_of_None r o p : part_of r o -> find_parts p o = None -> find_parts p r = None.
Proof. intros Hp Hn. destruct (find_parts p r) eqn:E; [|done]. destruct (Hp _ _ E) as (? & ? & _). congruence. Qed.

Lemma included_step o r ps p :
  value_wf (Object o) -> p <> [] -> included o r ps -> included o (include_path o r p) (ps ++ [p]).
Proof.
  intros Ho Hne [Hwf Hpart Hsame Hapart]. unfold include_path.
  destruct (find_parts p (Object o)) as [v|] eqn:Ep.
  - destruct (find_keys p o v Ho Ep) as [Hk Hv]. destruct (set_part_of p r o v Hne Hpart Ep) as [H1 H2].
    split; [by apply set_wf|done| |].
    + intros d [Hd|Hd%list_elem_of_singleton]%elem_of_app; [|subst d; by rewrite H2, Ep].
      destruct (decide (d `prefix_of` p)) as [[k ->]|Hdp].
      * rewrite set_same; [by apply Hsame|done..|]. rewrite find_app, Hsame, <-find_app by done. done.
      * destruct (decide (p `prefix_of` d)) as [[k ->]|Hpd].
        -- by rewrite !find_app, H2, Ep.
        -- rewrite (set_apart p d r o v Hpart Ep) by done. by apply Hsame.
    + intros q Hq [Hps [Ha _]%Forall_cons]%Forall_app. rewrite (set_apart p q r o v Hpart Ep Ha). by apply Hapart.
  - split; [done|done| |].
    + intros d [Hd|Hd%list_elem_of_singleton]%elem_of_app; [by apply Hsame|].
      subst d. rewrite Ep. by eapply part_of_None.
    + intros q Hq [Hps _]%Forall_app. by apply Hapart.
Qed.

Lemma included_fields o r ps fields :
  value_wf (Object o) -> ["_id"] ∈ ps -> included o r ps ->
  exists ps', included o (foldl (include_field o) r fields) ps' /\
    (forall f, f ∈ fields -> split_at "." f ∈ ps') /\ (forall p, p ∈ ps -> p ∈ ps') /\
    (forall p, p ∈ ps' -> p ∈ ps \/ exists f, f ∈ fields /\ p = split_at "." f).
Proof.
  intros Ho. revert r ps. induction fields as [|f fields IH]; intros r ps Hid Hr; simpl.
  - exists ps. split_and!; [done| |done|auto]. by intros f ?%elem_of_nil.
  - destruct (decide (f = "_id")) as [->|Hf].
    + destruct (IH r ps Hid Hr) as (ps' & H1 & H2 & H3 & H4). exists ps'. split; [done|].
      split_and!; [|done|].
      * intros f [->|Hf]%elem_of_cons; [by apply H3|by apply H2].
      * intros p Hp. destruct (H4 p Hp) as [|(f & ? & ?)]; [by left|right]. exists f. split; [by right|done].
    + rewrite include_field_path by done.
      assert (split_at "." f <> []) as Hne by (by destruct (split_at_cons "." f) as (? & ? & ->)).
      destruct (IH _ (ps ++ [split_at "." f]) ltac:(apply elem_of_app; by left)
        (included_step o r ps _ Ho Hne Hr)) as (ps' & H1 & H2 & H3 & H4).
      exists ps'. split; [done|]. split_and!.
      * intros g [->|Hg]%elem_of_cons; [|by apply H2]. apply H3, elem_of_app. right. by left.
      * intros p Hp. apply H3, elem_of_app. by left.
      * intros p Hp. destruct (H4 p Hp) as [[|Hp'%list_elem_of_singleton]%elem_of_app|(g & ? & ?)];
          [by left|right; exists f; split; [by left|done]|right; exists g; split; [by right|done]].
Qed.

(** An inclusion keeps exactly the identifier and the fields that it names: in the
    projected document their paths lead where they led in the document, every other path leads
    to a part of what it led to, and one that has nothing to do with them leads nowhere. *)
Theorem inclusion_keeps (m : Map) (fields : list string) :
  value_wf (Object m) ->
  exists m', apply_projection (Object m) (Include fields) = Object m' /\
    (forall f, f ∈ "_id" :: fields -> get_nested_field_from_map m' f = get_nested_field_from_map m f) /\
    (forall g v, get_nested_field_from_map m' g = Some v ->
      exists v', get_nested_field_from_map m g = Some v' /\ part_of v v') /\
    (forall g, Forall (fun f => apart (split_at "." f) (split_at "." g)) ("_id" :: fields) ->
      get_nested_field_from_map m' g = None).
Proof.
  intros Hm. eexists. split; [done|]. unfold get_nested_field_from_map.
  pose proof (included_step m [] [] ["_id"] Hm ltac:(done) (included_nil m)) as Hid.
  replace (include_path m [] ["_id"]) with
    (match map_get "_id" m with Some id => map_insert "_id" id [] | None => [] end) in Hid
    by (unfold include_path; simpl; by destruct (map_get "_id" m)).
  destruct (included_fields m _ _ fields Hm ltac:(by left) Hid) as (ps & [_ Hp Hs Ha] & H1 & H2 & H3).
  split_and!.
  - intros f [->|Hf]%elem_of_cons; apply Hs; [apply H2; by left|by apply H1].
  - intros g v Hv. destruct (Hp _ _ Hv) as (v' & Hv' & _). exists v'. split; [done|].
    intros q w Hq. destruct (Hp (split_at "." g ++ q) w) as (w' & Hw' & Hor).
    { by rewrite find_app, Hv. }
    rewrite find_app, Hv' in Hw'. by exists w'.
  - intros g Hg. apply Ha; [by destruct (split_at_cons "." g) as (? & ? & ->)|].
    apply Forall_forall. intros p Hin. rewrite Forall_forall in Hg.
    destruct (H3 p Hin) as [->%list_elem_of_singleton|(f & Hf & ->)].
    + by apply (Hg "_id"); left.
    + by apply Hg; right.
Qed.

(** The three functions of the code that look up a dotted field name (for queries, for
    sorting and for indexes) agree on every document: they give the value at the end of the
    path, and null where the path leads nowhere. *)
Lemma field_lookups_agree (m : Map) (f : string) :
  get_field m f = default Null (get_nested_field_from_map m f) /\
  get_nested_field (Object m) f = get_field m f /\ extract_field_value m f = get_field m f.
Proof.
  unfold get_field, get_nested_field, extract_field_value, get_nested_field_from_map.
  assert (forall parts v, get_path parts v = default Null (find_parts parts v) /\
    nested_parts parts v = get_path parts v /\ extract_path parts v = get_path parts v) as H; [|apply H].
  assert (forall parts, get_path parts Null = Null) as Hnull by (by intros []).
  intros parts. induction parts as [|p parts IH]; intros v; [done|].
  destruct v as [| | | | |o]; simpl; try done. destruct (map_get p o) as [w|]; simpl; [apply IH|].
  rewrite Hnull. destruct (IH Null) as (_ & -> & _). by rewrite Hnull.
Qed.
End paths.

(** ** Examples *)
#[local] Existing Instance ascii_tables.
#[local] Existing Instance float_numbers.
#[local] Existing Instance float_numbers_laws.
#[local] Existing Instance tiny_text.

Definition sample_doc (id name : string) (age : Z) : Value :=
  Object [("_id", Str id); ("name", Str name); ("pet", Object [("age", Number (f64_of_Z age)); ("kind", Str "cat")])].

Definition sample_docs : list Value := [sample_doc "1" "x" 7; sample_doc "2" "y" 3; sample_doc "3" "z" 7].

Definition sample_reads : CollectionReads := {| find_all := Ok sample_docs; coll_count := Ok 3 |}.
#[local] Existing Instance sample_reads.

Lemma sample_reads_laws : CollectionReadsLaws.
Proof. done. Qed.

Definition sample_builder : QueryBuilder :=
  limit 2 (sort_by_field "pet.age" Desc (filter_by "pet.kind is 'cat'" builder_new)).

Lemma count_is_length_witness : count sample_builder = Ok 2.
Proof.
  rewrite (@count_is_length _ _ _ _ _ sample_reads_laws sample_builder). reflexivity.
Defined.

Lemma sample_map_wf : exists m, sample_doc "1" "x" 7 = Object m /\ value_wf (Object m).
Proof.
  eexists. split; [done|]. apply value_wf_Object. split; [|repeat constructor].
  unfold map_wf. simpl. repeat constructor.
Qed.

Lemma exclusion_removes_witness :
  exists m', apply_projection (sample_doc "1" "x" 7) (Exclude ["pet.age"]) = Object m' /\
    get_nested_field_from_map m' "pet.age" = None.
Proof.
  destruct sample_map_wf as (m & -> & Hm).
  destruct (exclusion_removes m ["pet.age"] Hm) as (m' & H1 & H2 & _).
  exists m'. split; [exact H1|]. apply H2. by left.
Defined.

Lemma inclusion_keeps_witness :
  exists m', apply_projection (sample_doc "1" "x" 7) (Include ["pet.age"]) = Object m' /\
    get_nested_field_from_map m' "name" = None.
Proof.
  destruct sample_map_wf as (m & -> & Hm).
  destruct (inclusion_keeps m ["pet.age"] Hm) as (m' & H1 & _ & _ & H4).
  exists m'. split; [exact H1|]. apply H4.
  repeat (constructor; [split; intros [k Hk]; vm_compute in Hk; discriminate|]). constructor.
Defined.
