(* ===== verification/QueryBuilderSpec.v ===== *)
(** * What a query returns

    The meaning of a query and of an order by fields as relations, without the functions that
    the code computes them with, and the execution of a query builder (query_builder.rs) in
    these terms. *)

From stdpp Require Import base list strings sorting.
From Stdlib Require Import NArith ZArith Lia Ascii Floats.SpecFloat.
From S2P Require Import Prelude Constants Bytes Text Order Json QueryLexer QueryParser QueryGrammar IndexKey QueryBuilder.

(** ** The documents that satisfy a query *)
Section meaning.
Context {numbers : SerdeNumber}.
Implicit Types (a b v w x : Value) (doc m : Map) (f op : string).

(** The value at the end of a path; null when the path leads nowhere. *)
Inductive value_at : list string -> Value -> Value -> Prop :=
| at_end v : value_at [] v v
| at_member part parts m v w :
    map_get part m = Some v -> value_at parts v w -> value_at (part :: parts) (Object m) w
| at_no_member part parts m : map_get part m = None -> value_at (part :: parts) (Object m) Null
| at_no_object part parts v : (forall m, v <> Object m) -> value_at (part :: parts) v Null.

Definition field_is v f w : Prop := value_at (split_at "." f) v w.

Definition equal a b : Prop :=
  match a, b with
  | Number x, Number y => f64_partial_cmp (num_f64 x) (num_f64 y) = Some Eq
  | _, _ => Value_eqb a b = true
  end.

Definition less a b : Prop :=
  match a, b with
  | Number x, Number y => f64_partial_cmp (num_f64 x) (num_f64 y) = Some Lt
  | Str s, Str t => String.compare s t = Lt
  | _, _ => False
  end.

Inductive compares : string -> Value -> Value -> Prop :=
| compares_gt x v : less v x -> compares ">" x v
| compares_ge_gt x v : less v x -> compares ">=" x v
| compares_ge_eq x v : equal x v -> compares ">=" x v
| compares_lt x v : less x v -> compares "<" x v
| compares_le_lt x v : less x v -> compares "<=" x v
| compares_le_eq x v : equal x v -> compares "<=" x v
| compares_is x v : equal x v -> compares "is" x v
| compares_is_not x v : ~ equal x v -> compares "is_not" x v.

Definition member v (xs : list Value) : Prop := exists x, x ∈ xs /\ equal x v.

Inductive holds_values : string -> list Value -> list Value -> Prop :=
| has_first v vs xs : member v xs -> holds_values "has" (v :: vs) xs
| has_some v vs xs : v ∈ vs -> member v xs -> holds_values "has_any" vs xs
| has_each vs xs : (forall v, v ∈ vs -> member v xs) -> holds_values "has_all" vs xs.

Fixpoint holds (n : Node) doc : Prop :=
  match n with
  | BinaryOp op l r => (op = "and" /\ holds l doc /\ holds r doc) \/ (op = "or" /\ (holds l doc \/ holds r doc))
  | UnaryOp op n => op = "not" /\ ~ holds n doc
  | CompareOp f op v => exists x, field_is (Object doc) f x /\ compares op x v
  | ExistsOp f true => field_is (Object doc) f Null
  | ExistsOp f false => exists x, field_is (Object doc) f x /\ x <> Null
  | HasOp f op vs => exists xs, field_is (Object doc) f (Array xs) /\ holds_values op vs xs
  end.

Lemma nested_parts_null parts : nested_parts parts Null = Null.
Proof. by destruct parts. Qed.

Lemma value_at_spec parts v w : value_at parts v w <-> w = nested_parts parts v.
Proof.
  split.
  - induction 1 as [v|part parts m v w Hg _ IH|part parts m Hg|part parts v Hv]; [done|..].
    + simpl. by rewrite Hg.
    + simpl. by rewrite Hg, nested_parts_null.
    + destruct v as [| | | | |m]; try done. by destruct (Hv m).
  - intros ->. revert v. induction parts as [|part parts IH]; intros v; [constructor|].
    destruct v as [| | | | |m]; try (by apply at_no_object; intros ?). simpl.
    destruct (map_get part m) as [v|] eqn:Hg; [by eapply at_member|]. simpl. rewrite nested_parts_null. by apply at_no_member.
Qed.

Lemma field_is_spec v f w : field_is v f w <-> w = get_nested_field v f.
Proof. apply value_at_spec. Qed.

Lemma field_is_get m f w : field_is (Object m) f w <-> w = get_field m f.
Proof. rewrite field_is_spec. by destruct (field_lookups_agree m f) as (_ & -> & _). Qed.

Lemma equal_spec a b : compare_equal a b = true <-> equal a b.
Proof.
  destruct a, b; try done. simpl. unfold f64_eqb, f64_partial_cmp, SFeqb. by destruct (SFcompare _ _) as [[]|].
Qed.
Lemma greater_spec a b : compare_greater a b = true <-> less b a.
Proof.
  destruct a, b; try done; simpl.
  - unfold f64_gtb, f64_partial_cmp, SFltb. by destruct (SFcompare _ _) as [[]|].
  - unfold String.ltb. by destruct (String.compare _ _).
Qed.

Lemma less_spec a b : compare_less a b = true <-> less a b.
Proof.
  destruct a, b; try done; simpl.
  - unfold f64_ltb, f64_partial_cmp, SFltb. by destruct (SFcompare _ _) as [[]|].
  - unfold String.ltb. by destruct (String.compare _ _).
Qed.

Lemma compares_spec op x v : eval_compare op x v = true <-> compares op x v.
Proof.
  unfold eval_compare. pose proof (equal_spec x v) as He. pose proof (greater_spec x v) as Hg. pose proof (less_spec x v) as Hl.
  split.
  - destruct (String.eqb_spec op ">") as [->|H1]; [rewrite Hg; by constructor|].
    destruct (String.eqb_spec op ">=") as [->|H2]; [intros [?%Hg|?%He]%orb_true_iff; by constructor|].
    destruct (String.eqb_spec op "<") as [->|H3]; [rewrite Hl; by constructor|].
    destruct (String.eqb_spec op "<=") as [->|H4]; [intros [?%Hl|?%He]%orb_true_iff; by constructor|].
    destruct (String.eqb_spec op "is") as [->|H5]; [rewrite He; by constructor|].
    destruct (String.eqb_spec op "is_not") as [->|H6]; [|done].
    intros Hn%negb_true_iff. constructor. intros Hx%He. congruence.
  - destruct 1; simpl; rewrite ?orb_true_iff, ?negb_true_iff, <-?not_true_iff_false; tauto.
Qed.

Lemma member_spec v xs : existsb (fun x => compare_equal x v) xs = true <-> member v xs.
Proof.
  rewrite existsb_exists. unfold member. by setoid_rewrite equal_spec; setoid_rewrite list_elem_of_In.
Qed.

Lemma holds_values_spec op vs xs : eval_has op vs (Array xs) = true <-> holds_values op vs xs.
Proof.
  unfold eval_has. cbn [as_array]. cbv zeta. split.
  - destruct (String.eqb_spec op "has") as [->|H1].
    { destruct vs as [|v vs]; [done|]. rewrite member_spec. by constructor. }
    destruct (String.eqb_spec op "has_any") as [->|H2].
    { intros (v & Hv%list_elem_of_In & Hm%member_spec)%existsb_exists. by econstructor. }
    destruct (String.eqb_spec op "has_all") as [->|H3]; [|done].
    rewrite forallb_forall. intros Hm. constructor. intros v Hv. by apply member_spec, Hm, list_elem_of_In.
  - destruct 1 as [v vs xs Hm|v vs xs Hv Hm|vs xs Hm]; cbn.
    + by apply member_spec.
    + apply existsb_exists. exists v. by rewrite member_spec, <-list_elem_of_In.
    + apply forallb_forall. intros v Hv%list_elem_of_In. by apply member_spec, Hm.
Qed.

Lemma eval_holds n doc : eval n doc = true <-> holds n doc.
Proof.
  induction n as [op l IHl r IHr|op n IH|f op v|f neg|f op vs]; cbn [eval holds].
  - destruct (String.eqb_spec op "and") as [->|H1]; [rewrite andb_true_iff; naive_solver|].
    destruct (String.eqb_spec op "or") as [->|H2]; [rewrite orb_true_iff; naive_solver|]. naive_solver.
  - destruct (String.eqb_spec op "not") as [->|H1]; [|naive_solver].
    rewrite negb_true_iff, <-IH, not_true_iff_false. naive_solver.
  - rewrite compares_spec. setoid_rewrite field_is_get. naive_solver.
  - destruct neg; [rewrite field_is_get, negb_involutive; by destruct (get_field doc f)|].
    setoid_rewrite field_is_get. destruct (get_field doc f); naive_solver.
  - setoid_rewrite field_is_get. split.
    + intros H. destruct (get_field doc f) as [| | | |xs|] eqn:E; try done. exists xs. split; [done|]. by apply holds_values_spec.
    + intros (xs & <- & H). by apply holds_values_spec.
Qed.
End meaning.

(** ** The order by fields *)
Section order.
Context {numbers : SerdeNumber} {nlaws : SerdeNumberLaws} {text : SerdeText}.
Implicit Types (a b : Value) (fields : list (string * SortOrder)).

(** Null, booleans, numbers, strings, arrays and objects come in this order. *)
Definition type_rank a : nat :=
  match a with Null => 0 | Bool _ => 1 | Number _ => 2 | Str _ => 3 | Array _ => 4 | Object _ => 5 end.

(** Two values with the same place in the order. *)
Inductive tied : Value -> Value -> Prop :=
| tied_null : tied Null Null
| tied_bool x : tied (Bool x) (Bool x)
| tied_number x y : f64_partial_cmp (num_f64 x) (num_f64 y) = Some Eq -> tied (Number x) (Number y)
| tied_string s : tied (Str s) (Str s)
| tied_nil : tied (Array []) (Array [])
| tied_cons a b xs ys : tied a b -> tied (Array xs) (Array ys) -> tied (Array (a :: xs)) (Array (b :: ys))
| tied_object m n : json_text (Object m) = json_text (Object n) -> tied (Object m) (Object n).

(** Arrays are ordered by their first elements that differ, a beginning of an array comes
    before it; objects are ordered by their text. *)
Inductive before : Value -> Value -> Prop :=
| before_type a b : type_rank a < type_rank b -> before a b
| before_bool : before (Bool false) (Bool true)
| before_number x y : f64_partial_cmp (num_f64 x) (num_f64 y) = Some Lt -> before (Number x) (Number y)
| before_string s t : String.compare s t = Lt -> before (Str s) (Str t)
| before_nil b ys : before (Array []) (Array (b :: ys))
| before_head a b xs ys : before a b -> before (Array (a :: xs)) (Array (b :: ys))
| before_tail a b xs ys : tied a b -> before (Array xs) (Array ys) -> before (Array (a :: xs)) (Array (b :: ys))
| before_object m n : String.compare (json_text (Object m)) (json_text (Object n)) = Lt -> before (Object m) (Object n).

(** The first field decides in which two documents differ. *)
Inductive doc_before : list (string * SortOrder) -> Value -> Value -> Prop :=
| doc_before_asc f fields a b v w :
    field_is a f v -> field_is b f w -> before v w -> doc_before ((f, Asc) :: fields) a b
| doc_before_desc f fields a b v w :
    field_is a f v -> field_is b f w -> before w v -> doc_before ((f, Desc) :: fields) a b
| doc_before_next f o fields a b v w :
    field_is a f v -> field_is b f w -> tied v w -> doc_before fields a b -> doc_before ((f, o) :: fields) a b.

Definition doc_tied fields a b : Prop :=
  Forall (fun f => exists v w, field_is a f.1 v /\ field_is b f.1 w /\ tied v w) fields.

Definition orders_as a b : Prop :=
  (compare_values a b = Eq <-> tied a b) /\ (compare_values a b = Lt <-> before a b).

Lemma orders_other_types a b : type_rank a <> type_rank b -> orders_as a b.
Proof.
  intros Hne. assert (compare_values a b = Nat.compare (type_rank a) (type_rank b)) as Hc by by destruct a, b.
  unfold orders_as. rewrite Hc. split.
  - rewrite Nat.compare_eq_iff. split; [done|]. by destruct 1.
  - rewrite Nat.compare_lt_iff. split; [by apply before_type|]. destruct 1; simpl in *; (done || lia).
Qed.

Lemma orders_arrays xs ys : Forall (fun a => forall b, orders_as a b) xs -> orders_as (Array xs) (Array ys).
Proof.
  intros Hxs. revert ys. unfold orders_as. setoid_rewrite compare_values_Array.
  induction Hxs as [|x xs Hx _ IH]; intros [|y ys].
  - split; (split; [try done; by constructor|]); [done|]. intros H. inversion H; subst; simpl in *; lia.
  - split; (split; [try done; by constructor|]); [|done]. intros H. inversion H.
  - split; (split; [done|]); intros H; inversion H; subst; simpl in *; lia.
  - rewrite lex_list_cons. destruct (Hx y) as [He Hl], (IH ys) as [IHe IHl]. unfold cmp_then. split; split.
    + destruct (compare_values x y); try done. intros H%IHe. constructor; [by apply He|done].
    + intros H. inversion H as [| | | | |? ? ? ? H1 H2|]; subst. apply He in H1 as ->. by apply IHe.
    + destruct (compare_values x y); try done; intros H.
      * apply before_tail; [by apply He|by apply IHl].
      * by apply before_head, Hl.
    + intros H. inversion H as [? ? Hr| | | | |? ? ? ? H1|? ? ? ? H1 H2|]; subst; [simpl in Hr; lia| |].
      * by apply Hl in H1 as ->.
      * apply He in H1 as ->. by apply IHl.
Qed.

Lemma orders_values a b : orders_as a b.
Proof.
  revert b. induction a as [|x|x|s|xs IH|m _] using Value_nested_ind; intros b;
    destruct b as [|y|y|t|ys|n]; try (by apply orders_other_types).
  - split; (split; [try done; by constructor|]); [done|]. intros H. inversion H. simpl in *. lia.
  - destruct x, y; (split; (split; [try done; by constructor|])); intros H; inversion H; subst; simpl in *; try done; lia.
  - pose proof (f64_compare_key _ _ (num_f64_not_nan x) (num_f64_not_nan y)) as Hk.
    unfold orders_as. simpl. rewrite Hk. cbn [default from_option id]. split.
    + split; [intros E; constructor; by rewrite Hk, E|]. intros H. inversion H. congruence.
    + split; [intros E; constructor; by rewrite Hk, E|]. intros H. inversion H; subst; simpl in *; [lia|congruence].
  - unfold orders_as. simpl. split.
    + rewrite str_compare_eq. split; [intros ->; constructor|]. intros H. by inversion H.
    + split; [by constructor|]. intros H. inversion H; subst; simpl in *; [lia|done].
  - by apply orders_arrays.
  - unfold orders_as. change (compare_values (Object m) (Object n)) with (String.compare (json_text (Object m)) (json_text (Object n))). split.
    + rewrite str_compare_eq. split; [by constructor|]. intros H. by inversion H.
    + split; [by constructor|]. intros H. inversion H; subst; [simpl in *; lia|done].
Qed.
Lemma orders_documents fields a b :
  (compare_docs fields a b = Eq <-> doc_tied fields a b) /\ (compare_docs fields a b = Lt <-> doc_before fields a b).
Proof.
  induction fields as [|[f o] fields [IHe IHl]]; cbn [compare_docs].
  { split; (split; [try done; by constructor|]); [done|]. intros H. inversion H. }
  pose proof (field_is_spec a f) as Ha. pose proof (field_is_spec b f) as Hb.
  set (v := get_nested_field a f) in *. set (w := get_nested_field b f) in *.
  destruct (orders_values v w) as [He Hl]. destruct (orders_values w v) as [_ Hg].
  assert (compare_values v w = Gt <-> before w v) as Hg'.
  { rewrite <-Hg, (ord_antisym _ _ _ (sort_order_at_value v) w I). by destruct (compare_values v w). }
  assert (doc_tied ((f, o) :: fields) a b <-> tied v w /\ doc_tied fields a b) as ->.
  { unfold doc_tied. rewrite Forall_cons. cbn [fst]. split; intros [H1 H2]; (split; [|done]).
    - destruct H1 as (v' & w' & ->%Ha & ->%Hb & H1). exact H1.
    - exists v, w. by rewrite Ha, Hb. }
  assert (doc_before ((f, o) :: fields) a b <->
    (match o with Asc => before v w | Desc => before w v end) \/ (tied v w /\ doc_before fields a b)) as ->.
  { split.
    - intros H. inversion H as [? ? ? ? v' w' Hv Hw H1|? ? ? ? v' w' Hv Hw H1|? ? ? ? ? v' w' Hv Hw H1 H2]; subst;
        apply Ha in Hv as ->; apply Hb in Hw as ->; auto.
    - assert (field_is a f v /\ field_is b f w) as [Hv Hw] by by rewrite Ha, Hb.
      intros [H|[H1 H2]]; [destruct o|]; by econstructor. }
  assert (forall x y, tied x y -> compare_values x y = Eq) as Ht by (intros x y; apply (proj1 (orders_values x y))).
  destruct o; destruct (compare_values v w); cbn [CompOpp]; rewrite ?IHe, ?IHl; naive_solver.
Qed.
End order.

(** ** The stable sort, with the positions of the elements *)
Section positions.
Context {A : Type} (cmp : A -> A -> Datatypes.comparison) (T : total_order (fun _ => True) cmp).
Implicit Types (x : A) (l : list A) (p q : nat * A) (ps qs : list (nat * A)).

Definition sorts p q : Prop := cmp p.2 q.2 = Lt \/ (cmp p.2 q.2 = Eq /\ p.1 < q.1).

Lemma insert_positions i x qs :
  Forall (fun q => i < q.1) qs -> StronglySorted sorts qs ->
  exists qs', insert_sorted cmp x qs.*2 = qs'.*2 /\ qs' ≡ₚ (i, x) :: qs /\ StronglySorted sorts qs'.
Proof.
  intros Hi Hs. induction Hs as [|q qs Hs IH Hq]; [exists [(i, x)]; by repeat constructor|].
  apply Forall_cons in Hi as [Hiq Hi]. rewrite fmap_cons. cbn [insert_sorted]. destruct (cmp x q.2) eqn:E.
  1,2: exists ((i, x) :: q :: qs); split_and!; [done|done|]; constructor; [by constructor|];
    constructor; [red; cbn; rewrite E; auto|]; rewrite Forall_forall in *; intros q' Hq';
    destruct (ord_trans _ _ _ (T x I) q.2 q'.2 I I) as [Hle _];
      [congruence|by destruct (Hq _ Hq') as [->|[-> _]]|]; unfold sorts; cbn;
    (destruct (cmp x q'.2); [right; auto|by left|done]).
  destruct (IH Hi) as (qs' & H1 & H2 & H3). exists (q :: qs'). split_and!.
  - by rewrite fmap_cons, H1.
  - rewrite H2. constructor.
  - constructor; [done|]. rewrite H2. constructor; [|done]. left. cbn. by rewrite (ord_antisym _ _ _ (T x I) q.2 I), E.
Qed.

Lemma stable_sort_positions ps :
  StronglySorted (fun p q => p.1 < q.1) ps ->
  exists qs, stable_sort cmp ps.*2 = qs.*2 /\ qs ≡ₚ ps /\ StronglySorted sorts qs.
Proof.
  induction 1 as [|[i x] ps Hs (qs & H1 & H2 & H3) Hp]; [exists []; by repeat constructor|].
  destruct (insert_positions i x qs) as (qs' & I1 & I2 & I3); [by rewrite H2|done|].
  exists qs'. rewrite fmap_cons. cbn [stable_sort foldr snd]. unfold stable_sort in H1. rewrite H1.
  split_and!; [done|by rewrite I2, H2|done].
Qed.

Fixpoint numbered (n : nat) l : list (nat * A) :=
  match l with [] => [] | x :: l => (n, x) :: numbered (S n) l end.

Lemma numbered_elem n l i x : (i, x) ∈ numbered n l <-> n <= i /\ l !! (i - n) = Some x.
Proof.
  revert n. induction l as [|y l IH]; intros n; cbn [numbered].
  { rewrite lookup_nil. split; [by intros ?%elem_of_nil|by intros [_ ?]]. }
  rewrite elem_of_cons, IH. destruct (decide (i = n)) as [->|Hne].
  - rewrite Nat.sub_diag. cbn. split; [intros [[= ->]|[? _]]; [done|lia]|]. intros [_ [= ->]]. by left.
  - destruct (decide (n < i)) as [Hlt|Hge]; [|split; [intros [[= -> ->]|[? _]]; lia|lia]].
    replace (i - n) with (S (i - S n)) by lia. cbn. split; [intros [[= -> ->]|[? ?]]; [done|split; [lia|done]]|]. intros [_ ?]. right. split; [lia|done].
Qed.

Lemma numbered_sorted n l : StronglySorted (fun p q => p.1 < q.1) (numbered n l).
Proof.
  revert n. induction l as [|x l IH]; intros n; cbn; constructor; [done|].
  apply Forall_forall. intros [i y] [Hi _]%numbered_elem. cbn. lia.
Qed.

Lemma numbered_filter (P : A -> Prop) `{!forall x, Decision (P x)} n l :
  filter P l = (filter (fun p => P p.2) (numbered n l)).*2.
Proof.
  revert n. induction l as [|x l IH]; intros n; [done|]. cbn [numbered]. rewrite !filter_cons. cbn [snd].
  case_decide; cbn; by rewrite <-IH.
Qed.

Lemma filter_strongly_sorted {B} (R : B -> B -> Prop) (P : B -> Prop) `{!forall y : B, Decision (P y)} (l : list B) :
  StronglySorted R l -> StronglySorted R (filter P l).
Proof.
  induction 1 as [|z l Hs IH Hz]; [constructor|]. rewrite filter_cons. case_decide; [|done].
  constructor; [done|]. rewrite Forall_forall in *. intros y [_ Hy]%list_elem_of_filter. auto.
Qed.
End positions.

(** ** Execution *)
Section execution.
Context {tables : UnicodeTables} {numbers : SerdeNumber} {nlaws : SerdeNumberLaws} {text : SerdeText} {coll : CollectionReads}.
Implicit Types (b : QueryBuilder) (docs : list Value).

(** The documents that the query of [b] asks for. *)
Definition selects b (doc : Value) : Prop :=
  match query b with
  | Some q => exists ast m, parse_query q = Ok ast /\ doc = Object m /\ holds ast m
  | None => True
  end.

(** The order of the result: by the fields, then by the positions in the collection. *)
Definition precedes fields (p q : nat * Value) : Prop :=
  doc_before fields p.2 q.2 \/ (doc_tied fields p.2 q.2 /\ p.1 < q.1).

Definition within_limit b (i : nat) : bool := match limit_count b with Some n => i <? n | None => true end.

Definition shown_doc b (doc : Value) : Value := match projection b with Some p => apply_projection doc p | None => doc end.

Definition missing (e : Error) : Prop := exists msg, e = Other msg /\ str_contains "not found" msg = true.

Lemma shown_position b l i :
  shown b l !! i = if within_limit b i then shown_doc b <$> l !! (skip_count b + i) else None.
Proof.
  assert (page b l !! i = if within_limit b i then l !! (skip_count b + i) else None) as Hp.
  { unfold page, within_limit. destruct (limit_count b) as [n|]; [|apply lookup_drop].
    destruct (Nat.ltb_spec i n); [by rewrite lookup_take_lt, lookup_drop|by apply lookup_take_ge]. }
  unfold shown, shown_doc. destruct (projection b) as [p|].
  - change (map (fun doc => apply_projection doc p) (page b l)) with ((fun doc => apply_projection doc p) <$> page b l).
    rewrite list_lookup_fmap, Hp. by destruct (within_limit b i).
  - rewrite Hp. destruct (within_limit b i); [|done]. by destruct (l !! _).
Qed.

Lemma all_docs_missing e : missing e -> find_all = Err e -> all_docs = Ok [].
Proof. intros (msg & -> & Hm) Hf. unfold all_docs. by rewrite Hf, Hm. Qed.

Lemma all_docs_error e : ~ missing e -> find_all = Err e -> all_docs = Err e.
Proof.
  intros Hm Hf. unfold all_docs. rewrite Hf. destruct e; try done. destruct (str_contains "not found" msg) eqn:E; [|done].
  destruct Hm. by eexists.
Qed.

(** The filtered documents, with their positions. *)
Lemma filtered_positions b docs :
  all_docs = Ok docs -> (forall q, query b = Some q -> exists ast, parse_query q = Ok ast) ->
  exists ps, filtered_docs b = Ok ps.*2 /\ StronglySorted (fun p q => p.1 < q.1) ps /\
    forall i doc, (i, doc) ∈ ps <-> docs !! i = Some doc /\ selects b doc.
Proof.
  intros Hall Hparse. unfold filtered_docs, selects. destruct (query b) as [q|].
  - destruct (Hparse q eq_refl) as [ast Hast]. unfold parse_or_fail. rewrite Hast. cbn [obind]. rewrite Hall. cbn [obind].
    exists (filter (fun p => matches ast p.2 = true) (numbered 0 docs)). split_and!.
    + by rewrite (numbered_filter (fun doc => matches ast doc = true) 0).
    + apply filter_strongly_sorted, numbered_sorted.
    + intros i doc. rewrite list_elem_of_filter, numbered_elem, Nat.sub_0_r. cbn [snd]. unfold matches.
      destruct doc as [| | | | |m]; cbn [as_object]; [naive_solver..|]. rewrite eval_holds. split.
      * intros (H1 & _ & H2). split; [done|]. by exists ast, m.
      * intros (H1 & ast' & m' & [= <-] & [= <-] & H2). split_and!; [done|lia|done].
  - exists (numbered 0 docs). split_and!; [|apply numbered_sorted|].
    + rewrite Hall. f_equal. clear Hall. generalize 0. induction docs as [|x l IH]; intros n; [done|]. cbn [numbered]. by rewrite fmap_cons, <-(IH (S n)).
    + intros i doc. rewrite numbered_elem, Nat.sub_0_r. split; [tauto|]. intros [H _]. split; [lia|done].
Qed.

Lemma sorts_precedes fields p q : sorts (compare_docs fields) p q <-> precedes fields p q.
Proof. unfold sorts, precedes. destruct (orders_documents fields p.2 q.2) as [-> ->]. done. Qed.

Lemma execute_positions b docs :
  all_docs = Ok docs -> (forall q, query b = Some q -> exists ast, parse_query q = Ok ast) ->
  exists sorted, execute b = Ok (shown b sorted.*2) /\ StronglySorted (precedes (sort_fields b)) sorted /\
    forall i doc, (i, doc) ∈ sorted <-> docs !! i = Some doc /\ selects b doc.
Proof.
  intros Hall Hparse. destruct (filtered_positions b docs Hall Hparse) as (ps & Hf & Hps & Hin).
  destruct (stable_sort_positions _ (compare_docs_order (sort_fields b)) ps Hps) as (qs & H1 & H2 & H3).
  exists qs. split_and!.
  - by rewrite (execute_sorted b _ Hf), H1.
  - clear -H3 nlaws. induction H3 as [|q qs _ IH Hq]; constructor; [done|]. eapply Forall_impl; [exact Hq|]. intros p. apply sorts_precedes.
  - intros i doc. by rewrite H2.
Qed.

Lemma execute_bad_query b q e :
  query b = Some q -> parse_query q = Err e -> execute b = Err (Other ("failed to parse query: " +:+ e)).
Proof. intros Hq He. unfold execute, filtered_docs, parse_or_fail. by rewrite Hq, He. Qed.

Lemma execute_error b e :
  (forall q, query b = Some q -> exists ast, parse_query q = Ok ast) -> find_all = Err e -> ~ missing e -> execute b = Err e.
Proof.
  intros Hparse Hf Hm. unfold execute, filtered_docs, parse_or_fail. destruct (query b) as [q|] eqn:Hq.
  - destruct (Hparse q eq_refl) as [ast ->]. cbn [obind]. by rewrite (all_docs_error e).
  - by rewrite (all_docs_error e).
Qed.

Lemma all_docs_found docs :
  find_all = Ok docs \/ (docs = [] /\ exists e, find_all = Err e /\ missing e) -> all_docs = Ok docs.
Proof. intros [Hf|(-> & e & Hf & Hm)]; [unfold all_docs; by rewrite Hf|by apply (all_docs_missing e)]. Qed.

Lemma execute_returns b : find_all <> Panic -> find_all <> OutOfFuel -> execute b <> Panic /\ execute b <> OutOfFuel.
Proof.
  intros Hp Ho.
  assert ((exists q msg, query b = Some q /\ parse_query q = Err msg) \/
    (forall q, query b = Some q -> exists ast, parse_query q = Ok ast)) as [(q & msg & Hq & Hm)|Hparse].
  { destruct (query b) as [q|]; [|by right]. destruct (parse_query_cases q) as [[msg Hm]|(ast & _ & _ & _ & Hast & _)].
    - left. by exists q, msg.
    - right. intros ? [= <-]. by exists ast. }
  - by rewrite (execute_bad_query b q msg).
  - assert ((exists docs, all_docs = Ok docs) \/ exists e, find_all = Err e /\ ~ missing e) as [[docs Hd]|(e & He & Hm)].
    { destruct find_all as [docs|e| |] eqn:Hf; try done.
      - left. exists docs. apply all_docs_found. by left.
      - destruct e; try (right; eexists; split; [done|]; intros (? & ? & _); done).
        destruct (str_contains "not found" msg) eqn:E; [left; exists []; apply (all_docs_missing _ ltac:(by eexists) Hf)|].
        right. eexists. split; [done|]. intros (? & [= ->] & ?). congruence. }
    + destruct (execute_positions b docs Hd Hparse) as (sorted & -> & _). done.
    + by rewrite (execute_error b e).
Qed.

(** C33: Running a query. A query that does not parse is refused with its error, and an error of
    the collection is returned, except that a collection that does not exist has no documents.
    Otherwise the result is a page of the documents of the collection that satisfy the query,
    each once, in the order of the sort fields, ascending or descending, and in the order of
    the collection where these do not decide: it skips what was asked for, ends at the limit
    and shows the projection of every document. It never panics. *)
Theorem execute_spec b :
  (forall q e, query b = Some q -> parse_query q = Err e -> execute b = Err (Other ("failed to parse query: " +:+ e))) /\
  (find_all <> Panic -> find_all <> OutOfFuel -> execute b <> Panic /\ execute b <> OutOfFuel) /\
  ((forall q, query b = Some q -> exists ast, parse_query q = Ok ast) ->
    (forall e, find_all = Err e -> ~ missing e -> execute b = Err e) /\
    forall docs, find_all = Ok docs \/ (docs = [] /\ exists e, find_all = Err e /\ missing e) ->
      exists sorted results, execute b = Ok results /\
        (forall i doc, (i, doc) ∈ sorted <-> docs !! i = Some doc /\ selects b doc) /\
        StronglySorted (precedes (sort_fields b)) sorted /\
        forall i, results !! i = if within_limit b i then shown_doc b <$> sorted.*2 !! (skip_count b + i) else None).
Proof.
  split_and!; [apply execute_bad_query|apply execute_returns|]. intros Hparse. split; [by intros; apply execute_error|].
  intros docs Hd. destruct (execute_positions b docs (all_docs_found _ Hd) Hparse) as (sorted & H1 & H2 & H3).
  exists sorted, (shown b sorted.*2). split_and!; [done..|]. intros i. apply shown_position.
Qed.
End execution.

(** ** An example *)
#[local] Existing Instance ascii_tables.
#[local] Existing Instance float_numbers.
#[local] Existing Instance float_numbers_laws.
#[local] Existing Instance tiny_text.
#[local] Existing Instance sample_reads.

Lemma execute_spec_witness : exists sorted results, execute sample_builder = Ok results /\ length results = 2 /\
  (forall i doc, (i, doc) ∈ sorted <-> sample_docs !! i = Some doc /\ selects sample_builder doc) /\
  StronglySorted (precedes (sort_fields sample_builder)) sorted.
Proof.
  destruct (execute_spec sample_builder) as (_ & _ & H).
  destruct H as [_ H]; [intros q [= <-]; eexists; vm_compute; reflexivity|].
  destruct (H sample_docs) as (sorted & results & H1 & H2 & H3 & _); [left; reflexivity|].
  exists sorted, results. split; [exact H1|]. split; [|split; [exact H2|exact H3]].
  assert ((let? r := execute sample_builder in Ok (length r)) = Ok 2) as H4 by (vm_compute; reflexivity).
  rewrite H1 in H4. simpl in H4. congruence.
Defined.
