(* ===== verification/Aggregation.v ===== *)
(** * Aggregation pipelines

    [src/src/core/aggregation.rs]: the stages of a pipeline, their builder and their execution.
    The order in which a HashMap is iterated over is the parameter [HashOrder]. *)

From stdpp Require Import base list strings sorting pretty.
From Stdlib Require Import NArith ZArith Lia Ascii.
From S2P Require Import Prelude Constants Bytes Text Order Json QueryParser IndexKey QueryBuilder.

Inductive AccumulatorOp : Type :=
| Count
| Sum (field : string)
| Avg (field : string)
| Min (field : string)
| Max (field : string).

Record Accumulator : Type := mk_accumulator { output_field : string; op : AccumulatorOp }.

Inductive Stage : Type :=
| Match (query : string)
| GroupBy (field : string) (accumulators : list Accumulator)
| Sort (field : string) (ascending : bool)
| Limit (n : nat)
| Skip (n : nat)
| Project (fields : list string) (exclude : bool).

(** ** The builder: a pipeline is the list of its stages *)
Definition match_ (query : string) (stages : list Stage) : list Stage := vec_push stages (Match query).
Definition group_by (field : string) (stages : list Stage) : list Stage := vec_push stages (GroupBy field []).

(** An accumulator goes to the last stage, when that groups. *)
Definition push_accumulator (a : Accumulator) (stages : list Stage) : list Stage :=
  match vec_pop stages with
  | Some (GroupBy field accumulators, init) => vec_push init (GroupBy field (vec_push accumulators a))
  | _ => stages
  end.

Definition agg_count (output : string) : list Stage -> list Stage := push_accumulator (mk_accumulator output Count).
Definition agg_sum (field output : string) : list Stage -> list Stage := push_accumulator (mk_accumulator output (Sum field)).
Definition agg_avg (field output : string) : list Stage -> list Stage := push_accumulator (mk_accumulator output (Avg field)).
Definition agg_min (field output : string) : list Stage -> list Stage := push_accumulator (mk_accumulator output (Min field)).
Definition agg_max (field output : string) : list Stage -> list Stage := push_accumulator (mk_accumulator output (Max field)).
Definition sort (field : string) (ascending : bool) (stages : list Stage) : list Stage := vec_push stages (Sort field ascending).
Definition agg_limit (n : nat) (stages : list Stage) : list Stage := vec_push stages (Limit n).
Definition agg_skip (n : nat) (stages : list Stage) : list Stage := vec_push stages (Skip n).
Definition agg_project (fields : list string) (stages : list Stage) : list Stage := vec_push stages (Project fields false).
Definition agg_exclude (fields : list string) (stages : list Stage) : list Stage := vec_push stages (Project fields true).

(** The iteration order of a HashMap: some order of its entries. *)
Class HashOrder (A : Type) := {
  hash_iter : list (string * A) -> list (string * A);
  hash_iter_perm l : hash_iter l ≡ₚ l }.

Section stages.
Context {tables : UnicodeTables} {numbers : SerdeNumber} {text : SerdeText} {coll : CollectionReads}
  {hashing : HashOrder (list Value)}.

Definition execute_match (query : string) (documents : list Value) : Result (list Value) :=
  let? ast := parse_or_fail query in
  Ok (filter (fun doc => matches ast doc = true) documents).

(** The group of a document, as text. *)
Definition group_key (field : string) (doc : Value) : string :=
  match value_get field doc with
  | Some (Str s) => s
  | Some (Number n) => number_to_string n
  | Some (Bool b) => if b then "true" else "false"
  | Some Null => "null"
  | None => "null"
  | Some other => value_to_string other
  end.

(** [groups.entry(key).or_insert_with(Vec::new).push(doc)]; new keys go to the end. *)
Fixpoint push_group (key : string) (doc : Value) (groups : list (string * list Value)) : list (string * list Value) :=
  match groups with
  | [] => [(key, [doc])]
  | (k, docs) :: groups =>
    if decide (key = k) then (k, vec_push docs doc) :: groups else (k, docs) :: push_group key doc groups
  end.

(** [docs.iter().filter_map(|doc| doc.get(field)).filter_map(|v| v.as_f64())]. *)
Definition field_numbers (field : string) (docs : list Value) : list f64 :=
  omap (fun doc => value_get field doc ≫= value_as_f64) docs.

(** [iter.sum::<f64>()]; a sum of nothing is zero. *)
Definition f64_sum (xs : list f64) : f64 := foldl f64_add f64_zero xs.

(** [iter.min_by(..)] gives the first of equal minima, [iter.max_by(..)] the last of equal
    maxima; values that do not compare count as equal. *)
Definition f64_min (xs : list f64) : option f64 :=
  match xs with
  | [] => None
  | x :: xs => Some (foldl (fun a b => match f64_cmp a b with Gt => b | _ => a end) x xs)
  end.
Definition f64_max (xs : list f64) : option f64 :=
  match xs with
  | [] => None
  | x :: xs => Some (foldl (fun a b => match f64_cmp a b with Gt => a | _ => b end) x xs)
  end.

Definition accumulate (o : AccumulatorOp) (docs : list Value) : Value :=
  match o with
  | Count => Number (from_usize (length docs))
  | Sum field => json_f64 (f64_sum (field_numbers field docs))
  | Avg field =>
    let values := field_numbers field docs in
    if bool_decide (values = []) then Null
    else json_f64 (f64_div (f64_sum values) (f64_of_Z (Z.of_nat (length values))))
  | Min field => match f64_min (field_numbers field docs) with Some v => json_f64 v | None => Null end
  | Max field => match f64_max (field_numbers field docs) with Some v => json_f64 v | None => Null end
  end.

(** The document of one group. *)
Definition group_result (accumulators : list Accumulator) (group : string * list Value) : Value :=
  Object (foldl (fun m a => map_insert (output_field a) (accumulate (op a) group.2) m)
    [("_id", Str group.1)] accumulators).

Definition execute_group_by (field : string) (accumulators : list Accumulator) (documents : list Value) :
    Result (list Value) :=
  let groups := foldl (fun groups doc => push_group (group_key field doc) doc groups) [] documents in
  Ok (map (group_result accumulators) (hash_iter groups)).

(** The comparison of a sort stage. *)
Definition compare_field (field : string) (ascending : bool) (a b : Value) : Datatypes.comparison :=
  let cmp :=
    match value_get field a, value_get field b with
    | Some (Str x), Some (Str y) => String.compare x y
    | Some (Number x), Some (Number y) => default Eq (f64_partial_cmp (num_f64 x) (num_f64 y))
    | Some (Bool x), Some (Bool y) => Bool.compare x y
    | Some _, None => Gt
    | None, Some _ => Lt
    | _, _ => Eq
    end in
  if ascending then cmp else CompOpp cmp.

Definition execute_sort (field : string) (ascending : bool) (documents : list Value) : Result (list Value) :=
  sort_by (compare_field field ascending) documents.

Definition project_doc (fields : list string) (exclude : bool) (doc : Value) : Value :=
  match as_object doc with
  | Some obj =>
    if exclude then
      Object (foldl (fun m kv => if decide (kv.1 ∈ fields) then m else map_insert kv.1 kv.2 m) [] obj)
    else
      let m := foldl (fun m field =>
        match map_get field obj with Some v => map_insert field v m | None => m end) [] fields in
      Object (if decide ("_id" ∈ fields) then m
              else match map_get "_id" obj with Some id => map_insert "_id" id m | None => m end)
  | None => doc
  end.

Definition execute_project (fields : list string) (exclude : bool) (documents : list Value) : Result (list Value) :=
  Ok (map (project_doc fields exclude) documents).

Definition execute_stage (stage : Stage) (documents : list Value) : Result (list Value) :=
  match stage with
  | Match query => execute_match query documents
  | GroupBy field accumulators => execute_group_by field accumulators documents
  | Sort field ascending => execute_sort field ascending documents
  | Limit n => Ok (take n documents)
  | Skip n => Ok (drop n documents)
  | Project fields exclude => execute_project fields exclude documents
  end.

Fixpoint execute_stages (stages : list Stage) (documents : list Value) : Result (list Value) :=
  match stages with
  | [] => Ok documents
  | stage :: stages => let? documents := execute_stage stage documents in execute_stages stages documents
  end.

Definition execute_pipeline (stages : list Stage) : Result (list Value) :=
  let? documents := all_docs in
  execute_stages stages documents.
End stages.

(** ** Grouping *)
Section grouping.
Context {tables : UnicodeTables} {numbers : SerdeNumber} {text : SerdeText} {coll : CollectionReads}
  {hashing : HashOrder (list Value)}.

Lemma map_get_push_group k' k d groups :
  map_get k' (push_group k d groups) =
    if decide (k' = k) then Some (default [] (map_get k groups) ++ [d]) else map_get k' groups.
Proof.
  induction groups as [|[k1 ds] groups IH]; simpl; [done|].
  destruct (decide (k = k1)) as [->|Hne]; simpl.
  - destruct (decide (k' = k1)); done.
  - rewrite IH. destruct (decide (k' = k1)) as [->|]; [by rewrite decide_False|].
    destruct (decide (k' = k)); done.
Qed.

Lemma push_group_keys k d groups k' : k' ∈ (push_group k d groups).*1 <-> k' = k \/ k' ∈ groups.*1.
Proof.
  induction groups as [|[k1 ds] groups IH]; simpl.
  - rewrite list_elem_of_singleton, elem_of_nil. naive_solver.
  - destruct (decide (k = k1)) as [->|]; simpl; rewrite !elem_of_cons, ?IH; tauto.
Qed.

Lemma push_group_NoDup k d groups : NoDup groups.*1 -> NoDup (push_group k d groups).*1.
Proof.
  induction groups as [|[k1 ds] groups IH]; simpl; [intros; repeat constructor; by intros ?%elem_of_nil|].
  intros [Hn Hd]%NoDup_cons. destruct (decide (k = k1)) as [->|]; simpl; apply NoDup_cons; [done|].
  split; [|by apply IH]. rewrite push_group_keys. by intros [->|].
Qed.

Lemma map_get_NoDup {A} k (v : A) m : NoDup m.*1 -> (k, v) ∈ m -> map_get k m = Some v.
Proof.
  induction m as [|[k1 v1] m IH]; simpl; [by intros _ ?%elem_of_nil|].
  intros [Hn Hd]%NoDup_cons [[= -> ->]|Hin]%elem_of_cons; [by rewrite decide_True|].
  rewrite decide_False; [by apply IH|]. intros ->. apply Hn, list_elem_of_fmap. by exists (k1, v).
Qed.

Lemma map_get_keys {A} k (m : list (string * A)) : k ∈ m.*1 <-> is_Some (map_get k m).
Proof.
  unfold is_Some. induction m as [|[k1 v1] m IH]; simpl.
  - split; [by intros ?%elem_of_nil|by intros []].
  - rewrite elem_of_cons, IH. destruct (decide (k = k1)); naive_solver.
Qed.

(** The groups after some documents. *)
Lemma groups_spec field docs :
  let groups := foldl (fun groups doc => push_group (group_key field doc) doc groups) [] docs in
  NoDup groups.*1 /\
  forall k, map_get k groups =
    let ds := filter (fun d => group_key field d = k) docs in if decide (ds = []) then None else Some ds.
Proof.
  induction docs as [|d docs [IH1 IH2]] using rev_ind; simpl.
  - split; [constructor|]. done.
  - rewrite foldl_app. simpl. split; [by apply push_group_NoDup|]. intros k.
    rewrite map_get_push_group, !IH2, filter_app. cbv zeta.
    destruct (decide (k = group_key field d)) as [->|Hne].
    + rewrite filter_cons_True by done.
      destruct (decide (filter _ docs ++ _ = [])) as [[_ ?]%app_nil|_]; [done|].
      f_equal. by case_decide as E; [rewrite E|].
    + rewrite filter_cons_False by done. by rewrite filter_nil, app_nil_r.
Qed.

(** C39: A group stage partitions its documents: there is one result for each value that the
    group key takes, made from exactly the documents with that key, in their order. *)
Theorem group_by_partitions (field : string) (accumulators : list Accumulator) (docs : list Value) :
  exists groups,
    execute_group_by field accumulators docs = Ok (map (group_result accumulators) groups) /\
    NoDup groups.*1 /\
    (forall k, k ∈ groups.*1 <-> exists d, d ∈ docs /\ group_key field d = k) /\
    (forall k ds, (k, ds) ∈ groups -> ds = filter (fun d => group_key field d = k) docs).
Proof.
  unfold execute_group_by.
  set (groups := foldl (fun groups doc => push_group (group_key field doc) doc groups) [] docs).
  exists (hash_iter groups). pose proof (hash_iter_perm groups) as Hp.
  destruct (groups_spec field docs) as [Hd Hg]. fold groups in Hd, Hg. split; [done|].
  rewrite Hp. split; [done|]. split.
  - intros k. rewrite Hp, map_get_keys, Hg. cbv zeta. split.
    + case_decide as E; [by intros []|]. intros _.
      destruct (filter _ docs) as [|d ds] eqn:Ef; [done|]. exists d.
      assert (d ∈ filter (fun d => group_key field d = k) docs) as [? ?]%list_elem_of_filter by (rewrite Ef; by left).
      done.
    + intros (d & Hin & Hk). rewrite decide_False; [by eexists|]. intros E.
      assert (d ∈ filter (fun d => group_key field d = k) docs) as Hf by (by apply list_elem_of_filter).
      rewrite E in Hf. by apply elem_of_nil in Hf.
  - intros k ds Hin. rewrite Hp in Hin. apply (map_get_NoDup _ _ _ Hd) in Hin.
    rewrite Hg in Hin. cbv zeta in Hin. case_decide; [done|]. by injection Hin as <-.
Qed.
End grouping.

(** ** Sorting *)
Section sorting.
Context {tables : UnicodeTables} {numbers : SerdeNumber} {text : SerdeText} {coll : CollectionReads}
  {nlaws : SerdeNumberLaws}.

(** The types that a sort stage compares. *)
Inductive sort_type : Type := Strings | Numbers | Bools.

(** A document whose field is missing or has the type [t]. *)
Definition sortable (t : sort_type) (field : string) (doc : Value) : Prop :=
  match value_get field doc, t with
  | None, _ | Some (Str _), Strings | Some (Number _), Numbers | Some (Bool _), Bools => True
  | _, _ => False
  end.

Lemma compare_by_option {A} (P : Value -> Prop) (cmp : A -> A -> Datatypes.comparison) (h : Value -> option A) field :
  total_order (fun _ => True) cmp ->
  (forall a b, P a -> P b -> opt_cmp cmp (h a) (h b) = compare_field field true a b) ->
  total_order P (compare_field field true).
Proof.
  intros Ho Hh a Ha. apply (ord_at_ext _ (fun a b => opt_cmp cmp (h a) (h b))); [done| |done].
  apply (ord_at_map (fun _ => True) _ h (opt_cmp cmp)); [done|]. by apply total_order_option.
Qed.

Lemma total_order_number : total_order (fun _ => True) (fun x y : number => f64_cmp (num_f64 x) (num_f64 y)).
Proof.
  intros x _. apply (ord_at_map not_nan _ num_f64 f64_cmp); [intros; apply num_f64_not_nan|].
  apply f64_total_order, num_f64_not_nan.
Qed.

Lemma compare_field_order t field ascending : total_order (sortable t field) (compare_field field ascending).
Proof.
  assert (total_order (sortable t field) (compare_field field true)) as H.
  { destruct t.
    - apply (compare_by_option _ String.compare (fun d => value_get field d ≫= as_str)); [apply total_order_str|].
      unfold sortable, compare_field. intros a b.
      by destruct (value_get field a) as [[]|], (value_get field b) as [[]|].
    - apply (compare_by_option _ (fun x y => f64_cmp (num_f64 x) (num_f64 y))
        (fun d => value_get field d ≫= fun v => match v with Number n => Some n | _ => None end));
        [apply total_order_number|].
      unfold sortable, compare_field. intros a b.
      by destruct (value_get field a) as [[]|], (value_get field b) as [[]|].
    - apply (compare_by_option _ Bool.compare
        (fun d => value_get field d ≫= fun v => match v with Bool b => Some b | _ => None end));
        [apply total_order_bool|].
      unfold sortable, compare_field. intros a b.
      by destruct (value_get field a) as [[]|], (value_get field b) as [[]|]. }
  destruct ascending; [done|]. intros a Ha.
  by apply (ord_at_rev _ (compare_field field true)).
Qed.

(** A sort stage over documents whose field is missing, or of one of the types string,
    number and boolean, returns these documents, sorted by the field in the direction asked
    for (missing values before all others when ascending), equal ones in their old order. *)
Theorem sort_stage_sorts (t : sort_type) (field : string) (ascending : bool) (docs : list Value) :
  Forall (sortable t field) docs ->
  exists sorted, execute_sort field ascending docs = Ok sorted /\ sorted ≡ₚ docs /\
    Sorted (fun a b => compare_field field ascending a b <> Gt) sorted /\
    forall z, sortable t field z ->
      filter (fun d => compare_field field ascending z d = Eq) sorted =
      filter (fun d => compare_field field ascending z d = Eq) docs.
Proof.
  intros Hd. pose proof (compare_field_order t field ascending) as Ho. eexists.
  split; [by apply (sort_by_ok _ _ Ho)|]. split_and!.
  - apply stable_sort_Permutation.
  - by apply (stable_sort_sorted _ _ Ho).
  - intros z Hz. by apply (stable_sort_stable _ _ Ho).
Qed.

(** On documents of mixed types the comparison of a sort stage is not a total order: a null
    compares equal to every string, strings do not compare equal to each other. Rust's [sort_by]
    may panic on such a comparison. *)
Theorem sort_stage_not_an_order (field : string) :
  exists a b c : Value,
    compare_field field true a b = Eq /\ compare_field field true b c = Eq /\
    compare_field field true a c = Lt /\
    execute_sort field true [a; b; c] = Panic.
Proof.
  set (doc v := Object [(field, v)]). exists (doc (Str "a")), (doc Null), (doc (Str "b")).
  assert (forall v, value_get field (doc v) = Some v) as Hg.
  { intros v. unfold value_get, doc. simpl. by rewrite decide_True. }
  assert (compare_field field true (doc (Str "a")) (doc Null) = Eq) as H1 by (unfold compare_field; by rewrite !Hg).
  assert (compare_field field true (doc Null) (doc (Str "b")) = Eq) as H2 by (unfold compare_field; by rewrite !Hg).
  assert (compare_field field true (doc (Str "a")) (doc (Str "b")) = Lt) as H3 by (unfold compare_field; by rewrite !Hg).
  split_and!; [done..|]. unfold execute_sort, sort_by. destruct (orders _ _) eqn:E; [exfalso|done].
  assert (compare_field field true (doc (Str "b")) (doc Null) = Eq) as H4 by (unfold compare_field; by rewrite !Hg).
  assert (compare_field field true (doc Null) (doc (Str "a")) = Eq) as H5 by (unfold compare_field; by rewrite !Hg).
  apply (orders_trans _ _ (doc (Str "b")) (doc Null) (doc (Str "a")) E);
    [repeat constructor..|by rewrite H4|by rewrite H5|].
  unfold compare_field. by rewrite !Hg.
Qed.
End sorting.

(** ** Accumulators and pipelines *)
Section pipelines.
Context {tables : UnicodeTables} {numbers : SerdeNumber} {text : SerdeText} {coll : CollectionReads}
  {hashing : HashOrder (list Value)} {nlaws : SerdeNumberLaws}.

Lemma field_numbers_finite field docs : Forall (fun x => f64_finite x = true) (field_numbers field docs).
Proof.
  unfold field_numbers. induction docs as [|d docs IH]; simpl; [constructor|].
  destruct (value_get field d ≫= value_as_f64) as [x|] eqn:E; [|done]. constructor; [|done].
  apply bind_Some in E as ([] & _ & E); try done. simpl in E. by apply as_f64_finite in E.
Qed.

Lemma finite_not_nan x : f64_finite x = true -> not_nan x.
Proof. by destruct x. Qed.

(** A fold that keeps the better of two elements ends with a best one. *)
Lemma fold_best (P : f64 -> Prop) (cmp : f64 -> f64 -> Datatypes.comparison) (pick : f64 -> f64 -> f64) x xs :
  total_order P cmp ->
  (forall a b, P a -> P b -> (pick a b = a \/ pick a b = b) /\ cmp (pick a b) a <> Gt /\ cmp (pick a b) b <> Gt) ->
  P x -> Forall P xs ->
  foldl pick x xs ∈ x :: xs /\ forall y, y ∈ x :: xs -> cmp (foldl pick x xs) y <> Gt.
Proof.
  intros Ho Hpick Hx Hxs. revert x Hx. induction Hxs as [|z xs Hz Hxs IH]; intros x Hx; simpl.
  - split; [by left|]. intros y ->%list_elem_of_singleton. by rewrite (ord_refl _ _ _ (Ho x Hx)).
  - destruct (Hpick x z Hx Hz) as (Hor & H1 & H2).
    assert (P (pick x z)) as Hp by (by destruct Hor as [-> | ->]).
    destruct (IH (pick x z) Hp) as [I1 I2].
    assert (P (foldl pick (pick x z) xs)) as Hr.
    { apply elem_of_cons in I1 as [->|Hin]; [done|]. rewrite Forall_forall in Hxs. by apply Hxs. }
    split.
    + apply elem_of_cons in I1 as [E|Hin]; [|by right; right]. rewrite E.
      destruct Hor as [-> | ->]; [by left|by right; left].
    + assert (forall y, P y -> cmp (pick x z) y <> Gt -> cmp (foldl pick (pick x z) xs) y <> Gt) as Ht.
      { intros y Hy Hle. apply (ord_trans _ _ _ (Ho _ Hr) (pick x z) y); try done. apply I2. by left. }
      intros y [->|[->|Hy]%elem_of_cons]%elem_of_cons; [by apply Ht|by apply Ht|apply I2; by right].
Qed.

Lemma min_best x xs :
  Forall not_nan (x :: xs) ->
  exists m, f64_min (x :: xs) = Some m /\ m ∈ x :: xs /\ forall y, y ∈ x :: xs -> f64_cmp m y <> Gt.
Proof.
  intros [Hx Hxs]%Forall_cons. eexists. split; [done|]. apply (fold_best not_nan); try done; [apply f64_total_order|].
  intros a b Ha Hb. pose proof (ord_antisym _ _ _ (f64_total_order a Ha) b Hb) as Hab.
  destruct (f64_cmp a b) eqn:E; [split_and!; [by left|by rewrite (ord_refl _ _ _ (f64_total_order a Ha))|by rewrite E]..|].
  split_and!; [by right|by rewrite Hab|by rewrite (ord_refl _ _ _ (f64_total_order b Hb))].
Qed.

Lemma max_best x xs :
  Forall not_nan (x :: xs) ->
  exists m, f64_max (x :: xs) = Some m /\ m ∈ x :: xs /\ forall y, y ∈ x :: xs -> f64_cmp m y <> Lt.
Proof.
  intros [Hx Hxs]%Forall_cons. eexists. split; [done|].
  destruct (fold_best not_nan (fun a b => CompOpp (f64_cmp a b))
    (fun a b => match f64_cmp a b with Gt => a | _ => b end) x xs) as [H1 H2]; try done.
  - intros a Ha. by apply ord_at_rev; [apply f64_total_order|].
  - intros a b Ha Hb. pose proof (ord_antisym _ _ _ (f64_total_order a Ha) b Hb) as Hab.
    destruct (f64_cmp a b) eqn:E.
    + split_and!; [by right|by rewrite Hab|by rewrite (ord_refl _ _ _ (f64_total_order b Hb))].
    + split_and!; [by right|by rewrite Hab|by rewrite (ord_refl _ _ _ (f64_total_order b Hb))].
    + split_and!; [by left|by rewrite (ord_refl _ _ _ (f64_total_order a Ha))|by rewrite E].
  - split; [done|]. intros y Hy E. apply (H2 y Hy). by rewrite E.
Qed.

(** The minimum and maximum accumulators give null for a group without numbers in the
    field, and otherwise a number of the group that no other number of it is below, or above. *)
Theorem min_max_accumulators (field : string) (docs : list Value) :
  match field_numbers field docs with
  | [] => accumulate (Min field) docs = Null /\ accumulate (Max field) docs = Null
  | xs =>
    exists lo hi nlo nhi, accumulate (Min field) docs = Number nlo /\ as_f64 nlo = Some lo /\ lo ∈ xs /\
      accumulate (Max field) docs = Number nhi /\ as_f64 nhi = Some hi /\ hi ∈ xs /\
      forall x, x ∈ xs -> f64_cmp lo x <> Gt /\ f64_cmp hi x <> Lt
  end.
Proof.
  simpl. pose proof (field_numbers_finite field docs) as Hf.
  destruct (field_numbers field docs) as [|x xs]; [done|].
  assert (Forall not_nan (x :: xs)) as Hn by (eapply Forall_impl; [done|]; apply finite_not_nan).
  destruct (min_best x xs Hn) as (lo & -> & Hlo & Hlo'), (max_best x xs Hn) as (hi & -> & Hhi & Hhi').
  rewrite Forall_forall in Hf. unfold json_f64.
  destruct (from_f64_finite lo (Hf lo Hlo)) as (nlo & -> & H1), (from_f64_finite hi (Hf hi Hhi)) as (nhi & -> & H2).
  exists lo, hi, nlo, nhi. split_and!; try done. intros y Hy. split; [by apply Hlo'|by apply Hhi'].
Qed.

(** A pipeline of a match, a skip and a limit stage returns what the query builder returns
    for the same query, skip and limit, whenever the documents can be read. *)
Lemma pipeline_is_query (q : string) (s l : nat) (docs : list Value) :
  all_docs = Ok docs ->
  execute_pipeline (agg_limit l (agg_skip s (match_ q []))) = execute (limit l (skip s (filter_by q builder_new))).
Proof.
  intros Hd. unfold execute_pipeline, execute, filtered_docs. rewrite Hd. simpl. unfold execute_match.
  by destruct (parse_or_fail q).
Qed.
End pipelines.

(** ** Examples *)
#[local] Existing Instance ascii_tables.
#[local] Existing Instance float_numbers.
#[local] Existing Instance float_numbers_laws.
#[local] Existing Instance tiny_text.

Lemma sort_stage_sorts_witness :
  exists sorted, execute_sort "name" false sample_docs = Ok sorted /\ sorted ≡ₚ sample_docs.
Proof.
  destruct (sort_stage_sorts Strings "name" false sample_docs) as (sorted & H1 & H2 & _); [by repeat constructor|].
  exists sorted. split; [exact H1|exact H2].
Defined.

Definition age_docs : list Value :=
  [Object [("age", @Number float_numbers (f64_of_Z 7))]; Object [("age", @Number float_numbers (f64_of_Z 3))]].

Lemma min_max_accumulators_witness : exists lo, accumulate (Min "age") age_docs = Number lo.
Proof.
  destruct (min_max_accumulators "age" age_docs) as (lo & hi & nlo & nhi & H & _). exists nlo. exact H.
Defined.
