(* ===== verification/Validation.v ===== *)
(** * Validation

    [src/src/core/validation.rs]: the names of collections, and the schemas of documents. *)

From stdpp Require Import base list strings sorting pretty.
From Stdlib Require Import NArith ZArith Lia Ascii.
From S2P Require Import Prelude Constants Bytes Text Json.

(** ** Collection names *)
Definition reserved_collection_names : list string := ["_metadata"; "_internal"; "_system"].

Section names.
Context {tables : UnicodeTables}.

(** The loop over the characters of a name; ['_'] is 95. *)
Fixpoint check_chars (cs : list N) : Result unit :=
  match cs with
  | [] => Ok tt
  | c :: cs =>
    if negb (is_alphanumeric c) && negb (c =? 95)%N then Err CollectionNameInvalidChar
    else check_chars cs
  end.

Definition validate_collection_name (name : string) : Result unit :=
  if String.eqb name "" then Err CollectionNameEmpty
  else if (64 <? String.length name)%nat then Err CollectionNameTooLong
  else
    match head (chars name) with
    | None => Err CollectionNameEmpty
    | Some first_char =>
      if negb (is_alphabetic first_char) && negb (first_char =? 95)%N then Err CollectionNameInvalidStart
      else
        let? _ := check_chars (chars name) in
        if existsb (String.eqb name) reserved_collection_names then Err CollectionNameReserved
        else Ok tt
    end.

Definition name_char (c : N) : Prop := is_alphanumeric c = true \/ c = 95%N.
Definition name_start (c : N) : Prop := is_alphabetic c = true \/ c = 95%N.

Lemma check_chars_ok cs : check_chars cs = Ok tt <-> Forall name_char cs.
Proof.
  induction cs as [|c cs IH]; simpl; [split; [constructor|done]|]. rewrite Forall_cons, <-IH. unfold name_char.
  destruct (is_alphanumeric c) eqn:E1, (N.eqb_spec c 95); simpl; naive_solver.
Qed.

Lemma check_chars_err cs e : check_chars cs = Err e -> e = CollectionNameInvalidChar.
Proof. induction cs as [|c cs IH]; simpl; [done|]. case_match; naive_solver. Qed.

Lemma check_chars_total cs : check_chars cs = Ok tt \/ check_chars cs = Err CollectionNameInvalidChar.
Proof. induction cs as [|c cs IH]; simpl; [by left|]. case_match; auto. Qed.

(** The disjunct that holds. *)
Ltac pick :=
  lazymatch goal with
  | |- _ \/ _ => first [left; pick | right; pick]
  | |- _ => split; solve [auto]
  end.

(** A collection name is accepted exactly when it has 1 to 64 bytes, starts with a letter
    or an underscore, has only letters, digits and underscores, and is not reserved; a name
    that is not accepted gets the error of the first of these rules that it breaks. *)
Theorem collection_name_valid (name : string) :
  let start := match head (chars name) with Some c => name_start c | None => False end in
  (rust_string name ->
   validate_collection_name name = Ok tt <->
   1 <= String.length name <= 64 /\ start /\ Forall name_char (chars name) /\
   name ∉ reserved_collection_names) /\
  (forall e, validate_collection_name name = Err e ->
   (e = CollectionNameEmpty /\ (name = "" \/ chars name = [])) \/
   (e = CollectionNameTooLong /\ 64 < String.length name) \/
   (e = CollectionNameInvalidStart /\ ~ start) \/
   (e = CollectionNameInvalidChar /\ start /\ ~ Forall name_char (chars name)) \/
   (e = CollectionNameReserved /\ Forall name_char (chars name) /\ name ∈ reserved_collection_names)).
Proof.
  cbv zeta. unfold validate_collection_name.
  destruct (String.eqb_spec name "") as [->|Hne].
  { split; [|intros e [= <-]; pick]. intros _. split; [done|]. simpl. lia. }
  assert (1 <= String.length name) as Hlen by (destruct name; [done|simpl; lia]).
  destruct (Nat.ltb_spec 64 (String.length name)) as [Hl|Hl].
  { split; [|intros e [= <-]; pick]. intros _. split; [done|lia]. }
  destruct (chars name) as [|c cs] eqn:Ec; cbn [head].
  { split; [|intros e [= <-]; pick]. intros Hs. split; [done|]. by intros (_ & [] & _). }
  assert ((negb (is_alphabetic c) && negb (c =? 95)%N) = false <-> name_start c) as Hstart.
  { unfold name_start. destruct (is_alphabetic c), (N.eqb_spec c 95); naive_solver. }
  destruct (negb (is_alphabetic c) && negb (c =? 95)%N) eqn:E0; cbv iota.
  { assert (~ name_start c) as Hn by (intros H; by apply Hstart in H).
    split; [|intros e [= <-]; pick]. intros _. split; [done|]. by intros (_ & H & _). }
  apply proj1 in Hstart. specialize (Hstart eq_refl).
  assert (existsb (String.eqb name) reserved_collection_names = true <-> name ∈ reserved_collection_names) as Hres.
  { rewrite existsb_exists. split.
    - intros (x & Hx & ->%String.eqb_eq). by apply list_elem_of_In.
    - intros Hx. exists name. split; [by apply list_elem_of_In|apply String.eqb_refl]. }
  pose proof (check_chars_ok (c :: cs)) as Hok.
  destruct (check_chars_total (c :: cs)) as [E1|E1]; rewrite E1; cbn [obind].
  - destruct (existsb _ _) eqn:E2; cbv iota.
    + pose proof (proj1 Hok E1). pose proof (proj1 Hres eq_refl).
      split; [|intros e [= <-]; pick]. intros _. split; [done|]. by intros (_ & _ & _ & H').
    + split; [|intros e [=]]. intros _. split; [|done]. intros _. split_and!; [lia|lia|done|by apply Hok|].
      intros H. by apply Hres in H.
  - assert (~ Forall name_char (c :: cs)) as Hn by (intros H; apply Hok in H; congruence).
    split; [|intros e [= <-]; pick]. intros _. split; [done|]. by intros (_ & _ & H & _).
Qed.
End names.

Lemma collection_name_valid_witness :
  @validate_collection_name ascii_tables "user_profiles" = Ok tt.
Proof.
  destruct (@collection_name_valid ascii_tables "user_profiles") as [H _].
  apply H; [by vm_compute|]. split_and!; [vm_compute; lia|vm_compute; lia|by left| |].
  - repeat (constructor; [by vm_compute; auto|]). constructor.
  - intros Hin. repeat (apply elem_of_cons in Hin as [Hin|Hin]; [discriminate|]). by apply elem_of_nil in Hin.
Defined.

(** ** Schemas *)
Inductive ValueType : Type := TString | TNumber | TInteger | TBoolean | TObject | TArray | TNull.

Inductive Schema `{!SerdeNumber} : Type := mk_schema {
  value_type : option ValueType;
  required : option (list string);
  properties : option (list (string * Schema));
  items : option Schema;
  minimum : option f64;
  maximum : option f64;
  min_length : option nat;
  max_length : option nat;
  enum_values : option (list Value) }.

(** How floating-point numbers and lists of values are printed in messages. *)
Class Messages `{!SerdeNumber} := {
  f64_to_string : f64 -> string;
  values_debug : list Value -> string }.

Section schemas.
Context {numbers : SerdeNumber} {text : SerdeText} {messages : Messages}.

Definition schema_new : Schema := mk_schema _ None None None None None None None None None.

Definition type_name (v : Value) : string :=
  match v with
  | Str _ => "string" | Number _ => "number" | Bool _ => "boolean"
  | Object _ => "object" | Array _ => "array" | Null => "null"
  end.

(** [{:?}] of a type. *)
Definition type_debug (t : ValueType) : string :=
  match t with
  | TString => "String" | TNumber => "Number" | TInteger => "Integer" | TBoolean => "Boolean"
  | TObject => "Object" | TArray => "Array" | TNull => "Null"
  end.

Definition invalid (msg : string) : Result unit := Err (SchemaValidation msg).

Definition validate_type (v : Value) (expected : ValueType) (path : string) : Result unit :=
  let ok :=
    match expected, v with
    | TString, Str _ => true
    | TNumber, Number _ => true
    | TInteger, Number n => is_i64 n || is_u64 n
    | TBoolean, Bool _ => true
    | TObject, Object _ => true
    | TArray, Array _ => true
    | TNull, Null => true
    | _, _ => false
    end in
  if negb ok then
    invalid ("Type mismatch at '" +:+ path +:+ "': expected " +:+ type_debug expected +:+ ", got " +:+ type_name v)
  else Ok tt.

Definition validate_enum (v : Value) (allowed : list Value) (path : string) : Result unit :=
  if negb (existsb (fun a => Value_eqb a v) allowed) then
    invalid ("Value at '" +:+ path +:+ "' must be one of " +:+ values_debug allowed +:+ ", got: " +:+ value_to_string v)
  else Ok tt.

Fixpoint validate_required (fields : list string) (obj : Map) (path : string) : Result unit :=
  match fields with
  | [] => Ok tt
  | field :: fields =>
    if negb (contains_key field obj) then
      invalid ("Missing required field '" +:+ field +:+ "' at '" +:+ path +:+ "'")
    else validate_required fields obj path
  end.

(** The length rules, for arrays and for strings. *)
Definition validate_length (s : Schema) (what : string) (len : nat) (path : string) : Result unit :=
  let? _ :=
    match min_length s with
    | Some min => if (len <? min)%nat then
        invalid (what +:+ " at '" +:+ path +:+ "' length " +:+ pretty len +:+ " is less than minimum " +:+ pretty min)
        else Ok tt
    | None => Ok tt
    end in
  match max_length s with
  | Some max => if (max <? len)%nat then
      invalid (what +:+ " at '" +:+ path +:+ "' length " +:+ pretty len +:+ " exceeds maximum " +:+ pretty max)
      else Ok tt
  | None => Ok tt
  end.

Definition validate_number (s : Schema) (n : number) (path : string) : Result unit :=
  let num_val := num_f64 n in
  let? _ :=
    match minimum s with
    | Some min => if f64_ltb num_val min then
        invalid ("Number at '" +:+ path +:+ "' (" +:+ f64_to_string num_val +:+ ") is less than minimum " +:+ f64_to_string min)
        else Ok tt
    | None => Ok tt
    end in
  let? _ :=
    match maximum s with
    | Some max => if f64_gtb num_val max then
        invalid ("Number at '" +:+ path +:+ "' (" +:+ f64_to_string num_val +:+ ") exceeds maximum " +:+ f64_to_string max)
        else Ok tt
    | None => Ok tt
    end in
  match value_type s with
  | Some TInteger =>
    if negb (is_i64 n) && negb (is_u64 n) then
      invalid ("Value at '" +:+ path +:+ "' must be an integer, got: " +:+ number_to_string n)
    else Ok tt
  | _ => Ok tt
  end.

(** The loops over the entries of an object and the elements of an array; [check] is the
    recursive call. *)
Section loops.
Variable check : Value -> Schema -> string -> Result unit.

Fixpoint validate_entries (props : list (string * Schema)) (path : string) (kvs : Map) : Result unit :=
  match kvs with
  | [] => Ok tt
  | (key, val) :: kvs =>
    let? _ :=
      match map_get key props with
      | Some prop_schema => check val prop_schema (if String.eqb path "" then key else path +:+ "." +:+ key)
      | None => Ok tt
      end in
    validate_entries props path kvs
  end.

Fixpoint validate_items (items_schema : Schema) (path : string) (idx : nat) (vs : list Value) : Result unit :=
  match vs with
  | [] => Ok tt
  | item :: vs =>
    let? _ := check item items_schema (path +:+ "[" +:+ pretty idx +:+ "]") in
    validate_items items_schema path (S idx) vs
  end.
End loops.

(** The calls for the parts of a value follow the value, whatever schemas they are for. *)
Fixpoint validate_with_path (v : Value) (s : Schema) (path : string) {struct v} : Result unit :=
  let? _ := match value_type s with Some t => validate_type v t path | None => Ok tt end in
  let? _ := match enum_values s with Some allowed => validate_enum v allowed path | None => Ok tt end in
  match v with
  | Object obj =>
    let? _ := match required s with Some fields => validate_required fields obj path | None => Ok tt end in
    match properties s with
    | Some props => validate_entries validate_with_path props path obj
    | None => Ok tt
    end
  | Array arr =>
    let? _ := validate_length s "Array" (length arr) path in
    match items s with
    | Some items_schema => validate_items validate_with_path items_schema path 0 arr
    | None => Ok tt
    end
  | Str t => validate_length s "String" (String.length t) path
  | Number n => validate_number s n path
  | _ => Ok tt
  end.

Definition validate (s : Schema) (v : Value) : Result unit := validate_with_path v s "".

(** *** What a schema asks for *)
Definition has_type (t : ValueType) (v : Value) : Prop :=
  match t with
  | TString => exists s, v = Str s
  | TNumber => exists n, v = Number n
  | TInteger => exists n, v = Number n /\ (is_i64 n = true \/ is_u64 n = true)
  | TBoolean => exists b, v = Bool b
  | TObject => exists m, v = Object m
  | TArray => exists vs, v = Array vs
  | TNull => v = Null
  end.

Definition length_ok (s : Schema) (len : nat) : Prop :=
  (forall min, min_length s = Some min -> min <= len) /\ (forall max, max_length s = Some max -> len <= max).

Inductive conforms : Schema -> Value -> Prop :=
| conforms_intro s v :
    (forall t, value_type s = Some t -> has_type t v) ->
    (forall allowed, enum_values s = Some allowed -> Exists (fun a => Value_eqb a v = true) allowed) ->
    (forall n, v = Number n ->
      (forall min, minimum s = Some min -> f64_ltb (num_f64 n) min = false) /\
      (forall max, maximum s = Some max -> f64_ltb max (num_f64 n) = false)) ->
    (forall t, v = Str t -> length_ok s (String.length t)) ->
    (forall vs, v = Array vs -> length_ok s (length vs)) ->
    (forall m fields, v = Object m -> required s = Some fields -> forall f, f ∈ fields -> is_Some (map_get f m)) ->
    (forall m props k w p, v = Object m -> properties s = Some props -> (k, w) ∈ m -> map_get k props = Some p ->
      conforms p w) ->
    (forall vs w p, v = Array vs -> items s = Some p -> w ∈ vs -> conforms p w) ->
    conforms s v.

(** [r] is the verdict of a check for [P]. *)
Definition judges (r : Result unit) (P : Prop) : Prop :=
  (r = Ok tt /\ P) \/ (exists msg, r = Err (SchemaValidation msg) /\ ~ P).

Lemma judges_iff r P Q : judges r P -> (P <-> Q) -> judges r Q.
Proof. intros [[H1 H2]|(m & H1 & H2)] HPQ; [left|right; exists m]; naive_solver. Qed.

Lemma judges_ok P : P -> judges (Ok tt) P.
Proof. by left. Qed.

Lemma judges_bind r k P Q : judges r P -> judges k Q -> judges (let? _ := r in k) (P /\ Q).
Proof.
  intros [[-> H2]|(m & -> & H2)] Hk; simpl; [|right; exists m; naive_solver].
  apply (judges_iff _ _ _ Hk). tauto.
Qed.

Lemma judges_option {A} (o : option A) f (P : A -> Prop) :
  (forall x, judges (f x) (P x)) ->
  judges (match o with Some x => f x | None => Ok tt end) (forall x, o = Some x -> P x).
Proof. intros H. destruct o as [x|]; [|by left]. eapply judges_iff; [apply H|]. naive_solver. Qed.

Lemma judges_bool (b : bool) msg P :
  (b = false <-> P) -> judges (if b then invalid msg else Ok tt) P.
Proof. intros H. destruct b; [right; eexists; split; [done|]|left]; naive_solver. Qed.

Lemma judges_type v t path : judges (validate_type v t path) (has_type t v).
Proof.
  unfold validate_type. apply judges_bool. rewrite negb_false_iff.
  destruct t, v; simpl; rewrite ?orb_true_iff; naive_solver.
Qed.

Lemma judges_enum v allowed path :
  judges (validate_enum v allowed path) (Exists (fun a => Value_eqb a v = true) allowed).
Proof.
  unfold validate_enum. apply judges_bool. rewrite negb_false_iff.
  induction allowed as [|a l IH]; simpl; [split; [done|by intros ?%Exists_nil]|].
  rewrite orb_true_iff, IH, Exists_cons. done.
Qed.

Lemma judges_required fields m path :
  judges (validate_required fields m path) (forall f, f ∈ fields -> is_Some (map_get f m)).
Proof.
  induction fields as [|f fields IH]; simpl; [left; split; [done|]; by intros f ?%elem_of_nil|].
  destruct (contains_key f m) eqn:E; simpl.
  - apply contains_key_spec in E. eapply judges_iff; [exact IH|]. split.
    + by intros H g [->|Hg]%elem_of_cons; [|apply H].
    + intros H g Hg. apply H. by right.
  - right. eexists. split; [done|]. intros H. rewrite (proj2 (contains_key_spec f m)) in E; [done|].
    apply H. by left.
Qed.

Lemma judges_length s what len path : judges (validate_length s what len path) (length_ok s len).
Proof.
  unfold validate_length. apply judges_bind; apply judges_option; intros x; apply judges_bool;
    rewrite Nat.ltb_ge; done.
Qed.

Lemma judges_number s n path :
  (forall t, value_type s = Some t -> has_type t (Number n)) ->
  judges (validate_number s n path)
    ((forall min, minimum s = Some min -> f64_ltb (num_f64 n) min = false) /\
     (forall max, maximum s = Some max -> f64_ltb max (num_f64 n) = false)).
Proof.
  intros Ht. unfold validate_number. eapply judges_iff.
  - apply judges_bind.
    { apply (judges_option _ _ (fun min => f64_ltb (num_f64 n) min = false)). intros x. by apply judges_bool. }
    apply (judges_bind _ _ (forall max, maximum s = Some max -> f64_ltb max (num_f64 n) = false) True).
    { apply judges_option. intros x. by apply judges_bool. } destruct (value_type s) as [[]|]; try by left.
    apply judges_bool. split; [done|]. intros _.
    destruct (Ht _ eq_refl) as (m & [= <-] & [-> | ->]); simpl; by rewrite ?andb_false_r.
  - tauto.
Qed.

(** The rules of [conforms] that do not look into the value's parts. *)
Definition head_ok (s : Schema) (v : Value) : Prop :=
  (forall t, value_type s = Some t -> has_type t v) /\
  (forall allowed, enum_values s = Some allowed -> Exists (fun a => Value_eqb a v = true) allowed).

(** A check that ends in [r] after the checks of the head. *)
Lemma judges_head s v path r P :
  ((forall t, value_type s = Some t -> has_type t v) -> judges r P) -> (head_ok s v /\ P <-> conforms s v) ->
  judges (let? _ := match value_type s with Some t => validate_type v t path | None => Ok tt end in
    let? _ := match enum_values s with Some allowed => validate_enum v allowed path | None => Ok tt end in r)
    (conforms s v).
Proof.
  intros Hr HP. eapply judges_iff; [|exact HP].
  destruct (judges_option (value_type s) (fun t => validate_type v t path) (fun t => has_type t v)
    (fun t => judges_type v t path)) as [[-> H1]|(msg & -> & H1)]; simpl.
  - eapply judges_iff.
    + apply judges_bind; [|by apply Hr]. apply judges_option. intros. apply judges_enum.
    + unfold head_ok. tauto.
  - right. eexists. split; [done|]. unfold head_ok. tauto.
Qed.

Lemma judges_items vs p path idx :
  Forall (fun w => forall s path, judges (validate_with_path w s path) (conforms s w)) vs ->
  judges (validate_items validate_with_path p path idx vs) (forall w, w ∈ vs -> conforms p w).
Proof.
  intros H. revert idx. induction H as [|w vs Hw _ IH]; intros idx; cbn [validate_items].
  { apply judges_ok. by intros w ?%elem_of_nil. }
  eapply judges_iff; [exact (judges_bind _ _ _ _ (Hw p _) (IH _))|].
  split; [by intros [Hc Hcs] x [->|Hx]%elem_of_cons; [|apply Hcs]|].
  intros Ha. split; [apply Ha; by left|]. intros x Hx. apply Ha. by right.
Qed.

Lemma judges_entries m props path :
  Forall (fun kv : string * Value => forall s path, judges (validate_with_path kv.2 s path) (conforms s kv.2)) m ->
  judges (validate_entries validate_with_path props path m)
    (forall k w p, (k, w) ∈ m -> map_get k props = Some p -> conforms p w).
Proof.
  induction 1 as [|[k w] m Hw _ IH]; cbn [validate_entries].
  { apply judges_ok. by intros k w p ?%elem_of_nil. }
  eapply judges_iff; [exact (judges_bind _ _ _ _ (judges_option (map_get k props) _ (fun p => conforms p w)
    (fun p => Hw p _)) IH)|].
  split; [intros [Hc Hcs] k' w' p [[= -> ->]|Hx]%elem_of_cons; [apply Hc|by eapply Hcs]|].
  intros Ha. split; [intros p; apply Ha; by left|]. intros k' w' p Hx. apply Ha. by right.
Qed.

Lemma validate_judges v s path : judges (validate_with_path v s path) (conforms s v).
Proof.
  revert s path. induction v as [|b|n|t|vs IH|m IH] using Value_nested_ind; intros s path; eapply judges_head.
  - intros _. exact (judges_ok True I).
  - split; [intros [[H1 H2] _]; apply conforms_intro; (exact H1 || exact H2 || discriminate)|]. inversion 1 as [? ? H1 H2 ? ? ? ? ? ?]; subst. by split.
  - intros _. exact (judges_ok True I).
  - split; [intros [[H1 H2] _]; apply conforms_intro; (exact H1 || exact H2 || discriminate)|]. inversion 1 as [? ? H1 H2 ? ? ? ? ? ?]; subst. by split.
  - intros Ht. by apply judges_number.
  - split; [intros [[H1 H2] H3]; apply conforms_intro; try (exact H1 || exact H2 || discriminate); by intros ? [= <-]|].
    inversion 1 as [? ? H1 H2 H3 ? ? ? ? ?]; subst. split; [by split|exact (H3 n eq_refl)].
  - intros _. apply judges_length.
  - split; [intros [[H1 H2] H3]; apply conforms_intro; try (exact H1 || exact H2 || discriminate); by intros ? [= <-]|].
    inversion 1 as [? ? H1 H2 ? H3 ? ? ? ?]; subst. split; [by split|exact (H3 t eq_refl)].
  - intros _. apply judges_bind; [apply judges_length|].
    exact (judges_option (items s) _ _ (fun p => judges_items vs p path 0 IH)).
  - split.
    + intros [[H1 H2] [H3 H4]]; apply conforms_intro; try (exact H1 || exact H2 || discriminate); [by intros ? [= <-]|].
      intros vs' w p [= <-] Hp Hw. exact (H4 p Hp w Hw).
    + inversion 1 as [? ? H1 H2 ? ? H3 ? ? H4]; subst. split; [by split|]. split; [exact (H3 vs eq_refl)|].
      intros p Hp w Hw. exact (H4 vs w p eq_refl Hp Hw).
  - intros _. apply judges_bind.
    + exact (judges_option (required s) _ _ (fun fields => judges_required fields m path)).
    + exact (judges_option (properties s) _ _ (fun props => judges_entries m props path IH)).
  - split.
    + intros [[H1 H2] [H3 H4]]; apply conforms_intro; try (exact H1 || exact H2 || discriminate); [intros ? fields [= <-]; exact (H3 fields)|].
      intros m' props k w p [= <-] Hp Hin Hg. exact (H4 props Hp k w p Hin Hg).
    + inversion 1 as [? ? H1 H2 ? ? ? H3 H4 ?]; subst. split; [by split|].
      split; [intros fields; exact (H3 m fields eq_refl)|]. intros props Hp k w p. exact (H4 m props k w p eq_refl Hp).
Qed.

(** C38: Validating a document against a schema succeeds exactly when the document conforms to
    the schema, parts of it included, and otherwise fails with a schema error; it never panics. *)
Theorem validate_iff_conforms (s : Schema) (v : Value) :
  (validate s v = Ok tt <-> conforms s v) /\
  (~ conforms s v -> exists msg, validate s v = Err (SchemaValidation msg)).
Proof.
  unfold validate. destruct (validate_judges v s "") as [[-> H]|(msg & -> & H)]; naive_solver.
Qed.
End schemas.
