(* ===== verification/Metadata.v ===== *)
(** * The catalogue (metadata.rs)

    [Metadata] is the table of the collections with the roots of their trees, their indexes
    and their schemas; it is kept as JSON text in one page, padded with zeroes. The file also
    holds the order in which a HashMap is iterated over, where that order can be seen. *)

From stdpp Require Import base list strings gmap.
From Stdlib Require Import NArith Lia Strings.Byte.
From S2P Require Import Prelude Constants Bytes Json IndexKey Validation.

(** ** Iteration over a HashMap and over a HashSet *)
Class HashMapOrder (K : Type) `{Countable K} := {
  map_iter : forall {A}, gmap K A -> list (K * A);
  map_iter_perm : forall A (m : gmap K A), map_iter m ≡ₚ map_to_list m }.

(** A HashSet is a HashMap to units. *)
Definition set_iter `{HashMapOrder K} (X : gset K) : list K := (map_iter (gset_to_gmap tt X)).*1.

Lemma set_iter_perm `{HashMapOrder K} (X : gset K) : set_iter X ≡ₚ elements X.
Proof.
  unfold set_iter. rewrite map_iter_perm. apply NoDup_Permutation.
  - apply NoDup_fst_map_to_list.
  - apply NoDup_elements.
  - intros x. rewrite elem_of_elements, list_elem_of_fmap. split.
    + intros ([y []] & -> & Hy). apply elem_of_map_to_list, lookup_gset_to_gmap_Some in Hy. by destruct Hy.
    + intros Hx. exists (x, tt). split; [done|]. by apply elem_of_map_to_list, lookup_gset_to_gmap_Some.
Qed.

Lemma map_iter_elem `{HashMapOrder K} {A} (m : gmap K A) k x : (k, x) ∈ map_iter m <-> m !! k = Some x.
Proof. by rewrite map_iter_perm, elem_of_map_to_list. Qed.

Lemma map_iter_nodup `{HashMapOrder K} {A} (m : gmap K A) : NoDup (map_iter m).*1.
Proof. rewrite map_iter_perm. apply NoDup_fst_map_to_list. Qed.

Lemma map_iter_empty `{HashMapOrder K} {A} : map_iter (∅ : gmap K A) = [].
Proof. apply Permutation_nil_r. by rewrite map_iter_perm, map_to_list_empty. Qed.

Definition stdpp_order K `{Countable K} : HashMapOrder K :=
  {| map_iter A m := map_to_list m; map_iter_perm A m := reflexivity (map_to_list m) |}.

(** ** Pages that hold a text and zeroes *)

(** The position of the last byte that is not zero. *)
Fixpoint rposition_nonzero (data : list byte) : option nat :=
  match data with
  | [] => None
  | b :: data =>
    match rposition_nonzero data with
    | Some i => Some (S i)
    | None => if decide (b = x00) then None else Some 0
    end
  end.

Definition trim_nul (data : list byte) : list byte :=
  match rposition_nonzero data with
  | Some pos => take (S pos) data
  | None => take 0 data
  end.

(** [if data.len() < PAGE_SIZE { data.resize(PAGE_SIZE, 0) }]. *)
Definition pad_page (data : list byte) : list byte :=
  if decide (length data < PAGE_SIZE) then data ++ replicate (PAGE_SIZE - length data) x00 else data.

Lemma rposition_zeroes n : rposition_nonzero (replicate n x00) = None.
Proof. induction n as [|n IH]; [done|]. simpl. by rewrite IH. Qed.

Lemma rposition_last data b n : b <> x00 -> rposition_nonzero ((data ++ [b]) ++ replicate n x00) = Some (length data).
Proof.
  intros Hb. induction data as [|c data IH]; simpl; [|by rewrite IH].
  rewrite rposition_zeroes. by rewrite decide_False.
Qed.

Lemma trim_nul_zeroes data n : last data <> Some x00 -> trim_nul (data ++ replicate n x00) = data.
Proof.
  unfold trim_nul. destruct data as [|b data _] using rev_ind.
  - intros _. rewrite app_nil_l, rposition_zeroes. done.
  - rewrite last_snoc. intros Hb. rewrite rposition_last by congruence.
    replace (S (length data)) with (length (data ++ [b])) by (rewrite length_app; simpl; lia).
    apply take_app_length.
Qed.

Lemma trim_pad data : last data <> Some x00 -> trim_nul (pad_page data) = data.
Proof.
  intros H. unfold pad_page. case_decide; [by apply trim_nul_zeroes|].
  rewrite <-(app_nil_r data) at 1. by apply (trim_nul_zeroes data 0).
Qed.

Lemma length_pad_page data : length data <= PAGE_SIZE -> length (pad_page data) = PAGE_SIZE.
Proof. intros H. unfold pad_page. case_decide; rewrite ?length_app, ?length_replicate; lia. Qed.

Lemma length_pad_page_long data : PAGE_SIZE < length data -> length (pad_page data) = length data.
Proof. intros H. unfold pad_page. by rewrite decide_False by lia. Qed.

(** ** The data *)
Record TextIndexMeta := mk_text_index {
  text_index_name : string;
  text_fields : list string;
  text_root : N }.

Record IndexMeta := mk_index {
  index_name : string;
  field : option string;
  fields : list string;
  index_root : N;
  unique : bool }.

Record CollectionMeta `{!SerdeNumber} := mk_collection {
  btree_root : N;
  indexes : gmap string IndexMeta;
  text_indexes : gmap string TextIndexMeta;
  schema : option Schema }.

Record Metadata `{!SerdeNumber} := mk_metadata { collections : gmap string CollectionMeta }.

Definition get_fields (i : IndexMeta) : list string :=
  if negb (bool_decide (fields i = [])) then fields i
  else match field i with
       | Some field => [field]
       | None => []
       end.

Definition is_compound (i : IndexMeta) : bool := bool_decide (1 < length (get_fields i)).

(** The JSON text of a catalogue: [serde_json::to_vec] and [from_slice]; the error as text. *)
Class SerdeCatalogue `{!SerdeNumber} := {
  metadata_to_vec : Metadata -> list byte + string;
  metadata_from_slice : list byte -> Metadata + string }.

(** The numbers of [schema_exact] schemas survive the text; the text of an object ends with a
    brace. *)
Class SerdeCatalogueLaws `{!SerdeNumber} `{!SerdeCatalogue} := {
  schema_exact : Schema -> Prop;
  from_slice_to_vec m data :
    metadata_to_vec m = inl data ->
    (forall name c s, collections m !! name = Some c -> schema c = Some s -> schema_exact s) ->
    metadata_from_slice data = inl m;
  to_vec_last m data : metadata_to_vec m = inl data -> last data = Some "}"%byte }.

Section metadata.
Context {numbers : SerdeNumber}.

Definition metadata_new : Metadata := mk_metadata _ ∅.

(** The entry that [get_collection] inserts for a new name. *)
Definition collection_new : CollectionMeta := mk_collection _ 0 ∅ ∅ None.

(** The caller changes the entry through the reference that the code returns: [f]. *)
Definition get_collection (name : string) (f : CollectionMeta -> CollectionMeta) (m : Metadata) : Metadata :=
  mk_metadata _ (<[name := f (default collection_new (collections m !! name))]> (collections m)).

Definition set_btree_root (root : N) (c : CollectionMeta) : CollectionMeta :=
  mk_collection _ root (indexes c) (text_indexes c) (schema c).

Definition set_indexes (f : gmap string IndexMeta -> gmap string IndexMeta) (c : CollectionMeta) : CollectionMeta :=
  mk_collection _ (btree_root c) (f (indexes c)) (text_indexes c) (schema c).

Definition set_text_indexes (f : gmap string TextIndexMeta -> gmap string TextIndexMeta) (c : CollectionMeta) : CollectionMeta :=
  mk_collection _ (btree_root c) (indexes c) (f (text_indexes c)) (schema c).

Definition set_schema_field (s : option Schema) (c : CollectionMeta) : CollectionMeta :=
  mk_collection _ (btree_root c) (indexes c) (text_indexes c) s.

Definition metadata_clone (m : Metadata) : Metadata :=
  mk_metadata _ ((fun v => mk_collection _ (btree_root v)
    ((fun iv => mk_index (index_name iv) (field iv) (fields iv) (index_root iv) (unique iv)) <$> indexes v)
    (text_indexes v) (schema v)) <$> collections m).

(** The root of a collection, 0 when there is none. *)
Definition root_of (name : string) (m : Metadata) : N :=
  match collections m !! name with Some c => btree_root c | None => 0 end.

Context {catalogue : SerdeCatalogue}.

Definition metadata_serialize (m : Metadata) : Result (list byte) :=
  match metadata_to_vec m with inl data => Ok data | inr e => Err (json_error e) end.

Definition metadata_deserialize (data : list byte) : Result Metadata :=
  match metadata_from_slice (trim_nul data) with inl m => Ok m | inr e => Err (json_error e) end.

Lemma metadata_clone_id m : metadata_clone m = m.
Proof.
  destruct m as [cs]. unfold metadata_clone. simpl. f_equal. apply map_eq. intros k.
  rewrite lookup_fmap. destruct (cs !! k) as [[r i t s]|]; [|done]. simpl. do 2 f_equal.
  apply map_eq. intros j. rewrite lookup_fmap. by destruct (i !! j) as [[]|].
Qed.

Lemma root_of_get_collection name r name' m :
  root_of name' (get_collection name (set_btree_root r) m) = if decide (name' = name) then r else root_of name' m.
Proof.
  unfold root_of, get_collection. simpl. case_decide as H; [subst; by rewrite lookup_insert_eq|].
  by rewrite lookup_insert_ne.
Qed.

(** C21: the catalogue read back from the page that it was written to, padded with zeroes, is
    the catalogue, when its text fits into a page. *)
Theorem catalogue_page_roundtrip `{!SerdeCatalogueLaws} (m : Metadata) (data : list byte)
  (Hser : metadata_serialize m = Ok data)
  (Hexact : forall name c s, collections m !! name = Some c -> schema c = Some s -> schema_exact s)
  (Hfits : length data <= PAGE_SIZE) :
  length (pad_page data) = PAGE_SIZE /\ metadata_deserialize (pad_page data) = Ok m.
Proof.
  split; [by apply length_pad_page|]. unfold metadata_serialize in Hser.
  destruct (metadata_to_vec m) as [d|] eqn:E; [|done]. injection Hser as ->.
  unfold metadata_deserialize. rewrite trim_pad by (by rewrite (to_vec_last _ _ E)).
  by rewrite (from_slice_to_vec _ _ E Hexact).
Qed.
End metadata.

(** ** An instance

    A compact text for catalogues without schemas, made of codes that end by themselves: the
    text of a value and what follows it can be told apart. *)
Record Code (A : Type) := mk_code {
  put : A -> list byte;
  take_code : list byte -> option (A * list byte);
  take_put x rest : take_code (put x ++ rest) = Some (x, rest) }.
Arguments mk_code {A} _ _ _.
Arguments put {A} _ _.
Arguments take_code {A} _ _.
Arguments take_put {A} _ _ _.

Section codes.
#[local] Unset Program Cases.

Fixpoint put_pos (p : positive) : list byte :=
  match p with xI p => x01 :: put_pos p | xO p => x02 :: put_pos p | xH => [x03] end.

Fixpoint take_pos (l : list byte) : option (positive * list byte) :=
  match l with
  | x01 :: l => match take_pos l with Some (p, l) => Some (xI p, l) | None => None end
  | x02 :: l => match take_pos l with Some (p, l) => Some (xO p, l) | None => None end
  | x03 :: l => Some (xH, l)
  | _ => None
  end.

Program Definition N_code : Code N := mk_code
  (fun n => match n with N0 => [x00] | Npos p => put_pos p end)
  (fun l => match l with x00 :: l => Some (0%N, l) | _ => match take_pos l with Some (p, l) => Some (Npos p, l) | None => None end end)
  _.
Next Obligation.
  intros [|p] rest; [done|]. assert (take_pos (put_pos p ++ rest) = Some (p, rest)) as H.
  { induction p as [p IH|p IH|]; simpl; [by rewrite IH|by rewrite IH|done]. }
  rewrite H. by destruct p.
Qed.

Program Definition map_code {A B} (f : A -> B) (g : B -> A) (Hg : forall x, g (f x) = x) (c : Code B) : Code A := mk_code
  (fun x => put c (f x))
  (fun l => match take_code c l with Some (y, l) => Some (g y, l) | None => None end) _.
Next Obligation. intros A B f g Hg c x rest. simpl. by rewrite take_put, Hg. Qed.

Program Definition pair_code {A B} (a : Code A) (b : Code B) : Code (A * B) := mk_code
  (fun x => put a x.1 ++ put b x.2)
  (fun l => match take_code a l with
            | Some (x, l) => match take_code b l with Some (y, l) => Some ((x, y), l) | None => None end
            | None => None
            end) _.
Next Obligation. intros A B a b [x y] rest. simpl. by rewrite <-app_assoc, !take_put. Qed.

Fixpoint take_list {A} (c : Code A) (n : nat) (l : list byte) : option (list A * list byte) :=
  match n with
  | 0 => Some ([], l)
  | S n => match take_code c l with
           | Some (x, l) => match take_list c n l with Some (xs, l) => Some (x :: xs, l) | None => None end
           | None => None
           end
  end.

Program Definition list_code {A} (c : Code A) : Code (list A) := mk_code
  (fun xs => put N_code (N.of_nat (length xs)) ++ concat (put c <$> xs))
  (fun l => match take_code N_code l with Some (n, l) => take_list c (N.to_nat n) l | None => None end) _.
Next Obligation.
  intros A c xs rest. simpl. rewrite <-app_assoc. pose proof (take_put N_code) as HN. simpl in HN. rewrite HN, Nat2N.id.
  induction xs as [|x xs IH]; [done|]. rewrite fmap_cons. cbn [concat length take_list].
  by rewrite <-app_assoc, take_put, IH.
Qed.

Program Definition byte_code : Code byte := mk_code
  (fun b => [b]) (fun l => match l with b :: l => Some (b, l) | [] => None end) _.
Next Obligation. done. Qed.

Definition string_code : Code string :=
  map_code String.list_byte_of_string String.string_of_list_byte String.string_of_list_byte_of_string (list_code byte_code).

Program Definition gmap_code {A} (c : Code A) : Code (gmap string A) :=
  map_code map_to_list list_to_map _ (list_code (pair_code string_code c)).
Next Obligation. intros A c m. apply list_to_map_to_list. Qed.

Program Definition bool_code : Code bool :=
  map_code (fun b : bool => if b then 1%N else 0%N) (fun n => (n =? 1)%N) _ N_code.
Next Obligation. by intros []. Qed.

Program Definition option_code {A} (c : Code A) : Code (option A) :=
  map_code (fun x => match x with Some y => [y] | None => [] end) (fun l => match l with y :: _ => Some y | [] => None end) _
    (list_code c).
Next Obligation. by intros A c []. Qed.

Program Definition index_code : Code IndexMeta :=
  map_code (fun i => (index_name i, (field i, (fields i, (index_root i, unique i)))))
    (fun '(n, (f, (fs, (r, u)))) => mk_index n f fs r u) _
    (pair_code string_code (pair_code (option_code string_code) (pair_code (list_code string_code) (pair_code N_code bool_code)))).
Next Obligation. by intros []. Qed.

Program Definition text_index_code : Code TextIndexMeta :=
  map_code (fun i => (text_index_name i, (text_fields i, text_root i))) (fun '(n, (fs, r)) => mk_text_index n fs r) _
    (pair_code string_code (pair_code (list_code string_code) N_code)).
Next Obligation. by intros []. Qed.
End codes.

Section coded.
Context {numbers : SerdeNumber}.

Notation row := (N * (gmap string IndexMeta * gmap string TextIndexMeta))%type.

Definition row_of (c : CollectionMeta) : row := (btree_root c, (indexes c, text_indexes c)).

Definition of_row (r : row) : CollectionMeta := let '(root, (ix, tx)) := r in mk_collection _ root ix tx None.

Definition rows_code : Code (gmap string row) :=
  gmap_code (pair_code N_code (pair_code (gmap_code index_code) (gmap_code text_index_code))).

Definition coded_catalogue : SerdeCatalogue := {|
  metadata_to_vec m :=
    if forallb (fun kc => match schema kc.2 with None => true | Some _ => false end) (map_to_list (collections m))
    then inl (put rows_code (row_of <$> collections m) ++ ["}"%byte]) else inr "schema";
  metadata_from_slice data :=
    match take_code rows_code data with
    | Some (rows, _) => inl (mk_metadata _ (of_row <$> rows))
    | None => inr "not a catalogue"
    end |}.

#[local] Existing Instance coded_catalogue.

#[global] Program Instance coded_catalogue_laws : SerdeCatalogueLaws := {| schema_exact _ := True |}.
Next Obligation.
  intros m data. simpl. destruct (forallb _ _) eqn:Hns; [|done]. intros [= <-] _.
  pose proof (take_put rows_code) as Hput. simpl in Hput. rewrite Hput. destruct m as [cs]. simpl. do 2 f_equal.
  simpl in Hns. apply forallb_Forall in Hns. rewrite Forall_forall in Hns.
  rewrite <-map_fmap_compose. rewrite <-(map_fmap_id cs) at 2. apply map_fmap_ext. intros k c Hc.
  specialize (Hns (k, c)). rewrite elem_of_map_to_list in Hns. specialize (Hns Hc). by destruct c as [r ix tx [s|]].
Qed.
Next Obligation.
  intros m data. simpl. destruct (forallb _ _); [|done]. intros [= <-]. by rewrite last_snoc.
Qed.
End coded.

Definition sample_catalogue : @Metadata float_numbers :=
  get_collection "users" (fun c => set_indexes <["age" := mk_index "age" None ["age"] 9 true]> (set_btree_root 7 c)) metadata_new.

Lemma catalogue_page_roundtrip_witness :
  let _ := @coded_catalogue float_numbers in
  exists data, metadata_serialize sample_catalogue = Ok data /\ metadata_deserialize (pad_page data) = Ok sample_catalogue.
Proof.
  cbv zeta. destruct (@metadata_serialize float_numbers coded_catalogue sample_catalogue) as [data| | |] eqn:E;
    [|vm_compute in E; discriminate..].
  exists data. split; [done|].
  apply (@catalogue_page_roundtrip float_numbers coded_catalogue coded_catalogue_laws sample_catalogue data E).
  - done.
  - apply Nat.leb_le. vm_compute in E. injection E as <-. vm_compute. reflexivity.
Defined.
