(* ===== verification/Watch.v ===== *)
(** * Watchers (watch.rs)

    Subscriptions to the changes of a collection. A [Sender] is the number of its channel; the
    channels whose receiver still exists hold the events that were sent and not yet received.
    The state of the storage is behind a lock, so every operation here is one critical
    section, or two for [emit_change]. *)

From stdpp Require Import base list strings gmap.
From Stdlib Require Import NArith Lia.
From S2P Require Import Prelude Constants Text Json QueryLexer QueryParser QueryGrammar.

Inductive ChangeOperation := Insert | Update | Delete.

#[global] Instance ChangeOperation_eq_dec : EqDecision ChangeOperation.
Proof. solve_decision. Defined.

Record ChangeEvent `{!SerdeNumber} := mk_event {
  ev_collection : string;
  operation : ChangeOperation;
  ev_doc_id : string;
  document : option Value }.

Record Watcher := mk_watcher {
  watcher_id : string;
  sender : N;
  filter_query : option string }.

(** [WatcherStorage], with the channels. *)
Record WatcherStorage `{!SerdeNumber} := mk_storage {
  watchers : gmap string (list Watcher);
  channels : gmap N (list ChangeEvent);
  next_channel : N }.

Record WatchHandle := mk_handle { h_collection : string; h_watcher_id : string }.

Section watch.
Context {tables : UnicodeTables} {numbers : SerdeNumber}.

Definition new_watcher_storage : WatcherStorage := mk_storage _ ∅ ∅ 0.

Definition set_watchers (f : gmap string (list Watcher) -> gmap string (list Watcher)) (st : WatcherStorage) : WatcherStorage :=
  mk_storage _ (f (watchers st)) (channels st) (next_channel st).

(** [parse_query] neither panics nor runs out of fuel. *)
Definition watcher_matches (w : Watcher) (event : ChangeEvent) : bool :=
  match filter_query w with
  | Some filter =>
    match document event with
    | Some doc =>
      match parse_query filter with
      | Ok ast => match as_object doc with Some doc_obj => eval ast doc_obj | None => false end
      | _ => false
      end
    | None => false
    end
  | None => true
  end.

(** [self.sender.send(event).is_ok()]: whether the receiver still exists. *)
Definition send (w : Watcher) (event : ChangeEvent) (st : WatcherStorage) : bool * WatcherStorage :=
  match channels st !! sender w with
  | Some queue => (true, mk_storage _ (watchers st) (<[sender w := vec_push queue event]> (channels st)) (next_channel st))
  | None => (false, st)
  end.

(** [WatchBuilder::subscribe]; the id comes from the clock and a random number. *)
Definition subscribe (watcher_id collection : string) (filter : option string) (st : WatcherStorage) :
    WatchHandle * N * WatcherStorage :=
  let ch := next_channel st in
  let watcher := mk_watcher watcher_id ch filter in
  (mk_handle collection watcher_id, ch,
   mk_storage _ (<[collection := vec_push (default [] (watchers st !! collection)) watcher]> (watchers st))
     (<[ch := []]> (channels st)) (ch + 1)).

(** The watchers of a collection that [keep] accepts stay; a collection without watchers is
    removed. *)
Definition retain_watchers (collection : string) (keep : Watcher -> bool) (st : WatcherStorage) : WatcherStorage :=
  match watchers st !! collection with
  | Some ws =>
    let ws := filter (fun w => keep w = true) ws in
    set_watchers (if bool_decide (ws = []) then delete collection else <[collection := ws]>) st
  | None => st
  end.

Definition drop_handle (h : WatchHandle) (st : WatcherStorage) : WatcherStorage :=
  retain_watchers (h_collection h) (fun w => negb (String.eqb (watcher_id w) (h_watcher_id h))) st.

Definition unsubscribe (h : WatchHandle) (st : WatcherStorage) : WatcherStorage := drop_handle h st.

(** The receiver goes away. *)
Definition drop_receiver (ch : N) (st : WatcherStorage) : WatcherStorage :=
  mk_storage _ (watchers st) (delete ch (channels st)) (next_channel st).

(** The loop over the watchers: the ids of those whose receiver is gone are collected. *)
Fixpoint emit_loop (event : ChangeEvent) (ws : list Watcher) (dead : list string) (st : WatcherStorage) :
    list string * WatcherStorage :=
  match ws with
  | [] => (dead, st)
  | w :: ws =>
    if watcher_matches w event then
      let '(sent, st) := send w event st in
      emit_loop event ws (if sent : bool then dead else vec_push dead (watcher_id w)) st
    else emit_loop event ws dead st
  end.

Definition emit_change (collection : string) (op : ChangeOperation) (doc_id : string) (doc : option Value)
    (st : WatcherStorage) : WatcherStorage :=
  let event := mk_event _ collection op doc_id doc in
  let '(dead, st) := emit_loop event (default [] (watchers st !! collection)) [] st in
  if bool_decide (dead = []) then st
  else retain_watchers collection (fun w => negb (bool_decide (watcher_id w ∈ dead))) st.

(** ** What a watcher receives *)
Inductive watch_op :=
| WSubscribe (id collection : string) (filter : option string)
| WEmit (collection : string) (op : ChangeOperation) (doc_id : string) (doc : option Value)
| WDropHandle (h : WatchHandle)
| WDropReceiver (ch : N).

Definition run_watch_op (o : watch_op) (st : WatcherStorage) : WatcherStorage :=
  match o with
  | WSubscribe id collection f => (subscribe id collection f st).2
  | WEmit collection op doc_id doc => emit_change collection op doc_id doc st
  | WDropHandle h => drop_handle h st
  | WDropReceiver ch => drop_receiver ch st
  end.

Definition run_watch (os : list watch_op) (st : WatcherStorage) : WatcherStorage :=
  foldl (fun st o => run_watch_op o st) st os.

(** The events of the operations that a watcher of [collection] is to see. *)
Definition seen_by (w : Watcher) (collection : string) (o : watch_op) : list ChangeEvent :=
  match o with
  | WEmit c op doc_id doc =>
    let event := mk_event _ c op doc_id doc in
    if bool_decide (c = collection) && watcher_matches w event then [event] else []
  | _ => []
  end.

(** The operation neither ends the subscription of [w] nor gives its id to another watcher. *)
Definition leaves_alone (w : Watcher) (collection : string) (o : watch_op) : Prop :=
  match o with
  | WSubscribe id c _ => id <> watcher_id w \/ c <> collection
  | WEmit _ _ _ _ => True
  | WDropHandle h => h_watcher_id h <> watcher_id w \/ h_collection h <> collection
  | WDropReceiver ch => ch <> sender w
  end.

(** Channels are numbered in order, every watcher has its own, and no list is empty. *)
Record storage_ok (st : WatcherStorage) : Prop := {
  sto_below : forall c ws w, watchers st !! c = Some ws -> w ∈ ws -> (sender w < next_channel st)%N;
  sto_channels : forall ch q, channels st !! ch = Some q -> (ch < next_channel st)%N;
  sto_senders : forall c ws, watchers st !! c = Some ws -> NoDup (sender <$> ws);
  sto_apart : forall c c' ws ws' w w', c <> c' -> watchers st !! c = Some ws -> watchers st !! c' = Some ws' ->
    w ∈ ws -> w' ∈ ws' -> sender w <> sender w';
  sto_nonempty : forall c ws, watchers st !! c = Some ws -> ws <> [] }.

(** [w] is the only watcher of [collection] with its id, and its receiver exists. *)
Definition subscribed (w : Watcher) (collection : string) (queue : list ChangeEvent) (st : WatcherStorage) : Prop :=
  (exists ws, watchers st !! collection = Some ws /\ w ∈ ws /\
    forall w', w' ∈ ws -> watcher_id w' = watcher_id w -> w' = w) /\
  channels st !! sender w = Some queue.

Implicit Types (st : WatcherStorage) (w : Watcher).

Lemma storage_new_ok : storage_ok new_watcher_storage.
Proof. split; simpl; intros *; by rewrite ?lookup_empty. Qed.

Lemma retain_lookup c keep st c' :
  watchers (retain_watchers c keep st) !! c' =
    if decide (c' = c) then
      match watchers st !! c with
      | Some ws => let ws := filter (fun w => keep w = true) ws in if bool_decide (ws = []) then None else Some ws
      | None => None
      end
    else watchers st !! c'.
Proof.
  unfold retain_watchers. destruct (watchers st !! c) as [ws|] eqn:E; [|by case_decide; subst].
  cbv zeta. case_decide as Hc; [subst c'|]; simpl; case_bool_decide.
  - by rewrite lookup_delete_eq.
  - by rewrite lookup_insert_eq.
  - by rewrite lookup_delete_ne.
  - by rewrite lookup_insert_ne.
Qed.

Lemma retain_channels c keep st : channels (retain_watchers c keep st) = channels st.
Proof. unfold retain_watchers. by destruct (watchers st !! c). Qed.

Lemma retain_next c keep st : next_channel (retain_watchers c keep st) = next_channel st.
Proof. unfold retain_watchers. by destruct (watchers st !! c). Qed.

Lemma retain_kept c keep st c' ws' :
  watchers (retain_watchers c keep st) !! c' = Some ws' ->
  exists ws, watchers st !! c' = Some ws /\ ws' `sublist_of` ws /\ (ws <> [] -> ws' <> []).
Proof.
  rewrite retain_lookup. case_decide as Hc; [subst c'|intros H; by exists ws'].
  destruct (watchers st !! c) as [ws|]; [|done]. cbv zeta. case_bool_decide; [done|].
  intros [= <-]. exists ws. split_and!; [done|apply sublist_filter|done].
Qed.

Lemma sublist_fmap {A B} (f : A -> B) l l' : l `sublist_of` l' -> f <$> l `sublist_of` f <$> l'.
Proof. induction 1; simpl; by constructor. Qed.

(** Watchers may go, and queues may change. *)
Lemma storage_ok_shrink st st' :
  storage_ok st -> next_channel st' = next_channel st ->
  (forall ch q, channels st' !! ch = Some q -> is_Some (channels st !! ch)) ->
  (forall c ws', watchers st' !! c = Some ws' ->
    exists ws, watchers st !! c = Some ws /\ ws' `sublist_of` ws /\ (ws <> [] -> ws' <> [])) ->
  storage_ok st'.
Proof.
  intros [H1 H2 H3 H4 H5] Hn Hch Hws.
  assert (forall c ws' w, watchers st' !! c = Some ws' -> w ∈ ws' -> exists ws, watchers st !! c = Some ws /\ w ∈ ws) as Hin.
  { intros c ws' w Hc Hw. destruct (Hws _ _ Hc) as (ws & ? & Hs & _). exists ws. split; [done|].
    by eapply elem_of_sublist. }
  split.
  - intros c ws' w Hc Hw. destruct (Hin _ _ _ Hc Hw) as (ws & ? & ?). rewrite Hn. by eapply H1.
  - intros ch q Hq. rewrite Hn. destruct (Hch _ _ Hq) as [q' ?]. by eapply H2.
  - intros c ws' Hc. destruct (Hws _ _ Hc) as (ws & ? & Hs & _).
    eapply sublist_NoDup; [by eapply H3|by apply sublist_fmap].
  - intros c c' ws ws' w w' Hne Hc Hc' Hw Hw'.
    destruct (Hin _ _ _ Hc Hw) as (? & ? & ?). destruct (Hin _ _ _ Hc' Hw') as (? & ? & ?). by eapply H4.
  - intros c ws' Hc. destruct (Hws _ _ Hc) as (ws & ? & _ & Hne). by eapply Hne, H5.
Qed.

Lemma retain_ok c keep st : storage_ok st -> storage_ok (retain_watchers c keep st).
Proof.
  intros H. eapply storage_ok_shrink; [done|apply retain_next| |intros ?? Hw; by eapply retain_kept].
  intros ch q. rewrite retain_channels. by exists q.
Qed.

Lemma subscribe_ok id c f st : storage_ok st -> storage_ok (subscribe id c f st).2.
Proof.
  intros [H1 H2 H3 H4 H5]. simpl. set (w0 := mk_watcher id (next_channel st) f).
  assert (forall c' ws w, <[c := vec_push (default [] (watchers st !! c)) w0]> (watchers st) !! c' = Some ws ->
    w ∈ ws -> w = w0 /\ c' = c \/ exists ws0, watchers st !! c' = Some ws0 /\ w ∈ ws0) as Hin.
  { intros c' ws w [[<- <-]|[? ?]]%lookup_insert_Some Hw; [|right; by exists ws].
    unfold vec_push in Hw. apply elem_of_app in Hw as [Hw|Hw%list_elem_of_singleton]; [right|by left].
    destruct (watchers st !! c) as [ws|]; [by exists ws|by apply elem_of_nil in Hw]. }
  split; simpl.
  - intros c' ws w Hc Hw. destruct (Hin _ _ _ Hc Hw) as [[-> _]|(ws0 & ? & ?)]; [simpl; lia|].
    pose proof (H1 _ _ _ ltac:(done) ltac:(done)). lia.
  - intros ch q [[<- <-]|[? Hq]]%lookup_insert_Some; [lia|]. apply H2 in Hq. lia.
  - intros c' ws [[<- <-]|[? ?]]%lookup_insert_Some; [|by eapply H3].
    unfold vec_push. rewrite fmap_app. apply NoDup_app. split_and!; [| |apply NoDup_singleton].
    + destruct (watchers st !! c) eqn:E; [by eapply H3|constructor].
    + intros ch Hch ->%list_elem_of_singleton. apply list_elem_of_fmap in Hch as (w & Hs & Hw).
      destruct (watchers st !! c) eqn:E; [|by apply elem_of_nil in Hw]. simpl in *.
      pose proof (H1 _ _ _ E Hw). lia.
  - intros c1 c2 ws1 ws2 w1 w2 Hne Hc1 Hc2 Hw1 Hw2.
    destruct (Hin _ _ _ Hc1 Hw1) as [[-> ->]|(ws3 & H31 & H32)], (Hin _ _ _ Hc2 Hw2) as [[-> ->]|(ws4 & H41 & H42)].
    + done.
    + pose proof (H1 _ _ _ H41 H42). simpl. lia.
    + pose proof (H1 _ _ _ H31 H32). simpl. lia.
    + by eapply H4.
  - intros c' ws [[<- <-]|[? ?]]%lookup_insert_Some; [|by eapply H5]. unfold vec_push. by intros [_ ?]%app_nil.
Qed.

(** *** One event *)

Definition due (event : ChangeEvent) (ws : list Watcher) (ch : N) : bool :=
  existsb (fun w => watcher_matches w event && (sender w =? ch)%N) ws.

(** The loop appends the event to the channels of the watchers that match, once each, and
    finds the watchers without a receiver. *)
Lemma emit_loop_spec event ws dead st :
  NoDup (sender <$> ws) ->
  let '(dead', st') := emit_loop event ws dead st in
  watchers st' = watchers st /\ next_channel st' = next_channel st /\
  (forall ch, channels st' !! ch =
    if due event ws ch then (fun q => vec_push q event) <$> (channels st !! ch) else channels st !! ch) /\
  (forall id, id ∈ dead' <-> id ∈ dead \/ exists w, w ∈ ws /\ watcher_id w = id /\ watcher_matches w event = true /\
    channels st !! sender w = None).
Proof.
  revert dead st. induction ws as [|w ws IH]; intros dead st Hnd; simpl.
  { split_and!; try done. intros id. split; [by left|]. intros [?|(w & Hw & _)]; [done|by apply elem_of_nil in Hw]. }
  apply NoDup_cons in Hnd as [Hnw Hnd].
  assert (due event ws (sender w) = false) as Hdue.
  { unfold due. apply not_true_iff_false. rewrite existsb_exists. intros (w' & Hw' & E). bool_hyps.
    apply Hnw, list_elem_of_fmap. exists w'. split; [done|by apply list_elem_of_In]. }
  destruct (watcher_matches w event) eqn:Hm; cbn [andb].
  - unfold send. destruct (channels st !! sender w) as [q|] eqn:Hq.
    + set (st1 := mk_storage _ _ _ _). specialize (IH dead st1 Hnd).
      destruct (emit_loop event ws dead st1) as [dead' st']. destruct IH as (H1 & H2 & H3 & H4). split_and!; try done.
      * intros ch. rewrite H3. subst st1. simpl. destruct (N.eqb_spec (sender w) ch) as [<-|Hne]; simpl.
        -- by rewrite Hdue, lookup_insert_eq, Hq.
        -- rewrite lookup_insert_ne by done. done.
      * intros id. rewrite H4. subst st1. simpl. split; (intros [?|(w' & Hw' & He & Hm' & Hn)]; [by left|right]).
        -- exists w'. split_and!; [by right|done|done|].
           by apply lookup_insert_None in Hn as [? _].
        -- exists w'. apply elem_of_cons in Hw' as [->|Hw']; [congruence|]. split_and!; try done.
           rewrite lookup_insert_ne; [done|]. intros E. apply Hnw, list_elem_of_fmap. by exists w'.
    + specialize (IH (vec_push dead (watcher_id w)) st Hnd).
      destruct (emit_loop event ws _ st) as [dead' st']. destruct IH as (H1 & H2 & H3 & H4). split_and!; try done.
      * intros ch. rewrite H3. destruct (N.eqb_spec (sender w) ch) as [<-|Hne]; simpl; [by rewrite Hdue, Hq|done].
      * intros id. rewrite H4. unfold vec_push. rewrite elem_of_app, list_elem_of_singleton. split.
        -- intros [[?| ->]|(w' & Hw' & He & Hm' & Hn)]; [by left|right|right].
           ++ exists w. split_and!; [by left|done..].
           ++ exists w'. split_and!; [by right|done..].
        -- intros [?|(w' & Hw' & He & Hm' & Hn)]; [by left; left|].
           apply elem_of_cons in Hw' as [->|Hw']; [by left; right|]. right. by exists w'.
  - specialize (IH dead st Hnd). destruct (emit_loop event ws dead st) as [dead' st'].
    destruct IH as (H1 & H2 & H3 & H4). split_and!; try done.
    intros id. rewrite H4. split; (intros [?|(w' & Hw' & He & Hm' & Hn)]; [by left|right]); exists w'.
    + split_and!; [by right|done..].
    + apply elem_of_cons in Hw' as [->|Hw']; [congruence|]. by split_and!.
Qed.

Lemma emit_change_spec c op doc_id doc st :
  storage_ok st ->
  let event := mk_event _ c op doc_id doc in
  let ws := default [] (watchers st !! c) in
  let st' := emit_change c op doc_id doc st in
  next_channel st' = next_channel st /\
  (forall ch, channels st' !! ch =
    if due event ws ch then (fun q => vec_push q event) <$> (channels st !! ch) else channels st !! ch) /\
  exists dead st1, watchers st1 = watchers st /\
    watchers st' = (if bool_decide (dead = []) then watchers st
                    else watchers (retain_watchers c (fun w => negb (bool_decide (watcher_id w ∈ dead))) st1)) /\
    (forall id, id ∈ dead <-> exists w, w ∈ ws /\ watcher_id w = id /\ watcher_matches w event = true /\
      channels st !! sender w = None).
Proof.
  intros Hok event ws st'.
  assert (NoDup (sender <$> ws)) as Hnd.
  { subst ws. destruct (watchers st !! c) eqn:E; [by eapply sto_senders|constructor]. }
  pose proof (emit_loop_spec event ws [] st Hnd) as Hl. unfold emit_change in st'. fold event in st'. fold ws in st'.
  destruct (emit_loop event ws [] st) as [dead st1]. destruct Hl as (H1 & H2 & H3 & H4).
  assert (forall id, id ∈ dead <-> exists w, w ∈ ws /\ watcher_id w = id /\ watcher_matches w event = true /\
    channels st !! sender w = None) as Hdead.
  { intros id. rewrite H4. split; [intros [?%elem_of_nil|?]; done|by right]. }
  subst st'. case_bool_decide.
  - split_and!; [done|done|]. exists dead, st1. rewrite bool_decide_eq_true_2 by done. done.
  - rewrite retain_next, retain_channels. split_and!; [done|done|]. exists dead, st1.
    rewrite bool_decide_eq_false_2 by done. done.
Qed.

Lemma emit_change_ok c op doc_id doc st : storage_ok st -> storage_ok (emit_change c op doc_id doc st).
Proof.
  intros Hok. pose proof (emit_change_spec c op doc_id doc st Hok) as (H1 & H2 & dead & st1 & Hst1 & Hws & _).
  eapply storage_ok_shrink; [done|done| |].
  - intros ch q Hq. rewrite H2 in Hq. destruct (due _ _ ch); [|by exists q].
    apply fmap_Some in Hq as (q' & -> & _). by exists q'.
  - intros c' ws' Hc'. rewrite Hws in Hc'. case_bool_decide; [by exists ws'|].
    apply retain_kept in Hc'. by rewrite Hst1 in Hc'.
Qed.

Lemma run_watch_op_ok o st : storage_ok st -> storage_ok (run_watch_op o st).
Proof.
  intros Hok. destruct o as [id c f|c op d doc|h|ch]; cbn [run_watch_op].
  - by apply subscribe_ok.
  - by apply emit_change_ok.
  - by apply retain_ok.
  - eapply storage_ok_shrink; [done|done| |].
    + intros ch' q. simpl. intros [_ ?]%lookup_delete_Some. by exists q.
    + intros c ws Hc. by exists ws.
Qed.

(** *** A subscription *)
Lemma retain_subscribed w c queue keep c' st :
  subscribed w c queue st -> (c' = c -> keep w = true) -> subscribed w c queue (retain_watchers c' keep st).
Proof.
  intros [(ws & Hc & Hw & Huniq) Hq] Hkeep. split; [|by rewrite retain_channels].
  rewrite retain_lookup. case_decide as Hcc; [subst c'|by exists ws]. rewrite Hc. cbv zeta.
  assert (w ∈ filter (fun w => keep w = true) ws) as Hin by (apply list_elem_of_filter; auto).
  rewrite bool_decide_eq_false_2 by (intros E; rewrite E in Hin; by apply elem_of_nil in Hin).
  eexists. split_and!; [done|done|]. intros w' [_ Hw']%list_elem_of_filter. by apply Huniq.
Qed.

Lemma due_subscribed w c queue st event :
  storage_ok st -> subscribed w c queue st ->
  due event (default [] (watchers st !! ev_collection event)) (sender w) =
    bool_decide (ev_collection event = c) && watcher_matches w event.
Proof.
  intros Hok [(ws & Hc & Hw & _) _]. apply eq_true_iff_eq. unfold due.
  rewrite existsb_exists, andb_true_iff, bool_decide_eq_true.
  split.
  - intros (w' & Hw' & E). bool_hyps. apply list_elem_of_In in Hw'.
    destruct (watchers st !! ev_collection event) as [ws'|] eqn:E'; [|by apply elem_of_nil in Hw'].
    destruct (decide (ev_collection event = c)) as [Hcc|Hne].
    + rewrite Hcc, Hc in E'. injection E' as <-. split; [done|].
      assert (w' = w) as ->; [|done].
      pose proof (sto_senders _ Hok _ _ Hc) as Hnd. simpl in Hw'.
      apply list_elem_of_lookup in Hw as [i Hi]. apply list_elem_of_lookup in Hw' as [j Hj].
      assert (i = j) as <-; [|congruence].
      eapply NoDup_lookup; [exact Hnd|by rewrite list_lookup_fmap, Hi|rewrite list_lookup_fmap, Hj; simpl; congruence].
    + exfalso. by eapply (sto_apart _ Hok _ _ _ _ w' w Hne E' Hc).
  - intros [Hcc Hm]. exists w. rewrite Hcc, Hc. simpl. split; [by apply list_elem_of_In|].
    by rewrite Hm, N.eqb_refl.
Qed.

Lemma watch_step w c queue o st :
  storage_ok st -> subscribed w c queue st -> leaves_alone w c o ->
  subscribed w c (queue ++ seen_by w c o) (run_watch_op o st).
Proof.
  intros Hok Hsub Ho. pose proof Hsub as [(ws & Hc & Hw & Huniq) Hq].
  destruct o as [id c' f|c' op d doc|h|ch]; cbn [run_watch_op seen_by leaves_alone] in *; rewrite ?app_nil_r.
  - split; simpl.
    + destruct (decide (c' = c)) as [->|Hne]; [|rewrite lookup_insert_ne by done; by exists ws].
      rewrite lookup_insert_eq, Hc. simpl. eexists. split_and!; [done|apply elem_of_app; by left|].
      intros w' [Hw'| ->%list_elem_of_singleton]%elem_of_app; [by apply Huniq|]. simpl. by destruct Ho.
    + rewrite lookup_insert_ne; [done|]. pose proof (sto_below _ Hok _ _ _ Hc Hw). lia.
  - set (event := mk_event _ c' op d doc).
    pose proof (emit_change_spec c' op d doc st Hok) as (_ & Hch & dead & st1 & Hst1 & Hws & Hdead). fold event in Hch, Hdead.
    assert (watcher_id w ∈ dead -> c' = c -> False) as Hnd.
    { intros Hin ->. apply Hdead in Hin as (w' & Hw' & Hid & _ & Hn). rewrite Hc in Hw'. simpl in Hw'.
      apply Huniq in Hid; [|done]. subst w'. congruence. }
    split.
    + rewrite Hws. case_bool_decide; [by exists ws|].
      assert (subscribed w c queue (mk_storage _ (watchers st1) (channels st) (next_channel st1))) as Hs1.
      { split; [|done]. simpl. rewrite Hst1. by exists ws. }
      pose proof (retain_subscribed w c queue (fun w => negb (bool_decide (watcher_id w ∈ dead))) c' _ Hs1) as [Hr _].
      { intros ->. apply negb_true_iff, bool_decide_eq_false_2. auto. }
      destruct Hr as (ws1 & H1 & H2). exists ws1. split; [|done]. rewrite <-H1, !retain_lookup. simpl. done.
    + rewrite Hch. pose proof (due_subscribed w c queue st event Hok Hsub) as Hdue. simpl in Hdue. rewrite Hdue.
      destruct (bool_decide (c' = c) && watcher_matches w event); [by rewrite Hq|by rewrite app_nil_r].
  - apply retain_subscribed; [done|]. intros E. destruct Ho as [Hid|?]; [|done].
    apply negb_true_iff, String.eqb_neq. congruence.
  - split; [by exists ws|]. simpl. by rewrite lookup_delete_ne.
Qed.

(** C20: whatever else happens to the storage, the receiver of a subscription gets exactly the
    events of its collection that match its filter, each once and in order, as long as its
    handle and its receiver exist. *)
Theorem watcher_receives_matching_events w c queue os st
  (Hok : storage_ok st) (Hsub : subscribed w c queue st) (Hos : Forall (leaves_alone w c) os) :
  subscribed w c (queue ++ concat (seen_by w c <$> os)) (run_watch os st).
Proof.
  revert queue st Hok Hsub. induction Hos as [|o os Ho Hos IH]; intros queue st Hok Hsub.
  - simpl. by rewrite app_nil_r.
  - rewrite fmap_cons. cbn [concat run_watch foldl]. rewrite app_assoc. apply IH; [by apply run_watch_op_ok|].
    by apply watch_step.
Qed.
End watch.

Lemma watcher_receives_matching_events_witness :
  let w := mk_watcher "a" 0 (Some "age exists") in
  let os := [WEmit "users" Update "d" None; WSubscribe "b" "users" None; WEmit "users" Insert "e" (Some (@Object float_numbers [("age", Null)]));
             WEmit "posts" Insert "f" None] in
  @subscribed float_numbers w "users" [] (@subscribe float_numbers "a" "users" (Some "age exists") new_watcher_storage).2 /\
  @subscribed float_numbers w "users" ([] ++ concat (@seen_by ascii_tables float_numbers w "users" <$> os))
    (@run_watch ascii_tables float_numbers os (@subscribe float_numbers "a" "users" (Some "age exists") new_watcher_storage).2).
Proof.
  intros w os.
  assert (@subscribed float_numbers w "users" [] (@subscribe float_numbers "a" "users" (Some "age exists") new_watcher_storage).2) as Hs.
  { split; [|done]. exists [w]. split_and!; [done|by left|]. by intros w' ->%list_elem_of_singleton. }
  split; [exact Hs|].
  apply (@watcher_receives_matching_events ascii_tables float_numbers w "users" [] os); [|exact Hs|].
  - apply subscribe_ok, storage_new_ok.
  - repeat constructor; simpl; auto.
Defined.
