(* ===== verification/DatabaseState.v ===== *)
(** * The shared state of a database

    The fields of [Database] (database.rs) that its transactions and its collections share,
    as one state; a method on the database is a computation over it. The record also holds
    what the environment decides: how often the clock was read, and what other threads append
    to the queue of commits while the leader waits. *)

From stdpp Require Import base list strings gmap.
From Stdlib Require Import NArith Lia Strings.Byte.
From S2P Require Import Prelude Constants Bytes Json Pager Wal Mvcc Validation Metadata Watch.

(** ** Configuration *)
Record TransactionConfig := mk_tx_config {
  max_retries : nat;
  retry_backoff_base_ms : N;
  max_retry_backoff_ms : N }.

Definition tx_config_default : TransactionConfig := mk_tx_config 3 1 100.

Record DatabaseOptions := mk_options {
  opt_cache_size : nat;
  opt_auto_checkpoint_threshold : N;
  file_permissions : N;
  opt_read_only : bool;
  opt_max_bulk_operations : nat;
  opt_max_document_size : nat;
  opt_max_request_body_size : nat }.

Definition options_default : DatabaseOptions :=
  mk_options (N.to_nat 25000) 1000 420 false (N.to_nat 100000) (N.to_nat 67108864) (N.to_nat 52428800).

Record BatchConfig := mk_batch_config {
  enabled : bool;
  max_batch_size : nat;
  collect_timeout_micros : N }.

Definition batch_config_default : BatchConfig := mk_batch_config true 32 100.

(** ** Transactions that wait in the queue

    [completion] is the address of the cell that the leader puts the result into. *)
Record PendingWrite := mk_pending {
  p_writes : gmap N (list byte);
  p_doc_writes : gmap string (gmap string N);
  p_snapshot_roots : gmap string N;
  p_updated_roots : gmap string N;
  p_old_versions : gmap string (gmap string DocumentVersion);
  p_modified : gset string;
  p_existed : gmap string (gmap string bool);
  p_xmin : gmap string (gmap string N);
  p_tx_id : N;
  p_snapshot_id : N;
  p_mvcc_tx_id : N;
  completion : N }.

Definition set_p_writes (ws : gmap N (list byte)) (p : PendingWrite) : PendingWrite :=
  mk_pending ws (p_doc_writes p) (p_snapshot_roots p) (p_updated_roots p) (p_old_versions p) (p_modified p)
    (p_existed p) (p_xmin p) (p_tx_id p) (p_snapshot_id p) (p_mvcc_tx_id p) (completion p).

Definition set_p_root (name : string) (root : N) (p : PendingWrite) : PendingWrite :=
  mk_pending (p_writes p) (p_doc_writes p) (p_snapshot_roots p) (<[name := root]> (p_updated_roots p)) (p_old_versions p)
    (p_modified p) (p_existed p) (p_xmin p) (p_tx_id p) (p_snapshot_id p) (p_mvcc_tx_id p) (completion p).

(** ** The database *)
Record Database `{!SerdeNumber} := mk_db {
  pager : Pager.Pager;
  wal : Wal.WALInner;
  metadata : Metadata;
  tx_manager : TransactionManager;
  read_only : bool;
  version_chains : chain_table;
  tx_config : TransactionConfig;
  auto_checkpoint_threshold : N;
  checkpoint_in_progress : bool;
  watcher_storage : WatcherStorage;
  tx_id_counter : N;
  pending_writes : list PendingWrite;
  batch_config : BatchConfig;
  max_bulk_operations : nat;
  max_document_size : nat;
  completions : gmap N (option (Result unit));
  ticks : nat;
  wakes : list (option (list PendingWrite)) }.

(** The milliseconds that successive readings of the clock give. *)
Class Clock := time_at : nat -> N.

Section state.
Context {numbers : SerdeNumber}.

Definition with_pager (f : Pager.Pager -> Pager.Pager) (d : Database) : Database :=
  mk_db _ (f (pager d)) (wal d) (metadata d) (tx_manager d) (read_only d) (version_chains d) (tx_config d) (auto_checkpoint_threshold d) (checkpoint_in_progress d) (watcher_storage d) (tx_id_counter d) (pending_writes d) (batch_config d) (max_bulk_operations d) (max_document_size d) (completions d) (ticks d) (wakes d).
Definition with_wal (f : Wal.WALInner -> Wal.WALInner) (d : Database) : Database :=
  mk_db _ (pager d) (f (wal d)) (metadata d) (tx_manager d) (read_only d) (version_chains d) (tx_config d) (auto_checkpoint_threshold d) (checkpoint_in_progress d) (watcher_storage d) (tx_id_counter d) (pending_writes d) (batch_config d) (max_bulk_operations d) (max_document_size d) (completions d) (ticks d) (wakes d).
Definition with_metadata (f : Metadata -> Metadata) (d : Database) : Database :=
  mk_db _ (pager d) (wal d) (f (metadata d)) (tx_manager d) (read_only d) (version_chains d) (tx_config d) (auto_checkpoint_threshold d) (checkpoint_in_progress d) (watcher_storage d) (tx_id_counter d) (pending_writes d) (batch_config d) (max_bulk_operations d) (max_document_size d) (completions d) (ticks d) (wakes d).
Definition with_tx_manager (f : TransactionManager -> TransactionManager) (d : Database) : Database :=
  mk_db _ (pager d) (wal d) (metadata d) (f (tx_manager d)) (read_only d) (version_chains d) (tx_config d) (auto_checkpoint_threshold d) (checkpoint_in_progress d) (watcher_storage d) (tx_id_counter d) (pending_writes d) (batch_config d) (max_bulk_operations d) (max_document_size d) (completions d) (ticks d) (wakes d).
Definition with_version_chains (f : chain_table -> chain_table) (d : Database) : Database :=
  mk_db _ (pager d) (wal d) (metadata d) (tx_manager d) (read_only d) (f (version_chains d)) (tx_config d) (auto_checkpoint_threshold d) (checkpoint_in_progress d) (watcher_storage d) (tx_id_counter d) (pending_writes d) (batch_config d) (max_bulk_operations d) (max_document_size d) (completions d) (ticks d) (wakes d).
Definition with_tx_config (f : TransactionConfig -> TransactionConfig) (d : Database) : Database :=
  mk_db _ (pager d) (wal d) (metadata d) (tx_manager d) (read_only d) (version_chains d) (f (tx_config d)) (auto_checkpoint_threshold d) (checkpoint_in_progress d) (watcher_storage d) (tx_id_counter d) (pending_writes d) (batch_config d) (max_bulk_operations d) (max_document_size d) (completions d) (ticks d) (wakes d).
Definition with_auto_checkpoint_threshold (f : N -> N) (d : Database) : Database :=
  mk_db _ (pager d) (wal d) (metadata d) (tx_manager d) (read_only d) (version_chains d) (tx_config d) (f (auto_checkpoint_threshold d)) (checkpoint_in_progress d) (watcher_storage d) (tx_id_counter d) (pending_writes d) (batch_config d) (max_bulk_operations d) (max_document_size d) (completions d) (ticks d) (wakes d).
Definition with_checkpoint_in_progress (f : bool -> bool) (d : Database) : Database :=
  mk_db _ (pager d) (wal d) (metadata d) (tx_manager d) (read_only d) (version_chains d) (tx_config d) (auto_checkpoint_threshold d) (f (checkpoint_in_progress d)) (watcher_storage d) (tx_id_counter d) (pending_writes d) (batch_config d) (max_bulk_operations d) (max_document_size d) (completions d) (ticks d) (wakes d).
Definition with_watcher_storage (f : WatcherStorage -> WatcherStorage) (d : Database) : Database :=
  mk_db _ (pager d) (wal d) (metadata d) (tx_manager d) (read_only d) (version_chains d) (tx_config d) (auto_checkpoint_threshold d) (checkpoint_in_progress d) (f (watcher_storage d)) (tx_id_counter d) (pending_writes d) (batch_config d) (max_bulk_operations d) (max_document_size d) (completions d) (ticks d) (wakes d).
Definition with_tx_id_counter (f : N -> N) (d : Database) : Database :=
  mk_db _ (pager d) (wal d) (metadata d) (tx_manager d) (read_only d) (version_chains d) (tx_config d) (auto_checkpoint_threshold d) (checkpoint_in_progress d) (watcher_storage d) (f (tx_id_counter d)) (pending_writes d) (batch_config d) (max_bulk_operations d) (max_document_size d) (completions d) (ticks d) (wakes d).
Definition with_pending_writes (f : list PendingWrite -> list PendingWrite) (d : Database) : Database :=
  mk_db _ (pager d) (wal d) (metadata d) (tx_manager d) (read_only d) (version_chains d) (tx_config d) (auto_checkpoint_threshold d) (checkpoint_in_progress d) (watcher_storage d) (tx_id_counter d) (f (pending_writes d)) (batch_config d) (max_bulk_operations d) (max_document_size d) (completions d) (ticks d) (wakes d).
Definition with_completions (f : gmap N (option (Result unit)) -> gmap N (option (Result unit))) (d : Database) : Database :=
  mk_db _ (pager d) (wal d) (metadata d) (tx_manager d) (read_only d) (version_chains d) (tx_config d) (auto_checkpoint_threshold d) (checkpoint_in_progress d) (watcher_storage d) (tx_id_counter d) (pending_writes d) (batch_config d) (max_bulk_operations d) (max_document_size d) (f (completions d)) (ticks d) (wakes d).
Definition with_ticks (f : nat -> nat) (d : Database) : Database :=
  mk_db _ (pager d) (wal d) (metadata d) (tx_manager d) (read_only d) (version_chains d) (tx_config d) (auto_checkpoint_threshold d) (checkpoint_in_progress d) (watcher_storage d) (tx_id_counter d) (pending_writes d) (batch_config d) (max_bulk_operations d) (max_document_size d) (completions d) (f (ticks d)) (wakes d).
Definition with_wakes (f : list (option (list PendingWrite)) -> list (option (list PendingWrite))) (d : Database) : Database :=
  mk_db _ (pager d) (wal d) (metadata d) (tx_manager d) (read_only d) (version_chains d) (tx_config d) (auto_checkpoint_threshold d) (checkpoint_in_progress d) (watcher_storage d) (tx_id_counter d) (pending_writes d) (batch_config d) (max_bulk_operations d) (max_document_size d) (completions d) (ticks d) (f (wakes d)).

Notation DM := (ST Database Error).

Definition on_pager {A} (m : ST Pager.Pager Error A) : DM A := fun d =>
  let '(r, p) := m (pager d) in (r, with_pager (fun _ => p) d).

Definition on_wal {A} (m : ST Wal.WALInner Error A) : DM A := fun d =>
  let '(r, w) := m (wal d) in (r, with_wal (fun _ => w) d).

(** [for x in l { f(x)?; }]. *)
Fixpoint st_each {S A} (f : A -> ST S Error unit) (l : list A) : ST S Error unit :=
  match l with
  | [] => st_ret tt
  | x :: l => let! _ := f x in st_each f l
  end.

Definition get_metadata : DM Metadata := st_get (fun d => metadata_clone (metadata d)).

Definition update_metadata_no_flush (f : Metadata -> Metadata) : DM unit := st_modify (with_metadata f).

Context {clock : Clock}.

Definition read_clock : DM N := fun d => (Ok (time_at (ticks d)), with_ticks S d).

Definition wal_write_frame (tx pn : N) (data : list byte) : DM unit :=
  let! now := read_clock in on_wal (Wal.write_frame now tx pn data).

Definition wal_refresh_frame_count : DM unit := let! now := read_clock in on_wal (Wal.refresh_frame_count now).

(** [self.wal.checkpoint(&self.pager)]. *)
Definition wal_checkpoint : DM unit :=
  let! now := read_clock in
  fun d => let '(r, (w, p)) := Wal.checkpoint now (wal d, pager d) in (r, with_pager (fun _ => p) (with_wal (fun _ => w) d)).

Definition checkpoint : DM unit :=
  let! ro := st_get read_only in
  if ro : bool then st_fail (Other "cannot checkpoint in read-only mode") else wal_checkpoint.

Definition frame_count : DM N := on_wal (let! n := Wal.frame_count in st_ret (N.of_nat n)).

(** The checkpoint runs in a thread of its own: [background_checkpoint], later. *)
Definition maybe_auto_checkpoint : DM unit :=
  let! threshold := st_get auto_checkpoint_threshold in
  if (threshold =? 0)%N then st_ret tt else
  let! n := frame_count in
  if (n <? threshold)%N then st_ret tt else
  let! in_progress := st_get checkpoint_in_progress in
  if in_progress : bool then st_ret tt else
  st_modify (with_checkpoint_in_progress (fun _ => true)).

Definition background_checkpoint : DM unit :=
  let! _ := st_ok wal_checkpoint in
  st_modify (with_checkpoint_in_progress (fun _ => false)).

Context {catalogue : SerdeCatalogue}.

Definition update_metadata (f : Metadata -> Metadata) : DM unit :=
  let! ro := st_get read_only in
  if ro : bool then st_fail (Other "database is read-only") else
  let! _ := st_modify (with_metadata f) in
  let! m := st_get metadata in
  let! meta_data := st_lift (metadata_serialize m) in
  let meta_data := pad_page meta_data in
  let! meta_page := st_get (fun d => Pager.metadata_page (pager d)) in
  let! _ :=
    if (0 <? meta_page)%N then on_pager (Pager.write_page_transfer meta_page meta_data) else
    let! new_meta_page := on_pager Pager.alloc_page in
    let! _ := on_pager (Pager.write_page_transfer new_meta_page meta_data) in
    let! _ := on_pager (Pager.set_metadata_page new_meta_page) in
    on_pager Pager.write_header in
  on_pager Pager.flush.

Definition save_metadata : DM unit := update_metadata (fun m => m).

Definition set_transaction_config (c : TransactionConfig) : DM unit := st_modify (with_tx_config (fun _ => c)).
Definition get_transaction_config : DM TransactionConfig := st_get tx_config.
Definition set_auto_checkpoint_threshold (n : N) : DM unit := st_modify (with_auto_checkpoint_threshold (fun _ => n)).
End state.
