(* ===== verification/Transaction.v ===== *)
(** * Transactions (transaction.rs)

    A transaction buffers its pages and remembers which documents it wrote; a commit checks
    for conflicts, rebases the trees that others changed meanwhile, logs the pages and installs
    the new roots in the catalogue. Commits go through a queue: the transaction that holds
    the commit lock serves batches of the others too. The state of a method is the
    transaction and the shared state of its database. A method is one atomic step, except
    that [submit] and [lead] are the two parts of [commit_batched] between which other
    transactions run. *)

From stdpp Require Import base list strings gmap pretty.
From Stdlib Require Import NArith Lia Strings.Byte.
From S2P Require Import Prelude Constants Bytes Text PageStore Json IndexKey LruCache Pager Document BTreeNode BTree Wal Mvcc.
From S2P Require Import Validation TxBTree Metadata Watch DatabaseState.

#[local] Open Scope nat_scope.

Inductive TxState := Active | Committed | RolledBack.

#[global] Instance TxState_eq_dec : EqDecision TxState.
Proof. solve_decision. Defined.

(** [has_db]: whether [set_database] was called. *)
Record Transaction := mk_transaction {
  tx_id : N;
  mvcc_tx_id : N;
  snapshot_id : N;
  state : TxState;
  writes : gmap N (list byte);
  doc_writes : gmap string (gmap string N);
  snapshot_roots : gmap string N;
  updated_roots : gmap string N;
  doc_existed_in_snapshot : gmap string (gmap string bool);
  doc_original_xmin : gmap string (gmap string N);
  has_db : bool;
  modified_collections : gset string;
  old_versions : gmap string (gmap string DocumentVersion) }.

Definition with_state (f : TxState -> TxState) (t : Transaction) : Transaction :=
  mk_transaction (tx_id t) (mvcc_tx_id t) (snapshot_id t) (f (state t)) (writes t) (doc_writes t) (snapshot_roots t) (updated_roots t) (doc_existed_in_snapshot t) (doc_original_xmin t) (has_db t) (modified_collections t) (old_versions t).
Definition with_writes (f : gmap N (list byte) -> gmap N (list byte)) (t : Transaction) : Transaction :=
  mk_transaction (tx_id t) (mvcc_tx_id t) (snapshot_id t) (state t) (f (writes t)) (doc_writes t) (snapshot_roots t) (updated_roots t) (doc_existed_in_snapshot t) (doc_original_xmin t) (has_db t) (modified_collections t) (old_versions t).
Definition with_doc_writes (f : gmap string (gmap string N) -> gmap string (gmap string N)) (t : Transaction) : Transaction :=
  mk_transaction (tx_id t) (mvcc_tx_id t) (snapshot_id t) (state t) (writes t) (f (doc_writes t)) (snapshot_roots t) (updated_roots t) (doc_existed_in_snapshot t) (doc_original_xmin t) (has_db t) (modified_collections t) (old_versions t).
Definition with_updated_roots (f : gmap string N -> gmap string N) (t : Transaction) : Transaction :=
  mk_transaction (tx_id t) (mvcc_tx_id t) (snapshot_id t) (state t) (writes t) (doc_writes t) (snapshot_roots t) (f (updated_roots t)) (doc_existed_in_snapshot t) (doc_original_xmin t) (has_db t) (modified_collections t) (old_versions t).
Definition with_doc_existed_in_snapshot (f : gmap string (gmap string bool) -> gmap string (gmap string bool)) (t : Transaction) : Transaction :=
  mk_transaction (tx_id t) (mvcc_tx_id t) (snapshot_id t) (state t) (writes t) (doc_writes t) (snapshot_roots t) (updated_roots t) (f (doc_existed_in_snapshot t)) (doc_original_xmin t) (has_db t) (modified_collections t) (old_versions t).
Definition with_doc_original_xmin (f : gmap string (gmap string N) -> gmap string (gmap string N)) (t : Transaction) : Transaction :=
  mk_transaction (tx_id t) (mvcc_tx_id t) (snapshot_id t) (state t) (writes t) (doc_writes t) (snapshot_roots t) (updated_roots t) (doc_existed_in_snapshot t) (f (doc_original_xmin t)) (has_db t) (modified_collections t) (old_versions t).
Definition with_has_db (f : bool -> bool) (t : Transaction) : Transaction :=
  mk_transaction (tx_id t) (mvcc_tx_id t) (snapshot_id t) (state t) (writes t) (doc_writes t) (snapshot_roots t) (updated_roots t) (doc_existed_in_snapshot t) (doc_original_xmin t) (f (has_db t)) (modified_collections t) (old_versions t).
Definition with_modified_collections (f : gset string -> gset string) (t : Transaction) : Transaction :=
  mk_transaction (tx_id t) (mvcc_tx_id t) (snapshot_id t) (state t) (writes t) (doc_writes t) (snapshot_roots t) (updated_roots t) (doc_existed_in_snapshot t) (doc_original_xmin t) (has_db t) (f (modified_collections t)) (old_versions t).
Definition with_old_versions (f : gmap string (gmap string DocumentVersion) -> gmap string (gmap string DocumentVersion)) (t : Transaction) : Transaction :=
  mk_transaction (tx_id t) (mvcc_tx_id t) (snapshot_id t) (state t) (writes t) (doc_writes t) (snapshot_roots t) (updated_roots t) (doc_existed_in_snapshot t) (doc_original_xmin t) (has_db t) (modified_collections t) (f (old_versions t)).

(** A transaction and the database it belongs to. *)
Record txworld `{!SerdeNumber} := mk_txworld { w_tx : Transaction; w_db : Database }.

(** The text of documents: [serde_json::from_slice] and [to_vec]; the error as text. *)
Class SerdeBytes `{!SerdeNumber} := {
  value_from_slice : list byte -> Value + string;
  map_from_slice : list byte -> Map + string;
  map_to_vec : Map -> list byte + string }.

(** A document deleted by a transaction: [PageNum::MAX]. *)
Definition PAGE_MAX : N := 2 ^ 64 - 1.

(** [m.entry(a).or_insert_with(HashMap::new)] and an operation on the inner map. *)
Definition entry_alter {A} (a : string) (f : gmap string A -> gmap string A) (m : gmap string (gmap string A)) :
    gmap string (gmap string A) := <[a := f (default ∅ (m !! a))]> m.

(** [m.get(a).and_then(|x| x.get(b))]. *)
Definition lookup2 {A} (a b : string) (m : gmap string (gmap string A)) : option A := m !! a ≫= lookup b.

Definition no_database : Error := Other "database reference not set".

Section transaction.
Context {tables : UnicodeTables} {numbers : SerdeNumber} {text : SerdeText} {catalogue : SerdeCatalogue} {bytes : SerdeBytes}
  {clock : Clock} {page_order : HashMapOrder N} {name_order : HashMapOrder string}.
(** The fuel of the loops that follow pages. *)
Variable fuel : nat.

Notation DM := (ST Database Error).
Notation TM := (ST txworld Error).

Definition on_db {A} (m : DM A) : TM A := fun w =>
  let '(r, d) := m (w_db w) in (r, mk_txworld _ (w_tx w) d).

Definition on_tx (f : Transaction -> Transaction) : TM unit := fun w => (Ok tt, mk_txworld _ (f (w_tx w)) (w_db w)).

Definition get_tx {A} (f : Transaction -> A) : TM A := st_get (fun w => f (w_tx w)).

Definition on_manager {A} (f : TransactionManager -> A * TransactionManager) : DM A := fun d =>
  let '(x, tm) := f (tx_manager d) in (Ok x, with_tx_manager (fun _ => tm) d).

(** The database reference: [expect] panics without it. *)
Definition expect_db : TM unit :=
  let! b := get_tx has_db in if b : bool then st_ret tt else st_lift Panic.

Definition is_active (t : Transaction) : bool := bool_decide (state t = Active).

Definition guard_active : TM unit :=
  let! b := get_tx is_active in if b : bool then st_ret tt else st_fail TxNotActive.

Definition transaction_new (collection_roots : gmap string N) : DM Transaction :=
  let! tx_id := st_get tx_id_counter in
  let! _ := st_modify (with_tx_id_counter (fun n => wrap_u64 (n + 1))) in
  let! mvcc_tx_id := on_manager begin_transaction in
  let! snapshot_id := st_get (fun d => get_latest_committed_tx_id (tx_manager d)) in
  st_ret (mk_transaction tx_id mvcc_tx_id snapshot_id Active ∅ ∅ collection_roots collection_roots ∅ ∅ false ∅ ∅).

Definition set_database (t : Transaction) : Transaction := with_has_db (fun _ => true) t.

(** ** Collections *)
Definition create_collection (name : string) : TM unit :=
  let! _ := guard_active in
  let! _ := expect_db in
  let! m := on_db get_metadata in
  if decide (is_Some (collections m !! name)) then st_fail (CollectionAlreadyExists name) else
  on_db (update_metadata_no_flush (get_collection name id)).

Definition drop_collection (name : string) : TM unit :=
  let! _ := guard_active in
  let! _ := expect_db in
  let! m := on_db get_metadata in
  if decide (collections m !! name = None) then st_fail (CollectionDoesNotExist name) else
  let! _ := on_db (update_metadata_no_flush (fun m => mk_metadata _ (base.delete name (collections m)))) in
  on_db (st_modify (with_version_chains (base.delete name))).

Definition rename_collection (old_name new_name : string) : TM unit :=
  let! _ := guard_active in
  let! _ := expect_db in
  let! m := on_db get_metadata in
  if decide (is_Some (collections m !! new_name)) then st_fail (CollectionAlreadyExists new_name) else
  if decide (collections m !! old_name = None) then st_fail (CollectionDoesNotExist old_name) else
  let! _ := on_db (update_metadata_no_flush (fun m =>
    match collections m !! old_name with
    | Some c => mk_metadata _ (<[new_name := c]> (base.delete old_name (collections m)))
    | None => m
    end)) in
  on_db (st_modify (with_version_chains (fun chains =>
    match chains !! old_name with
    | Some chain => <[new_name := chain]> (base.delete old_name chains)
    | None => chains
    end))).

(** ** Writes *)
Definition write_page (page : N) (data : list byte) : TM unit :=
  let! _ := guard_active in on_tx (with_writes <[page := data]>).

Definition write_document (collection doc_id : string) (page : N) : TM unit :=
  let! _ := guard_active in on_tx (with_doc_writes (entry_alter collection <[doc_id := page]>)).

Definition get_writes : TM (gmap N (list byte)) := get_tx writes.

Definition add_old_version (collection doc_id : string) (v : DocumentVersion) : TM unit :=
  on_tx (with_old_versions (entry_alter collection <[doc_id := v]>)).

Definition set_collection_root (collection : string) (root : N) : TM unit :=
  let! _ := on_tx (with_updated_roots <[collection := root]>) in
  on_tx (with_modified_collections (fun X => {[collection]} ∪ X)).

Definition get_snapshot_root (collection : string) (t : Transaction) : option N :=
  match updated_roots t !! collection with
  | Some root => Some root
  | None => snapshot_roots t !! collection
  end.

(** [entry(doc_id).or_insert(x)]: the first value stays. *)
Definition or_insert {A} (k : string) (x : A) (m : gmap string A) : gmap string A :=
  match m !! k with Some _ => m | None => <[k := x]> m end.

Definition track_doc_existed_in_snapshot (collection doc_id : string) (existed : bool) : TM unit :=
  on_tx (with_doc_existed_in_snapshot (entry_alter collection (or_insert doc_id existed))).

Definition track_doc_original_xmin (collection doc_id : string) (xmin : N) : TM unit :=
  on_tx (with_doc_original_xmin (entry_alter collection (or_insert doc_id xmin))).

(** ** Conflicts *)

(** A run on a tree of its own, over a write buffer of its own: after an error only the pager
    is left of it. *)
Definition run_tree {A} (ws : gmap N (list byte)) (t : TxBTree) (m : ST (txstate Pager.Pager) Error A) :
    DM (A * gmap N (list byte) * TxBTree) := fun d =>
  let '(r, s) := m (mk_txstate (pager d) ws t) in
  (let? a := r in Ok (a, TxBTree.tx_writes s, tree_ s), with_pager (fun _ => TxBTree.pager s) d).

(** The document that is committed under an id: [None] when the search fails; when only the
    document cannot be read, [Some None]. *)
Definition committed_document (root : N) (doc_id : string) : DM (option (option VersionedDocument)) :=
  let! found := st_ok (run_tree ∅ (tx_new root) (TxBTree.search fuel doc_id)) in
  match found with
  | None => st_ret None
  | Some (page, _, _) =>
    let! vdoc := st_ok (on_pager (read_versioned_document page ∅)) in
    st_ret (Some vdoc)
  end.

Definition existed_in (existed : gmap string (gmap string bool)) (collection doc_id : string) : bool :=
  default false (lookup2 collection doc_id existed).

(** Whether a document that existed, with [orig_xmin], conflicts with its committed version. *)
Definition changed_since (root snapshot orig_xmin : N) (doc_id : string) : DM bool :=
  let! committed := committed_document root doc_id in
  st_ret match committed with
         | Some (Some vdoc) => negb (vd_xmin vdoc =? orig_xmin)%N && (snapshot <? vd_xmin vdoc)%N
         | _ => true
         end.

Definition detect_write_conflicts_with_context (collection : string) (current_root snapshot : N)
    (doc_writes_map : gmap string (gmap string N)) (existed : gmap string (gmap string bool))
    (xmins : gmap string (gmap string N)) : DM unit :=
  match doc_writes_map !! collection with
  | None => st_ret tt
  | Some ws =>
    if decide (ws = ∅) then st_ret tt else
    let needs_check := existsb (fun '(doc_id, _) =>
      existed_in existed collection doc_id && bool_decide (is_Some (lookup2 collection doc_id xmins))) (map_iter ws) in
    if negb needs_check then st_ret tt else
    st_each (fun '(doc_id, _) =>
      if negb (existed_in existed collection doc_id) then st_ret tt else
      match lookup2 collection doc_id xmins with
      | None => st_ret tt
      | Some orig_xmin =>
        let! conflict := changed_since current_root snapshot orig_xmin doc_id in
        if conflict : bool then st_fail TxConflict else st_ret tt
      end) (map_iter ws)
  end.

Definition detect_write_conflicts (collection : string) (current_root : N) : TM unit :=
  let! t := get_tx id in
  on_db (detect_write_conflicts_with_context collection current_root (snapshot_id t) (doc_writes t)
    (doc_existed_in_snapshot t) (doc_original_xmin t)).

(** [for x in l { if f(x)? { return Ok(true) } } Ok(false)]. *)
Fixpoint st_exists {A} (f : A -> DM bool) (l : list A) : DM bool :=
  match l with
  | [] => st_ret false
  | x :: l => let! b := f x in if b : bool then st_ret true else st_exists f l
  end.

Definition detect_document_level_conflicts (collection : string) (current_root snapshot : N)
    (doc_writes_map : gmap string (gmap string N)) (existed : gmap string (gmap string bool))
    (xmins : gmap string (gmap string N)) : DM bool :=
  match doc_writes_map !! collection with
  | None => st_ret false
  | Some ws =>
    if decide (ws = ∅) then st_ret false else
    st_exists (fun '(doc_id, _) =>
      if negb (existed_in existed collection doc_id) then
        let! committed := committed_document current_root doc_id in
        st_ret match committed with
               | None => false
               | Some (Some vdoc) => (snapshot <? vd_xmin vdoc)%N
               | Some None => true
               end
      else
        match lookup2 collection doc_id xmins with
        | None => st_ret false
        | Some orig_xmin => changed_since current_root snapshot orig_xmin doc_id
        end) (map_iter ws)
  end.

(** ** Unique indexes *)

(** The part of an index key before the id of the document; texts that fail are empty in a
    compound key. *)
Definition unique_prefix (doc_map : Map) (index_fields : list string) : Result string :=
  let field_values := extract_field_values doc_map index_fields in
  if decide (length index_fields = 1) then
    let? field_value := of_option Panic (field_values !! 0) in
    let? value_json := to_string field_value in
    Ok (value_json +:+ "|")
  else
    let values_json := (fun v => match json_to_string v with inl s => s | inr _ => "" end) <$> field_values in
    Ok (join "|" values_json +:+ "|").

(** The scan of the whole index: an entry whose key starts with the prefix. *)
Fixpoint scan_prefix (steps : nat) (prefix : string) (it : BTree.BTreeIterator) : ST (bstate Pager.Pager) Error bool :=
  match steps with
  | 0 => st_lift OutOfFuel
  | S steps =>
    let! '(more, it) := BTree.iter_next it in
    if more : bool then
      let! '(key, _) := st_lift (of_option Panic (BTree.iter_entry it)) in
      if String.prefix prefix key then st_ret true else scan_prefix steps prefix it
    else st_ret false
  end.

Definition run_btree {A} (root : N) (m : ST (bstate Pager.Pager) Error A) : DM A := fun d =>
  let '(r, s) := m (mk_bstate (pager d) (inner_new root)) in (r, with_pager (fun _ => store s) d).

Definition unique_error (index_name coll_name : string) : Error :=
  Other ("unique constraint violation on index '" +:+ index_name +:+ "' for collection '" +:+ coll_name +:+
    "': value was inserted by another transaction").

Definition validate_unique_constraints_for_collection (coll_name : string) : TM unit :=
  let! t := get_tx id in
  if negb (has_db t) then st_ret tt else
  match doc_writes t !! coll_name with
  | None => st_ret tt
  | Some docs =>
    let! m := on_db get_metadata in
    match collections m !! coll_name with
    | None => st_ret tt
    | Some coll_meta =>
      on_db (st_each (fun '(index_name, index_meta) =>
        if negb (unique index_meta) then st_ret tt else
        if (index_root index_meta =? 0)%N then st_ret tt else
        st_each (fun '(doc_id, page) =>
          if existed_in (doc_existed_in_snapshot t) coll_name doc_id then st_ret tt else
          let! vdoc := on_pager (read_versioned_document page (writes t)) in
          let! doc_map := st_lift match map_from_slice (vd_data vdoc) with inl m => Ok m | inr e => Err (json_error e) end in
          let! prefix := st_lift (unique_prefix doc_map (get_fields index_meta)) in
          let! has_conflict := run_btree (index_root index_meta)
            (let! it := BTree.iterator fuel in scan_prefix fuel prefix it) in
          if has_conflict : bool then st_fail (unique_error index_name coll_name) else st_ret tt) (map_iter docs))
        (map_iter (indexes coll_meta)))
    end
  end.

(** ** After a commit *)

(** [version_chains.entry(coll).or_insert_with(HashMap::new)] and the versions. *)
Definition add_old_versions (tx : N) (old : gmap string (gmap string DocumentVersion)) (chains : chain_table) : chain_table :=
  foldl (fun chains cd =>
    foldl (fun chains dv => Mvcc.add_old_version tx cd.1 dv.1 dv.2 chains)
      (<[cd.1 := default ∅ (chains !! cd.1)]> chains) (map_iter cd.2)) chains (map_iter old).

Definition operation_of (existed : gmap string (gmap string bool)) (collection doc_id : string) : ChangeOperation :=
  if default true (negb <$> lookup2 collection doc_id existed) then Watch.Insert else Watch.Update.

Definition emit (collection : string) (op : ChangeOperation) (doc_id : string) (document : option Value) : DM unit :=
  st_modify (with_watcher_storage (emit_change collection op doc_id document)).

(** [read_versioned_document(..).ok().and_then(|d| serde_json::from_slice(&d.data).ok())]. *)
Definition read_value (page : N) (ws : gmap N (list byte)) : DM (option Value) :=
  let! vdoc := st_ok (on_pager (read_versioned_document page ws)) in
  st_ret (vdoc ≫= fun vdoc => match value_from_slice (vd_data vdoc) with inl v => Some v | inr _ => None end).

(** The catalogue goes to the log and to its page, the header to the log and to the file. *)
Definition install_metadata (tx : N) : DM unit :=
  let! m := get_metadata in
  let! meta_data := st_lift (metadata_serialize m) in
  let meta_data := pad_page meta_data in
  let! meta_page := on_pager (st_get Pager.metadata_page) in
  let! meta_page := if (meta_page =? 0)%N then on_pager Pager.alloc_page else st_ret meta_page in
  let! _ := wal_write_frame tx meta_page meta_data in
  let! _ := on_pager (Pager.write_page_transfer meta_page meta_data) in
  let! header_data := on_pager Pager.get_header_data in
  let! header_data := st_lift (of_option Panic (put_slice 24 (to_le_bytes 8 meta_page) header_data)) in
  let! _ := wal_write_frame tx 0 header_data in
  let! _ := on_pager (Pager.set_metadata_page meta_page) in
  let! _ := on_pager (Pager.set_next_transaction_id (wrap_u64 (tx + 1))) in
  on_pager Pager.write_header_no_sync.

(** ** Batches *)

(** The completion cell is new: no other pending write has it. *)
Definition prepare_write_request : TM PendingWrite :=
  let! t := get_tx id in
  let! cell := on_db (st_get (fun d => fresh (dom (completions d)))) in
  let! _ := on_db (st_modify (with_completions <[cell := None]>)) in
  st_ret (mk_pending (writes t) (doc_writes t) (snapshot_roots t) (updated_roots t) (old_versions t)
    (modified_collections t) (doc_existed_in_snapshot t) (doc_original_xmin t) (tx_id t) (snapshot_id t) (mvcc_tx_id t) cell).

Definition pending_docs (p : PendingWrite) : list (string * string) :=
  map_iter (p_doc_writes p) ≫= fun cd => pair cd.1 <$> (map_iter cd.2).*1.

Definition pop_front : DM (option PendingWrite) := fun d =>
  match pending_writes d with
  | [] => (Ok None, d)
  | p :: queue => (Ok (Some p), with_pending_writes (fun _ => queue) d)
  end.

Definition push_front (p : PendingWrite) : DM unit := st_modify (with_pending_writes (cons p)).
Definition push_back (p : PendingWrite) : DM unit := st_modify (with_pending_writes (fun queue => vec_push queue p)).

(** Whether the timeout is not reached: the leader sleeps, and others append to the queue. *)
Definition sleep : DM bool := fun d =>
  match wakes d with
  | Some ps :: ws => (Ok true, with_wakes (fun _ => ws) (with_pending_writes (fun queue => queue ++ ps) d))
  | None :: ws => (Ok false, with_wakes (fun _ => ws) d)
  | [] => (Ok false, d)
  end.

Fixpoint collect_loop (rounds : nat) (batch : list PendingWrite) (batch_documents : gset (string * string)) :
    DM (list PendingWrite) :=
  match rounds with
  | 0 => st_lift OutOfFuel
  | S rounds =>
    let! pending := pop_front in
    match pending with
    | Some p =>
      if existsb (fun key => bool_decide (key ∈ batch_documents)) (pending_docs p) then
        let! _ := push_front p in st_ret batch
      else
        let batch_documents := list_to_set (pending_docs p) ∪ batch_documents in
        let batch := vec_push batch p in
        let! config := st_get batch_config in
        if max_batch_size config <=? length batch then st_ret batch else collect_loop rounds batch batch_documents
    | None =>
      if decide (batch = []) then st_fail (Other "batch collection failed: empty batch") else
      let! again := sleep in
      if again : bool then collect_loop rounds batch batch_documents else st_ret batch
    end
  end.

(** Every round takes a transaction from the queue or a wake-up from the schedule. *)
Definition wake_size (w : option (list PendingWrite)) : nat := match w with Some ps => S (length ps) | None => 1 end.
Definition collect_rounds (d : Database) : nat := S (length (pending_writes d) + sum_list (wake_size <$> wakes d)).

Definition collect_batch : TM (list PendingWrite) :=
  let! b := get_tx has_db in
  if negb b then st_fail no_database else
  on_db (let! rounds := st_get collect_rounds in collect_loop rounds [] ∅).

Fixpoint check_docs (idx : nat) (docs : list (string * string)) (seen : gmap (string * string) nat) :
    Result (gmap (string * string) nat) :=
  match docs with
  | [] => Ok seen
  | key :: docs =>
    match seen !! key with
    | Some first_idx =>
      Err (Other ("Batch conflict: TX " +:+ pretty first_idx +:+ " and TX " +:+ pretty idx +:+ " both modify " +:+
        key.1 +:+ "/" +:+ key.2))
    | None => check_docs idx docs (<[key := idx]> seen)
    end
  end.

Fixpoint check_from (idx : nat) (batch : list PendingWrite) (seen : gmap (string * string) nat) : Result unit :=
  match batch with
  | [] => Ok tt
  | pending :: batch => let? seen := check_docs idx (pending_docs pending) seen in check_from (S idx) batch seen
  end.

Definition check_batch_conflicts (batch : list PendingWrite) : Result unit := check_from 0 batch ∅.

(** [for x in l { b = f(x, b)?; }]. *)
Fixpoint st_fold {A B} (f : A -> B -> DM B) (l : list A) (b : B) : DM B :=
  match l with
  | [] => st_ret b
  | x :: l => let! b := f x b in st_fold f l b
  end.

Definition validate_collection (pending : PendingWrite) (name : string) (needs_rebase : bool) : DM bool :=
  let! m := get_metadata in
  let current_root := root_of name m in
  if negb (current_root =? default 0%N (p_snapshot_roots pending !! name))%N then
    let! has_doc_conflict := detect_document_level_conflicts name current_root (p_snapshot_id pending)
      (p_doc_writes pending) (p_existed pending) (p_xmin pending) in
    if has_doc_conflict : bool then st_fail TxConflict else st_ret true
  else
    let! _ := detect_write_conflicts_with_context name current_root (p_snapshot_id pending)
      (p_doc_writes pending) (p_existed pending) (p_xmin pending) in
    st_ret needs_rebase.

Definition validate_pending_write (pending : PendingWrite) : DM bool :=
  st_fold (validate_collection pending) (set_iter (p_modified pending)) false.

(** *** Rebasing *)
Definition insert_documents (docs : gmap string N) : ST (txstate Pager.Pager) Error unit :=
  st_each (fun '(doc_id, page) =>
    if (page =? PAGE_MAX)%N then st_ret tt else TxBTree.insert fuel doc_id page) (map_iter docs).

Definition delete_documents (docs : gmap string N) : ST (txstate Pager.Pager) Error unit :=
  st_each (fun '(doc_id, page) =>
    if (page =? PAGE_MAX)%N then TxBTree.delete fuel doc_id else st_ret tt) (map_iter docs).

Definition rebase_single_collection (name : string) (current_root : N) (pending : PendingWrite) : DM PendingWrite :=
  let docs := default ∅ (p_doc_writes pending !! name) in
  let! '(_, rebased_writes, rebased) := run_tree (p_writes pending) (tx_new current_root)
    (let! _ := insert_documents docs in delete_documents docs) in
  st_ret (set_p_root name (TxBTree.current_root rebased) (set_p_writes (rebased_writes ∪ p_writes pending) pending)).

Definition rebase_pending_write (pending : PendingWrite) : DM PendingWrite :=
  st_fold (fun name pending =>
    let! m := get_metadata in
    let current_root := root_of name m in
    if (current_root =? default 0%N (p_snapshot_roots pending !! name))%N then st_ret pending else
    let docs := default ∅ (p_doc_writes pending !! name) in
    let! '(_, rebased_writes, rebased) := run_tree (p_writes pending) (tx_new current_root)
      (st_each (fun '(doc_id, page) => TxBTree.insert fuel doc_id page) (map_iter docs)) in
    st_ret (set_p_root name (TxBTree.current_root rebased) (set_p_writes (rebased_writes ∪ p_writes pending) pending)))
    (set_iter (p_modified pending)) pending.

(** *** One batch *)
Definition log_pages (tx : N) (ws : gmap N (list byte)) : DM unit :=
  st_each (fun '(page, data) => wal_write_frame tx page data) (map_iter ws).

Definition apply_collection (name : string) (pending : PendingWrite) : DM PendingWrite :=
  let! m := get_metadata in
  let current_root := root_of name m in
  let! pending :=
    if (current_root =? default 0%N (p_snapshot_roots pending !! name))%N then st_ret pending else
    let pages_before_rebase := p_writes pending in
    let! pending := rebase_single_collection name current_root pending in
    let! _ := log_pages (p_mvcc_tx_id pending)
      (filter (fun pd => pages_before_rebase !! pd.1 = None) (p_writes pending)) in
    st_ret pending in
  let new_root := default current_root (p_updated_roots pending !! name) in
  let! _ := if (new_root =? current_root)%N then st_ret tt
    else update_metadata_no_flush (get_collection name (set_btree_root new_root)) in
  st_ret pending.

Fixpoint apply_batch (batch : list PendingWrite) : DM (list PendingWrite) :=
  match batch with
  | [] => st_ret []
  | pending :: batch =>
    let! pending := st_fold apply_collection (set_iter (p_modified pending)) pending in
    let! batch := apply_batch batch in
    st_ret (pending :: batch)
  end.

Definition max_id (default : N) (ids : list N) : N :=
  match ids with [] => default | i :: ids => foldl N.max i ids end.

Definition emit_pending (pending : PendingWrite) : DM unit :=
  st_each (fun '(collection, docs) =>
    st_each (fun '(doc_id, page) =>
      let! document := match p_writes pending !! page with
        | Some _ => read_value page (p_writes pending)
        | None => st_ret None
        end in
      emit collection (operation_of (p_existed pending) collection doc_id) doc_id document) (map_iter docs))
    (map_iter (p_doc_writes pending)).

Definition run_batch (leader_id : N) (batch : list PendingWrite) : DM unit :=
  let! _ := st_each (fun pending => let! _ := validate_pending_write pending in st_ret tt) batch in
  let! _ := st_lift (check_batch_conflicts batch) in
  let! _ := st_each (fun pending => log_pages (p_mvcc_tx_id pending) (p_writes pending)) batch in
  let! batch := apply_batch batch in
  let! _ := install_metadata (max_id leader_id (p_mvcc_tx_id <$> batch)) in
  let! _ := on_wal Wal.sync in
  let! _ := st_each (fun pending =>
    st_each (fun '(page, data) => on_pager (Pager.write_page_transfer page data)) (map_iter (p_writes pending))) batch in
  let! _ := on_pager Pager.flush_no_sync in
  let! _ := st_each (fun pending => on_manager (fun tm => (tt, commit_transaction (p_mvcc_tx_id pending) tm))) batch in
  let! _ := st_each (fun pending =>
    st_modify (with_version_chains (add_old_versions (p_mvcc_tx_id pending) (p_old_versions pending)))) batch in
  st_each emit_pending batch.

Definition execute_batch_commit (batch : list PendingWrite) : TM unit :=
  let! t := get_tx id in
  if negb (has_db t) then st_fail no_database else on_db (run_batch (mvcc_tx_id t) batch).

(** ** Committing through the queue *)

(** The result of a method as a value: [let r = self.f();]. *)
Definition st_result (m : TM unit) : TM (Result unit) := fun w =>
  match m w with
  | (Ok tt, w) => (Ok (Ok tt), w)
  | (Err e, w) => (Ok (Err e), w)
  | (Panic, w) => (Panic, w)
  | (OutOfFuel, w) => (OutOfFuel, w)
  end.

Definition notify (r : Result unit) (pending : PendingWrite) : DM unit :=
  st_modify (with_completions <[completion pending := Some r]>).

Definition submit : TM N :=
  let! pending := prepare_write_request in
  let! b := get_tx has_db in
  if negb b then st_fail no_database else
  let! _ := on_db (push_back pending) in
  st_ret (completion pending).

(** [result.take().unwrap()?] once there is a result; without one the thread waits. *)
Definition take_result (cell : N) : TM unit :=
  let! r := on_db (st_get (fun d => completions d !! cell)) in
  match r with
  | Some (Some r) =>
    let! _ := on_db (st_modify (with_completions <[cell := None]>)) in
    let! _ := st_lift r in
    on_tx (with_state (fun _ => Committed))
  | _ => st_lift OutOfFuel
  end.

Fixpoint lead_loop (rounds : nat) : TM unit :=
  match rounds with
  | 0 => st_lift OutOfFuel
  | S rounds =>
    let! batch := collect_batch in
    let! batch_result := st_result (execute_batch_commit batch) in
    let! _ := on_db (st_each (notify batch_result) batch) in
    let! b := get_tx has_db in
    let! _ := if b : bool then on_db maybe_auto_checkpoint else st_ret tt in
    if negb b then st_fail no_database else
    let! queue_empty := on_db (st_get (fun d => bool_decide (pending_writes d = []))) in
    if queue_empty : bool then st_ret tt else lead_loop rounds
  end.

Definition lead (cell : N) : TM unit :=
  let! done := on_db (st_get (fun d => default None (completions d !! cell))) in
  match done with
  | Some _ => take_result cell
  | None =>
    let! rounds := on_db (st_get collect_rounds) in
    let! _ := lead_loop rounds in
    take_result cell
  end.

Definition commit_batched : TM unit := let! cell := submit in lead cell.

(** ** Committing alone *)

(** A run on a tree over the write buffer of the transaction. *)
Definition run_own_tree {A} (t : TxBTree) (m : ST (txstate Pager.Pager) Error A) : TM (A * TxBTree) := fun w =>
  let '(r, s) := m (mk_txstate (pager (w_db w)) (writes (w_tx w)) t) in
  (let? a := r in Ok (a, tree_ s),
   mk_txworld _ (with_writes (fun _ => TxBTree.tx_writes s) (w_tx w)) (with_pager (fun _ => TxBTree.pager s) (w_db w))).

(** A document whose page now shows another transaction's document moves to a new page. *)
Definition remap_document (writes_snapshot : gmap N (list byte)) (old_page : N) (remapping : gmap N N) : TM (gmap N N) :=
  let! page_data := on_db (st_ok (on_pager (Pager.read_page old_page))) in
  match page_data with
  | None => st_ret remapping
  | Some _ =>
    let! ws := get_writes in
    let! current_doc := on_db (st_ok (on_pager (read_versioned_document old_page ws))) in
    let! own := get_tx mvcc_tx_id in
    match current_doc with
    | None => st_ret remapping
    | Some current_doc =>
      if (vd_xmin current_doc =? own)%N then st_ret remapping else
      let! new_page := on_db (on_pager Pager.alloc_page) in
      match writes_snapshot !! old_page with
      | None => st_ret remapping
      | Some data =>
        let! _ := on_db (on_pager (Pager.write_page_transfer new_page data)) in
        let! _ := on_tx (with_writes (fun ws => base.delete old_page (<[new_page := data]> ws))) in
        st_ret (<[old_page := new_page]> remapping)
      end
    end
  end.

Fixpoint remap_documents (writes_snapshot : gmap N (list byte)) (docs : list (string * N)) (remapping : gmap N N) : TM (gmap N N) :=
  match docs with
  | [] => st_ret remapping
  | (_, old_page) :: docs =>
    let! remapping := remap_document writes_snapshot old_page remapping in
    remap_documents writes_snapshot docs remapping
  end.

(** A page that the buffer lacks is read from the pager, if it can be. *)
Definition buffer_page (page : N) : TM unit :=
  let! ws := get_writes in
  if decide (is_Some (ws !! page)) then st_ret tt else
  let! page_data := on_db (st_ok (on_pager (Pager.read_page page))) in
  match page_data with
  | Some data => on_tx (with_writes <[page := data]>)
  | None => st_ret tt
  end.

Definition rebase_own (name : string) (current_root : N) : TM unit :=
  let! writes_snapshot := get_writes in
  let! _ := on_db wal_refresh_frame_count in
  let! _ := validate_unique_constraints_for_collection name in
  let! docs := get_tx (fun t => default [] (map_iter <$> doc_writes t !! name)) in
  let! remapping := remap_documents writes_snapshot docs ∅ in
  let documents_to_rebase := (fun '(doc_id, page) => (doc_id, default page (remapping !! page))) <$> docs in
  let! _ := st_each (fun '(_, page) => buffer_page page) documents_to_rebase in
  let! '(_, rebased) := run_own_tree (tx_new current_root)
    (st_each (fun '(doc_id, page) => TxBTree.insert fuel doc_id page) documents_to_rebase) in
  let! _ := on_tx (with_doc_writes (alter (fun m =>
    foldl (fun m '(doc_id, page) => <[doc_id := page]> m) m documents_to_rebase) name)) in
  let! _ := st_each (fun '(_, new_page) => buffer_page new_page) (map_iter (cow_pages rebased)) in
  let! _ := st_each (fun '(new_page, _) => buffer_page new_page) (map_iter (new_pages rebased)) in
  on_db (update_metadata_no_flush (get_collection name (set_btree_root (TxBTree.current_root rebased)))).

Definition install_own (name : string) : TM unit :=
  let! m := on_db get_metadata in
  let current_root := root_of name m in
  let! t := get_tx id in
  if (current_root =? default 0%N (snapshot_roots t !! name))%N then
    match updated_roots t !! name with
    | Some new_btree_root => on_db (update_metadata_no_flush (get_collection name (set_btree_root new_btree_root)))
    | None => st_ret tt
    end
  else rebase_own name current_root.

Definition emit_own : TM unit :=
  let! t := get_tx id in
  on_db (st_each (fun '(collection, docs) =>
    st_each (fun '(doc_id, page) =>
      let! document := read_value page (writes t) in
      emit collection (operation_of (doc_existed_in_snapshot t) collection doc_id) doc_id document) (map_iter docs))
    (map_iter (doc_writes t))).

Definition when_db (m : TM unit) : TM unit := let! b := get_tx has_db in if b : bool then m else st_ret tt.

Definition commit_single : TM unit :=
  let! _ := when_db (
    let! modified := get_tx modified_collections in
    st_each (fun name =>
      let! m := on_db get_metadata in
      detect_write_conflicts name (root_of name m)) (set_iter modified)) in
  let! t := get_tx id in
  let! _ := on_db (st_each (fun '(page, data) =>
    let! _ := wal_write_frame (mvcc_tx_id t) page data in
    on_pager (Pager.write_page_transfer page data)) (map_iter (writes t))) in
  let! _ := on_db wal_refresh_frame_count in
  let! _ := when_db (
    let! modified := get_tx modified_collections in
    let! _ := st_each install_own (set_iter modified) in
    let! _ := on_db (install_metadata (mvcc_tx_id t)) in
    let! _ := on_db (on_wal Wal.sync) in
    on_db (on_pager Pager.flush_no_sync)) in
  let! _ := on_tx (with_state (fun _ => Committed)) in
  let! _ := on_db (on_manager (fun tm => (tt, commit_transaction (mvcc_tx_id t) tm))) in
  let! _ := when_db (on_db maybe_auto_checkpoint) in
  let! _ := when_db (
    let! old := get_tx old_versions in
    on_db (st_modify (with_version_chains (add_old_versions (mvcc_tx_id t) old)))) in
  when_db emit_own.

(** ** Ending a transaction *)
Definition commit : TM unit :=
  let! t := get_tx id in
  if negb (is_active t) then st_fail TxAlreadyDone else
  if decide (writes t = ∅) then
    let! _ := on_tx (with_state (fun _ => Committed)) in
    on_db (on_manager (fun tm => (tt, commit_transaction (mvcc_tx_id t) tm)))
  else
    let! batch_enabled := on_db (st_get (fun d => has_db t && enabled (batch_config d))) in
    if batch_enabled : bool then commit_batched else commit_single.

Definition rollback : TM unit :=
  let! t := get_tx id in
  if negb (is_active t) then st_fail TxAlreadyDone else
  let! _ := on_tx (with_writes (fun _ => ∅)) in
  let! _ := on_tx (with_doc_writes (fun _ => ∅)) in
  let! _ := on_tx (with_state (fun _ => RolledBack)) in
  on_db (on_manager (fun tm => (tt, abort_transaction (mvcc_tx_id t) tm))).

(** [Drop]. *)
Definition drop_transaction : TM unit :=
  let! t := get_tx id in
  if negb (is_active t) then st_ret tt else
  let! _ := on_tx (with_writes (fun _ => ∅)) in
  let! _ := on_tx (with_doc_writes (fun _ => ∅)) in
  let! _ := on_db (on_manager (fun tm => (tt, abort_transaction (mvcc_tx_id t) tm))) in
  on_tx (with_state (fun _ => RolledBack)).
End transaction.
