(* ===== verification/TxCollection.v ===== *)
(** * Collections inside a transaction (tx_collection.rs)

    The documents of a collection as a transaction sees and writes them: its tree begins at
    the root of the snapshot, or at the one that the transaction has reached, and its pages
    go to the write buffer. The state of a method is the handle of the collection with the
    transaction and its database. *)

From stdpp Require Import base list strings gmap.
From Stdlib Require Import NArith Lia Strings.Byte.
From S2P Require Import Prelude Constants Bytes Text PageStore Json IndexKey QueryBuilder LruCache Pager Document BTreeNode BTree.
From S2P Require Import Wal Mvcc Validation TxBTree Metadata Watch DatabaseState Transaction.

#[local] Open Scope nat_scope.

Record TxCollection := mk_txcoll {
  name : string;
  btree : TxBTree;
  tindexes : gmap string TxBTree;
  index_meta : gmap string IndexMeta }.

Record collworld `{!SerdeNumber} := mk_collworld { c_coll : TxCollection; c_world : txworld }.

(** [{:?}] of a value, in messages. *)
Class DebugText `{!SerdeNumber} := { value_debug : Value -> string }.

(** A type with [Serialize] and [DeserializeOwned], through JSON values; the error as text. *)
Class Typed `{!SerdeNumber} (T : Type) := {
  to_value : T -> Value + string;
  from_value : Value -> T + string }.

Section tx_collection.
Context {tables : UnicodeTables} {numbers : SerdeNumber} {text : SerdeText} {catalogue : SerdeCatalogue} {bytes : SerdeBytes}
  {messages : Messages} {debug : DebugText} {clock : Clock} {page_order : HashMapOrder N} {name_order : HashMapOrder string}.
Variable fuel : nat.

Notation TM := (ST txworld Error).
Notation CM := (ST collworld Error).

Definition on_world {A} (m : TM A) : CM A := fun s =>
  let '(r, w) := m (c_world s) in (r, mk_collworld _ (c_coll s) w).

Definition get_coll {A} (f : TxCollection -> A) : CM A := st_get (fun s => f (c_coll s)).

Definition on_coll (f : TxCollection -> TxCollection) : CM unit := st_modify (fun s => mk_collworld _ (f (c_coll s)) (c_world s)).

Definition the_tx {A} (f : Transaction -> A) : CM A := on_world (get_tx f).

(** A run on the tree of the collection, or on one of its indexes, over the write buffer of
    the transaction. *)
Definition on_btree {A} (m : ST (txstate Pager.Pager) Error A) : CM A := fun s =>
  let w := c_world s in
  let '(r, t) := m (mk_txstate (pager (w_db w)) (writes (w_tx w)) (btree (c_coll s))) in
  (r, mk_collworld _ (mk_txcoll (name (c_coll s)) (tree_ t) (tindexes (c_coll s)) (index_meta (c_coll s)))
        (mk_txworld _ (with_writes (fun _ => TxBTree.tx_writes t) (w_tx w)) (with_pager (fun _ => TxBTree.pager t) (w_db w)))).

Definition on_index {A} (index_name : string) (m : ST (txstate Pager.Pager) Error A) : CM A := fun s =>
  let w := c_world s in
  match tindexes (c_coll s) !! index_name with
  | None => (Panic, s)
  | Some index_btree =>
    let '(r, t) := m (mk_txstate (pager (w_db w)) (writes (w_tx w)) index_btree) in
    (r, mk_collworld _ (mk_txcoll (name (c_coll s)) (btree (c_coll s)) (<[index_name := tree_ t]> (tindexes (c_coll s))) (index_meta (c_coll s)))
          (mk_txworld _ (with_writes (fun _ => TxBTree.tx_writes t) (w_tx w)) (with_pager (fun _ => TxBTree.pager t) (w_db w))))
  end.

(** The tree at a root, or an empty one. *)
Definition open_tree (root : N) : TM TxBTree :=
  if (root =? 0)%N then let! '(_, t) := run_own_tree (tx_new 0) TxBTree.create_empty in st_ret t
  else st_ret (tx_new root).

Fixpoint open_indexes (l : list (string * IndexMeta)) (trees : gmap string TxBTree) : TM (gmap string TxBTree) :=
  match l with
  | [] => st_ret trees
  | (index_name, idx_meta) :: l =>
    let! index_btree := open_tree (index_root idx_meta) in
    open_indexes l (<[index_name := index_btree]> trees)
  end.

Definition collection_open (nm : string) : TM TxCollection :=
  let! m := on_db get_metadata in
  let! t := get_tx id in
  let! tree := open_tree (default 0%N (get_snapshot_root nm t)) in
  match collections m !! nm with
  | Some coll =>
    let! trees := open_indexes (map_iter (indexes coll)) ∅ in
    st_ret (mk_txcoll nm tree trees (indexes coll))
  | None => st_ret (mk_txcoll nm tree ∅ ∅)
  end.

(** transaction.rs, [collection]: the database must have been set. *)
Definition collection (nm : string) : TM TxCollection :=
  let! _ := expect_db in collection_open nm.

Definition invalid_format {A} (reason : string) : CM A :=
  let! nm := get_coll name in st_fail (InvalidDocumentFormat reason (Some nm)).

Definition doc_not_found {A} (doc_id : string) : CM A :=
  let! nm := get_coll name in st_fail (DocumentNotFound nm doc_id).

Definition guard_tx_active : CM unit :=
  let! b := the_tx is_active in if b : bool then st_ret tt else st_fail TxNotActive.

(** The map of a new document with its id: the one it has, or a generated one. *)
Definition with_id (generated : string) (doc_map : Map) : CM (string * Map) :=
  match map_get "_id" doc_map with
  | Some id =>
    match as_str id with
    | Some s => st_ret (s, doc_map)
    | None => invalid_format "_id must be a string"
    end
  | None => st_ret (generated, map_insert "_id" (Str generated) doc_map)
  end.

Definition of_text {S A} (x : A + string) : ST S Error A :=
  st_lift match x with inl a => Ok a | inr e => Err (json_error e) end.

(** The version of a document goes to new pages; the buffers are collected apart. *)
Definition write_version (doc_id : string) (data : list byte) : CM (N * gmap N (list byte)) := fun s =>
  let w := c_world s in
  let '(r, (p, ws)) := write_versioned_document doc_id data (mvcc_tx_id (w_tx w)) 0 (pager (w_db w), ∅) in
  (let? '(page, _) := r in Ok (page, ws), mk_collworld _ (c_coll s) (mk_txworld _ (w_tx w) (with_pager (fun _ => p) (w_db w)))).

Definition unique_violation (index_name what shown : string) : Error :=
  Other ("unique constraint violation on index " +:+ index_name +:+ ": " +:+ what +:+ " " +:+ shown +:+ " already exists").

Definition check_unique (index_name prefix : string) (e : Error) : CM unit :=
  let! b := on_index index_name (TxBTree.has_prefix fuel prefix) in
  if b : bool then st_fail e else st_ret tt.

(** One round of the loop over the indexes. *)
Definition insert_into_index (doc_map : Map) (doc_id : string) (page : N) (index_name : string) : CM unit :=
  let! metas := get_coll index_meta in
  match metas !! index_name with
  | None => st_lift Panic
  | Some im =>
    let index_fields := get_fields im in
    let field_values := extract_field_values doc_map index_fields in
    let! key_str :=
      if decide (length index_fields = 1) then
        let! field_value := st_lift (of_option Panic (field_values !! 0)) in
        let! _ :=
          if unique im then
            let! value_json := st_lift (to_string field_value) in
            check_unique index_name (value_json +:+ "|") (unique_violation index_name "value" (value_debug field_value))
          else st_ret tt in
        st_lift (serialize_index_key {| field_value := field_value; doc_id := doc_id |})
      else
        let! _ :=
          if unique im then
            let values_json := (fun v => match json_to_string v with inl s => s | inr _ => "" end) <$> field_values in
            check_unique index_name (join "|" values_json +:+ "|")
              (unique_violation index_name "combination" (values_debug field_values))
          else st_ret tt in
        st_lift (serialize_compound_index_key {| field_values := field_values; cdoc_id := doc_id |}) in
    on_index index_name (TxBTree.insert fuel key_str page)
  end.

Definition write_pages (ws : gmap N (list byte)) : CM unit :=
  st_each (fun '(page, data) => on_world (write_page page data)) (map_iter ws).

(** The new root and the document are told to the transaction. *)
Definition record_document (doc_id : string) (page : N) : CM unit :=
  let! nm := get_coll name in
  let! _ := on_world (write_document nm doc_id page) in
  let! root := on_btree TxBTree.get_current_root in
  on_world (set_collection_root nm root).

Definition insert (generated : string) (doc : Value) : CM string :=
  match as_object doc with
  | None => invalid_format "document must be an object"
  | Some doc_map =>
    let! _ := guard_tx_active in
    let! '(doc_id, doc_map) := with_id generated doc_map in
    let! data := of_text (map_to_vec doc_map) in
    let! found := st_ok (on_btree (TxBTree.search fuel doc_id)) in
    let existed := bool_decide (is_Some found) in
    let! nm := get_coll name in
    let! _ := on_world (track_doc_existed_in_snapshot nm doc_id existed) in
    if existed then st_fail (DocumentAlreadyExists nm doc_id) else
    let! '(page, ws) := write_version doc_id data in
    let! _ := on_btree (TxBTree.insert fuel doc_id page) in
    let! trees := get_coll tindexes in
    let! _ := st_each (insert_into_index doc_map doc_id page) (map_iter trees).*1 in
    let! _ := write_pages ws in
    let! _ := record_document doc_id page in
    st_ret doc_id
  end.

(** The document under an id, from the buffer of the transaction or from the pager, with its
    page; whether the transaction wrote it itself. *)
Definition find_version (doc_id : string) : CM (N * VersionedDocument * bool) :=
  let! page := on_btree (TxBTree.search fuel doc_id) in
  let! ws := the_tx writes in
  let! vdoc := on_world (on_db (on_pager (read_versioned_document page ws))) in
  let! own := the_tx mvcc_tx_id in
  let is_own_write := (vd_xmin vdoc =? own)%N in
  let! snapshot := the_tx snapshot_id in
  if negb is_own_write && negb (vdoc_is_visible vdoc snapshot) then doc_not_found doc_id
  else st_ret (page, vdoc, is_own_write).

Definition find_by_id (doc_id : string) : CM Value :=
  let! '(_, vdoc, is_own_write) := find_version doc_id in
  let! nm := get_coll name in
  let! _ := if is_own_write : bool then st_ret tt else
    let! _ := on_world (track_doc_existed_in_snapshot nm doc_id true) in
    on_world (track_doc_original_xmin nm doc_id (vd_xmin vdoc)) in
  of_text (value_from_slice (vd_data vdoc)).

(** The version that a write of the transaction replaces, unless it is its own. *)
Definition keep_old_version (doc_id : string) (page : N) (vdoc : VersionedDocument) (is_own_write : bool) : CM unit :=
  if is_own_write then st_ret tt else
  let! nm := get_coll name in
  on_world (add_old_version nm doc_id (mk_version doc_id (vd_xmin vdoc) (vd_xmax vdoc) (vd_data vdoc) page)).

Definition update_by_id (doc_id : string) (updates : Value) : CM unit :=
  match as_object updates with
  | None => invalid_format "updates must be an object"
  | Some updates_map =>
    let! _ := guard_tx_active in
    let! '(old_page, vdoc, is_own_write) := find_version doc_id in
    let! nm := get_coll name in
    let! _ := on_world (track_doc_existed_in_snapshot nm doc_id true) in
    let! _ := if is_own_write : bool then st_ret tt else on_world (track_doc_original_xmin nm doc_id (vd_xmin vdoc)) in
    let! _ := keep_old_version doc_id old_page vdoc is_own_write in
    let! doc := of_text (map_from_slice (vd_data vdoc)) in
    let doc := foldl (fun doc kv => map_insert kv.1 kv.2 doc) doc updates_map in
    let doc := map_insert "_id" (Str doc_id) doc in
    let! new_data := of_text (map_to_vec doc) in
    let! '(new_page, ws) := write_version doc_id new_data in
    let! _ := on_btree (TxBTree.update fuel doc_id new_page) in
    let! _ := write_pages ws in
    record_document doc_id new_page
  end.

Definition delete_by_id (doc_id : string) : CM unit :=
  let! _ := guard_tx_active in
  let! '(page, vdoc, is_own_write) := find_version doc_id in
  let! _ := keep_old_version doc_id page vdoc is_own_write in
  let! _ := on_btree (TxBTree.delete fuel doc_id) in
  record_document doc_id PAGE_MAX.

(** The [while iter.next()] loops over the tree: [visit] sees the visible versions. *)
Fixpoint visit_documents {A} (steps : nat) (visit : VersionedDocument -> A -> A) (it : TxBTree.TxBTreeIterator) (acc : A) : CM A :=
  match steps with
  | 0 => st_lift OutOfFuel
  | S steps =>
    let! '(more, it) := on_btree (TxBTree.iter_next fuel it) in
    if more : bool then
      let! '(_, page) := st_lift (of_option Panic (TxBTree.iter_entry it)) in
      let! ws := the_tx writes in
      let! vdoc := st_ok (on_world (on_db (on_pager (read_versioned_document page ws)))) in
      let! own := the_tx mvcc_tx_id in
      let! snapshot := the_tx snapshot_id in
      visit_documents steps visit it match vdoc with
        | Some vdoc => if (vd_xmin vdoc =? own)%N || vdoc_is_visible vdoc snapshot then visit vdoc acc else acc
        | None => acc
        end
    else st_ret acc
  end.

Definition find_all : CM (list Value) :=
  let! it := on_btree (TxBTree.iterator fuel) in
  visit_documents fuel (fun vdoc results =>
    match value_from_slice (vd_data vdoc) with inl doc => vec_push results doc | inr _ => results end) it [].

Definition count : CM nat :=
  let! it := on_btree (TxBTree.iterator fuel) in
  visit_documents fuel (fun _ n => S n) it 0.

(** ** Typed documents *)
Section typed.
Context {T : Type} `{!Typed T}.

Definition typed_context (what : string) : CM string :=
  let! nm := get_coll name in st_ret (what +:+ " in collection '" +:+ nm +:+ "'").

Definition doc_context (doc_id ctx : string) : string := ctx +:+ ", document '" +:+ doc_id +:+ "'".

Definition serialized (ctx : string) (x : T) : CM Value :=
  st_lift match to_value x with inl v => Ok v | inr e => Err (SerializationError ctx e) end.

Definition deserialized (ctx : string) (v : Value) : CM T :=
  st_lift match from_value v with inl x => Ok x | inr e => Err (DeserializationError ctx e) end.

Definition insert_typed (generated : string) (doc : T) : CM string :=
  let! ctx := typed_context "insert_typed" in
  let! v := serialized ctx doc in insert generated v.

(** Each document with the id that would be generated for it. *)
Fixpoint insert_many_typed (docs : list (string * T)) : CM (list string) :=
  match docs with
  | [] => st_ret []
  | (generated, doc) :: docs =>
    let! id := insert_typed generated doc in
    let! ids := insert_many_typed docs in
    st_ret (id :: ids)
  end.

Definition find_by_id_typed (doc_id : string) : CM (option T) :=
  let! ctx := typed_context "find_by_id_typed" in
  st_catch (let! v := find_by_id doc_id in
            let! x := deserialized (doc_context doc_id ctx) v in st_ret (Some x))
    (fun e => match e with
              | NotFound | DocumentNotFound _ _ => st_ret None
              | Other msg => if str_contains "not found" msg then st_ret None else st_fail e
              | _ => st_fail e
              end).

Fixpoint deserialize_all (ctx : string) (vs : list Value) : CM (list T) :=
  match vs with
  | [] => st_ret []
  | v :: vs =>
    let! x := deserialized ctx v in
    let! xs := deserialize_all ctx vs in
    st_ret (x :: xs)
  end.

Definition find_all_typed : CM (list T) :=
  let! vs := find_all in
  let! ctx := typed_context "find_all_typed" in
  deserialize_all ctx vs.

Definition update_by_id_typed (doc_id : string) (updates : T) : CM unit :=
  let! ctx := typed_context "update_by_id_typed" in
  let! v := serialized (doc_context doc_id ctx) updates in
  update_by_id doc_id v.
End typed.
End tx_collection.
