(* ===== verification/Database.v ===== *)
(** * The database (database.rs)

    Opening with recovery from the log, transactions with retries, indexes, schemas,
    statistics, garbage collection and backups. Files are lists of bytes; locks on them are
    not modelled. *)

From stdpp Require Import base list strings gmap.
From Stdlib Require Import NArith ZArith Lia Strings.Byte.
From S2P Require Import Prelude Constants Bytes Text Order PageStore Json IndexKey QueryBuilder LruCache Pager Document BTreeNode BTree.
From S2P Require Import Wal Mvcc Validation TxBTree Metadata Watch DatabaseState Transaction.

#[local] Open Scope nat_scope.

Record GarbageCollectionStats := mk_gc_stats { versions_removed : nat; pages_freed : nat; bytes_freed : Z }.

Record BackupInfo := mk_backup_info { backup_version : N; backup_num_pages : N; num_collections : nat; backup_file_size : N }.

Record IndexInfo := mk_index_info { ii_name : string; ii_fields : list string; ii_unique : bool; ii_root : N }.

Record CollectionInfo := mk_collection_info {
  ci_name : string;
  document_count : nat;
  ci_root : N;
  ci_indexes : list IndexInfo }.

Record DatabaseInfo := mk_database_info {
  di_path : string;
  di_version : N;
  di_num_pages : N;
  di_file_size : N;
  di_collections : list CollectionInfo;
  total_documents : nat;
  di_read_only : bool }.

(** [{:?}] of a list of strings, in messages. *)
Class DebugFields := { fields_debug : list string -> string }.

Section database.
Context {tables : UnicodeTables} {numbers : SerdeNumber} {text : SerdeText} {catalogue : SerdeCatalogue} {bytes : SerdeBytes}
  {debug : DebugFields} {clock : Clock} {page_order : HashMapOrder N} {name_order : HashMapOrder string}.
Variable fuel : nat.

Notation DM := (ST Database Error).
Notation TM := (ST txworld Error).

(** ** Opening *)

(** What the frames of page 0 say of the header: the last metadata page that is not 0 and the
    last page count. *)
Definition header_frame (acc : option N * option N) (f : WALFrame) : option N * option N :=
  if (page_num f =? 0)%N && (32 <=? length (page_data f)) then
    let meta_page := default 0%N (read_le 8 24 (page_data f)) in
    ((if (0 <? meta_page)%N then Some meta_page else acc.1), Some (default 0%N (read_le 8 12 (page_data f))))
  else acc.

(** The part of [open_with_options] that replays the log. *)
Definition recover (read_only : bool) : DM unit :=
  let! n := frame_count in
  if read_only || (n =? 0)%N then st_ret tt else
  let! frames := on_wal Wal.read_all_frames in
  let '(latest_meta_page, latest_num_pages) := foldl header_frame (None, None) frames in
  let max_page := foldl (fun m f => if (m <? page_num f)%N then page_num f else m) 0%N frames in
  let! num_pages := on_pager (st_get Pager.num_pages) in
  let! _ := match latest_num_pages with
    | Some n => on_pager (Pager.set_num_pages n)
    | None => if (num_pages <=? max_page)%N then on_pager (Pager.set_num_pages (max_page + 1)) else st_ret tt
    end in
  let! _ := wal_checkpoint in
  match latest_meta_page with
  | Some meta_page =>
    let! _ := on_pager (Pager.set_metadata_page meta_page) in on_pager Pager.write_header
  | None => st_ret tt
  end.

(** The catalogue of the file, or a new one that is written to the file. *)
Definition load_metadata : DM Metadata :=
  let! metadata_page_num := on_pager (st_get Pager.metadata_page) in
  if (0 <? metadata_page_num)%N then
    let! meta_data := on_pager (Pager.read_page metadata_page_num) in
    st_lift (metadata_deserialize meta_data)
  else
    let meta := metadata_new in
    let! meta_page := on_pager Pager.alloc_page in
    let! meta_data := st_lift (metadata_serialize meta) in
    let! _ := on_pager (Pager.write_page_transfer meta_page (pad_page meta_data)) in
    let! _ := on_pager (Pager.set_metadata_page meta_page) in
    let! _ := on_pager Pager.write_header in
    let! _ := on_pager Pager.flush in
    st_ret meta.

(** The fields with which the [Database] is made. *)
Definition database_new (opts : DatabaseOptions) (w : Wal.WALInner) (p : Pager.Pager) : Database :=
  mk_db _ p w metadata_new manager_new (opt_read_only opts) ∅ tx_config_default (opt_auto_checkpoint_threshold opts)
    false new_watcher_storage 1 [] batch_config_default (opt_max_bulk_operations opts) (opt_max_document_size opts) ∅ 0 [].

Definition check_path (path : string) : Result unit :=
  if String.eqb path "" then Err (Other "database path cannot be empty")
  else if str_contains ".." path then Err (Other "database path cannot contain '..'")
  else Ok tt.

(** [open_with_options] on the bytes of the file and of the log, [None] for a missing one.
    What a failed call leaves in the files is not modelled. *)
Definition open_with_options (path : string) (opts : DatabaseOptions) (data log : option (list byte)) (secs1 secs2 : option N) :
    Result Database :=
  let? _ := check_path path in
  let '(r, p) := pager_open data (opt_cache_size opts) (opt_read_only opts) in
  let? _ := r in
  let '(r, w) := wal_open log secs1 secs2 in
  let? _ := r in
  let '(r, d) := (
    let! _ := recover (opt_read_only opts) in
    let! current_tx_id := on_pager Pager.get_current_transaction_id in
    let! _ := st_modify (with_tx_manager (initialize_from_pager current_tx_id)) in
    let! m := load_metadata in
    st_modify (with_metadata (fun _ => m))) (database_new opts w p) in
  let? _ := r in
  Ok d.

(** ** Transactions *)
Definition begin_db : DM Transaction :=
  let! m := get_metadata in
  let! t := transaction_new (btree_root <$> collections m) in
  st_ret (set_database t).

(** A method of a transaction, run on the database. *)
Definition in_transaction {A} (m : TM A) (t : Transaction) : DM (A * Transaction) := fun d =>
  let '(r, w) := m (mk_txworld _ t d) in (let? a := r in Ok (a, w_tx w), w_db w).

(** One attempt of [run_transaction]: [Some r] is the result that ends the loop, [None] a
    conflict. The transaction is dropped at the end of every attempt; the time between two
    attempts is not modelled. *)
Definition attempt {R} (f : TM R) : TM (option (Result R)) := fun w =>
  match f w with
  | (Ok result, w) =>
    match commit fuel w with
    | (Ok _, w) => (let! _ := drop_transaction in st_ret (Some (Ok result))) w
    | (Err TxConflict, w) => (let! _ := drop_transaction in st_ret None) w
    | (Err e, w) => (let! _ := drop_transaction in st_ret (Some (Err e))) w
    | (Panic, w) => (Panic, w)
    | (OutOfFuel, w) => (OutOfFuel, w)
    end
  | (Err e, w) => (let! _ := st_ok rollback in let! _ := drop_transaction in st_ret (Some (Err e))) w
  | (Panic, w) => (Panic, w)
  | (OutOfFuel, w) => (OutOfFuel, w)
  end.

Fixpoint attempts {R} (n : nat) (f : TM R) : DM R :=
  match n with
  | 0 => st_fail TxConflict
  | S n =>
    let! t := begin_db in
    let! '(done, _) := in_transaction (attempt f) t in
    match done with
    | Some r => st_lift r
    | None => attempts n f
    end
  end.

Definition run_transaction {R} (f : TM R) : DM R :=
  let! config := get_transaction_config in attempts (S (max_retries config)) f.

(** ** Statistics *)
Definition list_collections : DM (list string) :=
  let! m := st_get metadata in st_ret (stable_sort String.compare (map_iter (collections m)).*1).

Definition index_infos (c : CollectionMeta) : list IndexInfo :=
  (fun '(idx_name, im) => mk_index_info idx_name (fields im) (unique im) (index_root im)) <$> map_iter (indexes c).

Definition not_found_error (name : string) : Error := Other ("collection " +:+ name +:+ " not found").

Definition list_indexes (name : string) : DM (list IndexInfo) :=
  let! m := st_get metadata in
  match collections m !! name with
  | None => st_fail (not_found_error name)
  | Some c => st_ret (index_infos c)
  end.

Fixpoint count_visible (steps : nat) (snapshot : N) (it : BTree.BTreeIterator) (n : nat) : ST (bstate Pager.Pager) Error nat :=
  match steps with
  | 0 => st_lift OutOfFuel
  | S steps =>
    let! '(more, it) := BTree.iter_next it in
    if more : bool then
      let! '(_, page) := st_lift (of_option Panic (BTree.iter_entry it)) in
      let! vdoc := st_ok (on_store (read_versioned_document page ∅)) in
      count_visible steps snapshot it match vdoc with
        | Some vdoc => if vdoc_is_visible vdoc snapshot then S n else n
        | None => n
        end
    else st_ret n
  end.

Definition count_documents_in_btree (root : N) : DM nat :=
  let! t := begin_db in
  let! n := run_btree root (let! it := BTree.iterator fuel in count_visible fuel (snapshot_id t) it 0) in
  let! _ := in_transaction drop_transaction t in
  st_ret n.

Definition collection_stats (name : string) : DM CollectionInfo :=
  let! m := st_get metadata in
  match collections m !! name with
  | None => st_fail (not_found_error name)
  | Some c =>
    let! n := if (btree_root c =? 0)%N then st_ret 0 else count_documents_in_btree (btree_root c) in
    st_ret (mk_collection_info name n (btree_root c) (index_infos c))
  end.

Fixpoint collect_stats (names : list string) (acc : list CollectionInfo * nat) : DM (list CollectionInfo * nat) :=
  match names with
  | [] => st_ret acc
  | name :: names =>
    let! info := st_ok (collection_stats name) in
    collect_stats names match info with
      | Some i => (vec_push acc.1 i, acc.2 + document_count i)
      | None => acc
      end
  end.

Definition info (path : string) : DM DatabaseInfo :=
  let! m := st_get metadata in
  let! file_size := st_get (fun d => N.of_nat (length (Pager.file (pager d)))) in
  let! '(infos, total) := collect_stats (map_iter (collections m)).*1 ([], 0) in
  let! num_pages := on_pager (st_get Pager.num_pages) in
  let! ro := st_get read_only in
  st_ret (mk_database_info path VERSION num_pages file_size
    (stable_sort (fun a b => String.compare (ci_name a) (ci_name b)) infos) total ro).

(** ** Garbage collection *)
Fixpoint free_versions (vs : list DocumentVersion) (n : nat) : DM nat :=
  match vs with
  | [] => st_ret n
  | v :: vs =>
    let! r := st_ok (on_pager (delete_document (v_page_num v))) in
    free_versions vs match r with Some _ => S n | None => n end
  end.

Definition removed_versions (oldest : N) (t : chain_table) : list DocumentVersion :=
  map_iter t ≫= fun cd => map_iter cd.2 ≫= fun dc => (Mvcc.garbage_collect oldest dc.2).1.

Definition garbage_collect_db : DM GarbageCollectionStats :=
  let! ro := st_get read_only in
  if ro : bool then st_fail (Other "cannot garbage collect: database is in read-only mode") else
  let! oldest := st_get (fun d => get_oldest_active_transaction (tx_manager d)) in
  let! t := st_get version_chains in
  let! n := free_versions (removed_versions oldest t) 0 in
  let! _ := st_modify (with_version_chains (fun t => (collect_table oldest t).2)) in
  st_ret (mk_gc_stats n n (Z.of_nat n * Z.of_nat PAGE_SIZE)).

(** [close], and what [drop] does of it; the unlocking of the file is not modelled. *)
Definition close_db : DM unit :=
  let! _ := on_pager Pager.flush in on_wal Wal.close.

(** ** Indexes *)
Definition index_exists_error (what index_name collection : string) : Error :=
  Other (what +:+ " " +:+ index_name +:+ " already exists on collection " +:+ collection).

(** What a key of an index is built from: a document that cannot be read has none. *)
Definition document_map (page : N) : ST (bstate Pager.Pager) Error (option Map) :=
  let! vdoc := st_ok (on_store (read_versioned_document page ∅)) in
  st_ret (vdoc ≫= fun vdoc => match map_from_slice (vd_data vdoc) with inl m => Some m | inr _ => None end).

Definition index_key_of (fields : list string) (doc_map : Map) (doc_id : string) : Result string :=
  let field_values := extract_field_values doc_map fields in
  if decide (length fields = 1) then
    let? field_value := of_option Panic (field_values !! 0) in
    serialize_index_key {| field_value := field_value; doc_id := doc_id |}
  else serialize_compound_index_key {| field_values := field_values; cdoc_id := doc_id |}.

Definition index_entry (fields : list string) (unique : bool) (e : LeafEntry) : ST (bstate Pager.Pager) Error unit :=
  let! doc_map := document_map (value e) in
  match doc_map with
  | None => st_ret tt
  | Some doc_map =>
    let! key_str := st_lift (index_key_of fields doc_map (key e)) in
    let! _ := if unique then
        let! found := st_ok (BTree.search fuel key_str) in
        match found with
        | Some _ => st_fail (Other ("unique constraint violation on fields " +:+ fields_debug fields +:+ ": duplicate value found"))
        | None => st_ret tt
        end
      else st_ret tt in
    BTree.insert fuel key_str (value e)
  end.

(** The scan of the tree of a collection: a leaf is followed by the leaves it links to, also
    when it is one of several children. *)
Fixpoint scan_btree_node_for_compound_index (depth : nat) (page : N) (fields : list string) (unique : bool) :
    ST (bstate Pager.Pager) Error unit :=
  match depth with
  | 0 => st_lift OutOfFuel
  | S depth =>
    if (page =? 0)%N then st_ret tt else
    let! page_data := on_store (Pager.read_page page) in
    let! node := st_lift (deserialize_node page page_data) in
    if decide (node_type node = LeafNode) then
      let! _ := st_each (index_entry fields unique) (entries node) in
      if (next_leaf node =? 0)%N then st_ret tt
      else scan_btree_node_for_compound_index depth (next_leaf node) fields unique
    else st_each (fun child_page => scan_btree_node_for_compound_index depth child_page fields unique) (children node)
  end.

Definition build_compound_index_from_btree (root : N) (fields : list string) (unique : bool) : ST (bstate Pager.Pager) Error unit :=
  scan_btree_node_for_compound_index fuel root fields unique.

Definition save_all : DM unit :=
  let! _ := save_metadata in
  let! _ := on_pager Pager.flush in
  on_pager Pager.write_header.

Definition guard_writable_db (what : string) : DM unit :=
  let! ro := st_get read_only in
  if ro : bool then st_fail (Other ("cannot " +:+ what +:+ ": database is in read-only mode")) else st_ret tt.

Definition create_compound_index (collection index_name : string) (fields : list string) (unique : bool) : DM unit :=
  let! _ := st_lift (validate_collection_name collection) in
  if decide (fields = []) then st_fail (Other "index must have at least one field") else
  let! _ := guard_writable_db "create index" in
  let! _ := wal_checkpoint in
  let! m := st_get metadata in
  if decide (is_Some (collections m !! collection ≫= fun c => indexes c !! index_name))
  then st_fail (index_exists_error "index" index_name collection) else
  let coll_btree_root := root_of collection m in
  let! index_root := run_btree 0 (
    let! _ := new_btree in
    let! _ := if (coll_btree_root =? 0)%N then st_ret tt
      else build_compound_index_from_btree coll_btree_root fields unique in
    get_root_page) in
  let! _ := st_modify (with_metadata (get_collection collection
    (set_indexes <[index_name := mk_index index_name None fields index_root unique]>))) in
  save_all.

Definition create_index (collection index_name field : string) (unique : bool) : DM unit :=
  create_compound_index collection index_name [field] unique.

Definition drop_index (collection index_name : string) : DM unit :=
  let! _ := st_lift (validate_collection_name collection) in
  let! _ := guard_writable_db "drop index" in
  let! m := st_get metadata in
  match collections m !! collection with
  | None => st_fail (Other ("collection " +:+ collection +:+ " does not exist"))
  | Some c =>
    if decide (indexes c !! index_name = None)
    then st_fail (Other ("index " +:+ index_name +:+ " does not exist on collection " +:+ collection)) else
    let! _ := st_modify (with_metadata (fun m =>
      mk_metadata _ (alter (set_indexes (base.delete index_name)) collection (collections m)))) in
    save_all
  end.

(** ** Schemas *)
Definition set_schema (collection : string) (s : Schema) : DM unit :=
  let! _ := st_lift (validate_collection_name collection) in
  let! _ := guard_writable_db "set schema" in
  let! _ := st_modify (with_metadata (get_collection collection (set_schema_field (Some s)))) in
  let! _ := save_metadata in
  on_pager Pager.flush.

Definition get_schema (collection : string) : DM (option Schema) :=
  let! m := st_get metadata in st_ret (collections m !! collection ≫= schema).

Definition remove_schema (collection : string) : DM unit :=
  let! _ := st_lift (validate_collection_name collection) in
  let! _ := guard_writable_db "remove schema" in
  let! _ := st_modify (with_metadata (fun m =>
    mk_metadata _ (alter (set_schema_field None) collection (collections m)))) in
  let! _ := save_metadata in
  on_pager Pager.flush.

(** ** Backups *)

(** The bytes that the backup file gets. *)
Definition backup : DM (list byte) :=
  let! ro := st_get read_only in
  if ro : bool then st_fail (Other "cannot backup: database is read-only") else
  let! _ := checkpoint in
  st_get (fun d => Pager.file (pager d)).

Definition verify_backup (data : list byte) : Result BackupInfo :=
  let? header_buf := of_option (Err unexpected_eof) (slice 0 PAGE_SIZE data) in
  if decide (take 4 header_buf <> MAGIC) then Err InvalidMagic else
  let version := default 0%N (read_le 4 4 header_buf) in
  let num_pages := default 0%N (read_le 8 12 header_buf) in
  let metadata_page := default 0%N (read_le 8 24 header_buf) in
  let? n :=
    if (0 <? metadata_page)%N then
      let '(r, temp_pager) := pager_open (Some data) 100 true in
      let? _ := r in
      let? meta_data := (Pager.read_page metadata_page temp_pager).1 in
      let? m := metadata_deserialize meta_data in
      Ok (size (collections m))
    else Ok 0 in
  Ok (mk_backup_info version num_pages n (N.of_nat (length data))).
End database.
