(* ===== verification/Errors.v ===== *)
(** * The texts of errors (errors.rs)

    [Display] of [Error], which other messages contain. *)

From stdpp Require Import base strings pretty.
From Stdlib Require Import NArith.
From S2P Require Import Prelude Constants.

(** [{:?}] of a string. *)
Class DebugStr := str_debug : string -> string.

Definition error_to_string {debug : DebugStr} (e : Error) : string :=
  match e with
  | TxNotActive => "transaction is not active"
  | TxAlreadyDone => "transaction already committed or rolled back"
  | TxConflict => "transaction conflict: data was modified by another transaction"
  | DatabaseAlreadyOpen => "database already open in this process"
  | DatabaseClosed => "database is closed"
  | DatabaseReadOnly operation => "database is read-only, cannot perform operation: " +:+ operation
  | DatabaseReferenceNotSet => "database reference not set (internal error)"
  | CollectionNameEmpty => "collection name cannot be empty"
  | CollectionNameTooLong => "collection name too long (max 64 characters)"
  | CollectionNameInvalidStart => "collection name must start with letter or underscore"
  | CollectionNameInvalidChar => "collection name contains invalid characters (use alphanumeric and underscore only)"
  | CollectionNameReserved => "collection name is reserved"
  | CollectionAlreadyExists name => "collection '" +:+ name +:+ "' already exists"
  | CollectionDoesNotExist name => "collection '" +:+ name +:+ "' does not exist"
  | DocumentNotFound collection id => "document not found: collection=" +:+ str_debug collection +:+ ", id=" +:+ str_debug id
  | DocumentAlreadyExists collection id =>
    "document already exists: collection=" +:+ str_debug collection +:+ ", id=" +:+ str_debug id
  | DocumentTooLarge => "document exceeds maximum size"
  | BulkOperationTooLarge count limit =>
    "bulk operation exceeds maximum size: operation has " +:+ pretty count +:+ " items but limit is " +:+ pretty limit
  | InvalidDocument => "invalid document format"
  | InvalidDocumentFormat reason collection =>
    "invalid document format: " +:+ reason +:+
      match collection with Some coll => " (collection: '" +:+ coll +:+ "')" | None => "" end
  | Conflict collection document_id operation =>
    "transaction conflict: collection=" +:+ str_debug collection +:+ ", document=" +:+ str_debug document_id +:+
      ", operation=" +:+ str_debug operation
  | Validation field value reason =>
    "validation error: field=" +:+ str_debug field +:+ ", value=" +:+ value +:+ ", reason=" +:+ str_debug reason
  | SchemaValidation msg => "schema validation error: " +:+ msg
  | SerializationError context error => "serialization error: " +:+ error +:+ " (" +:+ context +:+ ")"
  | DeserializationError context error => "deserialization error: " +:+ error +:+ " (" +:+ context +:+ ")"
  | InvalidIndexKey format expected => "invalid index key format: got '" +:+ format +:+ "', expected '" +:+ expected +:+ "'"
  | Corruption component page_num details =>
    "data corruption in " +:+ component +:+ ": page=" +:+ pretty page_num +:+ ", " +:+ details
  | LockPoisoned lock_name => "lock poisoned: " +:+ lock_name +:+ " (another thread panicked while holding this lock)"
  | DataCorruption details => "data corruption: " +:+ details
  | ContextCancelled operation error => "operation cancelled: " +:+ operation +:+ ": " +:+ error
  | InvalidMagic => "invalid magic number"
  | InvalidVersion => "unsupported version"
  | InvalidPageNum => "invalid page number"
  | InvalidPageSize => "page size must be 4096 bytes"
  | WALCorrupted => "WAL file corrupted"
  | WALInvalidTx => "invalid transaction ID"
  | WALChecksumFail => "WAL checksum verification failed"
  | NotFound => "document not found"
  | Io msg => "IO error: " +:+ msg
  | Other msg => msg
  end.
