(* ===== verification/Collection.v ===== *)
(** * Collections (collection.rs)

    The documents of a collection outside a transaction of the caller: every operation begins
    a transaction of its own. The tree of the collection is the one of btree.rs, at the root
    that the catalogue has now, and is changed in place; only the pages of the documents go
    through the transaction. *)

From stdpp Require Import base list strings gmap pretty.
From Stdlib Require Import NArith Lia Strings.Byte Ascii.
From S2P Require Import Prelude Constants Bytes Text PageStore Json QueryParser IndexKey QueryBuilder LruCache Pager Document BTreeNode BTree.
From S2P Require Import Wal Mvcc Validation TxBTree Metadata Watch DatabaseState Transaction TxCollection Database Errors.

#[local] Open Scope nat_scope.

Inductive UpsertResult := Inserted (id : string) | Updated (id : string).

Record BulkWriteError := mk_bulk_error { operation_index : nat; message : string }.

Record BulkWriteResult := mk_bulk_result {
  inserted_count : nat;
  updated_count : nat;
  deleted_count : nat;
  errors : list BulkWriteError }.

Inductive BulkOperation `{!SerdeNumber} :=
| BulkInsert (doc : Value)
| UpdateOne (query : string) (updates : Value)
| UpdateMany (query : string) (updates : Value)
| DeleteOne (query : string)
| DeleteMany (query : string).

Record BulkWrite `{!SerdeNumber} := mk_bulk { operations : list BulkOperation; ordered : bool }.

(** A transaction with its database, and the tree of the collection. *)
Record treeworld `{!SerdeNumber} := mk_treeworld { t_world : txworld; t_inner : BTreeInner }.

Section builder.
Context {numbers : SerdeNumber}.

Definition bulk_new : BulkWrite := mk_bulk _ [] true.

Definition bulk_push (o : BulkOperation) (b : BulkWrite) : BulkWrite := mk_bulk _ (vec_push (operations b) o) (ordered b).

Definition bulk_insert (doc : Value) : BulkWrite -> BulkWrite := bulk_push (BulkInsert doc).
Definition bulk_update_one (query : string) (updates : Value) : BulkWrite -> BulkWrite := bulk_push (UpdateOne query updates).
Definition bulk_update_many (query : string) (updates : Value) : BulkWrite -> BulkWrite := bulk_push (UpdateMany query updates).
Definition bulk_delete_one (query : string) : BulkWrite -> BulkWrite := bulk_push (DeleteOne query).
Definition bulk_delete_many (query : string) : BulkWrite -> BulkWrite := bulk_push (DeleteMany query).
Definition bulk_ordered (o : bool) (b : BulkWrite) : BulkWrite := mk_bulk _ (operations b) o.
End builder.

Section collection.
Context {tables : UnicodeTables} {numbers : SerdeNumber} {text : SerdeText} {catalogue : SerdeCatalogue} {bytes : SerdeBytes}
  {messages : Messages} {debug_str : DebugStr} {clock : Clock} {page_order : HashMapOrder N} {name_order : HashMapOrder string}.
Variable fuel : nat.

(** The handle of a collection is the database and the name. *)
Variable name : string.

Notation DM := (ST Database Error).
Notation TM := (ST txworld Error).
Notation KM := (ST treeworld Error).

Definition in_tx {A} (m : TM A) : KM A := fun s =>
  let '(r, w) := m (t_world s) in (r, mk_treeworld _ w (t_inner s)).

Definition on_tree {A} (m : ST (bstate Pager.Pager) Error A) : KM A := fun s =>
  let w := t_world s in
  let '(r, b) := m (mk_bstate (pager (w_db w)) (t_inner s)) in
  (r, mk_treeworld _ (mk_txworld _ (w_tx w) (with_pager (fun _ => store b) (w_db w))) (inner b)).

(** The tree at a root, in a scope. *)
Definition with_tree {A} (root : N) (m : KM A) : TM A := fun w =>
  let '(r, s) := m (mk_treeworld _ w (inner_new root)) in (r, t_world s).

(** A transaction that is begun, and dropped at the end of the scope. *)
Definition with_transaction {A} (m : TM A) : DM A :=
  let! t := begin_db in
  fun d => let '(r, w) := m (mk_txworld _ t d) in (r, w_db (drop_transaction w).2).

(** The root of the tree of a collection that is in the catalogue. *)
Definition existing_root : TM N :=
  let! m := on_db get_metadata in
  match collections m !! name with
  | Some c => st_ret (btree_root c)
  | None => st_fail (not_found_error name)
  end.

(** [BTree::new] for a collection without a tree. *)
Definition tree_or_new (root : N) : KM unit := if (root =? 0)%N then on_tree new_btree else st_ret tt.

Definition with_current_tree {A} (m : KM A) : TM A :=
  let! md := on_db get_metadata in
  let root := root_of name md in
  with_tree root (let! _ := tree_or_new root in m).

Definition not_an_object {S A} (what : string) : ST S Error A := st_fail (Other (what +:+ " must be an object")).

Definition document_missing {S A} : ST S Error A := st_fail (Other "document not found").

Definition check_schema (doc : Map) : DM unit :=
  let! m := get_metadata in
  match collections m !! name ≫= schema with
  | Some s => st_lift (validate s (Object doc))
  | None => st_ret tt
  end.

Definition doc_with_id (generated : string) (doc_map : Map) : Result (string * Map) :=
  match map_get "_id" doc_map with
  | Some id =>
    match as_str id with
    | Some s => Ok (s, doc_map)
    | None => Err (Other "_id must be a string")
    end
  | None => Ok (generated, map_insert "_id" (Str generated) doc_map)
  end.

(** ** Documents in the tree *)
Definition new_version (doc_id : string) (data : list byte) : KM (N * gmap N (list byte)) := fun s =>
  let w := t_world s in
  let '(r, (p, ws)) := write_versioned_document doc_id data (mvcc_tx_id (w_tx w)) 0 (pager (w_db w), ∅) in
  (let? '(page, _) := r in Ok (page, ws), mk_treeworld _ (mk_txworld _ (w_tx w) (with_pager (fun _ => p) (w_db w))) (t_inner s)).

Definition buffer_pages (ws : gmap N (list byte)) : KM unit :=
  st_each (fun '(page, data) => in_tx (write_page page data)) (map_iter ws).

Definition check_missing (doc_id : string) : KM unit :=
  let! found := st_ok (on_tree (BTree.search fuel doc_id)) in
  match found with
  | Some _ => st_fail (Other ("document with ID " +:+ doc_id +:+ " already exists"))
  | None => st_ret tt
  end.

(** The version of a new document, its entry, and its record in the transaction. *)
Definition insert_version (doc_id : string) (data : list byte) : KM unit :=
  let! '(page, ws) := new_version doc_id data in
  let! _ := on_tree (BTree.insert fuel doc_id page) in
  let! _ := buffer_pages ws in
  in_tx (write_document name doc_id page).

Definition visible_version (doc_id : string) : KM VersionedDocument :=
  let! page := on_tree (BTree.search fuel doc_id) in
  let! ws := in_tx get_writes in
  let! vdoc := in_tx (on_db (on_pager (read_versioned_document page ws))) in
  let! snapshot := in_tx (get_tx snapshot_id) in
  if vdoc_is_visible vdoc snapshot then st_ret vdoc else document_missing.

Definition merged (doc_id : string) (updates_map doc : Map) : Map :=
  map_insert "_id" (Str doc_id) (foldl (fun doc kv => map_insert kv.1 kv.2 doc) doc updates_map).

(** A new version with the updated fields takes the place of the old one. *)
Definition replace_version (doc_id : string) (updates_map : Map) : KM unit :=
  let! vdoc := visible_version doc_id in
  let! doc := of_text (map_from_slice (vd_data vdoc)) in
  let doc := merged doc_id updates_map doc in
  let! _ := in_tx (on_db (check_schema doc)) in
  let! new_data := of_text (map_to_vec doc) in
  let! '(new_page, ws) := new_version doc_id new_data in
  let! _ := on_tree (BTree.delete fuel doc_id) in
  let! _ := on_tree (BTree.insert fuel doc_id new_page) in
  let! _ := buffer_pages ws in
  in_tx (write_document name doc_id new_page).

(** The pages of the document are freed and its entry goes. *)
Definition execute_delete_by_id (doc_id : string) : KM unit :=
  let! page := on_tree (BTree.search fuel doc_id) in
  let! _ := in_tx (on_db (on_pager (delete_document page))) in
  on_tree (BTree.delete fuel doc_id).

(** The [while iter.next()] loops: [visit] sees the visible versions. *)
Fixpoint visit_tree {A} (steps : nat) (visit : VersionedDocument -> A -> A) (it : BTree.BTreeIterator) (acc : A) : KM A :=
  match steps with
  | 0 => st_lift OutOfFuel
  | S steps =>
    let! '(more, it) := on_tree (BTree.iter_next it) in
    if more : bool then
      let! '(_, page) := st_lift (of_option Panic (BTree.iter_entry it)) in
      let! ws := in_tx get_writes in
      let! vdoc := st_ok (in_tx (on_db (on_pager (read_versioned_document page ws)))) in
      let! snapshot := in_tx (get_tx snapshot_id) in
      visit_tree steps visit it match vdoc with
        | Some vdoc => if vdoc_is_visible vdoc snapshot then visit vdoc acc else acc
        | None => acc
        end
    else st_ret acc
  end.

Definition push_document (vdoc : VersionedDocument) (results : list Value) : list Value :=
  match value_from_slice (vd_data vdoc) with inl doc => vec_push results doc | inr _ => results end.

Definition find_all_in_tx : KM (list Value) :=
  let! it := on_tree (BTree.iterator fuel) in visit_tree fuel push_document it [].

Definition count_in_tx : KM nat :=
  let! it := on_tree (BTree.iterator fuel) in visit_tree fuel (fun _ n => S n) it 0.

Definition find_in_tx (query : string) : KM (list Value) :=
  let! ast := st_lift (parse_or_fail query) in
  let! all_docs := find_all_in_tx in
  st_ret (filter (fun doc => matches ast doc = true) all_docs).

Definition find_one_in_tx (query : string) : KM (option Value) :=
  let! docs := find_in_tx query in st_ret (docs !! 0).

Definition id_of (doc : Value) : option string := value_get "_id" doc ≫= as_str.

(** ** Bulk operations *)
Definition execute_insert (generated : string) (doc : Value) : KM string :=
  match as_object doc with
  | None => not_an_object "document"
  | Some doc_map =>
    let! '(doc_id, doc_map) := st_lift (doc_with_id generated doc_map) in
    let! _ := check_missing doc_id in
    let! data := of_text (map_to_vec doc_map) in
    let! _ := insert_version doc_id data in
    st_ret doc_id
  end.

Definition execute_update_one (query : string) (updates : Value) : KM nat :=
  match as_object updates with
  | None => not_an_object "updates"
  | Some updates_map =>
    let! doc := find_one_in_tx query in
    match doc ≫= id_of with
    | Some id => let! _ := replace_version id updates_map in st_ret 1
    | None => st_ret 0
    end
  end.

(** [for doc in docs { if let Some(id) = .. { f(id)?; count += 1; } }]. *)
Fixpoint count_each {S} (f : string -> ST S Error unit) (docs : list Value) (count : nat) : ST S Error nat :=
  match docs with
  | [] => st_ret count
  | doc :: docs =>
    match id_of doc with
    | Some id => let! _ := f id in count_each f docs (Datatypes.S count)
    | None => count_each f docs count
    end
  end.

Definition execute_update_many (query : string) (updates : Value) : KM nat :=
  match as_object updates with
  | None => not_an_object "updates"
  | Some updates_map =>
    let! docs := find_in_tx query in
    count_each (fun id => replace_version id updates_map) docs 0
  end.

Definition execute_delete_one (query : string) : KM nat :=
  let! doc := find_one_in_tx query in
  match doc ≫= id_of with
  | Some id => let! _ := execute_delete_by_id id in st_ret 1
  | None => st_ret 0
  end.

Definition execute_delete_many (query : string) : KM nat :=
  let! docs := find_in_tx query in count_each execute_delete_by_id docs 0.

(** The numbers of inserted, updated and deleted documents. *)
Definition execute_operation (generated : string) (o : BulkOperation) : KM (nat * nat * nat) :=
  match o with
  | BulkInsert doc => let! _ := execute_insert generated doc in st_ret (1, 0, 0)
  | UpdateOne query updates => let! n := execute_update_one query updates in st_ret (0, n, 0)
  | UpdateMany query updates => let! n := execute_update_many query updates in st_ret (0, n, 0)
  | DeleteOne query => let! n := execute_delete_one query in st_ret (0, 0, n)
  | DeleteMany query => let! n := execute_delete_many query in st_ret (0, 0, n)
  end.

(** The result of an operation as a value. *)
Definition attempted {S A} (m : ST S Error A) : ST S Error (A + Error) :=
  st_catch (let! a := m in st_ret (inl a)) (fun e => st_ret (inr e)).

Fixpoint run_operations (is_ordered : bool) (generated : nat -> string) (index : nat) (os : list BulkOperation)
    (result : BulkWriteResult) : KM BulkWriteResult :=
  match os with
  | [] => st_ret result
  | o :: os =>
    let! op_result := attempted (execute_operation (generated index) o) in
    match op_result with
    | inl (inserted, updated, deleted) =>
      run_operations is_ordered generated (S index) os
        (mk_bulk_result (inserted_count result + inserted) (updated_count result + updated) (deleted_count result + deleted)
          (errors result))
    | inr e =>
      let error := mk_bulk_error index (error_to_string e) in
      if is_ordered then st_fail (Other ("bulk write failed at operation " +:+ pretty index +:+ ": " +:+ message error))
      else run_operations is_ordered generated (S index) os
        (mk_bulk_result (inserted_count result) (updated_count result) (deleted_count result) (vec_push (errors result) error))
    end
  end.

(** The catalogue gets the root of the tree before the transaction commits. *)
Definition save_root : KM unit :=
  let! new_root := on_tree get_root_page in
  in_tx (on_db (update_metadata (Metadata.get_collection name (set_btree_root new_root)))).

Definition guard_bulk (n : nat) : DM unit :=
  let! max_bulk_ops := st_get max_bulk_operations in
  if max_bulk_ops <? n then st_fail (BulkOperationTooLarge n max_bulk_ops) else st_ret tt.

(** [BulkWrite::execute]; operation [i] would generate the id [generated i]. *)
Definition bulk_execute (generated : nat -> string) (b : BulkWrite) : DM BulkWriteResult :=
  let result := mk_bulk_result 0 0 0 [] in
  if decide (length (operations b) = 0) then st_ret result else
  let! _ := guard_bulk (length (operations b)) in
  with_transaction (
    let! result := with_current_tree (
      let! result := run_operations (ordered b) generated 0 (operations b) result in
      let! _ := save_root in
      st_ret result) in
    let! _ := commit fuel in
    st_ret result).

(** ** Operations on single documents *)

(** The new root is told to the transaction, which commits. *)
Definition track_root : KM unit :=
  let! new_root := on_tree get_root_page in in_tx (set_collection_root name new_root).

Definition insert (generated : string) (doc : Value) : DM string :=
  match as_object doc with
  | None => not_an_object "document"
  | Some doc_map =>
    let! _ := check_schema doc_map in
    let! '(doc_id, doc_map) := st_lift (doc_with_id generated doc_map) in
    let! data := of_text (map_to_vec doc_map) in
    with_transaction (
      let! _ := with_current_tree (
        let! _ := check_missing doc_id in
        let! _ := insert_version doc_id data in
        track_root) in
      let! _ := commit fuel in
      st_ret doc_id)
  end.

(** A computation on the tree of an existing collection; without a tree there is no document. *)
Definition on_existing {A} (no_tree : TM A) (m : KM A) : DM A :=
  with_transaction (
    let! root := existing_root in
    if (root =? 0)%N then no_tree else with_tree root m).

Definition find_by_id (doc_id : string) : DM Value :=
  on_existing document_missing (let! vdoc := visible_version doc_id in of_text (value_from_slice (vd_data vdoc))).

Definition find_all : DM (list Value) := on_existing (st_ret []) find_all_in_tx.

Definition count : DM nat := on_existing (st_ret 0) count_in_tx.

(** The operation on the tree, then the commit. *)
Definition change_existing (m : KM unit) : DM unit :=
  with_transaction (
    let! root := existing_root in
    if (root =? 0)%N then document_missing else
    let! _ := with_tree root (let! _ := m in track_root) in
    commit fuel).

Definition update_by_id (doc_id : string) (updates : Value) : DM unit :=
  match as_object updates with
  | None => not_an_object "updates"
  | Some updates_map => change_existing (replace_version doc_id updates_map)
  end.

Definition delete_by_id (doc_id : string) : DM unit := change_existing (execute_delete_by_id doc_id).

(** ** Operations with queries *)
Definition find (query : string) : DM (list Value) :=
  let! ast := st_lift (parse_or_fail query) in
  let! all_docs := find_all in
  st_ret (filter (fun doc => matches ast doc = true) all_docs).

Definition count_with_query (query : option string) : DM nat :=
  match query with
  | Some q => let! docs := find q in st_ret (length docs)
  | None => count
  end.

Definition find_one (query : string) : DM (option Value) := let! docs := find query in st_ret (docs !! 0).

Definition update (query : string) (updates : Value) : DM nat :=
  match as_object updates with
  | None => not_an_object "updates"
  | Some _ => let! docs := find query in count_each (fun id => update_by_id id updates) docs 0
  end.

Definition update_one (query : string) (updates : Value) : DM bool :=
  let! doc := find_one query in
  match doc ≫= id_of with
  | Some id => let! _ := update_by_id id updates in st_ret true
  | None => st_ret false
  end.

Definition delete (query : string) : DM nat := let! docs := find query in count_each delete_by_id docs 0.

Definition delete_one (query : string) : DM bool :=
  let! doc := find_one query in
  match doc ≫= id_of with
  | Some id => let! _ := delete_by_id id in st_ret true
  | None => st_ret false
  end.

(** Each document with the id that would be generated for it. *)
Fixpoint insert_each (docs : list (string * Value)) : KM (list string) :=
  match docs with
  | [] => st_ret []
  | (generated, doc) :: docs =>
    let! id := execute_insert generated doc in
    let! ids := insert_each docs in
    st_ret (id :: ids)
  end.

Definition insert_many (docs : list (string * Value)) : DM (list string) :=
  if decide (length docs = 0) then st_ret [] else
  let! _ := guard_bulk (length docs) in
  with_transaction (
    let! ids := with_current_tree (
      let! ids := insert_each docs in
      let! _ := save_root in
      st_ret ids) in
    let! _ := commit fuel in
    st_ret ids).

Definition upsert_by_id (doc_id : string) (doc : Value) : DM UpsertResult :=
  match as_object doc with
  | None => not_an_object "document"
  | Some doc_map =>
    let! existing := st_ok (find_by_id doc_id) in
    match existing with
    | Some _ => let! _ := update_by_id doc_id doc in st_ret (Updated doc_id)
    | None =>
      let! _ := insert "" (Object (map_insert "_id" (Str doc_id) doc_map)) in
      st_ret (Inserted doc_id)
    end
  end.

(** [Err(Error::Other(msg)) if msg.contains("not found")] has a default. *)
Definition or_not_found {A} (default : A) (m : DM A) : DM A :=
  st_catch m (fun e =>
    match e with
    | Other msg => if str_contains "not found" msg then st_ret default else st_fail e
    | _ => st_fail e
    end).

Definition upsert (generated query : string) (doc : Value) : DM UpsertResult :=
  match as_object doc with
  | None => not_an_object "document"
  | Some _ =>
    let! existing := or_not_found None (find_one query) in
    match existing ≫= id_of with
    | Some id => let! _ := update_by_id id doc in st_ret (Updated id)
    | None => let! id := insert generated doc in st_ret (Inserted id)
    end
  end.

(** ** Distinct values *)
Definition get_nested_field_value (doc : Map) (field : string) : Value := nested_parts (split_at "."%char field) (Object doc).

(** A value is kept when its text has not been seen. *)
Definition keep_new (acc : gset string * list Value) (v : Value) : gset string * list Value :=
  let value_str := json_text v in
  if decide (value_str ∈ acc.1) then acc else ({[value_str]} ∪ acc.1, vec_push acc.2 v).

Definition distinct_step (field : string) (acc : gset string * list Value) (doc : Value) : gset string * list Value :=
  match as_object doc with
  | None => acc
  | Some doc_map =>
    match get_nested_field_value doc_map field with
    | Array arr => foldl keep_new acc arr
    | v => keep_new acc v
    end
  end.

Definition distinct (field : string) : DM (list Value) :=
  let! all_docs := or_not_found [] find_all in
  st_ret (foldl (distinct_step field) (∅, []) all_docs).2.

Definition count_distinct (field : string) : DM nat := let! values := distinct field in st_ret (length values).

(** [watch().filter(..).subscribe()]. *)
Definition watch (watcher_id : string) (filter : option string) : DM (WatchHandle * N) := fun d =>
  let '(h, ch, st) := subscribe watcher_id name filter (watcher_storage d) in
  (Ok (h, ch), with_watcher_storage (fun _ => st) d).

(** ** Typed documents *)
Section typed.
Context {T : Type} `{!Typed T}.

Definition typed_value (what : string) (x : T) : Result Value :=
  match to_value x with inl v => Ok v | inr e => Err (Other ("Failed to serialize " +:+ what +:+ ": " +:+ e)) end.

Definition of_value (v : Value) : Result T :=
  match from_value v with inl x => Ok x | inr e => Err (Other ("Failed to deserialize document: " +:+ e)) end.

(** [.map(..).collect::<Result<Vec<_>>>()]. *)
Fixpoint collect_results {A B} (f : A -> Result B) (l : list A) : Result (list B) :=
  match l with
  | [] => Ok []
  | x :: l => let? y := f x in let? ys := collect_results f l in Ok (y :: ys)
  end.

Definition insert_typed (generated : string) (doc : T) : DM string :=
  let! value := st_lift (typed_value "document" doc) in insert generated value.

Definition insert_many_typed (docs : list (string * T)) : DM (list string) :=
  let! values := st_lift (collect_results (fun '(generated, doc) =>
    let? v := typed_value "document" doc in Ok (generated, v)) docs) in
  insert_many values.

(** The error of a document that does not deserialize is returned as it is. *)
Definition find_by_id_typed (doc_id : string) : DM (option T) :=
  let! found := attempted (find_by_id doc_id) in
  match found with
  | inl value => let! typed := st_lift (of_value value) in st_ret (Some typed)
  | inr NotFound => st_ret None
  | inr (DocumentNotFound _ _) => st_ret None
  | inr (Other msg) => if str_contains "not found" msg then st_ret None else st_fail (Other msg)
  | inr e => st_fail e
  end.

Definition find_all_typed : DM (list T) := let! values := find_all in st_lift (collect_results of_value values).

Definition find_typed (query : string) : DM (list T) := let! values := find query in st_lift (collect_results of_value values).

Definition find_one_typed (query : string) : DM (option T) :=
  let! found := find_one query in
  match found with
  | Some value => let! typed := st_lift (of_value value) in st_ret (Some typed)
  | None => st_ret None
  end.

Definition update_by_id_typed (doc_id : string) (updates : T) : DM unit :=
  let! value := st_lift (typed_value "updates" updates) in update_by_id doc_id value.

Definition update_typed (query : string) (updates : T) : DM nat :=
  let! value := st_lift (typed_value "updates" updates) in update query value.

Definition update_one_typed (query : string) (updates : T) : DM bool :=
  let! value := st_lift (typed_value "updates" updates) in update_one query value.

Definition upsert_by_id_typed (doc_id : string) (doc : T) : DM UpsertResult :=
  let! value := st_lift (typed_value "document" doc) in upsert_by_id doc_id value.

Definition upsert_typed (generated query : string) (doc : T) : DM UpsertResult :=
  let! value := st_lift (typed_value "document" doc) in upsert generated query value.
End typed.

(** What queries and pipelines read of the collection ([query], [aggregate]). *)
Definition collection_reads (d : Database) : CollectionReads := {|
  QueryBuilder.find_all := (find_all d).1;
  coll_count := (count d).1 |}.
End collection.
