(* ===== verification/TextSearch.v ===== *)
(** * Text search (text_search.rs, and what database.rs and collection.rs add to it)

    The inverted index: a tree whose keys are a term and a field and whose values are pages
    with postings, the documents of the term with its frequency in each. The numbers are
    IEEE binary32; the segmentation into words, the logarithm and the text of postings are
    parameters. *)

From stdpp Require Import base list strings gmap sorting.
From Stdlib Require Import NArith ZArith Lia Ascii Strings.Byte Floats.SpecFloat.
From S2P Require Import Prelude Constants Bytes BufferPool Text Order PageStore Json QueryParser IndexKey QueryBuilder LruCache Pager Document BTreeNode BTree.
From S2P Require Import Wal Mvcc Validation TxBTree Metadata Watch DatabaseState Transaction TxCollection Database Errors Collection.

#[local] Open Scope nat_scope.

(** ** Numbers *)
Notation f32 := spec_float.

Definition f32_of_usize (n : nat) : f32 := binary_normalize 24 128 (Z.of_nat n) 0 false.
Definition f32_add : f32 -> f32 -> f32 := SFadd 24 128.
Definition f32_mul : f32 -> f32 -> f32 := SFmul 24 128.
Definition f32_div : f32 -> f32 -> f32 := SFdiv 24 128.
Definition f32_zero : f32 := S754_zero false.
Definition f32_one : f32 := f32_of_usize 1.

(** [f32::ln], whose last bits are those of the platform. *)
Class LogF32 := f32_ln : f32 -> f32.

(** [str::unicode_words] of the segmentation crate. *)
Class Segmentation := unicode_words : string -> list string.

(** The text of a [HashMap<String, f32>], from its pairs in the order of iteration. *)
Class SerdePostings := {
  postings_to_vec : list (string * f32) -> list byte + string;
  postings_from_slice : list byte -> gmap string f32 + string }.

Record SearchResult := mk_result { r_doc_id : string; score : f32 }.

Section terms.
Context {tables : UnicodeTables} {words : Segmentation} {ln : LogF32} {name_order : HashMapOrder string}.

Definition tokenize (text : string) : list string :=
  filter (fun word => 1 < length (as_bytes word)) (to_lowercase <$> unicode_words text).

(** [*counts.entry(token).or_insert(0.0) += x]. *)
Definition add_to (x : f32) (k : string) (m : gmap string f32) : gmap string f32 :=
  <[k := f32_add (default f32_zero (m !! k)) x]> m.

Definition calculate_term_frequency (tokens : list string) : gmap string f32 :=
  let total := f32_of_usize (length tokens) in
  (fun count => f32_div count total) <$> foldl (fun counts token => add_to f32_one token counts) ∅ tokens.

Definition calculate_idf (total_docs docs_with_term : nat) : f32 :=
  if decide (docs_with_term = 0) then f32_zero else f32_ln (f32_div (f32_of_usize total_docs) (f32_of_usize docs_with_term)).

Definition term_key (term field : string) : string := term +:+ ":" +:+ field.

(** Everything up to the last byte that is not zero. *)
Fixpoint skip_zeros (l : list byte) : list byte :=
  match l with
  | [] => []
  | b :: l => if decide (b = Byte.x00) then skip_zeros l else b :: l
  end.

Definition trim_nulls (page : list byte) : list byte := rev (skip_zeros (rev page)).

(** [b.score.partial_cmp(&a.score).unwrap_or(Equal)]. *)
Definition by_score (a b : SearchResult) : Datatypes.comparison := default Eq (SFcompare (score b) (score a)).
End terms.

(** ** The index *)
Section index.
Context {tables : UnicodeTables} {words : Segmentation} {ln : LogF32} {postings_text : SerdePostings}
  {name_order : HashMapOrder string}.
Variable fuel : nat.
Variable fields : list string.

Notation M := (ST (bstate Pager.Pager) Error).

(** [serde_json::from_slice(trimmed).unwrap_or_default()]. *)
Definition parse_postings (page : list byte) : gmap string f32 :=
  match postings_from_slice (trim_nulls page) with inl m => m | inr _ => ∅ end.

Definition read_postings (page_num : N) : M (gmap string f32) :=
  let! page := on_store (Pager.read_page page_num) in
  st_ret (parse_postings page).

Definition write_data (data : list byte) : M N :=
  let! page_num := on_store Pager.alloc_page in
  if PAGE_SIZE <? length data then st_fail (Other "text index data too large for page") else
  let! page_data := BTree.of_index (put_slice 0 data zeroed_page) in
  let! _ := on_store (Pager.write_page page_num page_data) in
  st_ret page_num.

Definition write_postings (key : string) (postings : gmap string f32) : M unit :=
  let! data := of_text (postings_to_vec (map_iter postings)) in
  let! page_num := write_data data in
  BTree.insert fuel key page_num.

Definition index_term (doc_id field : string) (term_freq : string * f32) : M unit :=
  let key := term_key term_freq.1 field in
  let! found := st_ok (BTree.search fuel key) in
  let! postings := match found with Some page_num => read_postings page_num | None => st_ret ∅ end in
  write_postings key (<[doc_id := term_freq.2]> postings).

Definition index_document (doc_id : string) (field_values : gmap string string) : M unit :=
  st_each (fun field =>
    match field_values !! field with
    | Some text => st_each (index_term doc_id field) (map_iter (calculate_term_frequency (tokenize text)))
    | None => st_ret tt
    end) fields.

Definition remove_term (doc_id field term : string) : M unit :=
  let key := term_key term field in
  let! found := st_ok (BTree.search fuel key) in
  match found with
  | Some page_num =>
    let! postings := read_postings page_num in
    let postings := base.delete doc_id postings in
    if decide (postings = ∅) then BTree.delete fuel key else write_postings key postings
  | None => st_ret tt
  end.

Definition remove_document (doc_id : string) (field_values : gmap string string) : M unit :=
  st_each (fun field =>
    match field_values !! field with
    | Some text => st_each (remove_term doc_id field) (set_iter (list_to_set (tokenize text)))
    | None => st_ret tt
    end) fields.

(** The scores of the documents of a term in a field, added to those at hand. *)
Definition score_term (total_docs : nat) (doc_scores : gmap string f32) (term_field : string * string) : M (gmap string f32) :=
  let! found := st_ok (BTree.search fuel (term_key term_field.1 term_field.2)) in
  match found with
  | Some page_num =>
    let! postings := read_postings page_num in
    let idf := calculate_idf total_docs (size postings) in
    st_ret (foldl (fun scores posting => add_to (f32_mul posting.2 idf) posting.1 scores) doc_scores (map_iter postings))
  | None => st_ret doc_scores
  end.

Fixpoint score_terms (total_docs : nat) (doc_scores : gmap string f32) (term_fields : list (string * string)) : M (gmap string f32) :=
  match term_fields with
  | [] => st_ret doc_scores
  | tf :: term_fields =>
    let! doc_scores := score_term total_docs doc_scores tf in
    score_terms total_docs doc_scores term_fields
  end.

(** The two loops of [search], over the terms and over the fields. *)
Definition term_fields (query_terms : list string) : list (string * string) :=
  query_terms ≫= fun term => pair term <$> fields.

Definition search (query : string) (total_docs : nat) : M (list SearchResult) :=
  let query_terms := tokenize query in
  if decide (query_terms = []) then st_ret [] else
  let! doc_scores := score_terms total_docs ∅ (term_fields query_terms) in
  st_lift (sort_by by_score ((fun '(doc_id, s) => mk_result doc_id s) <$> map_iter doc_scores)).
End index.

(** ** Building and searching (database.rs, collection.rs) *)
Section text_index.
Context {tables : UnicodeTables} {numbers : SerdeNumber} {text : SerdeText} {catalogue : SerdeCatalogue} {bytes : SerdeBytes}
  {messages : Messages} {debug_str : DebugStr} {clock : Clock} {page_order : HashMapOrder N} {name_order : HashMapOrder string}
  {words : Segmentation} {ln : LogF32} {postings_text : SerdePostings}.
Variable fuel : nat.

Notation DM := (ST Database Error).

Definition text_values (fields : list string) (doc_map : Map) : gmap string string :=
  foldl (fun m field =>
    match map_get field doc_map ≫= as_str with
    | Some text => <[field := text]> m
    | None => m
    end) ∅ fields.

(** A document that cannot be read or parsed is left out. *)
Definition index_text_entry (fields : list string) (e : LeafEntry) : ST (bstate Pager.Pager) Error unit :=
  let! doc_map := document_map (value e) in
  match doc_map with
  | None => st_ret tt
  | Some doc_map =>
    let field_values := text_values fields doc_map in
    if decide (field_values = ∅) then st_ret tt else index_document fuel fields (key e) field_values
  end.

(** A leaf is followed by the leaves it links to, also when it is one of several children. *)
Fixpoint scan_btree_node_for_text_index (depth : nat) (page : N) (fields : list string) : ST (bstate Pager.Pager) Error unit :=
  match depth with
  | 0 => st_lift OutOfFuel
  | S depth =>
    if (page =? 0)%N then st_ret tt else
    let! page_data := on_store (Pager.read_page page) in
    let! node := st_lift (deserialize_node page page_data) in
    if decide (node_type node = LeafNode) then
      let! _ := st_each (index_text_entry fields) (entries node) in
      if (next_leaf node =? 0)%N then st_ret tt else scan_btree_node_for_text_index depth (next_leaf node) fields
    else st_each (fun child_page => scan_btree_node_for_text_index depth child_page fields) (children node)
  end.

Definition build_text_index_from_btree (root : N) (fields : list string) : ST (bstate Pager.Pager) Error unit :=
  scan_btree_node_for_text_index fuel root fields.

Definition create_text_index (collection index_name : string) (fields : list string) : DM unit :=
  let! _ := st_lift (validate_collection_name collection) in
  if decide (fields = []) then st_fail (Other "text index must have at least one field") else
  let! _ := guard_writable_db "create text index" in
  let! _ := wal_checkpoint in
  let! m := st_get metadata in
  if decide (is_Some (collections m !! collection ≫= fun c => text_indexes c !! index_name))
  then st_fail (index_exists_error "text index" index_name collection) else
  let coll_btree_root := root_of collection m in
  let! index_root := run_btree 0 (
    let! _ := new_btree in
    let! _ := if (coll_btree_root =? 0)%N then st_ret tt else build_text_index_from_btree coll_btree_root fields in
    get_root_page) in
  let! _ := st_modify (with_metadata (Metadata.get_collection collection
    (set_text_indexes <[index_name := mk_text_index index_name fields index_root]>))) in
  save_all.

(** [Collection::search], with the first text index of the iteration. *)
Definition search_collection (name query : string) : DM (list SearchResult) :=
  let! m := get_metadata in
  match collections m !! name with
  | None => st_fail (Other ("collection " +:+ name +:+ " does not exist"))
  | Some c =>
    match map_iter (text_indexes c) with
    | [] => st_fail (Other ("no text index exists on collection " +:+ name +:+ ". Create one with db.create_text_index()"))
    | (_, ix) :: _ =>
      let! total_docs := Collection.count fuel name in
      run_btree (text_root ix) (search fuel (text_fields ix) query total_docs)
    end
  end.
End text_index.
