(* ===== verification/Metrics.v ===== *)
(** * Metrics (metrics.rs)

    The atomic counters of a database, the methods that record events as sequences of atomic
    operations, and the threads that run them interleaved. A relaxed load may see any value
    that its cell has had; a weak compare-and-exchange may fail when it need not. *)

From stdpp Require Import base list relations.
From Stdlib Require Import NArith ZArith Lia Floats.SpecFloat.
From S2P Require Import Prelude Json.

#[local] Open Scope N_scope.

(** The fields of [Metrics], each an atomic integer of 64 bits. *)
Inductive counter :=
  | transactions_begun | transactions_committed | transactions_aborted | active_transactions
  | batches_committed | total_batched_txs | max_batch_size | total_batch_time_micros
  | pages_allocated | pages_freed | cache_hits | cache_misses | dirty_pages
  | wal_writes | wal_bytes_written | checkpoints
  | documents_inserted | documents_updated | documents_deleted | documents_read
  | io_errors | transaction_conflicts.

#[export] Instance counter_dec : EqDecision counter.
Proof. solve_decision. Defined.

Definition Metrics : Type := counter -> N.

Definition new : Metrics := fun _ => 0.

Definition store (c : counter) (v : N) (m : Metrics) : Metrics := fun c' => if decide (c' = c) then v else m c'.

(** ** Methods

    One atomic operation. [Raise size None] is the loop that raises [max_batch_size] before
    its load, [Raise size (Some current_max)] the head of the loop. *)
Inductive atomic :=
  | Add (c : counter) (n : N)
  | Sub (c : counter) (n : N)
  | Store (c : counter) (n : N)
  | Raise (batch_size : N) (current_max : option N).

Definition transaction_begun : list atomic := [Add transactions_begun 1; Add active_transactions 1].
Definition transaction_committed : list atomic := [Add transactions_committed 1; Sub active_transactions 1].
Definition transaction_aborted : list atomic := [Add transactions_aborted 1; Sub active_transactions 1].
(** [micros] is the elapsed time; [as u64] keeps its low bits. *)
Definition batch_committed (batch_size micros : N) : list atomic :=
  [Add batches_committed 1; Add total_batched_txs batch_size; Add total_batch_time_micros (wrap_u64 micros); Raise batch_size None].
Definition page_allocated : list atomic := [Add pages_allocated 1].
Definition page_freed : list atomic := [Add pages_freed 1].
Definition cache_hit : list atomic := [Add cache_hits 1].
Definition cache_miss : list atomic := [Add cache_misses 1].
Definition set_dirty_pages (count : N) : list atomic := [Store dirty_pages count].
Definition wal_write (bytes : N) : list atomic := [Add wal_writes 1; Add wal_bytes_written bytes].
Definition checkpoint_completed : list atomic := [Add checkpoints 1].
Definition document_inserted : list atomic := [Add documents_inserted 1].
Definition document_updated : list atomic := [Add documents_updated 1].
Definition document_deleted : list atomic := [Add documents_deleted 1].
Definition document_read : list atomic := [Add documents_read 1].
Definition io_error : list atomic := [Add io_errors 1].
Definition transaction_conflict : list atomic := [Add transaction_conflicts 1].

(** ** Threads *)

(** The counters, and the values that [max_batch_size] has had. *)
Record shared := mk_shared { now : Metrics; had : list N }.

Definition initial : shared := mk_shared new [0].

Definition put (c : counter) (v : N) (s : shared) : shared :=
  mk_shared (store c v (now s)) (if decide (c = max_batch_size) then v :: had s else had s).

(** A step of a thread: what is left of its operation. *)
Inductive atomic_step : atomic -> shared -> option atomic -> shared -> Prop :=
  | fetch_add c n s : atomic_step (Add c n) s None (put c (wrap_u64 (now s c + n)) s)
  | fetch_sub c n s : atomic_step (Sub c n) s None (put c (wrap_u64 (now s c + (2 ^ 64 - wrap_u64 n))) s)
  | stores c n s : atomic_step (Store c n) s None (put c n s)
  | loads size v s : v ∈ had s -> atomic_step (Raise size None) s (Some (Raise size (Some v))) s
  | leaves size v s : ~ v < size -> atomic_step (Raise size (Some v)) s None s
  | exchanges size v s : v < size -> now s max_batch_size = v ->
      atomic_step (Raise size (Some v)) s None (put max_batch_size size s)
  | exchange_fails size v x s : v < size -> x ∈ had s ->
      atomic_step (Raise size (Some v)) s (Some (Raise size (Some x))) s.

(** A step of some thread of a pool; each thread is the list of its operations to come. *)
Inductive pool_step : shared * list (list atomic) -> shared * list (list atomic) -> Prop :=
  | thread_step before after op rest op' s s' : atomic_step op s op' s' ->
      pool_step (s, before ++ (op :: rest) :: after) (s', before ++ (option_list op' ++ rest) :: after).

Definition finished (ts : list (list atomic)) : Prop := Forall (eq []) ts.

(** ** Snapshots *)
Record MetricsSnapshot := mk_snapshot {
  s_transactions_begun : N; s_transactions_committed : N; s_transactions_aborted : N; s_active_transactions : N;
  total_transactions : N; commit_rate : f64;
  s_batches_committed : N; s_total_batched_txs : N; s_max_batch_size : N; avg_batch_size : f64; avg_batch_time_micros : f64;
  s_pages_allocated : N; s_pages_freed : N; s_cache_hits : N; s_cache_misses : N;
  cache_total_requests : N; cache_hit_rate : f64; s_dirty_pages : N;
  s_wal_writes : N; s_wal_bytes_written : N; s_checkpoints : N;
  s_documents_inserted : N; s_documents_updated : N; s_documents_deleted : N; s_documents_read : N;
  total_document_operations : N; s_io_errors : N; s_transaction_conflicts : N }.

Definition ratio (a b : N) : f64 := if 0 <? b then f64_div (f64_of_Z (Z.of_N a)) (f64_of_Z (Z.of_N b)) else f64_zero.

(** The loads of [snapshot], when no thread runs between them. *)
Definition snapshot (m : Metrics) : MetricsSnapshot :=
  let total_transactions := wrap_u64 (m transactions_committed + m transactions_aborted) in
  let cache_total_requests := wrap_u64 (m cache_hits + m cache_misses) in
  mk_snapshot (m transactions_begun) (m transactions_committed) (m transactions_aborted) (m active_transactions)
    total_transactions (ratio (m transactions_committed) total_transactions)
    (m batches_committed) (m total_batched_txs) (m max_batch_size)
    (ratio (m total_batched_txs) (m batches_committed)) (ratio (m total_batch_time_micros) (m batches_committed))
    (m pages_allocated) (m pages_freed) (m cache_hits) (m cache_misses)
    cache_total_requests (ratio (m cache_hits) cache_total_requests) (m dirty_pages)
    (m wal_writes) (m wal_bytes_written) (m checkpoints)
    (m documents_inserted) (m documents_updated) (m documents_deleted) (m documents_read)
    (wrap_u64 (m documents_inserted + m documents_updated + m documents_deleted + m documents_read))
    (m io_errors) (m transaction_conflicts).

(** ** What the counters are to show

    The calls of the methods, and by how much each counts on each counter. *)
Inductive call :=
  | TransactionBegun | TransactionCommitted | TransactionAborted | BatchCommitted (size micros : N)
  | PageAllocated | PageFreed | CacheHit | CacheMiss | SetDirtyPages (count : N)
  | WalWrite (bytes : N) | CheckpointCompleted
  | DocumentInserted | DocumentUpdated | DocumentDeleted | DocumentRead | IoError | TransactionConflict.

Definition method_of (e : call) : list atomic :=
  match e with
  | TransactionBegun => transaction_begun
  | TransactionCommitted => transaction_committed
  | TransactionAborted => transaction_aborted
  | BatchCommitted size micros => batch_committed size micros
  | PageAllocated => page_allocated
  | PageFreed => page_freed
  | CacheHit => cache_hit
  | CacheMiss => cache_miss
  | SetDirtyPages count => set_dirty_pages count
  | WalWrite bytes => wal_write bytes
  | CheckpointCompleted => checkpoint_completed
  | DocumentInserted => document_inserted
  | DocumentUpdated => document_updated
  | DocumentDeleted => document_deleted
  | DocumentRead => document_read
  | IoError => io_error
  | TransactionConflict => transaction_conflict
  end.

Definition threads_of (es : list (list call)) : list (list atomic) := map (fun es => es ≫= method_of) es.

Definition effect (c : counter) (e : call) : Z :=
  match c, e with
  | transactions_begun, TransactionBegun => 1
  | transactions_committed, TransactionCommitted => 1
  | transactions_aborted, TransactionAborted => 1
  | active_transactions, TransactionBegun => 1
  | active_transactions, (TransactionCommitted | TransactionAborted) => -1
  | batches_committed, BatchCommitted _ _ => 1
  | total_batched_txs, BatchCommitted size _ => Z.of_N size
  | total_batch_time_micros, BatchCommitted _ micros => Z.of_N micros
  | pages_allocated, PageAllocated => 1
  | pages_freed, PageFreed => 1
  | cache_hits, CacheHit => 1
  | cache_misses, CacheMiss => 1
  | wal_writes, WalWrite _ => 1
  | wal_bytes_written, WalWrite bytes => Z.of_N bytes
  | checkpoints, CheckpointCompleted => 1
  | documents_inserted, DocumentInserted => 1
  | documents_updated, DocumentUpdated => 1
  | documents_deleted, DocumentDeleted => 1
  | documents_read, DocumentRead => 1
  | io_errors, IoError => 1
  | transaction_conflicts, TransactionConflict => 1
  | _, _ => 0
  end.

Definition total {A} (f : A -> Z) (l : list A) : Z := foldr (fun x n => f x + n)%Z 0%Z l.

(** The size of the batch that a call tells, if it tells one. *)
Definition batch_of (e : call) : N := match e with BatchCommitted size _ => size | _ => 0 end.

Definition largest {A} (f : A -> N) (l : list A) : N := foldr (fun x n => N.max (f x) n) 0 l.

Definition is_document_call (e : call) : bool :=
  match e with DocumentInserted | DocumentUpdated | DocumentDeleted | DocumentRead => true | _ => false end.

(** ** Lemmas *)
Section sums.
Context {A : Type}.

Lemma total_cons (f : A -> Z) x l : total f (x :: l) = (f x + total f l)%Z.
Proof. done. Qed.

Lemma largest_cons (f : A -> N) x l : largest f (x :: l) = N.max (f x) (largest f l).
Proof. done. Qed.

Lemma total_app (f : A -> Z) l l' : total f (l ++ l') = (total f l + total f l')%Z.
Proof. induction l as [|x l IH]; [done|]. rewrite <- app_comm_cons, !total_cons, IH. lia. Qed.

Lemma total_bind {B} (f : A -> Z) (g : B -> list A) (l : list B) : total f (l ≫= g) = foldr (fun x n => total f (g x) + n)%Z 0%Z l.
Proof. induction l as [|x l IH]; [done|]. by rewrite bind_cons, total_app, IH. Qed.

Lemma total_concat (f : A -> Z) (l : list (list A)) : total f (concat l) = foldr (fun x n => total f x + n)%Z 0%Z l.
Proof. induction l as [|x l IH]; [done|]. cbn [concat]. by rewrite total_app, IH. Qed.

Lemma total_ext (f g : A -> Z) l : (forall x, f x = g x) -> total f l = total g l.
Proof. intros H. induction l as [|x l IH]; [done|]. by rewrite !total_cons, H, IH. Qed.

Lemma largest_app (f : A -> N) l l' : largest f (l ++ l') = N.max (largest f l) (largest f l').
Proof. induction l as [|x l IH]; [by rewrite N.max_0_l|]. rewrite <- app_comm_cons, !largest_cons, IH. lia. Qed.

Lemma largest_bind {B} (f : A -> N) (g : B -> list A) (l : list B) :
  largest f (l ≫= g) = foldr (fun x n => N.max (largest f (g x)) n) 0 l.
Proof. induction l as [|x l IH]; [done|]. by rewrite bind_cons, largest_app, IH. Qed.

Lemma largest_concat (f : A -> N) (l : list (list A)) : largest f (concat l) = foldr (fun x n => N.max (largest f x) n) 0 l.
Proof. induction l as [|x l IH]; [done|]. cbn [concat]. by rewrite largest_app, IH. Qed.

Lemma largest_ext (f g : A -> N) l : (forall x, f x = g x) -> largest f l = largest g l.
Proof. intros H. induction l as [|x l IH]; [done|]. by rewrite !largest_cons, H, IH. Qed.
End sums.

(** What an operation to come will add to a counter, and the size it will raise the maximum to. *)
Definition pending (c : counter) (op : atomic) : Z :=
  match op with
  | Add c' n => if decide (c' = c) then Z.of_N n else 0
  | Sub c' n => if decide (c' = c) then - Z.of_N n else 0
  | _ => 0
  end.

Definition raises (op : atomic) : N := match op with Raise size _ => size | _ => 0 end.

(** Only [Raise] touches the maximum, and only the dirty pages are stored; a value that was
    loaded is below the maximum. *)
Definition proper (s : shared) (op : atomic) : Prop :=
  match op with
  | Add c _ | Sub c _ => c <> max_batch_size
  | Store c _ => c = dirty_pages
  | Raise _ cur => default 0 cur <= now s max_batch_size
  end.

Record good (s : shared) (ops : list atomic) : Prop := {
  good_ops : Forall (proper s) ops;
  good_had : Forall (fun v => v <= now s max_batch_size) (had s);
  good_now : now s max_batch_size ∈ had s;
  good_wide : forall c, c <> max_batch_size -> c <> dirty_pages -> now s c < 2 ^ 64 }.

Definition low (z : Z) : Z := (z mod 2 ^ 64)%Z.

(** ** One operation *)
Lemma low_wide n : n < 2 ^ 64 -> low (Z.of_N n) = Z.of_N n.
Proof. intros H. apply Z.mod_small. lia. Qed.

Lemma low_wrap n : Z.of_N (wrap_u64 n) = low (Z.of_N n).
Proof. unfold wrap_u64, low. by rewrite N2Z.inj_mod. Qed.

Lemma low_add a b : low (low a + b) = low (a + b).
Proof. unfold low. by rewrite Z.add_mod_idemp_l. Qed.

Lemma low_sum a b c d : low (low a + low b + low c + low d) = low (a + b + c + d).
Proof.
  assert (forall x y z, low (x + low y + z) = low (x + y + z)) as H.
  { intros x y z. unfold low. rewrite (Z.add_comm x), <- Z.add_assoc, Zplus_mod_idemp_l. f_equal. lia. }
  rewrite <- !Z.add_assoc, low_add, (Z.add_assoc a), H, (Z.add_assoc (a + b)), H, <- (Z.add_0_r (a + b + c + low d)), H.
  f_equal. lia.
Qed.

Lemma wrap_wide n : wrap_u64 n < 2 ^ 64.
Proof. by apply N.mod_lt. Qed.

(** The maximum has not sunk: what a thread has loaded stays below it. *)
Lemma proper_later s s' op : now s max_batch_size <= now s' max_batch_size -> proper s op -> proper s' op.
Proof. destruct op; simpl; try done. lia. Qed.

Lemma good_put c v s ops : c <> max_batch_size -> (c = dirty_pages \/ v < 2 ^ 64) -> good s ops -> good (put c v s) ops.
Proof.
  intros Hc Hv [Ho Hh Hn Hw]. unfold put. rewrite (decide_False (P := c = max_batch_size)) by done.
  assert (now (mk_shared (store c v (now s)) (had s)) max_batch_size = now s max_batch_size) as E.
  { cbn. unfold store. by rewrite decide_False. }
  split; try rewrite E; [|done..|].
  - eapply Forall_impl; [exact Ho|]. intros op. apply proper_later. by rewrite E.
  - intros c' H1 H2. cbn. unfold store. case_decide as E'; [subst c'; by destruct Hv|by apply Hw].
Qed.

(** Raising the maximum. *)
Lemma good_raise size s ops : now s max_batch_size < size -> good s ops -> good (put max_batch_size size s) ops.
Proof.
  intros Hs [Ho Hh Hn Hw].
  assert (now (put max_batch_size size s) max_batch_size = size) as E by done.
  split; try rewrite E.
  - eapply Forall_impl; [exact Ho|]. intros op. apply proper_later. rewrite E. lia.
  - cbn. constructor; [done|]. eapply Forall_impl; [exact Hh|]. simpl. lia.
  - cbn. left.
  - intros c H1 H2. cbn. unfold store. rewrite decide_False by done. by apply Hw.
Qed.

Lemma good_middle s l ops r : good s (l ++ ops ++ r) <-> Forall (proper s) ops /\ good s (l ++ r).
Proof.
  split.
  - intros [Ho ? ? ?]. rewrite !Forall_app in Ho. destruct Ho as (? & ? & ?). split; [done|]. split; try done. by rewrite Forall_app.
  - intros [Hp [Ho ? ? ?]]. rewrite Forall_app in Ho. destruct Ho as (? & ?). split; try done. by rewrite !Forall_app.
Qed.

(** One operation keeps what a counter and the operations to come add up to, and the largest
    of the maximum and the sizes to come. *)
Lemma atomic_step_keeps op s op' s' l r : atomic_step op s op' s' -> good s (l ++ op :: r) ->
  good s' (l ++ option_list op' ++ r) /\
  (forall c, c <> max_batch_size -> c <> dirty_pages ->
    low (Z.of_N (now s' c) + total (pending c) (option_list op')) = low (Z.of_N (now s c) + pending c op)) /\
  N.max (now s' max_batch_size) (largest raises (option_list op')) = N.max (now s max_batch_size) (raises op).
Proof.
  intros Hstep Hg. apply (good_middle s l [op] r) in Hg as [Hp Hg]. rewrite Forall_singleton in Hp. rewrite good_middle.
  destruct Hstep as [c n s|c n s|c n s|size v s Hv|size v s Hv|size v s Hv Hm|size v x s Hv Hx]; simpl in Hp.
  - split_and!; [done|apply good_put; [done|right; apply wrap_wide|done]| |].
    + intros c' _ _. cbn. unfold store. rewrite (decide_ext (c = c') (c' = c)) by naive_solver.
      case_decide as E; [subst c'; by rewrite low_wrap, low_add, Z.add_0_r, N2Z.inj_add|done].
    + cbn. unfold store. by rewrite decide_False.
  - split_and!; [done|apply good_put; [done|right; apply wrap_wide|done]| |].
    + intros c' _ _. cbn. unfold store. rewrite (decide_ext (c = c') (c' = c)) by naive_solver.
      case_decide as E; [subst c'|done]. rewrite low_wrap, low_add, Z.add_0_r.
      pose proof (wrap_wide n) as Hn. rewrite N2Z.inj_add, N2Z.inj_sub, low_wrap by lia. unfold low.
      rewrite <- (Z.mod_add (Z.of_N (now s c) + - Z.of_N n) 1 (2 ^ 64)) by done.
      replace (Z.of_N (now s c) + (Z.of_N (2 ^ 64) - Z.of_N n mod 2 ^ 64))%Z
        with (Z.of_N (now s c) + 2 ^ 64 - Z.of_N n mod 2 ^ 64)%Z by lia.
      rewrite Zminus_mod_idemp_r. f_equal. lia.
    + cbn. unfold store. by rewrite decide_False.
  - subst c. split_and!; [done|apply good_put; [done|by left|done]| |].
    + intros c' _ Hd. cbn. unfold store. by rewrite decide_False.
    + cbn. unfold store. by rewrite decide_False.
  - split_and!; [|done..|cbn; lia]. apply Forall_singleton. cbn. by apply (proj1 (Forall_forall _ _) (good_had _ _ Hg)).
  - split_and!; [done|done|done|]. cbn. lia.
  - subst v. split_and!; [done|by apply good_raise| |].
    + intros c' Hc _. cbn. unfold store. by rewrite decide_False.
    + cbn. unfold store. rewrite decide_True by done. lia.
  - split_and!; [|done..|cbn; lia]. apply Forall_singleton. cbn. by apply (proj1 (Forall_forall _ _) (good_had _ _ Hg)).
Qed.

(** ** Pools *)
Definition due (c : counter) (p : shared * list (list atomic)) : Z :=
  low (Z.of_N (now p.1 c) + total (pending c) (concat p.2)).

Definition top (p : shared * list (list atomic)) : N := N.max (now p.1 max_batch_size) (largest raises (concat p.2)).

Lemma pool_step_keeps p p' : pool_step p p' -> good p.1 (concat p.2) ->
  good p'.1 (concat p'.2) /\ (forall c, c <> max_batch_size -> c <> dirty_pages -> due c p' = due c p) /\ top p' = top p.
Proof.
  intros [before after op rest op' s s' Hstep]. cbn [fst snd]. rewrite !concat_app. cbn [concat]. rewrite <- !app_assoc.
  intros Hg. destruct (atomic_step_keeps _ _ _ _ _ _ Hstep Hg) as (Hg' & Hsum & Hmax). split_and!; [done| |].
  - intros c H1 H2. specialize (Hsum c H1 H2). unfold due. cbn [fst snd].
    rewrite !concat_app. cbn [concat]. rewrite <- !app_assoc, <- app_comm_cons, !total_app, !total_cons, !total_app.
    transitivity (low (low (Z.of_N (now s' c) + total (pending c) (option_list op')) +
      (total (pending c) (concat before) + total (pending c) rest + total (pending c) (concat after)))).
    + rewrite low_add. f_equal. lia.
    + rewrite Hsum, low_add. f_equal. lia.
  - unfold top. cbn [fst snd]. rewrite !concat_app. cbn [concat].
    rewrite <- !app_assoc, <- app_comm_cons, !largest_app, !largest_cons, !largest_app. lia.
Qed.

Lemma pool_steps_keep p p' : rtc pool_step p p' -> good p.1 (concat p.2) ->
  good p'.1 (concat p'.2) /\ (forall c, c <> max_batch_size -> c <> dirty_pages -> due c p' = due c p) /\ top p' = top p.
Proof.
  induction 1 as [p|p p' p'' Hs _ IH]; [done|]. intros Hg. destruct (pool_step_keeps _ _ Hs Hg) as (Hg' & Hd & Ht).
  destruct (IH Hg') as (Hg'' & Hd' & Ht'). split_and!; [done| |by rewrite Ht'].
  intros c H1 H2. by rewrite Hd', Hd.
Qed.

(** A thread that runs alone, without needless failures, comes to the end of the loop. *)
Lemma raise_finishes size v s before after rest : now s max_batch_size ∈ had s -> exists s',
  rtc pool_step (s, before ++ (Raise size (Some v) :: rest) :: after) (s', before ++ rest :: after).
Proof.
  intros Hn.
  assert (forall x, ~ x < size \/ x = now s max_batch_size -> exists s',
    rtc pool_step (s, before ++ (Raise size (Some x) :: rest) :: after) (s', before ++ rest :: after)) as Hlast.
  { intros x Hx. destruct (decide (x < size)) as [Hlt|Hlt].
    - eexists. apply rtc_once. apply (thread_step before after _ rest None). constructor; [done|by destruct Hx].
    - eexists. apply rtc_once. apply (thread_step before after _ rest None). by constructor. }
  destruct (decide (v < size)) as [Hlt|Hlt]; [|apply Hlast; by left].
  destruct (Hlast (now s max_batch_size)) as [s' Hs']; [by right|]. exists s'. eapply rtc_l; [|exact Hs'].
  apply (thread_step before after _ rest (Some (Raise size (Some (now s max_batch_size))))). by constructor.
Qed.

Lemma operation_finishes op s before after rest : now s max_batch_size ∈ had s -> exists s',
  rtc pool_step (s, before ++ (op :: rest) :: after) (s', before ++ rest :: after).
Proof.
  intros Hn. destruct op as [c n|c n|c n|size [v|]].
  1-3: eexists; apply rtc_once; apply (thread_step before after _ rest None); by constructor.
  - by apply raise_finishes.
  - destruct (raise_finishes size (now s max_batch_size) s before after rest Hn) as [s' Hs']. exists s'.
    eapply rtc_l; [|exact Hs']. apply (thread_step before after _ rest (Some (Raise size (Some (now s max_batch_size))))). by constructor.
Qed.

Lemma pool_finishes ts s before : good s (concat (before ++ ts)) -> Forall (eq []) before ->
  exists s' ts', rtc pool_step (s, before ++ ts) (s', ts') /\ finished ts'.
Proof.
  revert s before. induction ts as [|t ts IH]; intros s before Hg Hb.
  { exists s, before. rewrite app_nil_r. by split. }
  revert s Hg. induction t as [|op t IHt]; intros s Hg.
  - destruct (IH s (before ++ [[]])) as (s' & ts' & H); [by rewrite <- app_assoc|by apply Forall_app_2; [|constructor]|].
    rewrite <- app_assoc in H. by exists s', ts'.
  - destruct (operation_finishes op s before ts t) as [s1 H1]; [apply Hg|].
    destruct (pool_steps_keep _ _ H1 Hg) as [Hg1 _]. destruct (IHt s1 Hg1) as (s' & ts' & H2 & Hf).
    exists s', ts'. split; [by etrans|done].
Qed.

(** ** The threads of the methods *)
Lemma methods_good es : good initial (concat (threads_of es)).
Proof.
  split; [|by repeat constructor|left|intros c _ _; reflexivity].
  apply Forall_concat, Forall_map, Forall_forall. intros t _. apply Forall_bind, Forall_forall. intros e _.
  by destruct e; repeat constructor; simpl.
Qed.

Lemma pending_method c e : c <> dirty_pages -> low (total (pending c) (method_of e)) = low (effect c e).
Proof.
  intros Hd. destruct e, c; try done; cbn -[low wrap_u64]; rewrite ?Z.add_0_r; try done.
  rewrite low_wrap. unfold low. apply Zmod_mod.
Qed.

Lemma low_total {A} (f g : A -> Z) l : (forall x, low (f x) = low (g x)) -> low (total f l) = low (total g l).
Proof.
  intros H. induction l as [|x l IH]; [done|]. rewrite !total_cons. unfold low in *.
  rewrite Zplus_mod, H, IH, <- Zplus_mod. done.
Qed.

Lemma pending_methods c es : c <> dirty_pages ->
  low (total (pending c) (concat (threads_of es))) = low (total (effect c) (concat es)).
Proof.
  intros Hd. induction es as [|t es IH]; [done|]. cbn [threads_of map concat]. rewrite !total_app. unfold low in *.
  rewrite Zplus_mod. fold (threads_of es). rewrite IH, (Zplus_mod (total (effect c) t)). f_equal. f_equal.
  rewrite total_bind. exact (low_total (fun e => total (pending c) (method_of e)) (effect c) t (fun e => pending_method c e Hd)).
Qed.

Lemma raises_methods es : largest raises (concat (threads_of es)) = largest batch_of (concat es).
Proof.
  induction es as [|t es IH]; [done|]. cbn [threads_of map concat]. rewrite !largest_app. fold (threads_of es). rewrite IH. f_equal.
  rewrite largest_bind. apply (largest_ext (fun e => largest raises (method_of e)) batch_of).
  intros e. by destruct e; cbn; rewrite ?N.max_0_r, ?N.max_0_l.
Qed.

(** C17: the counters are exact, however the threads run. Threads that call the methods of the
    metrics can always come to an end; when they have, every counter but the dirty pages
    shows what the calls count on it, wrapped to 64 bits; the maximum shows the largest batch;
    and the total of document operations in a snapshot is the number of such calls, wrapped. *)
Theorem metrics_are_exact es s ts (Hrun : rtc pool_step (initial, threads_of es) (s, ts)) :
  (exists s' ts', rtc pool_step (s, ts) (s', ts') /\ finished ts') /\
  (finished ts ->
    (forall c, c <> max_batch_size -> c <> dirty_pages -> Z.of_N (now s c) = low (total (effect c) (concat es))) /\
    s_max_batch_size (snapshot (now s)) = largest batch_of (concat es) /\
    total_document_operations (snapshot (now s)) = wrap_u64 (N.of_nat (length (List.filter is_document_call (concat es))))).
Proof.
  destruct (pool_steps_keep _ _ Hrun (methods_good es)) as (Hg & Hd & Ht). split.
  { by apply (pool_finishes ts s []). }
  intros Hf. assert (concat ts = []) as E.
  { clear -Hf. induction Hf as [|t ts <- _ IH]; [done|exact IH]. }
  assert (forall c, c <> max_batch_size -> c <> dirty_pages -> Z.of_N (now s c) = low (total (effect c) (concat es))) as Hc.
  { intros c H1 H2. specialize (Hd c H1 H2). unfold due in Hd. cbn [fst snd] in Hd. rewrite E, Z.add_0_r in Hd.
    rewrite low_wide in Hd by by apply Hg. rewrite Hd. by apply pending_methods. }
  split; [exact Hc|]. split.
  - unfold top in Ht. cbn [fst snd] in Ht. rewrite E, raises_methods in Ht.
    by rewrite N.max_0_r, N.max_0_l in Ht.
  - cbn. apply N2Z.inj. rewrite !low_wrap, !N2Z.inj_add, !Hc by done.
    assert (forall l, Z.of_N (N.of_nat (length (List.filter is_document_call l))) = (total (effect documents_inserted) l +
      total (effect documents_updated) l + total (effect documents_deleted) l + total (effect documents_read) l)%Z) as ->.
    { intros l. induction l as [|e l IH]; [done|]. rewrite !total_cons. destruct e; cbn -[Z.of_N N.of_nat total]; lia. }
    apply low_sum.
Qed.

(** Two threads: one begins a transaction, the other reports a batch of four between the two
    operations of the first; its first exchange fails needlessly. *)
Lemma metrics_are_exact_witness : exists s, rtc pool_step (initial, threads_of [[TransactionBegun]; [BatchCommitted 4 7]]) (s, [[]; []]) /\
  Z.of_N (now s active_transactions) = 1%Z /\ s_max_batch_size (snapshot (now s)) = 4.
Proof.
  assert (exists s, rtc pool_step (initial, threads_of [[TransactionBegun]; [BatchCommitted 4 7]]) (s, [[]; []])) as [s Hs].
  { eexists. eapply rtc_l; [apply (thread_step [] _ _ _ None), fetch_add|].
    eapply rtc_l; [apply (thread_step [_] [] _ _ None), fetch_add|].
    eapply rtc_l; [apply (thread_step [_] [] _ _ None), fetch_add|].
    eapply rtc_l; [apply (thread_step [_] [] _ _ None), fetch_add|].
    eapply rtc_l; [apply (thread_step [_] [] _ _ (Some (Raise 4 (Some 0)))), loads; vm_compute; left|].
    eapply rtc_l; [apply (thread_step [_] [] _ _ (Some (Raise 4 (Some 0)))), exchange_fails; [done|vm_compute; left]|].
    eapply rtc_l; [apply (thread_step [_] [] _ _ None), exchanges; [done|done]|].
    eapply rtc_l; [apply (thread_step [] _ _ _ None), fetch_add|]. apply rtc_refl. }
  exists s. split; [exact Hs|]. destruct (metrics_are_exact _ _ _ Hs) as [_ H].
  destruct H as (Hc & Hm & _); [by repeat constructor|]. split; [by rewrite Hc|by rewrite Hm].
Defined.

(** The example of the tests: three hits and a miss, two commits and an abort. *)
Example rates : ratio 3 4 = S754_finite false (3 * 2 ^ 51) (-53) /\ ratio 0 0 = f64_zero.
Proof. split; reflexivity. Qed.
