(* ===== verification/WebServer.v ===== *)
(** * The web interface (web_server.rs)

    The routes of the server and their handlers, each with a transaction of its own that is
    dropped at the end of its scope. The server thread answers one request after the other. *)

From stdpp Require Import base list strings gmap.
From Stdlib Require Import NArith Lia Strings.Byte Ascii.
From S2P Require Import Prelude Constants Bytes Text Order PageStore Json IndexKey QueryBuilder LruCache Pager Document BTreeNode BTree.
From S2P Require Import Wal Mvcc Validation TxBTree Metadata Watch DatabaseState Transaction TxCollection Database Errors Collection Metrics.

#[local] Open Scope nat_scope.

(** tiny_http's request, as far as the server reads it: the body is [None] when it cannot be
    read as text. *)
Record Request := mk_request { method : string; url : string; content : option string }.

(** tiny_http's response: the headers are those that the server adds. *)
Record Response := mk_response { status_code : N; headers : list (string * string); body : string }.

(** [Response::from_string], [with_header] and [with_status_code]. *)
Definition from_string (s : string) : Response := mk_response 200 [] s.
Definition with_header (h : string * string) (r : Response) : Response :=
  mk_response (status_code r) (headers r ++ [h]) (body r).
Definition with_status_code (code : N) (r : Response) : Response := mk_response code (headers r) (body r).

(** The server thread's handle, while it is held, and the shutdown flag. *)
Record WebServer := mk_server { thread_held : bool; shutdown_flag : bool }.

Definition start : WebServer := mk_server true false.

(** [shutdown]; [join] waits for the loop below, which ends at the next request. Dropping the
    server does the same, and nothing more after a shutdown. *)
Definition shutdown (s : WebServer) : WebServer := mk_server false true.

(** serde_json's pretty text of values, names and snapshots, and its reading of the two
    request types, which have one field; the error as text. *)
Class SerdeWeb `{!SerdeNumber} := {
  values_to_string_pretty : list Value -> string + string;
  names_to_string_pretty : list string -> string + string;
  metrics_to_string_pretty : MetricsSnapshot -> string + string;
  create_request_from_str : string -> string + string;
  rename_request_from_str : string -> string + string }.

(** The result of a call, errors included. *)
Definition st_try {S E A} (m : ST S E A) : ST S E (A + E) := fun s =>
  match m s with
  | (Ok a, s) => (Ok (inl a), s)
  | (Err e, s) => (Ok (inr e), s)
  | (Panic, s) => (Panic, s)
  | (OutOfFuel, s) => (OutOfFuel, s)
  end.

Definition unwrap_or (default : string) (r : string + string) : string :=
  match r with inl s => s | inr _ => default end.

(** [path.strip_prefix(p)] *)
Fixpoint strip_prefix (p path : string) : option string :=
  match p, path with
  | EmptyString, _ => Some path
  | String a p, String b path => if decide (a = b) then strip_prefix p path else None
  | String _ _, EmptyString => None
  end.

Section server.
Context {tables : UnicodeTables} {numbers : SerdeNumber} {text : SerdeText} {catalogue : SerdeCatalogue} {bytes : SerdeBytes}
  {messages : Messages} {debug : DebugText} {str_debug : DebugStr} {web : SerdeWeb}
  {clock : Clock} {page_order : HashMapOrder N} {name_order : HashMapOrder string}.
(** The text of web_ui.html. *)
Variable web_ui_html : string.
Variable fuel : nat.

Notation DM := (ST Database Error).
Notation TM := (ST txworld Error).
Notation CM := (ST collworld Error).

Definition json_header : string * string := ("Content-Type", "application/json").

Definition json_response (s : string) : Response := with_header json_header (from_string s).

(** [serde_json::json!] of an object with strings. *)
Definition json_object (fields : list (string * string)) : string :=
  unwrap_or "{}" (json_to_string (Object (map_of ((fun kv => (kv.1, Str kv.2)) <$> fields)))).

Definition serve_404 : Response := with_status_code 404 (from_string "Not Found").
Definition serve_500 (msg : string) : Response := with_status_code 500 (from_string msg).

(** [format!("{}: {}", what, e)] *)
Definition failed (what : string) (e : Error) : Response := serve_500 (what +:+ ": " +:+ error_to_string e).

Definition serve_dashboard : Response := with_header ("Content-Type", "text/html; charset=utf-8") (from_string web_ui_html).

Definition serve_metrics (m : Metrics) : Response :=
  json_response (unwrap_or "{}" (metrics_to_string_pretty (snapshot m))).

Definition quote : string := String (Ascii.ascii_of_nat 34) "".

Definition serve_health : Response :=
  json_response ("{" +:+ quote +:+ "status" +:+ quote +:+ ":" +:+ quote +:+ "ok" +:+ quote +:+ "}").

Definition serve_collections_list : DM Response :=
  let! m := get_metadata in
  let names := stable_sort String.compare (map_iter (collections m)).*1 in
  st_ret (json_response (unwrap_or "[]" (names_to_string_pretty names))).

(** [match db.begin()]: the body answers its errors itself. *)
Definition with_begin (begin_failed : Error -> Response) (handler : TM Response) : DM Response :=
  st_catch (with_transaction handler) (fun e => st_ret (begin_failed e)).

(** A method of a collection of the transaction. *)
Definition in_coll {A} (c : TxCollection) (m : CM A) : TM A := fun w =>
  let '(r, s) := m (mk_collworld _ c w) in (r, c_world s).

(** [if let Err(e) = tx.commit() { return ... }] *)
Definition then_commit (answer : Response) : TM Response :=
  let! r := st_try (commit fuel) in
  match r with
  | inl _ => st_ret answer
  | inr e => st_ret (failed "Failed to commit" e)
  end.

(** The body as text, and what it says. *)
Definition with_body {A} (parse : string -> A + string) (req : Request) (k : A -> DM Response) : DM Response :=
  match content req with
  | None => st_ret (serve_500 "Failed to read request body")
  | Some text =>
    match parse text with
    | inl v => k v
    | inr e => st_ret (serve_500 ("Invalid JSON: " +:+ e))
    end
  end.

Definition serve_collection_documents (collection_name : string) : DM Response :=
  with_begin (fun _ => serve_500 "Failed to begin transaction") (
    let! coll := st_try (collection collection_name) in
    match coll with
    | inr _ => st_ret serve_404
    | inl coll =>
      let! docs := in_coll coll (st_try (TxCollection.find_all fuel)) in
      match docs with
      | inr _ => st_ret (serve_500 "Failed to read documents")
      | inl docs => st_ret (json_response (unwrap_or "[]" (values_to_string_pretty docs)))
      end
    end).

(** A change to a collection, its commit and the answer. *)
Definition change_documents {A} (collection_name change_failed : string) (m : CM A) (answer : A -> Response) : DM Response :=
  with_begin (failed "Failed to begin transaction") (
    let! coll := st_try (collection collection_name) in
    match coll with
    | inr e => st_ret (failed "Failed to access collection" e)
    | inl coll =>
      let! r := in_coll coll (st_try m) in
      match r with
      | inr e => st_ret (failed change_failed e)
      | inl a => then_commit (answer a)
      end
    end).

Definition serve_create_document (generated collection_name : string) (req : Request) : DM Response :=
  with_body json_from_str req (fun json_value =>
    change_documents collection_name "Failed to insert document" (TxCollection.insert fuel generated json_value)
      (fun doc_id => with_header json_header (with_status_code 201 (from_string (json_object [("id", doc_id)]))))).

Definition serve_update_document (collection_name doc_id : string) (req : Request) : DM Response :=
  with_body json_from_str req (fun json_value =>
    change_documents collection_name "Failed to update document" (TxCollection.update_by_id fuel doc_id json_value)
      (fun _ => json_response (json_object [("status", "updated")]))).

Definition serve_delete_document (collection_name doc_id : string) : DM Response :=
  change_documents collection_name "Failed to delete document" (TxCollection.delete_by_id fuel doc_id)
    (fun _ => json_response (json_object [("status", "deleted")])).

(** A change to the catalogue, its commit and the answer. *)
Definition change_catalogue (change_failed : string) (m : TM unit) (answer : Response) : DM Response :=
  with_begin (failed "Failed to begin transaction") (
    let! r := st_try m in
    match r with
    | inr e => st_ret (failed change_failed e)
    | inl _ => then_commit answer
    end).

Definition serve_create_collection (req : Request) : DM Response :=
  with_body create_request_from_str req (fun name =>
    change_catalogue "Failed to create collection" (create_collection name)
      (with_header json_header (with_status_code 201 (from_string (json_object [("status", "created"); ("name", name)]))))).

Definition serve_rename_collection (old_name : string) (req : Request) : DM Response :=
  with_body rename_request_from_str req (fun new_name =>
    change_catalogue "Failed to rename collection" (rename_collection old_name new_name)
      (json_response (json_object [("status", "renamed"); ("old_name", old_name); ("new_name", new_name)]))).

Definition serve_drop_collection (name : string) : DM Response :=
  change_catalogue "Failed to delete collection" (drop_collection name)
    (json_response (json_object [("status", "deleted"); ("name", name)])).

(** The parts of a path below the collections; [None] for other paths. *)
Definition parts (path : string) : option (list string) := split_at "/"%char <$> strip_prefix "/api/collections/" path.

(** The [match] of the server loop; [metrics] are the counters at that time, [generated] is
    the id for a new document without one. *)
Definition handle (metrics : Metrics) (generated : string) (req : Request) : DM Response :=
  let path := url req in
  let exact m p := bool_decide (method req = m) && bool_decide (path = p) in
  if exact "GET" "/" then st_ret serve_dashboard
  else if exact "GET" "/metrics" then st_ret (serve_metrics metrics)
  else if exact "GET" "/health" then st_ret serve_health
  else if exact "GET" "/api/collections" then serve_collections_list
  else if exact "POST" "/api/collections" then serve_create_collection req
  else
    match parts path with
    | None => st_ret serve_404
    | Some ps =>
      if bool_decide (method req = "GET") then
        match ps with
        | [name] => if bool_decide (name = "") then st_ret serve_404 else serve_collection_documents name
        | _ => st_ret serve_404
        end
      else if bool_decide (method req = "POST") then
        match ps with
        | [name] => if bool_decide (name = "") then st_ret serve_404 else serve_create_document generated name req
        | _ => st_ret serve_404
        end
      else if bool_decide (method req = "PUT") then
        match ps with
        | [name; id] => if bool_decide (name = "") || bool_decide (id = "") then st_ret serve_404
            else serve_update_document name id req
        | _ => st_ret serve_404
        end
      else if bool_decide (method req = "PATCH") then
        match ps with
        | [name] => if bool_decide (name = "") then st_ret serve_404 else serve_rename_collection name req
        | _ => st_ret serve_404
        end
      else if bool_decide (method req = "DELETE") then
        match ps with
        | [name] => if bool_decide (name = "") then st_ret serve_404 else serve_drop_collection name
        | [name; id] => if bool_decide (name = "") || bool_decide (id = "") then st_ret serve_404
            else serve_delete_document name id
        | _ => st_ret serve_404
        end
      else st_ret serve_404
    end.

(** The loop of the server thread: each request with the shutdown flag as it is read then. *)
Fixpoint serve (requests : list (bool * Metrics * string * Request)) : DM (list Response) :=
  match requests with
  | [] => st_ret []
  | (shut_down, metrics, generated, req) :: requests =>
    if shut_down then st_ret [] else
    let! response := handle metrics generated req in
    let! responses := serve requests in
    st_ret (response :: responses)
  end.
End server.
