(* ===== verification/CommandLine.v ===== *)
(** * The command line (cli/src)

    The commands of the program, their dispatch from the arguments and from the lines of the
    interactive shell. What a command prints is a list of lines; colours are left out. *)

From stdpp Require Import base list strings gmap sorting.
From Stdlib Require Import NArith Lia Strings.Byte Ascii.
From S2P Require Import Prelude Constants Bytes Text Order PageStore Json QueryParser IndexKey QueryBuilder LruCache Pager Document BTreeNode BTree.
From S2P Require Import Wal Mvcc Validation TxBTree Metadata Watch DatabaseState Transaction TxCollection Database Errors Collection TextSearch Metrics Aggregation.

#[local] Open Scope nat_scope.

Inductive OutputFormat := FmtJson | FmtPretty | FmtTable.

(** [print_success], [print_error], [print_info] and [println!]. *)
Inductive Line := Success (s : string) | Failure (s : string) | Info (s : string) | Plain (s : string).

(** The database, the format, the selected collection, what was printed, and the files that
    were written: texts and backups. *)
Record shell `{!SerdeNumber} := mk_shell {
  db : Database;
  format : OutputFormat;
  current_collection : option string;
  printed : list Line;
  files : gmap string string;
  backups : gmap string (list byte) }.

(** serde_json's other texts, coloured JSON and tables of the crates colored_json and
    comfy_table, and Rust's format of a percentage; errors as texts. *)
Class CliText `{!SerdeNumber} := {
  to_string_pretty : Value -> string + string;
  array_to_string_pretty : list Value -> string + string;
  array_from_str : string -> list Value + string;
  schema_from_value : Value -> Schema + string;
  schema_to_value : Schema -> Value + string;
  to_colored_json_auto : string -> string + string;
  draw_table : list string -> list (list string) -> string;
  dimmed : string -> string;
  percent : f64 -> string;
  from_u64 : N -> number;
  from_f32 : f32 -> Value }.

Section cli.
Context {tables : UnicodeTables} {numbers : SerdeNumber} {text : SerdeText} {catalogue : SerdeCatalogue} {bytes : SerdeBytes}
  {messages : Messages} {debug : DebugText} {debug_fields : DebugFields} {str_debug : DebugStr} {cli_text : CliText}
  {words : Segmentation} {logarithm : LogF32} {postings : SerdePostings} {hashing : HashOrder (list Value)}
  {clock : Clock} {page_order : HashMapOrder N} {name_order : HashMapOrder string}.
Variable fuel : nat.

(** The path of the database, the counters when they are shown, and the ids that a command
    generates. *)
Variable db_path : string.
Variable metrics : MetricsSnapshot.
Variable generated : nat -> string.

Notation DM := (ST Database Error).

(** An error is what it displays. *)
Notation SM := (ST shell string).

Definition with_db (f : Database -> Database) (s : shell) : shell :=
  mk_shell _ (f (db s)) (format s) (current_collection s) (printed s) (files s) (backups s).
Definition with_collection (c : option string) (s : shell) : shell :=
  mk_shell _ (db s) (format s) c (printed s) (files s) (backups s).
Definition with_printed (f : list Line -> list Line) (s : shell) : shell :=
  mk_shell _ (db s) (format s) (current_collection s) (f (printed s)) (files s) (backups s).
Definition with_files (f : gmap string string -> gmap string string) (s : shell) : shell :=
  mk_shell _ (db s) (format s) (current_collection s) (printed s) (f (files s)) (backups s).
Definition with_backups (f : gmap string (list byte) -> gmap string (list byte)) (s : shell) : shell :=
  mk_shell _ (db s) (format s) (current_collection s) (printed s) (files s) (f (backups s)).

(** [?] on a call of the library. *)
Definition shown_error {A} (r : Result A) : outcome string A :=
  match r with Ok a => Ok a | Err e => Err (error_to_string e) | Panic => Panic | OutOfFuel => OutOfFuel end.

Definition lib {A} (m : DM A) : SM A := fun s =>
  let '(r, d) := m (db s) in (shown_error r, with_db (fun _ => d) s).

(** A read through the interface of queries and pipelines. *)
Definition reading {A} (coll : string) (f : CollectionReads -> Result A) : SM A := fun s =>
  (shown_error (f (collection_reads fuel coll (db s))), s).

Definition say (l : Line) : SM unit := st_modify (with_printed (fun ls => vec_push ls l)).

Definition of_sum {A} (r : A + string) : SM A := match r with inl a => st_ret a | inr e => st_fail e end.

(** ** utils.rs *)
Definition parse_json (input : string) : SM Value :=
  match json_from_str input with inl v => st_ret v | inr _ => st_fail "Failed to parse JSON" end.

Definition parse_json_object (input : string) : SM Map :=
  let! v := parse_json input in
  match v with Object obj => st_ret obj | _ => st_fail ("Expected JSON object, got " +:+ value_to_string v) end.

Definition parse_json_array (input : string) : SM (list Value) :=
  let! v := parse_json input in
  match v with Array arr => st_ret arr | _ => st_fail ("Expected JSON array, got " +:+ value_to_string v) end.

(** ** formatter.rs *)
Definition format_from_str (s : string) : OutputFormat :=
  let w := to_lowercase s in
  if String.eqb w "json" then FmtJson else if String.eqb w "table" then FmtTable else FmtPretty.

Definition number_text (n : nat) : string := pretty.pretty n.

Definition format_value_compact (val : Value) : string :=
  match val with
  | Null => dimmed "null"
  | Bool b => if b then "true" else "false"
  | Number n => number_to_string n
  | Str s => s
  | Array arr => "[" +:+ number_text (length arr) +:+ " items]"
  | Object obj => "{" +:+ number_text (length obj) +:+ " fields}"
  end.

Definition keys_of (doc : Value) : list string := match as_object doc with Some map => map.*1 | None => [] end.

Definition format_table (docs : list Value) : string :=
  match docs with
  | [] => "No documents found"
  | _ =>
    let keys := stable_sort String.compare (elements (list_to_set (docs ≫= keys_of) : gset string)) in
    let row (map : Map) := (fun key => format_value_compact (default Null (map_get key map))) <$> keys in
    draw_table keys (row <$> omap as_object docs)
  end.

Definition format_json (value : Value) : SM string :=
  let! fmt := st_get format in
  match fmt with
  | FmtJson => of_sum (json_to_string value)
  | FmtPretty => let! json_str := of_sum (to_string_pretty value) in of_sum (to_colored_json_auto json_str)
  | FmtTable =>
    match value with
    | Array arr => st_ret (format_table arr)
    | Object _ => st_ret (format_table [value])
    | _ => of_sum (to_string_pretty value)
    end
  end.

Definition show (value : Value) : SM unit := let! s := format_json value in say (Plain s).

(** [json!] of an object and of numbers. *)
Definition object (fields : list (string * Value)) : Value := Object (map_of fields).
Definition usize (n : nat) : Value := Number (from_usize n).
Definition u64 (n : N) : Value := Number (from_u64 n).

(** ** commands/document.rs *)
Definition document_insert (coll document : string) : SM unit :=
  let! doc := parse_json document in
  let! id := lib (Collection.insert fuel coll (generated 0) doc) in
  say (Success ("Document inserted with ID: " +:+ id)).

(** The empty query stands for all documents. *)
Definition all_query (query : string) : bool := String.eqb query "" || String.eqb query "{}".

Definition page_of {A} (limit skip : option nat) (docs : list A) : list A :=
  let docs := match skip with Some n => drop n docs | None => docs end in
  match limit with Some n => take n docs | None => docs end.

Definition document_find (coll query : string) (limit skip : option nat) : SM unit :=
  let! docs := lib (if all_query query then Collection.find_all fuel coll else Collection.find fuel coll query) in
  show (Array (page_of limit skip docs)).

Definition document_find_one (coll query : string) : SM unit :=
  let! result := lib (if all_query query then let! docs := Collection.find_all fuel coll in st_ret (docs !! 0)
                      else Collection.find_one fuel coll query) in
  match result with Some doc => show doc | None => say (Info "No document found") end.

Definition document_update (coll query update : string) : SM unit :=
  let! update_doc := parse_json update in
  let! n := lib (Collection.update fuel coll query update_doc) in
  say (Success ("Updated " +:+ number_text n +:+ " document(s)")).

Definition document_delete (coll query : string) : SM unit :=
  let! n := lib (Collection.delete fuel coll query) in
  say (Success ("Deleted " +:+ number_text n +:+ " document(s)")).

Definition document_count (coll query : string) : SM unit :=
  let! n := lib (if all_query query then Collection.count fuel coll
                 else let! docs := Collection.find fuel coll query in st_ret (length docs)) in
  show (object [("count", usize n)]).

Definition document_export (coll output : string) : SM unit :=
  let! _ := say (Info ("Exporting collection '" +:+ coll +:+ "' to '" +:+ output +:+ "'...")) in
  let! docs := lib (Collection.find_all fuel coll) in
  let! json_str := of_sum (array_to_string_pretty docs) in
  let! _ := st_modify (with_files <[output := json_str]>) in
  say (Success ("Exported " +:+ number_text (length docs) +:+ " document(s) to '" +:+ output +:+ "'")).

Definition document_import (coll input : string) : SM unit :=
  let! _ := say (Info ("Importing from '" +:+ input +:+ "' to collection '" +:+ coll +:+ "'...")) in
  let! fs := st_get files in
  match fs !! input with
  | None => st_fail "No such file or directory (os error 2)"
  | Some json_str =>
    let! docs := of_sum (array_from_str json_str) in
    let! ids := lib (Collection.insert_many fuel coll (imap (fun i doc => (generated i, doc)) docs)) in
    say (Success ("Imported " +:+ number_text (length ids) +:+ " document(s)"))
  end.

(** ** commands/query.rs *)
Definition query_run (coll filter : string) (sort : option string) (order : string) (limit skip : option nat) : SM unit :=
  let builder := builder_new in
  let builder := if String.eqb filter "{}" then builder else filter_by filter builder in
  let builder := match sort with
    | Some sort_field =>
      let w := to_lowercase order in
      sort_by_field sort_field (if String.eqb w "desc" || String.eqb w "descending" then Desc else Asc) builder
    | None => builder
    end in
  let builder := match limit with Some n => QueryBuilder.limit n builder | None => builder end in
  let builder := match skip with Some n => QueryBuilder.skip n builder | None => builder end in
  let! results := reading coll (fun reads => @QueryBuilder.execute tables numbers text reads builder) in
  show (Array results).

(** The pipeline that is given is not read. *)
Definition query_aggregate (coll pipeline : string) : SM unit :=
  let! results := reading coll (fun reads => execute_pipeline (coll := reads) []) in
  let! _ := show (Array results) in
  st_fail "Advanced aggregation pipelines are not yet supported in the CLI. Use the database API directly for complex aggregations.".

Definition query_search (coll query_text : string) (limit : option nat) : SM unit :=
  let! results := lib (search_collection fuel coll query_text) in
  show (Array ((fun r => object [("score", from_f32 (score r)); ("doc_id", Str (TextSearch.r_doc_id r))]) <$> page_of limit None results)).

(** ** commands/index.rs *)
Definition index_json (idx : IndexInfo) : Value :=
  object [("name", Str (ii_name idx)); ("fields", Array (Str <$> ii_fields idx)); ("unique", Bool (ii_unique idx))].

Definition find_collection (coll : string) : SM CollectionInfo :=
  let! i := lib (info fuel db_path) in
  match list_find (fun c => ci_name c = coll) (di_collections i) with
  | Some (_, c) => st_ret c
  | None => st_fail ("Collection '" +:+ coll +:+ "' not found")
  end.

Definition index_list (coll : string) : SM unit :=
  let! c := find_collection coll in show (Array (index_json <$> ci_indexes c)).

Definition index_create (coll field : string) (is_unique : bool) : SM unit :=
  let! _ := lib (create_index fuel coll (field +:+ "_idx") field is_unique) in
  say (Success ("Created " +:+ (if is_unique then "unique index" else "index") +:+ " on field '" +:+ field +:+ "' in collection '" +:+ coll +:+ "'")).

Definition index_drop (coll index_name : string) : SM unit :=
  let! _ := lib (drop_index coll index_name) in
  say (Success ("Dropped index '" +:+ index_name +:+ "' from collection '" +:+ coll +:+ "'")).

(** ** commands/collection.rs *)
Definition collection_list : SM unit :=
  let! i := lib (info fuel db_path) in
  show (Array ((fun c => object [("name", Str (ci_name c)); ("document_count", usize (Database.document_count c));
    ("index_count", usize (length (ci_indexes c)))]) <$> di_collections i)).

(** A handle of the collection is made, which does nothing. *)
Definition collection_create (coll : string) : SM unit := say (Success ("Collection '" +:+ coll +:+ "' created")).

Definition collection_drop (coll : string) : SM unit :=
  st_fail ("Dropping collections is not supported. Collection '" +:+ coll +:+ "' will remain in metadata.").

Definition collection_json (c : CollectionInfo) : Value :=
  object [("name", Str (ci_name c)); ("document_count", usize (Database.document_count c)); ("indexes", Array (index_json <$> ci_indexes c))].

Definition collection_info (coll : string) : SM unit := let! c := find_collection coll in show (collection_json c).

(** ** commands/schema.rs *)
Definition schema_set (coll schema_str : string) : SM unit :=
  let! schema_value := parse_json schema_str in
  let! s := of_sum (schema_from_value schema_value) in
  let! _ := lib (set_schema coll s) in
  say (Success ("Schema set for collection '" +:+ coll +:+ "'")).

Definition no_schema (coll : string) : SM unit := say (Info ("No schema set for collection '" +:+ coll +:+ "'")).

Definition schema_get (coll : string) : SM unit :=
  let! m := lib get_metadata in
  match collections m !! coll with
  | None => st_fail ("Collection '" +:+ coll +:+ "' not found")
  | Some c =>
    match schema c with
    | Some s => let! v := of_sum (schema_to_value s) in show v
    | None => no_schema coll
    end
  end.

(** The loop over the documents: how many are valid, and the others with their positions. *)
Fixpoint validate_docs (s : Schema) (idx : nat) (docs : list Value) : outcome string (nat * list Value) :=
  match docs with
  | [] => Ok (0, [])
  | doc :: docs =>
    let? '(valid, errors) := validate_docs s (S idx) docs in
    match validate s doc with
    | Ok _ => Ok (S valid, errors)
    | Err e => Ok (valid, object [("document_index", usize idx); ("error", Str (error_to_string e))] :: errors)
    | Panic => Panic
    | OutOfFuel => OutOfFuel
    end
  end.

Definition schema_validate (coll : string) : SM unit :=
  let! _ := say (Info ("Validating all documents in collection '" +:+ coll +:+ "'...")) in
  let! m := lib get_metadata in
  match collections m !! coll with
  | None => st_fail ("Collection '" +:+ coll +:+ "' not found")
  | Some c =>
    match schema c with
    | None => no_schema coll
    | Some s =>
      let! docs := lib (Collection.find_all fuel coll) in
      let! '(valid_count, errors) := st_lift (validate_docs s 0 docs) in
      let invalid_count := length errors in
      let! _ := show (object [("total", usize (length docs)); ("valid", usize valid_count);
        ("invalid", usize invalid_count); ("errors", Array errors)]) in
      if (0 <? invalid_count) then say (Info ("Found " +:+ number_text invalid_count +:+ " invalid document(s)"))
      else say (Success "All documents are valid")
    end
  end.

(** ** commands/db.rs and commands/metrics.rs *)
Definition db_info : SM unit :=
  let! i := lib (info fuel db_path) in
  show (object [
    ("collections", Array (collection_json <$> di_collections i));
    ("total_documents", usize (Database.total_documents i));
    ("metrics", object [
      ("transactions_committed", u64 (s_transactions_committed metrics));
      ("transactions_aborted", u64 (s_transactions_aborted metrics));
      ("cache_hit_rate", Str (percent (cache_hit_rate metrics)));
      ("wal_writes", u64 (s_wal_writes metrics));
      ("cache_hits", u64 (s_cache_hits metrics));
      ("cache_misses", u64 (s_cache_misses metrics))])]).

Definition db_backup (destination : string) : SM unit :=
  let! _ := say (Info ("Creating backup to '" +:+ destination +:+ "'...")) in
  let! data := lib backup in
  let! _ := st_modify (with_backups <[destination := data]>) in
  say (Success "Backup created successfully").

Definition db_compact : SM unit :=
  let! _ := say (Info "Compacting database...") in
  let! _ := lib checkpoint in
  say (Success "Database compacted successfully").

Definition metrics_show : SM unit :=
  show (object [
    ("transactions", object [("committed", u64 (s_transactions_committed metrics));
      ("aborted", u64 (s_transactions_aborted metrics)); ("active", u64 (s_active_transactions metrics))]);
    ("cache", object [("hits", u64 (s_cache_hits metrics)); ("misses", u64 (s_cache_misses metrics));
      ("hit_rate", Str (percent (cache_hit_rate metrics)))]);
    ("storage", object [("pages_allocated", u64 (s_pages_allocated metrics)); ("pages_freed", u64 (s_pages_freed metrics));
      ("dirty_pages", u64 (s_dirty_pages metrics))]);
    ("wal", object [("writes", u64 (s_wal_writes metrics)); ("bytes_written", u64 (s_wal_bytes_written metrics));
      ("checkpoints", u64 (s_checkpoints metrics))])]).

(** ** main.rs: the dispatch of the arguments, which clap has read. [Watch] waits for events
    for ever and is not modelled. *)
Inductive Command :=
  | DbInfo | DbBackup (destination : string) | DbCompact | DbCollections
  | CollectionList | CollectionCreate (nm : string) | CollectionDrop (nm : string) | CollectionShow (nm : string)
  | DocInsert (coll document : string) | DocFind (coll query : string) (limit skip : option nat) | DocFindOne (coll query : string)
  | DocUpdate (coll query update : string) | DocDelete (coll query : string) | DocCount (coll query : string)
  | QueryRun (coll filter : string) (sort : option string) (order : string) (limit skip : option nat)
  | QueryAggregate (coll pipeline : string) | QuerySearch (coll query_text : string) (limit : option nat)
  | IndexList (coll : string) | IndexCreate (coll field : string) (is_unique : bool) | IndexDrop (coll nm : string)
  | SchemaSet (coll schema_str : string) | SchemaGet (coll : string) | SchemaValidate (coll : string)
  | ShowMetrics | Export (coll output : string) | Import (coll input : string).

Definition execute_command (c : Command) : SM unit :=
  match c with
  | DbInfo => db_info
  | DbBackup destination => db_backup destination
  | DbCompact => db_compact
  | DbCollections | CollectionList => collection_list
  | CollectionCreate nm => collection_create nm
  | CollectionDrop nm => collection_drop nm
  | CollectionShow nm => collection_info nm
  | DocInsert coll document => document_insert coll document
  | DocFind coll query limit skip => document_find coll query limit skip
  | DocFindOne coll query => document_find_one coll query
  | DocUpdate coll query update => document_update coll query update
  | DocDelete coll query => document_delete coll query
  | DocCount coll query => document_count coll query
  | QueryRun coll filter sort order limit skip => query_run coll filter sort order limit skip
  | QueryAggregate coll pipeline => query_aggregate coll pipeline
  | QuerySearch coll query_text limit => query_search coll query_text limit
  | IndexList coll => index_list coll
  | IndexCreate coll field is_unique => index_create coll field is_unique
  | IndexDrop coll nm => index_drop coll nm
  | SchemaSet coll schema_str => schema_set coll schema_str
  | SchemaGet coll => schema_get coll
  | SchemaValidate coll => schema_validate coll
  | ShowMetrics => metrics_show
  | Export coll output => document_export coll output
  | Import coll input => document_import coll input
  end.

(** ** repl.rs *)

(** [split_whitespace] on characters; [word] is the word that is being read. *)
Fixpoint split_words (word cs : list N) : list (list N) :=
  match cs with
  | [] => match word with [] => [] | _ => [word] end
  | c :: cs =>
    if is_whitespace c then match word with [] => split_words [] cs | _ => word :: split_words [] cs end
    else split_words (vec_push word c) cs
  end.

Definition split_whitespace (s : string) : list string := collect <$> split_words [] (chars s).

Fixpoint skip_white (cs : list N) : list N :=
  match cs with [] => [] | c :: cs' => if is_whitespace c then skip_white cs' else cs end.

Definition trim (s : string) : string := collect (rev (skip_white (rev (skip_white (chars s))))).

(** [&line[i..]] from the first brace on, [line.find] of it. *)
Fixpoint from_brace (line : string) : option string :=
  match line with
  | EmptyString => None
  | String c rest => if Ascii.eqb c "{" then Some line else from_brace rest
  end.

(** [s.trim_end_matches('}')] *)
Fixpoint trim_braces (s : string) : string :=
  match s with
  | EmptyString => ""
  | String c rest =>
    match trim_braces rest with
    | EmptyString => if Ascii.eqb c "}" then "" else String c ""
    | rest => String c rest
    end
  end.

(** The query of find, count and delete. *)
Definition repl_query (parts : list string) (line : string) : string :=
  if 1 <? length parts then default "{}" (from_brace line) else "{}".

Definition selected (k : string -> SM unit) : SM unit :=
  let! c := st_get current_collection in
  match c with
  | None => say (Failure "No collection selected. Use 'use <collection>' first")
  | Some coll => k coll
  end.

(** The command's first argument. *)
Definition argument (parts : list string) (usage : string) (k : string -> SM unit) : SM unit :=
  match parts !! 1 with Some a => k a | None => say (Failure usage) end.

Definition quote_text (s : string) : string := String (Ascii.ascii_of_nat 34) s +:+ String (Ascii.ascii_of_nat 34) "".

(** [show_help], without its text. *)
Definition show_help : SM unit := say (Plain "Available Commands:").

Definition repl_update (line coll : string) : SM unit :=
  match split_at "{"%char line with
  | _ :: query :: update :: _ => document_update coll ("{" +:+ query) ("{" +:+ trim_braces update)
  | _ => say (Failure "Usage: update {{query}} {{update}}")
  end.

Definition run_words (cmd : string) (parts : list string) (line : string) : SM unit :=
  let is_ name := bool_decide (cmd = name) in
  if is_ "help" then show_help
  else if is_ "info" then db_info
  else if is_ "collections" || is_ "show collections" then collection_list
  else if is_ "metrics" then metrics_show
  else if is_ "use" then
    argument parts "Usage: use <collection>" (fun coll =>
      let! _ := st_modify (with_collection (Some coll)) in
      say (Success ("Now using collection '" +:+ coll +:+ "'")))
  else if is_ "create" then argument parts "Usage: create <collection>" collection_create
  else if is_ "drop" then
    selected (fun coll => let! _ := collection_drop coll in st_modify (with_collection None))
  else if is_ "insert" then
    selected (fun coll =>
      match from_brace line with
      | Some doc_json => document_insert coll doc_json
      | None => st_fail ("Usage: insert {" +:+ quote_text "field" +:+ ": " +:+ quote_text "value" +:+ ", ...}")
      end)
  else if is_ "find" then selected (fun coll => document_find coll (repl_query parts line) None None)
  else if is_ "count" then selected (fun coll => document_count coll (repl_query parts line))
  else if is_ "update" then selected (repl_update line)
  else if is_ "delete" then selected (fun coll => document_delete coll (repl_query parts line))
  else if is_ "indexes" then selected index_list
  else if is_ "create-index" || is_ "createIndex" then
    selected (fun coll => argument parts "Usage: create-index <field> [--unique]" (fun field =>
      index_create coll field (bool_decide ("--unique" ∈ parts))))
  else if is_ "backup" then argument parts "Usage: backup <destination>" db_backup
  else if is_ "export" then selected (fun coll => argument parts "Usage: export <file>" (document_export coll))
  else if is_ "import" then selected (fun coll => argument parts "Usage: import <file>" (document_import coll))
  else say (Failure ("Unknown command: '" +:+ cmd +:+ "'. Type 'help' for available commands")).

(** Whether the process exits. *)
Definition execute_repl_command (line : string) : SM bool :=
  let parts := split_whitespace line in
  match parts with
  | [] => st_ret false
  | cmd :: _ =>
    if bool_decide (cmd = "exit") || bool_decide (cmd = "quit") then st_ret true
    else let! _ := run_words cmd parts line in st_ret false
  end.

(** What rustyline reads. *)
Inductive readline := ReadLine (line : string) | Interrupted | Eof | ReadError (e : string).

Fixpoint repl_loop (lines : list readline) : SM unit :=
  match lines with
  | [] => st_ret tt
  | Eof :: _ => say (Plain "exit")
  | Interrupted :: lines => let! _ := say (Plain "^C") in repl_loop lines
  | ReadError e :: _ => say (Failure ("Error: " +:+ e))
  | ReadLine line :: lines =>
    let line := trim line in
    if bool_decide (line = "") then repl_loop lines else
    let! stop := st_catch (execute_repl_command line) (fun e => let! _ := say (Failure e) in st_ret false) in
    if stop : bool then st_ret tt else repl_loop lines
  end.

Definition start : list readline -> SM unit := fun lines =>
  let! _ := say (Plain "jasonisnthappy interactive shell") in
  let! _ := say (Plain ("Database: " +:+ db_path)) in
  let! _ := say (Plain "Type 'help' for available commands, 'exit' to quit") in
  repl_loop lines.
End cli.
