(* ===== verification/Samples.v ===== *)
(** * Instances of the parameters, and runs of the whole database

    Concrete text formats and orders, under which a database can be opened, used, closed and
    opened again by evaluation. *)

From stdpp Require Import base list strings gmap.
From Stdlib Require Import NArith Lia Strings.Byte.
From S2P Require Import Prelude Constants Bytes Text PageStore Json IndexKey QueryBuilder LruCache Pager Document BTreeNode BTree.
From S2P Require Import Wal Mvcc Validation TxBTree Metadata Watch DatabaseState Transaction TxCollection Database.

#[local] Open Scope nat_scope.

(** Documents whose values are strings. *)
Definition strings_of (m : list (string * @Value float_numbers)) : option (list (string * string)) :=
  mapM (fun kv => match kv.2 with Str s => Some (kv.1, s) | _ => None end) m.

Definition fields_code : Code (list (string * string)) := list_code (pair_code string_code string_code).

#[export] Instance sample_bytes : @SerdeBytes float_numbers := {|
  map_to_vec m := match strings_of m with Some kvs => inl (put fields_code kvs) | None => inr "not a string" end;
  map_from_slice data := match take_code fields_code data with
    | Some (kvs, _) => inl ((fun kv => (kv.1, Str kv.2)) <$> kvs)
    | None => inr "not a document"
    end;
  value_from_slice data := match take_code fields_code data with
    | Some (kvs, _) => inl (Object ((fun kv => (kv.1, Str kv.2)) <$> kvs))
    | None => inr "not a document"
    end |}.

#[export] Instance sample_numbers : SerdeNumber := float_numbers.
#[export] Instance sample_tables : UnicodeTables := ascii_tables.
#[export] Instance sample_text : @SerdeText float_numbers := tiny_text.
#[export] Instance sample_cat : @SerdeCatalogue float_numbers := coded_catalogue.
#[export] Instance sample_messages : @Messages float_numbers := {| f64_to_string _ := ""; values_debug _ := "" |}.
#[export] Instance sample_debug : @DebugText float_numbers := {| value_debug _ := "" |}.
#[export] Instance sample_fields : DebugFields := {| fields_debug _ := "" |}.
#[export] Instance sample_clock : Clock := fun _ => 0%N.
#[export] Instance sample_pages : HashMapOrder N := stdpp_order N.
#[export] Instance sample_names : HashMapOrder string := stdpp_order string.

Notation DM := (ST Database Error).
Notation TM := (ST txworld Error).

Definition sample_fuel : nat := 20.

(** A method of a collection inside a transaction. *)
Definition with_collection {A} (nm : string) (m : ST collworld Error A) : TM A := fun w =>
  match collection nm w with
  | (Ok c, w) => let '(r, s) := m (mk_collworld _ c w) in (r, c_world s)
  | (Err e, w) => (Err e, w)
  | (Panic, w) => (Panic, w)
  | (OutOfFuel, w) => (OutOfFuel, w)
  end.

Definition doc (fields : list (string * string)) : @Value float_numbers := Object ((fun kv => (kv.1, Str kv.2)) <$> fields).

Definition sample_options : DatabaseOptions := mk_options 50 1000 420 false 100 4096 4096.

Definition open_sample (data log : option (list byte)) : Result Database :=
  open_with_options "sample.db" sample_options data log (Some 1%N) (Some 2%N).

(** The files after [close], read by a later [open]. *)
Definition reopen : DM Database := fun d =>
  match close_db d with
  | (Ok _, d) => (open_sample (Some (Pager.file (pager d))) (Some (Wal.file (wal d))), d)
  | (r, d) => (Panic, d)
  end.

Definition put_doc (id v : string) : TM string := with_collection "users" (TxCollection.insert sample_fuel id (doc [("v", v)])).
Definition set_doc (id v : string) : TM unit := with_collection "users" (update_by_id sample_fuel id (doc [("v", v)])).
(** The field v of a document. *)
Definition get_doc (id : string) : TM (option string) :=
  let! v := with_collection "users" (find_by_id sample_fuel id) in st_ret (value_get "v" v ≫= as_str).
Definition del_doc (id : string) : TM unit := with_collection "users" (delete_by_id sample_fuel id).
Definition do_commit : TM unit := commit sample_fuel.
Definition tx_run {A} (m : TM A) (t : Transaction) : DM (A * Transaction) := in_transaction m t.

(** One transaction after the other. *)
Definition run1 {A} (m : TM A) : DM A := run_transaction sample_fuel m.
