(* ===== verification/Frames.v ===== *)
(** * What a computation leaves alone

    [within R m]: every run of [m] leads from a state to one that [R] relates it to, whatever
    the result. With a preorder this goes through the combinators, so the part of a large
    state that a method cannot change is found by following its code. *)

From stdpp Require Import base list strings gmap.
From Stdlib Require Import NArith Lia.
From S2P Require Import Prelude Constants Bytes PageStore LruCache Pager Document BTreeNode BTree TxBTree Metadata DatabaseState.

Definition within {S E A} (R : relation S) (m : ST S E A) : Prop := forall s, R s (m s).2.

(** The value of [f] stays. *)
Definition same {S X} (f : S -> X) : relation S := fun s s' => f s' = f s.

#[export] Instance same_preorder {S X} (f : S -> X) : PreOrder (same f).
Proof. split; unfold same; [by intros ?|]. intros a b c H1 H2. by rewrite H2, H1. Qed.

Create HintDb frame.
#[export] Hint Extern 0 (PreOrder _) => typeclasses eauto : frame.

Section combinators.
Context {S E : Type} (R : relation S) `{!PreOrder R}.

Lemma within_ret {A} (a : A) : within R (@st_ret S E A a).
Proof. by intros s. Qed.

Lemma within_fail {A} (e : E) : within R (@st_fail S E A e).
Proof. by intros s. Qed.

Lemma within_lift {A} (x : outcome E A) : within R (st_lift x).
Proof. by intros s. Qed.

Lemma within_get {A} (f : S -> A) : within R (@st_get S E A f).
Proof. by intros s. Qed.

Lemma within_modify f : (forall s, R s (f s)) -> within R (@st_modify S E f).
Proof. done. Qed.

Lemma within_bind {A B} (m : ST S E A) (k : A -> ST S E B) :
  within R m -> (forall a, within R (k a)) -> within R (st_bind k m).
Proof.
  intros Hm Hk s. specialize (Hm s). unfold st_bind. destruct (m s) as [[a|e| |] s1]; simpl in *; try done.
  etrans; [exact Hm|apply Hk].
Qed.

Lemma within_ok {A} (m : ST S E A) : within R m -> within R (st_ok m).
Proof. intros Hm s. specialize (Hm s). unfold st_ok. by destruct (m s) as [[a|e| |] s1]. Qed.

Lemma within_catch {A} (m : ST S E A) h : within R m -> (forall e, within R (h e)) -> within R (st_catch m h).
Proof.
  intros Hm Hh s. specialize (Hm s). unfold st_catch. destruct (m s) as [[a|e| |] s1]; simpl in *; try done.
  etrans; [exact Hm|apply Hh].
Qed.
End combinators.

#[export] Hint Resolve within_ret within_fail within_lift within_get within_bind within_ok within_catch : frame.

Section each.
Context {S : Type} (R : relation S) `{!PreOrder R}.

Lemma within_each {A} (f : A -> ST S Error unit) l : (forall x, within R (f x)) -> within R (st_each f l).
Proof. intros Hf. induction l; simpl; eauto with frame. Qed.
End each.

#[export] Hint Resolve within_each : frame.

(** Case analysis on what blocks a computation, then the lemmas about the combinators. *)
Ltac frame_step :=
  first
  [ solve [eauto with frame]
  | match goal with
    | |- forall _, _ => intros ?
    | |- within _ (st_bind _ _) => apply within_bind; [try typeclasses eauto| |]
    | |- within _ (st_ok _) => apply within_ok
    | |- within _ (st_catch _ _) => apply within_catch; [try typeclasses eauto| |]
    | |- within _ (st_each _ _) => apply within_each; [try typeclasses eauto|]
    | |- within _ (if ?b then _ else _) => destruct b
    | |- within _ (match ?x with _ => _ end) => destruct x
    | |- within _ (let '_ := ?x in _) => destruct x
    end ].

Ltac frame := repeat frame_step.

(** ** Reads change only the page cache *)
Definition cache_step (p p' : Pager.Pager) : Prop := exists c, p' = with_pcache c p.

#[export] Instance cache_step_preorder : PreOrder cache_step.
Proof.
  split.
  - intros p. exists (pcache p). by destruct p.
  - intros p1 p2 p3 [c1 ->] [c2 ->]. by exists c2.
Qed.

Lemma within_on_cache {A} (f : LRUCacheInner -> option (A * LRUCacheInner)) : within cache_step (on_cache f).
Proof. intros s. unfold on_cache. destruct (f (pcache s)) as [[a c]|]; simpl; [by exists c|done]. Qed.

Lemma within_on_cache_ f : within cache_step (on_cache_ f).
Proof. apply within_on_cache. Qed.

#[export] Hint Resolve within_on_cache within_on_cache_ : frame.

Lemma within_read_page p : within cache_step (read_page p).
Proof. unfold read_page. frame. intros s. by exists (pcache s); destruct s. Qed.

#[export] Hint Resolve within_read_page : frame.

Lemma within_ps_read p : within cache_step (ps_read (S := Pager.Pager) p).
Proof. apply within_read_page. Qed.

#[export] Hint Resolve within_ps_read : frame.

Lemma within_read_chain fetch e1 e2 budget visited overflow len acc :
  (forall p, within cache_step (fetch p)) ->
  within cache_step (read_chain (S := Pager.Pager) fetch e1 e2 budget visited overflow len acc).
Proof.
  intros Hf. revert visited overflow len acc. induction budget as [|n IH]; intros; simpl; frame.
Qed.

Lemma within_read_versioned p ws : within cache_step (read_versioned_document (S := Pager.Pager) p ws).
Proof.
  unfold read_versioned_document, fetch_page, invalid, Document.index. frame. apply within_read_chain. frame.
Qed.

#[export] Hint Resolve within_read_versioned : frame.

(** The tree of a transaction, its buffer and the pager but for its cache. *)
Definition tree_read (s s' : txstate Pager.Pager) : Prop :=
  cache_step (TxBTree.pager s) (TxBTree.pager s') /\ TxBTree.tx_writes s' = TxBTree.tx_writes s /\ tree_ s' = tree_ s.

#[export] Instance tree_read_preorder : PreOrder tree_read.
Proof.
  split.
  - by intros s.
  - intros a b c (H1 & H2 & H3) (H4 & H5 & H6). split_and!; [by etrans|by rewrite H5|by rewrite H6].
Qed.

Lemma within_on_tree_pager {A} (m : ST Pager.Pager Error A) : within cache_step m -> within tree_read (TxBTree.on_pager m).
Proof. intros Hm s. specialize (Hm (TxBTree.pager s)). unfold TxBTree.on_pager. by destruct (m _). Qed.

#[export] Hint Resolve within_on_tree_pager : frame.

Lemma within_tx_read_node p : within tree_read (TxBTree.read_node (S := Pager.Pager) p).
Proof. unfold TxBTree.read_node. frame. Qed.

#[export] Hint Resolve within_tx_read_node : frame.

Lemma within_tx_search fuel k : within tree_read (TxBTree.search (S := Pager.Pager) fuel k).
Proof.
  assert (forall node, within tree_read (TxBTree.search_loop (S := Pager.Pager) fuel node k)) as Hl.
  { induction fuel as [|n IH]; intros node; simpl; unfold TxBTree.of_index, TxBTree.out_of_fuel; frame. }
  unfold TxBTree.search, TxBTree.get_current_root. frame.
Qed.

#[export] Hint Resolve within_tx_search : frame.
