(* ===== verification/TransactionSpec.v ===== *)
(** * Commits through the queue (transaction.rs)

    What a batch is, that a leader serves every transaction that waits, what a failed
    validation and a finished transaction change, and what the detection of conflicts decides. *)

From stdpp Require Import base list strings gmap.
From Stdlib Require Import NArith Lia.
From S2P Require Import Prelude Constants Bytes Text PageStore Json IndexKey LruCache Pager Document BTreeNode BTree.
From S2P Require Import Wal Mvcc Validation TxBTree Metadata Watch DatabaseState TxCollection Transaction Frames.

#[local] Open Scope nat_scope.

Section frames.
Context {tables : UnicodeTables} {numbers : SerdeNumber} {text : SerdeText} {catalogue : SerdeCatalogue} {bytes : SerdeBytes}
  {clock : Clock} {page_order : HashMapOrder N} {name_order : HashMapOrder string}.
Implicit Types (d : Database).

(** Everything stays, but for the page cache. *)
Definition reads_only d d' : Prop := exists c, d' = with_pager (with_pcache c) d.

#[export] Instance reads_only_preorder : PreOrder reads_only.
Proof.
  split.
  - intros d. exists (pcache (pager d)). unfold with_pager, with_pcache. by destruct d as [[]].
  - intros d1 d2 d3 [c1 ->] [c2 ->]. by exists c2.
Qed.

Lemma cache_reads_only d p' : cache_step (pager d) p' -> reads_only d (with_pager (fun _ => p') d).
Proof. intros [c ->]. exists c. by destruct d. Qed.

Lemma within_on_pager_reads {A} (m : ST Pager.Pager Error A) : within cache_step m -> within reads_only (on_pager m).
Proof.
  intros Hm d. specialize (Hm (pager d)). unfold on_pager. destruct (m (pager d)). by apply cache_reads_only.
Qed.

Lemma within_run_tree_reads {A} ws t (m : ST (txstate Pager.Pager) Error A) : within tree_read m -> within reads_only (run_tree ws t m).
Proof.
  intros Hm d. specialize (Hm (mk_txstate (pager d) ws t)). unfold run_tree. destruct (m _) as [r s].
  destruct Hm as [Hc _]. by apply cache_reads_only.
Qed.

#[local] Hint Resolve within_on_pager_reads within_run_tree_reads : frame.

Lemma within_fold {A B} (R : relation Database) `{!PreOrder R} (f : A -> B -> ST Database Error B) l b :
  (forall x b, within R (f x b)) -> within R (st_fold f l b).
Proof. intros Hf. revert b. induction l; intros; simpl; eauto with frame. Qed.

Lemma within_exists {A} (R : relation Database) `{!PreOrder R} (f : A -> ST Database Error bool) l :
  (forall x, within R (f x)) -> within R (st_exists f l).
Proof.
  intros Hf. induction l as [|x l IH]; simpl; [eauto with frame|].
  apply within_bind; [done|done|]. intros []; eauto with frame.
Qed.

Lemma within_committed fuel root doc_id : within reads_only (committed_document fuel root doc_id).
Proof. unfold committed_document. frame. Qed.

#[local] Hint Resolve within_committed : frame.

Lemma within_validate fuel pending : within reads_only (validate_pending_write fuel pending).
Proof.
  unfold validate_pending_write. apply within_fold; [typeclasses eauto|]. intros name b.
  unfold validate_collection, get_metadata, detect_document_level_conflicts, detect_write_conflicts_with_context, changed_since.
  frame. apply within_exists; [typeclasses eauto|]. intros [doc_id page]. frame.
Qed.

(** *** The queue is not touched by the execution of a batch *)
Definition queue_of d := (pending_writes d, completions d, wakes d, batch_config d).

Notation kept := (same queue_of).

Lemma kept_on_pager {A} (m : ST Pager.Pager Error A) : within kept (on_pager m).
Proof. intros d. unfold on_pager. by destruct (m (pager d)). Qed.

Lemma kept_on_wal {A} (m : ST Wal.WALInner Error A) : within kept (on_wal m).
Proof. intros d. unfold on_wal. by destruct (m (wal d)). Qed.

Lemma kept_on_manager {A} (f : TransactionManager -> A * TransactionManager) : within kept (on_manager f).
Proof. intros d. unfold on_manager. by destruct (f (tx_manager d)). Qed.

Lemma kept_run_tree {A} ws t (m : ST (txstate Pager.Pager) Error A) : within kept (run_tree ws t m).
Proof. intros d. unfold run_tree. by destruct (m _). Qed.

Lemma kept_reads {A} (m : ST Database Error A) : within reads_only m -> within kept m.
Proof. intros Hm d. destruct (Hm d) as [c ->]. done. Qed.

Lemma kept_read_clock : within kept read_clock.
Proof. by intros d. Qed.

#[local] Hint Resolve kept_on_pager kept_on_wal kept_on_manager kept_run_tree kept_read_clock : frame.
#[local] Hint Extern 1 (within kept (st_modify _)) => by apply within_modify : frame.

Lemma kept_wal_write_frame tx pn data : within kept (wal_write_frame tx pn data).
Proof. unfold wal_write_frame. frame. Qed.

#[local] Hint Resolve kept_wal_write_frame : frame.

Lemma kept_log_pages tx ws : within kept (log_pages tx ws).
Proof. unfold log_pages. frame. Qed.

#[local] Hint Resolve kept_log_pages : frame.

Lemma kept_install_metadata tx : within kept (install_metadata tx).
Proof. unfold install_metadata, get_metadata. frame. Qed.

Lemma kept_apply_collection fuel name pending : within kept (apply_collection fuel name pending).
Proof. unfold apply_collection, rebase_single_collection, get_metadata, update_metadata_no_flush. frame. Qed.

Lemma kept_apply_batch fuel batch : within kept (apply_batch fuel batch).
Proof.
  induction batch as [|p batch IH]; simpl; frame. apply within_fold; [typeclasses eauto|].
  intros. apply kept_apply_collection.
Qed.

Lemma kept_emit_pending p : within kept (emit_pending p).
Proof. unfold emit_pending, emit, read_value. frame. Qed.

#[local] Hint Resolve kept_install_metadata kept_apply_batch kept_emit_pending : frame.

Lemma kept_run_batch fuel leader batch : within kept (run_batch fuel leader batch).
Proof. unfold run_batch. frame. apply kept_reads, within_validate. Qed.

Lemma kept_auto_checkpoint : within kept maybe_auto_checkpoint.
Proof. unfold maybe_auto_checkpoint, frame_count. frame. Qed.
End frames.

(** ** Batches *)
Section batches.
Context {tables : UnicodeTables} {numbers : SerdeNumber} {text : SerdeText} {catalogue : SerdeCatalogue} {bytes : SerdeBytes}
  {clock : Clock} {page_order : HashMapOrder N} {name_order : HashMapOrder string}.
Implicit Types (d : Database) (p : PendingWrite) (batch queue : list PendingWrite).

(** The documents that the transactions of a batch write, each as often as it is written. *)
Definition batch_docs batch : list (string * string) := batch ≫= pending_docs.

(** What the wake-ups of the leader add to the queue. *)
Definition arrivals (ws : list (option (list PendingWrite))) : list PendingWrite := ws ≫= default [].

Definition measure d : nat := length (pending_writes d) + sum_list (wake_size <$> wakes d).

Lemma bind_snoc {A B} (f : A -> list B) l x : (l ++ [x]) ≫= f = (l ≫= f) ++ f x.
Proof. by rewrite bind_app, bind_singleton. Qed.

Lemma pending_docs_nodup p : NoDup (pending_docs p).
Proof.
  unfold pending_docs. pose proof (map_iter_nodup (p_doc_writes p)) as Hnd. revert Hnd.
  induction (map_iter (p_doc_writes p)) as [|[c ds] l IH]; intros Hnd; [constructor|].
  rewrite fmap_cons in Hnd. apply NoDup_cons in Hnd as [Hc Hnd]. rewrite bind_cons. apply NoDup_app. split_and!.
  - apply NoDup_fmap; [by intros ?? [=]|apply map_iter_nodup].
  - intros [c' doc] (x & [= -> ->] & _)%list_elem_of_fmap Hin. apply Hc.
    apply list_elem_of_bind in Hin as ([c2 ds2] & Hin2 & Hin). apply list_elem_of_fmap in Hin2 as (? & [= <- _] & _).
    apply list_elem_of_fmap. by exists (c, ds2).
  - by apply IH.
Qed.

(** *** The check for documents written twice *)
Lemma check_docs_spec idx docs seen :
  NoDup docs ->
  match check_docs idx docs seen with
  | Ok seen' => (forall key, key ∈ docs -> key ∉ dom seen) /\ dom seen' = list_to_set docs ∪ dom seen
  | Err _ => exists key, key ∈ docs /\ key ∈ dom seen
  | _ => False
  end.
Proof.
  revert seen. induction docs as [|key docs IH]; intros seen Hnd; simpl.
  { split; [intros k Hk; by apply elem_of_nil in Hk|set_solver]. }
  apply NoDup_cons in Hnd as [Hk Hnd]. destruct (seen !! key) as [first_idx|] eqn:E.
  { exists key. split; [by left|]. by apply elem_of_dom. }
  specialize (IH (<[key := idx]> seen) Hnd). apply not_elem_of_dom in E.
  pose proof (dom_insert_L seen key idx) as Hdom.
  destruct (check_docs idx docs (<[key := idx]> seen)) as [seen'|e| |]; [|set_solver|done|done].
  destruct IH as [H1 H2]. split; [|set_solver].
  intros k [->|Hin]%elem_of_cons; [done|]. specialize (H1 k Hin). set_solver.
Qed.

Lemma check_from_spec idx batch seen :
  check_from idx batch seen = Ok tt <-> NoDup (batch_docs batch) /\ forall key, key ∈ batch_docs batch -> key ∉ dom seen.
Proof.
  unfold batch_docs. revert idx seen. induction batch as [|p batch IH]; intros idx seen; cbn [check_from].
  { split; [intros _|done]. split; [constructor|]. intros k Hk; by apply elem_of_nil in Hk. }
  rewrite bind_cons, NoDup_app. pose proof (pending_docs_nodup p) as Hnd.
  pose proof (check_docs_spec idx _ seen Hnd) as Hc. destruct (check_docs idx (pending_docs p) seen) as [seen'|e| |]; [|..].
  2: { destruct Hc as (key & Hk1 & Hk2). split; [done|]. intros [_ H]. destruct (H key); [apply elem_of_app; by left|done]. }
  2, 3: done.
  destruct Hc as [Hno Hd]. cbn [obind]. rewrite IH, Hd. setoid_rewrite elem_of_app. split.
  - intros [H1 H2]. split_and!; [done| |done|].
    + intros x Hx Hx'. destruct (H2 x Hx'). set_solver.
    + intros x [Hx|Hx] Hs; [by apply (Hno x)|]. destruct (H2 x Hx). set_solver.
  - intros [(_ & H1 & H2) H3]. split; [done|]. intros x Hx. rewrite elem_of_union, elem_of_list_to_set.
    intros [Hp|Hs]; [by apply (H1 x)|]. destruct (H3 x); [by right|done].
Qed.

Lemma check_batch_spec batch : check_batch_conflicts batch = Ok tt <-> NoDup (batch_docs batch).
Proof.
  unfold check_batch_conflicts. rewrite check_from_spec. split; [by intros [? _]|]. intros H. split; [done|].
  intros key _. rewrite dom_empty. set_solver.
Qed.

(** *** Collecting *)

(** The leader took [new] from the queue, after [used] wake-ups. *)
Record collected d (new : list PendingWrite) (used : list (option (list PendingWrite))) d' : Prop := {
  co_queue : pending_writes d ++ arrivals used = new ++ pending_writes d';
  co_wakes : wakes d = used ++ wakes d';
  co_rest : d' = with_wakes (fun _ => wakes d') (with_pending_writes (fun _ => pending_writes d') d) }.

Lemma collected_refl d : collected d [] [] d.
Proof. split; [by rewrite app_nil_r|done|]. by destruct d. Qed.

Lemma collected_trans d n1 u1 d1 n2 u2 d2 :
  collected d n1 u1 d1 -> collected d1 n2 u2 d2 -> collected d (n1 ++ n2) (u1 ++ u2) d2.
Proof.
  intros [H1 H2 H3] [H4 H5 H6]. split.
  - unfold arrivals in *. by rewrite bind_app, app_assoc, H1, <-app_assoc, H4, app_assoc.
  - by rewrite H2, H5, app_assoc.
  - rewrite H6, H3. by destruct d.
Qed.

Lemma collected_measure d new used d' : collected d new used d' -> length new + measure d' <= measure d.
Proof.
  intros [H1 H2 _]. unfold measure. rewrite H2, fmap_app, sum_list_with_app. apply (f_equal length) in H1.
  rewrite !length_app in H1. assert (length (arrivals used) <= sum_list (wake_size <$> used)); [|lia].
  clear. unfold arrivals. induction used as [|[ps|] used IH]; [done| |]; rewrite bind_cons, fmap_cons, length_app; simpl; lia.
Qed.

Lemma collect_loop_spec rounds batch docs d :
  (forall key, key ∈ docs <-> key ∈ batch_docs batch) -> NoDup (batch_docs batch) ->
  measure d < rounds -> (batch = [] -> pending_writes d <> []) -> length batch < max 1 (max_batch_size (batch_config d)) ->
  exists new used d', collect_loop rounds batch docs d = (Ok (batch ++ new), d') /\ collected d new used d' /\
    batch ++ new <> [] /\ NoDup (batch_docs (batch ++ new)) /\ length (batch ++ new) <= max 1 (max_batch_size (batch_config d)).
Proof.
  revert batch docs d. induction rounds as [|rounds IH]; intros batch docs d Hdocs Hnd Hm Hne Hlen; [lia|].
  cbn [collect_loop]. unfold st_bind at 1, pop_front. destruct (pending_writes d) as [|p queue] eqn:Hq.
  - rewrite decide_False by (intros ->; by apply Hne). unfold st_bind, sleep.
    destruct (wakes d) as [|[ps|] ws] eqn:Hw.
    + exists [], [], d. rewrite app_nil_r. split_and!; try done; [apply collected_refl|by intros ->; apply Hne|lia].
    + set (d1 := with_wakes _ _). assert (collected d [] [Some ps] d1) as Hc1.
      { split; [|done|done]. subst d1. simpl. rewrite Hq. unfold arrivals. simpl. by rewrite app_nil_r. }
      destruct (IH batch docs d1 Hdocs Hnd) as (new & used & d' & -> & Hc & H1 & H2 & H3); [|by intros ->; destruct Hne|done|].
      { unfold measure in Hm |- *. subst d1. cbn [pending_writes with_wakes with_pending_writes wakes]. rewrite Hq.
        rewrite Hq, Hw, fmap_cons in Hm. cbn [sum_list_with wake_size length id app] in *. lia. }
      exists new, ([Some ps] ++ used), d'. split_and!; try done. by apply (collected_trans _ [] _ d1).
    + set (d1 := with_wakes _ _). assert (collected d [] [None] d1) as Hc1.
      { split; [|done|done]. subst d1. simpl. by rewrite app_nil_r. }
      exists [], [None], d1. rewrite app_nil_r. split_and!; try done; [by intros ->; apply Hne|lia].
  - set (d1 := with_pending_writes (fun _ => queue) d).
    assert (collected d [p] [] d1) as Hc1 by (split; [by rewrite Hq, app_nil_r|done|by destruct d]).
    destruct (existsb _ (pending_docs p)) eqn:Hex.
    + exists [], [], d. rewrite app_nil_r. split_and!; try done; [|apply collected_refl| |lia].
      * unfold st_bind, push_front, st_modify, st_ret. subst d1. simpl. do 2 f_equal. destruct d. simpl in *. by subst.
      * intros ->. apply existsb_exists in Hex as (key & _ & Hk%bool_decide_eq_true). apply Hdocs in Hk. by apply elem_of_nil in Hk.
    + assert (NoDup (batch_docs (vec_push batch p))) as Hnd1.
      { unfold batch_docs, vec_push. rewrite bind_snoc. apply NoDup_app. split_and!; [done| |apply pending_docs_nodup].
        intros key Hk Hp. apply not_true_iff_false in Hex. apply Hex, existsb_exists. exists key.
        split; [by apply list_elem_of_In|]. by apply bool_decide_eq_true, Hdocs. }
      unfold st_bind, st_get. change (batch_config d1) with (batch_config d).
      case_match eqn:Hmax.
      * exists [p], [], d1. unfold vec_push in *. split_and!; try done; [by intros [_ ?]%app_nil|].
        rewrite length_app. simpl. lia.
      * destruct (IH (vec_push batch p) (list_to_set (pending_docs p) ∪ docs) d1) as (new & used & d' & -> & Hc & H1 & H2 & H3); [|done| | | |].
        -- intros key. unfold batch_docs, vec_push. rewrite bind_snoc, elem_of_union, elem_of_list_to_set, elem_of_app, Hdocs.
           unfold batch_docs. tauto.
        -- unfold measure in Hm |- *. rewrite Hq in Hm. subst d1. simpl in *. lia.
        -- unfold vec_push. by intros [_ ?]%app_nil.
        -- apply Nat.leb_gt in Hmax. unfold vec_push in *. rewrite length_app in Hmax |- *. simpl in *. lia.
        -- exists ([p] ++ new), ([] ++ used), d'. unfold vec_push in *. rewrite <-app_assoc in *.
           split_and!; try done. by eapply collected_trans.
Qed.

Lemma collect_batch_spec (w : txworld) :
  has_db (w_tx w) = true -> pending_writes (w_db w) <> [] ->
  exists batch used d, collect_batch w = (Ok batch, mk_txworld _ (w_tx w) d) /\ collected (w_db w) batch used d /\
    batch <> [] /\ length batch <= max 1 (max_batch_size (batch_config (w_db w))) /\ NoDup (batch_docs batch).
Proof.
  intros Hdb Hq. destruct (collect_loop_spec (collect_rounds (w_db w)) [] ∅ (w_db w)) as (batch & used & d & Hr & Hco & Hne & Hnd & Hlen).
  { intros key. split; [set_solver|]. by intros ?%elem_of_nil. }
  { constructor. } { unfold collect_rounds, measure. lia. } { done. } { simpl. lia. }
  exists batch, used, d. rewrite app_nil_l in *. split_and!; try done. unfold collect_batch, st_bind at 1, get_tx, st_get.
  rewrite Hdb. cbn [negb]. unfold on_db, st_bind. by rewrite Hr.
Qed.

(** C9: when transactions wait, a batch is collected: at least one of them and at most the
    configured number, the longest waiting first, none twice and none lost, with no document
    written by two of them, so the check for such documents accepts it. *)
Theorem batch_is_conflict_free_prefix (w : txworld)
    (Hdb : has_db (w_tx w) = true) (Hq : pending_writes (w_db w) <> []) :
  exists batch used w', collect_batch w = (Ok batch, w') /\ w_tx w' = w_tx w /\
    batch <> [] /\ length batch <= max 1 (max_batch_size (batch_config (w_db w))) /\
    pending_writes (w_db w) ++ arrivals used = batch ++ pending_writes (w_db w') /\ wakes (w_db w) = used ++ wakes (w_db w') /\
    check_batch_conflicts batch = Ok tt.
Proof.
  destruct (collect_batch_spec w Hdb Hq) as (batch & used & d & H1 & [H2 H3 _] & H4 & H5 & H6).
  exists batch, used, (mk_txworld _ (w_tx w) d). split_and!; try done. by apply check_batch_spec.
Qed.
End batches.

(** ** The leader *)
Section leader.
Context {tables : UnicodeTables} {numbers : SerdeNumber} {text : SerdeText} {catalogue : SerdeCatalogue} {bytes : SerdeBytes}
  {clock : Clock} {page_order : HashMapOrder N} {name_order : HashMapOrder string}.
Variable fuel : nat.
Implicit Types (d : Database) (p : PendingWrite) (batch queue : list PendingWrite) (w : txworld).

Definition returned (r : Result unit) : Prop := match r with Ok _ | Err _ => True | _ => False end.

(** What the leader does between the execution of a batch and the next round. *)
Definition between batch (res : Result unit) : ST txworld Error unit :=
  let! _ := on_db (st_each (notify res) batch) in on_db maybe_auto_checkpoint.

(** [rounds w h w']: from [w] to [w'] the leader collected the batches of [h] one after the
    other, and their executions returned the results of [h]. *)
Inductive rounds : txworld -> list (list PendingWrite * Result unit) -> txworld -> Prop :=
| rounds_nil w : rounds w [] w
| rounds_cons w batch w1 res w2 w3 h w' :
    collect_batch w = (Ok batch, w1) -> execute_batch_commit fuel batch w1 = (res, w2) -> returned res ->
    between batch res w2 = (Ok tt, w3) -> rounds w3 h w' -> rounds w ((batch, res) :: h) w'.

(** After some rounds from [w], the execution of the batch collected next ends with [r]. *)
Definition ends_in w (r : Result unit) : Prop :=
  exists h w1 batch w2, rounds w h w1 /\ collect_batch w1 = (Ok batch, w2) /\ (execute_batch_commit fuel batch w2).1 = r.

(** The result of the last batch with a transaction whose cell is [c]; a transaction that
    commits has a cell of its own, so it is in one batch. *)
Fixpoint answer (h : list (list PendingWrite * Result unit)) (c : N) : option (Result unit) :=
  match h with
  | [] => None
  | (batch, res) :: h =>
    match answer h c with
    | Some r => Some r
    | None => if decide (c ∈ completion <$> batch) then Some res else None
    end
  end.

Lemma answer_returned w h w' c r : rounds w h w' -> answer h c = Some r -> returned r.
Proof.
  induction 1 as [|w batch w1 res w2 w3 h w' _ _ Hret _ _ IH]; [done|]. cbn [answer].
  destruct (answer h c); [auto|]. case_decide; [|done]. by intros [= ->].
Qed.

Lemma answer_some h c : c ∈ completion <$> concat h.*1 -> is_Some (answer h c).
Proof.
  induction h as [|[batch res] h IH]; [by intros ?%elem_of_nil|]. rewrite fmap_cons. cbn [fst concat answer].
  rewrite fmap_app, elem_of_app. intros Hc. destruct (answer h c) eqn:E; [done|].
  destruct Hc as [Hc|[? ?]%IH]; [by rewrite decide_True|done].
Qed.

Lemma answer_in h c r : answer h c = Some r -> c ∈ completion <$> concat h.*1.
Proof.
  induction h as [|[batch res] h IH]; [done|]. rewrite fmap_cons. cbn [fst concat answer].
  rewrite fmap_app, elem_of_app. destruct (answer h c); [right; by apply IH|]. case_decide; [by left|done].
Qed.

(** With distinct cells, everyone is answered with the result of the batch it was in. *)
Lemma answer_own_batch h batch res p :
  NoDup (completion <$> concat h.*1) -> (batch, res) ∈ h -> p ∈ batch -> answer h (completion p) = Some res.
Proof.
  induction h as [|[batch' res'] h IH]; [by intros _ ?%elem_of_nil|]. rewrite fmap_cons. cbn [fst concat answer].
  rewrite fmap_app. intros (_ & Hd & Hn)%NoDup_app [[= -> ->]|Hin]%elem_of_cons Hp.
  - assert (completion p ∈ completion <$> batch') as Hc by (apply list_elem_of_fmap; by exists p).
    destruct (answer h (completion p)) as [r|] eqn:E; [|by rewrite decide_True].
    exfalso. apply (Hd _ Hc). by eapply answer_in.
  - by rewrite (IH Hn Hin Hp).
Qed.

Lemma execute_kept batch w :
  let w' := (execute_batch_commit fuel batch w).2 in w_tx w' = w_tx w /\ queue_of (w_db w') = queue_of (w_db w).
Proof.
  cbv zeta. unfold execute_batch_commit, st_bind at 1 2, get_tx, st_get. destruct (has_db (id (w_tx w))) eqn:E; cbn [negb]; [|by split].
  unfold on_db. pose proof (kept_run_batch fuel (mvcc_tx_id (id (w_tx w))) batch (w_db w)) as Hk.
  destruct (run_batch _ _ _ _) as [r d]. done.
Qed.

Lemma on_db_run {A} (m : ST Database Error A) w r d : m (w_db w) = (r, d) -> on_db m w = (r, mk_txworld _ (w_tx w) d).
Proof. unfold on_db. by intros ->. Qed.

Lemma notify_each r batch d :
  exists d', st_each (notify r) batch d = (Ok tt, d') /\
    pending_writes d' = pending_writes d /\ wakes d' = wakes d /\ batch_config d' = batch_config d /\
    forall c, completions d' !! c = if decide (c ∈ completion <$> batch) then Some (Some r) else completions d !! c.
Proof.
  revert d. induction batch as [|p batch IH]; intros d; cbn [st_each].
  { exists d. by split_and!. }
  unfold st_bind, notify at 1, st_modify. destruct (IH (with_completions <[completion p:=Some r]> d)) as (d' & -> & H1 & H2 & H3 & H4).
  exists d'. split_and!; try done. intros c. rewrite H4, fmap_cons. simpl. destruct (decide (c = completion p)) as [->|Hne].
  - rewrite lookup_insert_eq. destruct (decide (completion p ∈ completion <$> batch)); by rewrite decide_True by (by left).
  - rewrite lookup_insert_ne by done. destruct (decide (c ∈ completion <$> batch)).
    + rewrite decide_True; [done|by right].
    + rewrite decide_False; [done|]. by intros [?|?]%elem_of_cons.
Qed.

(** The loop serves everything that waits or arrives, unless the execution of a batch of its
    rounds does not return. *)
Definition served w (r : Result unit) w' : Prop :=
  match r with
  | Ok _ => exists h used, rounds w h w' /\ w_tx w' = w_tx w /\ pending_writes (w_db w') = [] /\
      wakes (w_db w) = used ++ wakes (w_db w') /\ concat h.*1 = pending_writes (w_db w) ++ arrivals used /\
      forall c, completions (w_db w') !! c = from_option (Some ∘ Some) (completions (w_db w) !! c) (answer h c)
  | Err _ => False
  | _ => ends_in w r
  end.

(** The round after the execution of its batch. *)
Definition round_end n batch (res : Result unit) : ST txworld Error unit :=
  let! _ := on_db (st_each (notify res) batch) in
  let! b := get_tx has_db in
  let! _ := if b : bool then on_db maybe_auto_checkpoint else st_ret tt in
  if negb b then st_fail no_database else
  let! queue_empty := on_db (st_get (fun d => bool_decide (pending_writes d = []))) in
  if queue_empty : bool then st_ret tt else lead_loop fuel n.

Lemma lead_loop_round n w batch w1 r w2 :
  collect_batch w = (Ok batch, w1) -> execute_batch_commit fuel batch w1 = (r, w2) ->
  lead_loop fuel (S n) w = match r with
    | Ok _ | Err _ => round_end n batch r w2
    | Panic => (Panic, w2)
    | OutOfFuel => (OutOfFuel, w2)
    end.
Proof.
  intros Hc He. cbn [lead_loop]. erewrite st_bind_ok by exact Hc. unfold st_bind at 1, st_result. rewrite He.
  by destruct r as [[]|e| |].
Qed.

Lemma auto_checkpoint_ok d : exists d', maybe_auto_checkpoint d = (Ok tt, d') /\ queue_of d' = queue_of d.
Proof.
  pose proof (kept_auto_checkpoint d) as Hk.
  assert (exists d', maybe_auto_checkpoint d = (Ok tt, d')) as [d' Hd'].
  { unfold maybe_auto_checkpoint, st_bind, st_get, frame_count, on_wal, Wal.frame_count, st_bind, st_ret, st_get.
    destruct (auto_checkpoint_threshold d =? 0)%N; [by eexists|]. cbn. destruct (_ <? _)%N; [by eexists|].
    cbn. destruct (checkpoint_in_progress d); by eexists. }
  exists d'. by rewrite Hd' in Hk.
Qed.

Lemma round_end_spec n batch res w :
  has_db (w_tx w) = true ->
  exists d, between batch res w = (Ok tt, mk_txworld _ (w_tx w) d) /\
    round_end n batch res w =
      (if decide (pending_writes (w_db w) = []) then (Ok tt, mk_txworld _ (w_tx w) d) else lead_loop fuel n (mk_txworld _ (w_tx w) d)) /\
    pending_writes d = pending_writes (w_db w) /\ wakes d = wakes (w_db w) /\ batch_config d = batch_config (w_db w) /\
    forall c, completions d !! c = if decide (c ∈ completion <$> batch) then Some (Some res) else completions (w_db w) !! c.
Proof.
  intros Hdb. destruct (notify_each res batch (w_db w)) as (d2 & Hn & N1 & N2 & N3 & N4).
  destruct (auto_checkpoint_ok d2) as (d3 & Hd3 & [= Q1 Q2 Q3 Q4]). exists d3. unfold round_end, between.
  erewrite st_bind_ok by (apply on_db_run, Hn). erewrite st_bind_ok by (apply on_db_run, Hn).
  erewrite (st_bind_ok (get_tx has_db)) by done. cbn [w_tx]. rewrite Hdb. cbn [negb].
  erewrite st_bind_ok by (apply on_db_run, Hd3). cbn [w_tx]. erewrite (st_bind_ok (on_db (st_get _))) by done. cbn [w_db].
  rewrite Q1, N1, Q3, N2, Q4, N3. split_and!; try done.
  - by apply (on_db_run maybe_auto_checkpoint (mk_txworld _ (w_tx w) d2)).
  - case_bool_decide; [by rewrite decide_True|by rewrite decide_False].
  - intros c. by rewrite Q2, N4.
Qed.

(** A round: what was collected has the result of its batch. *)
Record round_done batch (used : list (option (list PendingWrite))) (res : Result unit) w d : Prop := {
  round_step h w' : rounds (mk_txworld _ (w_tx w) d) h w' -> rounds w ((batch, res) :: h) w';
  round_queue : pending_writes (w_db w) ++ arrivals used = batch ++ pending_writes d;
  round_wakes : wakes (w_db w) = used ++ wakes d;
  round_cells c : completions d !! c = if decide (c ∈ completion <$> batch) then Some (Some res) else completions (w_db w) !! c }.

Lemma served_last batch used res w d :
  round_done batch used res w d -> pending_writes d = [] -> served w (Ok tt) (mk_txworld _ (w_tx w) d).
Proof.
  intros [Hs Hq Hw Hc] Hnil. rewrite Hnil, app_nil_r in Hq. exists [(batch, res)], used. split_and!; try done.
  - apply Hs. constructor.
  - cbn. by rewrite app_nil_r, Hq.
  - intros c. cbn [w_db answer]. rewrite Hc. by case_decide.
Qed.

Lemma served_more batch used res w d r w' :
  round_done batch used res w d -> served (mk_txworld _ (w_tx w) d) r w' -> served w r w'.
Proof.
  intros [Hs Hq Hw Hc] Hd. destruct r as [u|e| |]; try done.
  2,3: destruct Hd as (h & w1 & b & w2 & H1 & H2 & H3); exists ((batch, res) :: h), w1, b, w2; (split_and!; [by apply Hs|done..]).
  destruct Hd as (h & used2 & H1 & H2 & H3 & H4 & H5 & H6). cbn [w_tx w_db] in *.
  exists ((batch, res) :: h), (used ++ used2). split_and!; try done.
  - by apply Hs.
  - by rewrite Hw, H4, app_assoc.
  - rewrite fmap_cons. cbn [fst concat]. unfold arrivals in *. by rewrite H5, bind_app, app_assoc, <-Hq, app_assoc.
  - intros c. rewrite H6, Hc. cbn [answer]. destruct (answer h c); [done|]. by case_decide.
Qed.

Lemma lead_loop_spec n w :
  has_db (w_tx w) = true -> pending_writes (w_db w) <> [] -> measure (w_db w) < n ->
  let '(r, w') := lead_loop fuel n w in served w r w'.
Proof.
  revert w. induction n as [|n IH]; intros w Hdb Hq Hm; [lia|].
  destruct (collect_batch_spec w Hdb Hq) as (batch & used & d1 & Hcb & Hco & Hne & _).
  pose proof (execute_kept batch (mk_txworld _ (w_tx w) d1)) as [Htx Hkept].
  destruct (execute_batch_commit fuel batch (mk_txworld _ (w_tx w) d1)) as [r w2] eqn:He. cbn [snd w_tx w_db] in Htx, Hkept.
  rewrite (lead_loop_round n w batch _ r w2 Hcb He). injection Hkept as K1 K2 K3 K4.
  assert (returned r -> let '(r', w') := round_end n batch r w2 in served w r' w') as Hgo.
  { intros Hret. destruct (round_end_spec n batch r w2) as (d3 & Hb & -> & D1 & D2 & D3 & D4); [by rewrite Htx|].
    rewrite K1 in D1. rewrite K3 in D2. rewrite Htx in Hb |- *.
    assert (round_done batch used r w d3) as Hdone.
    { pose proof Hco as [Hq1 Hw1 Hrest]. split; [by eauto using rounds_cons|by rewrite D1|by rewrite D2|].
      intros c. rewrite D4, K2, Hrest. by destruct (w_db w). }
    rewrite K1. destruct (decide (pending_writes d1 = [])) as [Hnil|Hsome].
    { eapply served_last; [exact Hdone|]. by rewrite D1. }
    specialize (IH (mk_txworld _ (w_tx w) d3)). cbn [w_tx w_db] in IH. rewrite D1 in IH.
    destruct (lead_loop fuel n (mk_txworld _ (w_tx w) d3)) as [r' w']. eapply served_more; [exact Hdone|].
    apply IH; [done|done|]. pose proof (collected_measure _ _ _ _ Hco) as Hme.
    unfold measure in *. rewrite D1, D2. destruct batch; [done|]. simpl in Hme. lia. }
  destruct r as [u|e| |]; [by apply Hgo|by apply Hgo|..];
    exists [], w, batch, (mk_txworld _ (w_tx w) d1); rewrite He; (split_and!; [apply rounds_nil|done..]).
Qed.

(** The leader takes its own result. *)
Lemma take_result_spec cell w r :
  completions (w_db w) !! cell = Some (Some r) -> returned r -> state (w_tx w) = Active ->
  exists t, take_result cell w = (r, mk_txworld _ t (with_completions <[cell := None]> (w_db w))) /\ (state t = Committed <-> r = Ok tt).
Proof.
  intros Hcell Hret Hact. unfold take_result. erewrite (st_bind_ok (on_db (st_get _))) by done. rewrite Hcell.
  erewrite (st_bind_ok (on_db _)) by done. unfold st_bind, st_lift. cbn.
  destruct r as [[]|e| |]; [by eexists| |done..]. eexists. split; [done|]. by rewrite Hact.
Qed.

(** C8: the transaction that gets the commit lock with work in the queue serves everybody. Its
    commit ends when the queue is empty: the batches of its rounds hold, in this order, everyone
    who waited or arrived meanwhile, everyone's cell holds the result that the execution of its
    batch returned, and the leader itself returns that of its own batch and is [Committed]
    exactly when it is [Ok]. The commit only fails to end this way when the execution of the
    batch that the last of these rounds collected panics or does not return. *)
Theorem leader_serves_all w cell
    (Hdb : has_db (w_tx w) = true) (Hact : state (w_tx w) = Active)
    (Hopen : completions (w_db w) !! cell = Some None) (Hin : cell ∈ completion <$> pending_writes (w_db w)) :
  let '(r, w') := lead fuel cell w in
  match r with
  | Ok _ | Err _ => exists h w1 used,
      rounds w h w1 /\ pending_writes (w_db w1) = [] /\ w_db w' = with_completions <[cell := None]> (w_db w1) /\
      wakes (w_db w) = used ++ wakes (w_db w') /\ concat h.*1 = pending_writes (w_db w) ++ arrivals used /\
      answer h cell = Some r /\ (state (w_tx w') = Committed <-> r = Ok tt) /\
      Forall (fun p => exists res, answer h (completion p) = Some res /\ returned res /\
        (completion p = cell \/ completions (w_db w') !! completion p = Some (Some res)))
        (pending_writes (w_db w) ++ arrivals used) /\
      forall c, c ∉ completion <$> (pending_writes (w_db w) ++ arrivals used) -> completions (w_db w') !! c = completions (w_db w) !! c
  | _ => ends_in w r
  end.
Proof.
  unfold lead. erewrite (st_bind_ok (on_db (st_get _))) by done. rewrite Hopen. cbn [from_option id].
  erewrite (st_bind_ok (on_db (st_get _))) by done.
  pose proof (lead_loop_spec (collect_rounds (w_db w)) w) as Hl.
  assert (mk_txworld _ (w_tx w) (w_db w) = w) as Heta by by destruct w. unfold st_bind at 1. cbn [w_tx w_db]. rewrite !Heta.
  destruct (lead_loop _ _ _) as [r w1].
  specialize (Hl Hdb ltac:(intros E; rewrite E in Hin; by apply elem_of_nil in Hin) ltac:(unfold collect_rounds, measure; lia)).
  destruct r as [u|e| |]; try done. destruct Hl as (h & used & H1 & H2 & H3 & H4 & H5 & H6).
  assert (forall p, p ∈ pending_writes (w_db w) ++ arrivals used -> exists res, answer h (completion p) = Some res /\ returned res) as Hans.
  { intros p Hp. destruct (answer_some h (completion p)) as [res Hres].
    { rewrite H5. apply list_elem_of_fmap. by exists p. }
    exists res. split; [done|]. by eapply answer_returned. }
  assert (exists r, answer h cell = Some r /\ returned r) as (r & Hr & Hret).
  { apply list_elem_of_fmap in Hin as (p & -> & Hp). apply Hans, elem_of_app. by left. }
  assert (completions (w_db w1) !! cell = Some (Some r)) as Hcell by by rewrite H6, Hr.
  destruct (take_result_spec cell w1 r) as (t & Htake & Ht); [by rewrite H6, Hr|done|by rewrite H2|]. cbv beta iota. rewrite Htake.
  assert (forall c, completions (with_completions <[cell := None]> (w_db w1)) !! c =
    if decide (c = cell) then Some None else from_option (Some ∘ Some) (completions (w_db w) !! c) (answer h c)) as Hcells.
  { intros c. cbn. case_decide as Hc; [by rewrite Hc, lookup_insert_eq|]. by rewrite lookup_insert_ne, H6. }
  destruct r as [[]|e| |]; try done; exists h, w1, used; cbn [w_db w_tx]; split_and!; try done;
    (apply Forall_forall; intros p Hp; destruct (Hans p Hp) as (res & Hres & Hr'); exists res; split_and!; [done|done|];
      rewrite Hcells, Hres; case_decide; [by left|by right]) ||
    (intros c Hc; rewrite Hcells, decide_False by (intros ->; apply Hc; rewrite fmap_app, elem_of_app; by left);
      destruct (answer h c) eqn:E; [|done]; exfalso; apply Hc; rewrite <-H5; by eapply answer_in).
Qed.
End leader.

(** ** The life of a transaction *)
Section life.
Context {tables : UnicodeTables} {numbers : SerdeNumber} {text : SerdeText} {catalogue : SerdeCatalogue} {bytes : SerdeBytes}
  {messages : Messages} {debug : DebugText} {clock : Clock} {page_order : HashMapOrder N} {name_order : HashMapOrder string}.
Variable fuel : nat.
Implicit Types (w : txworld) (d : Database).

Definition tx_state w : TxState := state (w_tx w).

Notation stays := (same tx_state).

Lemma stays_on_db {A} (m : ST Database Error A) : within stays (on_db m).
Proof. intros w. unfold on_db. by destruct (m (w_db w)). Qed.

Lemma stays_get {A} (f : Transaction -> A) : within stays (get_tx f).
Proof. by intros w. Qed.

#[local] Hint Resolve stays_on_db stays_get : frame.

Lemma take_result_commits cell w w' : take_result cell w = (Ok tt, w') -> tx_state w' = Committed.
Proof.
  unfold take_result. intros (r & w1 & H1 & H)%st_bind_inv. destruct r as [[r|]|]; [|done|done].
  apply st_bind_inv in H as (u1 & w2 & _ & H). apply st_bind_inv in H as (u2 & w3 & _ & H). by injection H as <-.
Qed.

Lemma lead_commits cell w w' : lead fuel cell w = (Ok tt, w') -> tx_state w' = Committed.
Proof.
  unfold lead. intros (r & w1 & _ & H)%st_bind_inv. destruct r; [by eapply take_result_commits|].
  apply st_bind_inv in H as (n & w2 & _ & H). apply st_bind_inv in H as (u & w3 & _ & H). by eapply take_result_commits.
Qed.

Lemma stays_when_db m : within stays m -> within stays (when_db m).
Proof. intros H. unfold when_db. frame. Qed.

Lemma within_then_ok {A} (f : txworld -> TxState) (m : ST txworld Error unit) (k : ST txworld Error A) (x : TxState) w a w' :
  (forall w u w', m w = (Ok u, w') -> f w' = x) -> within (same f) k -> (let! _ := m in k) w = (Ok a, w') -> f w' = x.
Proof.
  intros Hm Hk (u & w1 & H1 & H2)%st_bind_inv. rewrite <-(Hm _ _ _ H1). pose proof (Hk w1) as Hw. by rewrite H2 in Hw.
Qed.

Lemma commit_single_commits w w' : commit_single fuel w = (Ok tt, w') -> tx_state w' = Committed.
Proof.
  unfold commit_single. intros (u1 & w1 & _ & H)%st_bind_inv.
  apply st_bind_inv in H as (t & w2 & _ & H). apply st_bind_inv in H as (u3 & w3 & _ & H).
  apply st_bind_inv in H as (u4 & w4 & _ & H). apply st_bind_inv in H as (u5 & w5 & _ & H).
  revert H. apply within_then_ok; [by intros ??? [= _ <-]|]. unfold emit_own. frame; apply stays_when_db; frame.
Qed.

(** C12: a transaction goes from active to one of two final states. A commit that returns [Ok]
    has committed it, a rollback has rolled it back and told so to the transaction manager,
    nothing else of the database being touched. A finished transaction rejects a further commit
    or rollback and every operation that writes: pages, documents, the catalogue; nothing
    changes. (Reading is not guarded by the state: [find_by_id], [find_all], [count] and
    [collection] are still accepted.) *)
Theorem transaction_life w :
  (forall w', commit fuel w = (Ok tt, w') -> tx_state w = Active /\ tx_state w' = Committed) /\
  (tx_state w = Active -> exists w', rollback w = (Ok tt, w') /\ tx_state w' = RolledBack /\ writes (w_tx w') = ∅ /\
    w_db w' = with_tx_manager (abort_transaction (mvcc_tx_id (w_tx w))) (w_db w)) /\
  (tx_state w <> Active ->
    commit fuel w = (Err TxAlreadyDone, w) /\ rollback w = (Err TxAlreadyDone, w) /\ drop_transaction w = (Ok tt, w) /\
    (forall page data, write_page page data w = (Err TxNotActive, w)) /\
    (forall coll doc page, write_document coll doc page w = (Err TxNotActive, w)) /\
    (forall nm, create_collection nm w = (Err TxNotActive, w) /\ drop_collection nm w = (Err TxNotActive, w)) /\
    (forall old new, rename_collection old new w = (Err TxNotActive, w)) /\
    forall c, let s := mk_collworld _ c w in
      (forall id m, TxCollection.insert fuel id (Object m) s = (Err TxNotActive, s)) /\
      (forall id m, update_by_id fuel id (Object m) s = (Err TxNotActive, s)) /\
      (forall id, delete_by_id fuel id s = (Err TxNotActive, s))).
Proof.
  destruct w as [t d]. unfold tx_state. cbn [w_tx w_db]. split_and!.
  - intros w' H. unfold commit in H. apply st_bind_inv in H as (t1 & w1 & [= <- <-] & H). cbn [id w_tx] in H.
    unfold is_active in H. case_bool_decide as Ha; [|done]. split; [done|]. cbn [negb] in H.
    case_decide.
    + revert H. apply (within_then_ok tx_state); [by intros ??? [= _ <-]|]. frame.
    + apply st_bind_inv in H as (b & w1 & _ & H). destruct b; [|by eapply commit_single_commits].
      unfold commit_batched in H. apply st_bind_inv in H as (c & w2 & _ & H). by eapply lead_commits.
  - intros Ha. unfold rollback, st_bind, get_tx, st_get. cbn [w_tx id]. unfold is_active.
    rewrite bool_decide_eq_true_2 by done. cbn. eexists. split; [done|]. cbn. by destruct d.
  - intros Hna. assert (is_active t = false) as Hf by by apply bool_decide_eq_false.
    unfold commit, rollback, drop_transaction, write_page, write_document, create_collection, drop_collection,
      rename_collection, TxCollection.insert, update_by_id, delete_by_id, guard_tx_active, the_tx, on_world, guard_active,
      st_bind, get_tx, st_get. cbn. rewrite Hf. cbn. done.
Qed.

(** C13: a batch of which some transaction does not validate is refused with that error, before
    anything happened: the catalogue, the log, the pages, the versions, the watchers, the
    queue and the transaction manager are as they were, and only the page cache was used. *)
Theorem failed_validation_changes_nothing leader batch d e d'
    (Hfail : st_each (fun p => let! _ := validate_pending_write fuel p in st_ret tt) batch d = (Err e, d')) :
  run_batch fuel leader batch d = (Err e, d') /\ reads_only d d'.
Proof.
  split; [unfold run_batch; by erewrite st_bind_err by exact Hfail|].
  assert (within reads_only (st_each (fun p => let! _ := validate_pending_write fuel p in st_ret tt) batch)) as Hw.
  { apply within_each; [apply _|]. intros p. apply within_bind; [apply _|apply within_validate|]. intros _. by apply within_ret, _. }
  specialize (Hw d). by rewrite Hfail in Hw.
Qed.
End life.
