(* ===== verification/CommitSpec.v ===== *)
(** * Conflicts and rebasing (transaction.rs)

    What the validation of a pending write decides about the documents that are committed,
    and what rebasing makes of the trees that other transactions changed meanwhile. *)

From stdpp Require Import base list strings gmap.
From Stdlib Require Import NArith Lia.
From S2P Require Import Prelude Constants Bytes Text PageStore Json IndexKey LruCache Pager Document BTreeNode BTree BTreeSpec.
From S2P Require Import TxBTree TxBTreeSpec TxBTreeInsert TxBTreeRuns Wal Mvcc Validation Metadata Watch DatabaseState TxCollection Transaction Frames.
From S2P Require Import TransactionSpec.

#[local] Open Scope nat_scope.

Section conflicts.
Context {tables : UnicodeTables} {numbers : SerdeNumber} {text : SerdeText} {catalogue : SerdeCatalogue} {bytes : SerdeBytes}
  {clock : Clock} {page_order : HashMapOrder N} {name_order : HashMapOrder string}.
Variable fuel : nat.
Implicit Types (d : Database) (pg : Pager.Pager) (docs : gmap string VersionedDocument) (pending : PendingWrite).

(** A version of a document that can be read at a page. *)
Definition stores_version pg (page : N) (v : VersionedDocument) : Prop := exists ps,
  versioned_doc (ps_view pg) page (vd_id v) (vd_data v) (vd_xmin v) (vd_xmax v) ps /\
  (forall q, q ∈ page :: ps -> ps_used pg q) /\ NoDup ps.

(** The documents of the collection whose tree has its root at [root]. *)
Definition holds_documents pg (root : N) docs : Prop := exists B t,
  snapshot B pg t /\ tpage t = root /\ height t <= fuel /\
  (forall id page, tree_map t !! id = Some page -> exists v, docs !! id = Some v /\ stores_version pg page v) /\
  (forall id, tree_map t !! id = None -> docs !! id = None).

Lemma stores_version_kept pg pg' page v : Document.same pg pg' -> stores_version pg page v -> stores_version pg' page v.
Proof.
  intros [_ Hv Hu _] (ps & Hd & Hp & Hn). exists ps. split_and!; [|intros q Hq; by apply Hu, Hp|done].
  eapply versioned_doc_mono; [exact Hd|]. intros q _. apply Hv.
Qed.

Lemma same_calm pg pg' root : Document.same pg pg' -> calm (fresh pg root) (fresh pg' root).
Proof. intros [Hi Hv Hu Hr]. by split. Qed.

Lemma calm_same (s s' : txstate Pager.Pager) : calm s s' -> Document.same (TxBTree.pager s) (TxBTree.pager s').
Proof. intros [_ _ Hi Hv Hu Hr]. by split. Qed.

Lemma snapshot_same B pg pg' t : Document.same pg pg' -> snapshot B pg t -> snapshot B pg' t.
Proof. intros Hs Ht. eapply tree_ok_calm; [by apply same_calm|done]. Qed.

Lemma holds_documents_kept pg pg' root docs : Document.same pg pg' -> holds_documents pg root docs -> holds_documents pg' root docs.
Proof.
  intros Hs (B & t & H1 & H2 & H3 & H4 & H5). exists B, t. split_and!; [by eapply snapshot_same|done|done| |done].
  intros id page Hp. destruct (H4 id page Hp) as (v & ? & ?). exists v. split; [done|by eapply stores_version_kept].
Qed.

Lemma snapshot_inv B pg t : snapshot B pg t -> ps_inv pg.
Proof. intros Ht. apply Ht. Qed.

Lemma read_stored pg page v : ps_inv pg -> stores_version pg page v ->
  exists pg', read_versioned_document page ∅ pg = (Ok v, pg') /\ Document.same pg pg'.
Proof.
  intros Hi (ps & Hd & Hu & Hn). destruct v as [id data x y].
  eapply (read_versioned_ok pg ∅) in Hn as (pg' & Hr & Hs); [by exists pg'|done| |exact Hu].
  eapply versioned_doc_mono; [exact Hd|]. intros q _. done.
Qed.

Lemma committed_document_spec d root docs doc :
  holds_documents (pager d) root docs ->
  exists d', committed_document fuel root doc d = (Ok (Some <$> docs !! doc), d') /\ reads_only d d' /\
    Document.same (pager d) (pager d').
Proof.
  intros Hd. pose proof (within_committed fuel root doc d) as Hro.
  assert (exists d', committed_document fuel root doc d = (Ok (Some <$> docs !! doc), d') /\
    Document.same (pager d) (pager d')) as (d' & Hc & Hs); [|rewrite Hc in Hro; by exists d'].
  clear Hro. destruct Hd as (B & t & Hsnap & <- & Hh & Hin & Hout).
  destruct (tx_search_lemma True (fun _ => False) (fresh (pager d) (tpage t)) t fuel doc Hsnap Hh) as (s1 & Hs & _ & Hc).
  unfold committed_document, st_bind at 1, st_ok, run_tree.
  change (mk_txstate (pager d) ∅ (tx_new (tpage t))) with (fresh (pager d) (tpage t)).
  rewrite Hs. apply calm_same in Hc. simpl in Hc. destruct (tree_map t !! doc) as [page|] eqn:Hp; cbn [of_option obind].
  - destruct (Hin doc page Hp) as (v & -> & Hv). set (d1 := with_pager _ d).
    assert (stores_version (pager d1) page v) as Hv1 by by eapply stores_version_kept.
    destruct (read_stored (pager d1) page v) as (pg' & Hr & Hs'); [apply Hc|done|].
    unfold on_pager, st_bind. rewrite Hr. eexists. split; [done|]. by eapply same_trans.
  - rewrite (Hout doc Hp). by eexists.
Qed.

(** *** What conflicts *)

(** The version that a transaction with [snapshot] based its write on, of transaction [orig],
    is not the committed one any more, as far as the ids tell. *)
Definition stale (snapshot orig : N) (v : option VersionedDocument) : bool :=
  match v with Some v => negb (vd_xmin v =? orig)%N && (snapshot <? vd_xmin v)%N | None => true end.

Definition newer (snapshot : N) (v : option VersionedDocument) : bool :=
  match v with Some v => (snapshot <? vd_xmin v)%N | None => false end.

(** A written document conflicts: one that was recorded as existing, when its version was
    recorded too and is stale; any other, when the tree was changed and now has a newer
    document. [delete_by_id] records neither, so what it deletes is judged like a new document:
    when it is gone, it does not conflict. *)
Definition conflicting (moved : bool) pending docs (nm doc : string) : bool :=
  if existed_in (p_existed pending) nm doc then
    match lookup2 nm doc (p_xmin pending) with
    | Some orig => stale (p_snapshot_id pending) orig (docs !! doc)
    | None => false
    end
  else moved && newer (p_snapshot_id pending) (docs !! doc).

Definition collection_conflict (moved : bool) pending docs (nm : string) : bool :=
  existsb (conflicting moved pending docs nm) (map_iter (default ∅ (p_doc_writes pending !! nm))).*1.

Lemma changed_since_spec d root docs snapshot orig doc :
  holds_documents (pager d) root docs ->
  exists d', changed_since fuel root snapshot orig doc d = (Ok (stale snapshot orig (docs !! doc)), d') /\ reads_only d d' /\
    Document.same (pager d) (pager d').
Proof.
  intros Hh. destruct (committed_document_spec d root docs doc Hh) as (d' & Hc & Hr & Hs).
  exists d'. split; [|done]. unfold changed_since, st_bind, st_ret. rewrite Hc. by destruct (docs !! doc).
Qed.

Lemma exists_spec {A} (f : A -> ST Database Error bool) (g : A -> bool) (inv : Database -> Prop) l d :
  (forall x d, inv d -> exists d', f x d = (Ok (g x), d') /\ reads_only d d' /\ inv d') -> inv d ->
  exists d', st_exists f l d = (Ok (existsb g l), d') /\ reads_only d d' /\ inv d'.
Proof.
  intros Hf. revert d. induction l as [|x l IH]; intros d Hd; simpl.
  { exists d. split_and!; [done|reflexivity|done]. }
  destruct (Hf x d Hd) as (d1 & H1 & Hr1 & Hi1). unfold st_bind. rewrite H1. destruct (g x); [by exists d1|].
  destruct (IH d1 Hi1) as (d2 & H2 & Hr2 & Hi2). exists d2. split_and!; [done|by etrans|done].
Qed.

Lemma each_spec {A} (f : A -> ST Database Error unit) (g : A -> bool) (e : Error) (inv : Database -> Prop) l d :
  (forall x d, inv d -> exists d', f x d = (if g x then Err e else Ok tt, d') /\ reads_only d d' /\ inv d') -> inv d ->
  exists d', st_each f l d = (if existsb g l then Err e else Ok tt, d') /\ reads_only d d' /\ inv d'.
Proof.
  intros Hf. revert d. induction l as [|x l IH]; intros d Hd; simpl.
  { exists d. split_and!; [done|reflexivity|done]. }
  destruct (Hf x d Hd) as (d1 & H1 & Hr1 & Hi1). unfold st_bind. rewrite H1. destruct (g x); [by exists d1|].
  destruct (IH d1 Hi1) as (d2 & H2 & Hr2 & Hi2). exists d2. split_and!; [done|by etrans|done].
Qed.

Lemma existsb_fst {A B} (g : A -> bool) (l : list (A * B)) : existsb g l.*1 = existsb (fun x => g x.1) l.
Proof. induction l as [|x l IH]; [done|]. rewrite fmap_cons. cbn [existsb]. by rewrite IH. Qed.

Lemma existsb_ext {A} (f g : A -> bool) l : (forall x, f x = g x) -> existsb f l = existsb g l.
Proof. intros H. induction l as [|x l IH]; simpl; [done|]. by rewrite H, IH. Qed.

Lemma detect_documents_spec d root pending docs nm :
  holds_documents (pager d) root docs ->
  exists d', detect_document_level_conflicts fuel nm root (p_snapshot_id pending) (p_doc_writes pending) (p_existed pending)
      (p_xmin pending) d = (Ok (collection_conflict true pending docs nm), d') /\ reads_only d d' /\ Document.same (pager d) (pager d').
Proof.
  intros Hh. assert (Document.same (pager d) (pager d)) as Hrefl by (destruct Hh as (B & t & Ht & _); apply same_refl; by eapply snapshot_inv).
  unfold detect_document_level_conflicts, collection_conflict. rewrite existsb_fst.
  destruct (p_doc_writes pending !! nm) as [ws|]; cbn [default from_option id].
  2: { exists d. rewrite map_iter_empty. split_and!; [done|reflexivity|done]. }
  case_decide as Hne; [subst ws; exists d; rewrite map_iter_empty; split_and!; [done|reflexivity|done]|].
  destruct (exists_spec (fun '(doc_id, _) =>
      if negb (existed_in (p_existed pending) nm doc_id) then
        let! committed := committed_document fuel root doc_id in
        st_ret match committed with None => false | Some (Some vdoc) => (p_snapshot_id pending <? vd_xmin vdoc)%N | Some None => true end
      else match lookup2 nm doc_id (p_xmin pending) with
           | None => st_ret false
           | Some orig_xmin => changed_since fuel root (p_snapshot_id pending) orig_xmin doc_id
           end) (fun x : string * N => conflicting true pending docs nm x.1)
      (fun d' => Document.same (pager d) (pager d')) (map_iter ws) d) as (d' & H1 & H2 & H3); [|done|by exists d'].
  intros [doc page] d1 Hd1. assert (holds_documents (pager d1) root docs) as Hh1 by by eapply holds_documents_kept.
  unfold conflicting. simpl. destruct (existed_in _ nm doc); cbn [negb].
  - destruct (lookup2 nm doc (p_xmin pending)) as [orig|]; [|by exists d1; split_and!; [|reflexivity|]].
    destruct (changed_since_spec d1 root docs (p_snapshot_id pending) orig doc Hh1) as (d2 & -> & ? & ?).
    exists d2. split_and!; [done|done|by eapply same_trans].
  - destruct (committed_document_spec d1 root docs doc Hh1) as (d2 & Hc & ? & ?).
    exists d2. split_and!; [|done|by eapply same_trans]. unfold st_bind, st_ret. rewrite Hc. by destruct (docs !! doc).
Qed.

Lemma detect_writes_spec d root pending docs nm :
  holds_documents (pager d) root docs ->
  exists d', detect_write_conflicts_with_context fuel nm root (p_snapshot_id pending) (p_doc_writes pending) (p_existed pending)
      (p_xmin pending) d = (if collection_conflict false pending docs nm then Err TxConflict else Ok tt, d') /\ reads_only d d' /\
    Document.same (pager d) (pager d').
Proof.
  intros Hh. assert (Document.same (pager d) (pager d)) as Hrefl by (destruct Hh as (B & t & Ht & _); apply same_refl; by eapply snapshot_inv).
  unfold detect_write_conflicts_with_context, collection_conflict. rewrite existsb_fst.
  destruct (p_doc_writes pending !! nm) as [ws|]; cbn [default from_option id].
  2: { exists d. rewrite map_iter_empty. split_and!; [done|reflexivity|done]. }
  case_decide as Hne; [subst ws; exists d; rewrite map_iter_empty; split_and!; [done|reflexivity|done]|].
  match goal with |- context [existsb ?f (map_iter ws)] => destruct (existsb f (map_iter ws)) eqn:Hneeds end; cbn [negb].
  - apply (each_spec _ (fun x : string * N => conflicting false pending docs nm x.1) TxConflict
      (fun d' => Document.same (pager d) (pager d')) (map_iter ws) d); [|done].
    intros [doc page] d1 Hd1. assert (holds_documents (pager d1) root docs) as Hh1 by by eapply holds_documents_kept.
    unfold conflicting. simpl. destruct (existed_in _ nm doc); cbn [negb]; [|by exists d1; split_and!; [|reflexivity|]].
    destruct (lookup2 nm doc (p_xmin pending)) as [orig|]; [|by exists d1; split_and!; [|reflexivity|]].
    destruct (changed_since_spec d1 root docs (p_snapshot_id pending) orig doc Hh1) as (d2 & Hc & ? & ?).
    exists d2. split_and!; [|done|by eapply same_trans]. unfold st_bind. rewrite Hc. by destruct (stale _ _ _).
  - exists d. split_and!; [|reflexivity|done]. unfold st_ret. f_equal.
    match goal with |- _ = if ?b then _ else _ => assert (b = false) as ->; [|done] end.
    apply not_true_iff_false. rewrite existsb_exists. intros ([doc page] & Hin & Hc). apply not_true_iff_false in Hneeds.
    apply Hneeds, existsb_exists. exists (doc, page). split; [done|]. unfold conflicting in Hc. simpl in Hc.
    destruct (existed_in _ nm doc); [|done]. by destruct (lookup2 nm doc (p_xmin pending)).
Qed.

(** A written document of a changed collection conflicts. *)
Definition pending_conflict (m : Metadata) pending (docs : string -> gmap string VersionedDocument) (nm : string) : bool :=
  collection_conflict (negb (root_of nm m =? default 0%N (p_snapshot_roots pending !! nm))%N) pending (docs nm) nm.

Lemma validate_collection_spec d pending (docs : string -> gmap string VersionedDocument) nm b :
  holds_documents (pager d) (root_of nm (metadata d)) (docs nm) ->
  exists d' b', validate_collection fuel pending nm b d =
      (if pending_conflict (metadata d) pending docs nm then Err TxConflict else Ok b', d') /\ reads_only d d' /\
    Document.same (pager d) (pager d').
Proof.
  intros Hh. unfold validate_collection, pending_conflict. erewrite st_bind_ok by (unfold get_metadata, st_get; by rewrite metadata_clone_id).
  destruct (root_of nm (metadata d) =? _)%N; cbn [negb].
  - destruct (detect_writes_spec d _ pending _ nm Hh) as (d' & Hd & ? & ?). exists d', b. split; [|done].
    unfold st_bind. rewrite Hd. by destruct (collection_conflict _ _ _ _).
  - destruct (detect_documents_spec d _ pending _ nm Hh) as (d' & Hd & ? & ?). exists d', true. split; [|done].
    unfold st_bind. rewrite Hd. by destruct (collection_conflict _ _ _ _).
Qed.

(** C10: what validation decides, for a transaction whose collections can be read: it fails, with
    [TxConflict], exactly when a document that the transaction wrote conflicts with what is
    committed, by what the transaction recorded of it. A document that it recorded as existing,
    with the version that it read, conflicts when it is gone or has a version of another
    transaction with an id above the snapshot. One that it did not record as existing conflicts
    when, in a tree that was changed meanwhile, it has a version with an id above the snapshot.
    Updates record both; insertions and deletions record neither, so the deletion of a document
    that is gone passes the validation. Nothing but the page cache changes. *)
Theorem validation_decides_conflicts d pending (docs : string -> gmap string VersionedDocument)
    (Hdocs : forall nm, nm ∈ p_modified pending -> holds_documents (pager d) (root_of nm (metadata d)) (docs nm)) :
  exists r d', validate_pending_write fuel pending d = (r, d') /\ reads_only d d' /\
    if existsb (pending_conflict (metadata d) pending docs) (set_iter (p_modified pending))
    then r = Err TxConflict else exists b, r = Ok b.
Proof.
  unfold validate_pending_write. assert (forall nm, nm ∈ set_iter (p_modified pending) ->
    holds_documents (pager d) (root_of nm (metadata d)) (docs nm)) as Hin.
  { intros nm Hnm. apply Hdocs. rewrite set_iter_perm in Hnm. by apply elem_of_elements. }
  clear Hdocs. generalize false. revert d Hin. induction (set_iter (p_modified pending)) as [|nm l IH]; intros d Hin b; simpl.
  { exists (Ok b), d. split_and!; [done|reflexivity|by exists b]. }
  destruct (validate_collection_spec d pending docs nm b (Hin nm ltac:(by left))) as (d1 & b1 & H1 & Hr1 & Hs1).
  unfold st_bind. rewrite H1. destruct (pending_conflict (metadata d) pending docs nm); [by exists (Err TxConflict), d1|].
  assert (metadata d1 = metadata d) as Hm by by destruct Hr1 as [c ->].
  destruct (IH d1) with (b := b1) as (r & d2 & H2 & Hr2 & Hd2).
  { intros nm' Hnm'. rewrite Hm. eapply holds_documents_kept; [done|]. apply Hin. by right. }
  exists r, d2. rewrite Hm in Hd2. split_and!; [done|by etrans|done].
Qed.
End conflicts.

(** ** Rebasing *)
Section rebasing.
Context {tables : UnicodeTables} {numbers : SerdeNumber} {text : SerdeText} {catalogue : SerdeCatalogue} {bytes : SerdeBytes}
  {clock : Clock} {page_order : HashMapOrder N} {name_order : HashMapOrder string}.
Variable fuel : nat.
Implicit Types (d : Database) (pg : Pager.Pager) (docs m : gmap string N) (pending : PendingWrite) (l : list (string * N)).

(** The operations of the two loops. *)
Definition insert_ops l : list tx_op := omap (fun kp => if (kp.2 =? PAGE_MAX)%N then None else Some (XInsert kp.1 kp.2)) l.
Definition delete_ops l : list tx_op := omap (fun kp => if (kp.2 =? PAGE_MAX)%N then Some (XDelete kp.1) else None) l.

(** The map with the written documents, without the deleted ones. *)
Definition rebased docs m (k : string) : option N :=
  match docs !! k with Some p => if (p =? PAGE_MAX)%N then None else Some p | None => m !! k end.

Definition each_op (os : list tx_op) : ST (txstate Pager.Pager) Error unit :=
  st_each (fun o => let! _ := run_tx_op fuel o in st_ret tt) os.

Lemma each_op_app os1 os2 s : each_op (os1 ++ os2) s = (let! _ := each_op os1 in each_op os2) s.
Proof.
  revert s. induction os1 as [|o os1 IH]; intros s; [done|]. unfold each_op in *. cbn [app st_each].
  unfold st_bind, st_ret. destruct (run_tx_op fuel o s) as [[v|e| |] s1]; [|done..]. apply IH.
Qed.

Lemma insert_documents_ops docs s : insert_documents fuel docs s = each_op (insert_ops (map_iter docs)) s.
Proof.
  unfold insert_documents, each_op. revert s. induction (map_iter docs) as [|[k p] l IH]; intros s; [done|].
  cbn [insert_ops st_each omap list_omap fst snd]. destruct (p =? PAGE_MAX)%N; [apply IH|].
  cbn [st_each run_tx_op]. unfold st_bind, st_ret. destruct (TxBTree.insert fuel k p s) as [[v|e| |] s1]; [|done..]. apply IH.
Qed.

Lemma delete_documents_ops docs s : delete_documents fuel docs s = each_op (delete_ops (map_iter docs)) s.
Proof.
  unfold delete_documents, each_op. revert s. induction (map_iter docs) as [|[k p] l IH]; intros s; [done|].
  cbn [delete_ops st_each omap list_omap fst snd]. destruct (p =? PAGE_MAX)%N; [|apply IH].
  cbn [st_each run_tx_op]. unfold st_bind, st_ret. destruct (TxBTree.delete fuel k s) as [[v|e| |] s1]; [|done..]. apply IH.
Qed.

(** Operations that all succeed on the map succeed one after the other on the tree. *)
Lemma each_op_runs os s rs s' :
  run_tx_ops fuel os s = (rs, s') -> Forall (fun r => is_ok r = true) rs -> each_op os s = (Ok tt, s').
Proof.
  unfold each_op. revert s rs. induction os as [|o os IH]; intros s rs; simpl; [by intros [= <- <-]|].
  destruct (run_tx_op fuel o s) as [r s1] eqn:Ho. destruct (run_tx_ops fuel os s1) as [rs1 s2] eqn:Hos.
  intros [= <- <-] [Hr Hrs]%Forall_cons. destruct r as [v|e| |]; try done. unfold st_bind, st_ret. rewrite Ho.
  by eapply IH.
Qed.

Lemma tx_map_ops_app os1 os2 m :
  tx_map_ops (os1 ++ os2) m =
    let '(rs1, m1) := tx_map_ops os1 m in let '(rs2, m2) := tx_map_ops os2 m1 in (rs1 ++ rs2, m2).
Proof.
  revert m. induction os1 as [|o os1 IH]; intros m; simpl; [by destruct (tx_map_ops os2 m)|].
  destruct (tx_map_op o m) as [r m1]. rewrite IH. destruct (tx_map_ops os1 m1) as [rs1 m2].
  by destruct (tx_map_ops os2 m2).
Qed.

Lemma insert_ops_map l m :
  NoDup l.*1 ->
  Forall (fun r => is_ok r = true) (tx_map_ops (insert_ops l) m).1 /\
  forall k, (tx_map_ops (insert_ops l) m).2 !! k =
    match (list_to_map l : gmap string N) !! k with
    | Some p => if (p =? PAGE_MAX)%N then m !! k else Some p
    | None => m !! k
    end.
Proof.
  revert m. induction l as [|[k p] l IH]; intros m Hnd; [by split|]. rewrite fmap_cons in Hnd. apply NoDup_cons in Hnd as [Hk Hnd].
  assert ((list_to_map l : gmap string N) !! k = None) as Hnone by by apply not_elem_of_list_to_map.
  cbn [insert_ops omap list_omap fst snd]. destruct (p =? PAGE_MAX)%N eqn:Hp.
  - destruct (IH m Hnd) as [H1 H2]. split; [exact H1|]. intros k'. rewrite list_to_map_cons. etrans; [apply H2|].
    destruct (decide (k' = k)) as [->|Hne]; [by rewrite Hnone, lookup_insert_eq, Hp|by rewrite lookup_insert_ne].
  - destruct (IH (<[k := p]> m) Hnd) as [H1 H2]. cbn [tx_map_ops tx_map_op].
    unfold insert_ops in *. destruct (tx_map_ops (omap _ l) (<[k:=p]> m)) as [rs m'] eqn:E. cbn [fst snd] in *.
    split; [by constructor|]. intros k'. rewrite list_to_map_cons, H2.
    destruct (decide (k' = k)) as [->|Hne]; [by rewrite Hnone, !lookup_insert_eq, Hp|by rewrite !lookup_insert_ne].
Qed.

Lemma delete_ops_map l m :
  NoDup l.*1 -> (forall k, (k, PAGE_MAX) ∈ l -> is_Some (m !! k)) ->
  Forall (fun r => is_ok r = true) (tx_map_ops (delete_ops l) m).1 /\
  forall k, (tx_map_ops (delete_ops l) m).2 !! k =
    match (list_to_map l : gmap string N) !! k with
    | Some p => if (p =? PAGE_MAX)%N then None else m !! k
    | None => m !! k
    end.
Proof.
  revert m. induction l as [|[k p] l IH]; intros m Hnd Hin; [by split|]. rewrite fmap_cons in Hnd. apply NoDup_cons in Hnd as [Hk Hnd].
  assert ((list_to_map l : gmap string N) !! k = None) as Hnone by by apply not_elem_of_list_to_map.
  cbn [delete_ops omap list_omap fst snd]. destruct (N.eqb_spec p PAGE_MAX) as [->|Hp].
  - destruct (Hin k ltac:(by left)) as [v Hv]. destruct (IH (base.delete k m) Hnd) as [H1 H2].
    { intros k' Hk'. rewrite lookup_delete_ne; [apply Hin; by right|]. intros ->. apply Hk, list_elem_of_fmap. by exists (k', PAGE_MAX). }
    cbn [tx_map_ops tx_map_op]. rewrite Hv. unfold delete_ops in *.
    destruct (tx_map_ops (omap _ l) (base.delete k m)) as [rs m'] eqn:E. cbn [fst snd] in *.
    split; [by constructor|]. intros k'. rewrite list_to_map_cons, H2.
    destruct (decide (k' = k)) as [->|Hne]; [by rewrite Hnone, lookup_insert_eq, lookup_delete_eq, N.eqb_refl|].
    by rewrite lookup_insert_ne, lookup_delete_ne.
  - destruct (IH m Hnd) as [H1 H2]; [intros k' Hk'; apply Hin; by right|]. split; [exact H1|].
    intros k'. rewrite list_to_map_cons. etrans; [apply H2|].
    destruct (decide (k' = k)) as [->|Hne]; [|by rewrite lookup_insert_ne].
    rewrite Hnone, lookup_insert_eq. by apply N.eqb_neq in Hp as ->.
Qed.

Lemma rebase_ops_map docs m :
  (forall k, docs !! k = Some PAGE_MAX -> is_Some (m !! k)) ->
  let r := tx_map_ops (insert_ops (map_iter docs) ++ delete_ops (map_iter docs)) m in
  Forall (fun r => is_ok r = true) r.1 /\ forall k, r.2 !! k = rebased docs m k.
Proof.
  intros Hdel. cbv zeta. pose proof (map_iter_nodup docs) as Hnd. rewrite tx_map_ops_app.
  assert (list_to_map (map_iter docs) = docs) as Hl.
  { etrans; [|apply (list_to_map_to_list docs)]. apply list_to_map_proper; [done|apply map_iter_perm]. }
  destruct (insert_ops_map (map_iter docs) m Hnd) as [H1 H2]. destruct (tx_map_ops (insert_ops _) m) as [rs1 m1].
  cbn [fst snd] in H1, H2. rewrite Hl in H2. destruct (delete_ops_map (map_iter docs) m1 Hnd) as [H3 H4].
  { intros k Hk%map_iter_elem. rewrite H2, Hk, N.eqb_refl. by apply Hdel. }
  destruct (tx_map_ops (delete_ops _) m1) as [rs2 m2]. cbn [fst snd] in *. rewrite Hl in H4.
  split; [by apply Forall_app|]. intros k. rewrite H4, H2. unfold rebased. by destruct (docs !! k) as [p|]; [destruct (p =? PAGE_MAX)%N|].
Qed.

Lemma rebase_ops_length l : length (insert_ops l ++ delete_ops l) = length l.
Proof.
  rewrite length_app. induction l as [|[k p] l IH]; [done|]. unfold insert_ops, delete_ops in *.
  cbn [omap list_omap fst snd]. destruct (p =? PAGE_MAX)%N; cbn [length]; unfold omap in *; lia.
Qed.

Lemma rebase_ops_ok docs :
  (forall k p, docs !! k = Some p -> key_short k /\ (p < 2 ^ 64)%N) ->
  Forall tx_op_ok (insert_ops (map_iter docs) ++ delete_ops (map_iter docs)).
Proof.
  intros Hok. apply Forall_forall. intros o [Ho|Ho]%elem_of_app; apply list_elem_of_omap in Ho as ([k p] & Hin & Ho);
    cbn [fst snd] in Ho; apply map_iter_elem in Hin; destruct (p =? PAGE_MAX)%N; simplify_eq; [|done]. by apply Hok.
Qed.

(** C11: rebasing. From the root that others have reached meanwhile, the loops over the written
    documents give a tree whose documents are the committed ones, with the new versions of the
    transaction in their place and without the ones it deleted; the old tree stays as it was
    for its readers. So it is when no internal node of the committed tree was full, the
    deleted documents are there and the pages of the transaction are in the pager too. *)
Theorem rebase_replays_writes d pending nm B t
    (Hsnap : snapshot B (pager d) t) (Hfull : no_full t)
    (Hbuf : forall q b, p_writes pending !! q = Some b -> ps_view (pager d) q = Some b)
    (Hdocs : forall k p, default ∅ (p_doc_writes pending !! nm) !! k = Some p -> key_short k /\ (p < 2 ^ 64)%N)
    (Hdel : forall k, default ∅ (p_doc_writes pending !! nm) !! k = Some PAGE_MAX -> is_Some (tree_map t !! k))
    (Hfuel : height t + size (default ∅ (p_doc_writes pending !! nm)) <= fuel)
    (Hchain : B + size (default ∅ (p_doc_writes pending !! nm)) <= fuel)
    (Hroom : ps_room (pager d) (tx_room (size (default ∅ (p_doc_writes pending !! nm))) (height t))) :
  exists pending' d' B' t', rebase_single_collection fuel nm (tpage t) pending d = (Ok pending', d') /\
    p_updated_roots pending' !! nm = Some (tpage t') /\ snapshot B' (pager d') t' /\
    (forall k, tree_map t' !! k = rebased (default ∅ (p_doc_writes pending !! nm)) (tree_map t) k) /\
    snapshot B (pager d') t.
Proof.
  set (docs := default ∅ (p_doc_writes pending !! nm)) in *. set (os := insert_ops (map_iter docs) ++ delete_ops (map_iter docs)).
  assert (length os = size docs) as Hlen.
  { unfold os. rewrite rebase_ops_length, map_iter_perm. by rewrite length_map_to_list. }
  pose proof (snapshot_buffered B (pager d) t (p_writes pending) Hbuf Hsnap) as Hok.
  apply (tree_ok_no_full False) in Hok; [|done].
  destruct (rebase_ops_map docs (tree_map t) Hdel) as [Hrs Hmap]. fold os in Hrs, Hmap.
  destruct (run_tx_ops_spec False (fun _ => False) os B (mk_txstate (pager d) (p_writes pending) (tx_new (tpage t))) t fuel 0)
    as (B1 & s1 & t1 & Hrun & Hok1 & _ & Hm1 & _ & Hl & _); rewrite ?Hlen, ?Nat.add_0_r; try done; [by apply rebase_ops_ok|].
  pose proof (each_op_runs _ _ _ _ Hrun Hrs) as Heach. destruct (commit_snapshot _ _ _ _ Hok1) as (Hsnap1 & Hroot & Htm).
  assert (run_tree (p_writes pending) (tx_new (tpage t)) (let! _ := insert_documents fuel docs in delete_documents fuel docs) d =
    (Ok (tt, TxBTree.tx_writes s1, tree_ s1), with_pager (fun _ => TxBTree.pager s1) d)) as Hrt.
  { unfold run_tree. assert ((let! _ := insert_documents fuel docs in delete_documents fuel docs)
      (mk_txstate (pager d) (p_writes pending) (tx_new (tpage t))) = (Ok tt, s1)) as ->; [|done].
    rewrite <-Heach. unfold os. rewrite each_op_app. unfold st_bind. rewrite insert_documents_ops.
    destruct (each_op (insert_ops _) _) as [[u|e| |] s2]; [apply delete_documents_ops|done..]. }
  eexists _, _, B1, (map_pages (phys s1) t1). split_and!.
  - unfold rebase_single_collection. fold docs. by erewrite st_bind_ok by exact Hrt.
  - cbn. by rewrite lookup_insert_eq, Hroot.
  - exact Hsnap1.
  - intros k. by rewrite Htm, Hm1.
  - cbn. eapply snapshot_mono; [exact Hsnap|apply Hok1|]. intros q Hq. split; [by apply (la_used _ _ Hl)|].
    apply (la_frozen _ _ Hl q Hq). intros [b Hb]. cbn in Hb. by rewrite lookup_empty in Hb.
Qed.
End rebasing.
