(* ===== verification/CollectionSpec.v ===== *)
(** * Reading a collection (collection.rs)

    What the reading operations leave alone, what they return when the tree of the collection
    and the versions of its documents are on the pager, and that they keep the law of the
    interface of queries and pipelines. *)

From stdpp Require Import base list strings gmap sorting.
From Stdlib Require Import NArith Lia.
From S2P Require Import Prelude Constants Bytes Text PageStore Json QueryParser IndexKey QueryBuilder LruCache Pager Document BTreeNode BTree BTreeSpec.
From S2P Require Import Wal Mvcc Validation TxBTree TxBTreeSpec TxBTreeRuns Metadata Watch DatabaseState Transaction TxCollection Database Errors Collection.
From S2P Require Import Frames TransactionSpec CommitSpec.

#[local] Open Scope nat_scope.

(** ** Frames *)
Section frames.
Context {tables : UnicodeTables} {numbers : SerdeNumber} {text : SerdeText} {catalogue : SerdeCatalogue} {bytes : SerdeBytes}
  {messages : Messages} {debug_str : DebugStr} {clock : Clock} {page_order : HashMapOrder N} {name_order : HashMapOrder string}.
Variable fuel : nat.
Variable name : string.
Implicit Types (d : Database) (w : txworld) (s : treeworld).

(** The page cache and the book-keeping of transactions may change, nothing else. *)
Definition looked d d' : Prop := exists c n m,
  d' = with_pager (with_pcache c) (with_tx_id_counter (fun _ => n) (with_tx_manager (fun _ => m) d)).

#[export] Instance looked_preorder : PreOrder looked.
Proof.
  split.
  - intros d. exists (pcache (pager d)), (tx_id_counter d), (tx_manager d). by destruct d as [[]].
  - intros d1 d2 d3 (c1 & n1 & m1 & ->) (c2 & n2 & m2 & ->). by exists c2, n2, m2.
Qed.

Definition looked_tx w w' : Prop := looked (w_db w) (w_db w').
Definition looked_tree s s' : Prop := looked_tx (t_world s) (t_world s').

#[export] Instance looked_tx_preorder : PreOrder looked_tx.
Proof. split; unfold looked_tx; [by intros ?|]. intros a b c. by etrans. Qed.

#[export] Instance looked_tree_preorder : PreOrder looked_tree.
Proof. split; unfold looked_tree; [by intros ?|]. intros a b c. by etrans. Qed.

Lemma reads_looked d d' : reads_only d d' -> looked d d'.
Proof. intros [c ->]. exists c, (tx_id_counter d), (tx_manager d). by destruct d. Qed.

Lemma looked_on_pager {A} (m : ST Pager.Pager Error A) : within cache_step m -> within looked (on_pager m).
Proof. intros Hm d. apply reads_looked, within_on_pager_reads, Hm. Qed.

Lemma looked_on_manager {A} (f : TransactionManager -> A * TransactionManager) : within looked (on_manager f).
Proof. intros d. unfold on_manager. destruct (f (tx_manager d)) as [a m]. exists (pcache (pager d)), (tx_id_counter d), m. by destruct d as [[]]. Qed.

Lemma looked_counter f : within looked (st_modify (E := Error) (with_tx_id_counter f)).
Proof. intros d. exists (pcache (pager d)), (f (tx_id_counter d)), (tx_manager d). by destruct d as [[]]. Qed.

#[local] Hint Resolve looked_on_pager looked_on_manager looked_counter : frame.

Lemma looked_on_db {A} (m : ST Database Error A) : within looked m -> within looked_tx (on_db m).
Proof. intros Hm w. specialize (Hm (w_db w)). unfold on_db. by destruct (m (w_db w)). Qed.

Lemma looked_on_tx f : within looked_tx (on_tx f).
Proof. intros w. unfold looked_tx. done. Qed.

Lemma looked_get_tx {A} (f : Transaction -> A) : within looked_tx (get_tx f).
Proof. by intros w. Qed.

#[local] Hint Resolve looked_on_db looked_on_tx looked_get_tx : frame.

Lemma looked_in_tx {A} (m : ST txworld Error A) : within looked_tx m -> within looked_tree (in_tx m).
Proof. intros Hm s. specialize (Hm (t_world s)). unfold in_tx. by destruct (m (t_world s)). Qed.

(** A read of the tree. *)
Definition tree_look (b b' : bstate Pager.Pager) : Prop := cache_step (store b) (store b').

#[export] Instance tree_look_preorder : PreOrder tree_look.
Proof. split; unfold tree_look; [by intros ?|]. intros a b c. by etrans. Qed.

Lemma looked_on_tree {A} (m : ST (bstate Pager.Pager) Error A) : within tree_look m -> within looked_tree (on_tree m).
Proof.
  intros Hm s. specialize (Hm (mk_bstate (pager (w_db (t_world s))) (t_inner s))). unfold on_tree.
  destruct (m _) as [r b]. destruct Hm as [c Hc]. apply reads_looked. exists c. simpl in *. by rewrite Hc; destruct (w_db (t_world s)).
Qed.

Lemma looked_with_tree {A} root (m : ST treeworld Error A) : within looked_tree m -> within looked_tx (with_tree root m).
Proof. intros Hm w. specialize (Hm (mk_treeworld _ w (inner_new root))). unfold with_tree. by destruct (m _). Qed.

#[local] Hint Resolve looked_in_tx looked_on_tree looked_with_tree : frame.

Lemma look_on_store {A} (m : ST Pager.Pager Error A) : within cache_step m -> within tree_look (on_store m).
Proof. intros Hm b. specialize (Hm (store b)). unfold on_store. by destruct (m (store b)). Qed.

#[local] Hint Resolve look_on_store : frame.

Lemma look_read_node p : within tree_look (BTree.read_node (S := Pager.Pager) p).
Proof. unfold BTree.read_node. frame. Qed.

#[local] Hint Resolve look_read_node : frame.

Lemma look_search k : within tree_look (BTree.search (S := Pager.Pager) fuel k).
Proof.
  assert (forall n node, within tree_look (BTree.search_loop (S := Pager.Pager) n node k)) as Hf.
  { induction n as [|n IH]; intros node; simpl; unfold BTree.out_of_fuel; frame. }
  unfold BTree.search, BTree.get_root_page. frame.
Qed.

Lemma look_iterator : within tree_look (BTree.iterator (S := Pager.Pager) fuel).
Proof.
  assert (forall n node, within tree_look (BTree.leftmost (S := Pager.Pager) n node)) as Hl.
  { induction n as [|n IH]; intros node; simpl; unfold BTree.out_of_fuel; frame. }
  unfold BTree.iterator, BTree.get_root_page. frame.
Qed.

Lemma look_iter_next it : within tree_look (BTree.iter_next (S := Pager.Pager) it).
Proof. unfold BTree.iter_next. frame. Qed.

#[local] Hint Resolve look_search look_iterator look_iter_next : frame.

Lemma looked_drop : within looked_tx drop_transaction.
Proof. unfold drop_transaction. frame. Qed.

Lemma looked_with_transaction {A} (m : ST txworld Error A) : within looked_tx m -> within looked (with_transaction m).
Proof.
  intros Hm. unfold with_transaction. apply within_bind; [apply _|unfold begin_db, transaction_new, get_metadata; frame|].
  intros t d. specialize (Hm (mk_txworld _ t d)). destruct (m _) as [r w]. simpl. etrans; [exact Hm|apply looked_drop].
Qed.

Lemma looked_on_existing {A} (no_tree : ST txworld Error A) (m : ST treeworld Error A) :
  within looked_tx no_tree -> within looked_tree m -> within looked (on_existing name no_tree m).
Proof. intros H1 H2. apply looked_with_transaction. unfold existing_root, get_metadata. frame. Qed.

Lemma looked_visit {A} (visit : VersionedDocument -> A -> A) steps it acc : within looked_tree (visit_tree steps visit it acc).
Proof. revert it acc. induction steps as [|steps IH]; intros it acc; simpl; unfold get_writes; frame. Qed.

#[local] Hint Resolve looked_visit : frame.

Lemma looked_find_all : within looked (Collection.find_all fuel name).
Proof. apply looked_on_existing; [frame|]. unfold find_all_in_tx. frame. Qed.

Lemma looked_count : within looked (Collection.count fuel name).
Proof. apply looked_on_existing; [frame|]. unfold count_in_tx. frame. Qed.

#[local] Hint Resolve looked_find_all looked_count : frame.

Lemma looked_find query : within looked (Collection.find fuel name query).
Proof. unfold Collection.find. frame. Qed.

#[local] Hint Resolve looked_find : frame.

Lemma looked_or_not_found {A} (x : A) m : within looked m -> within looked (or_not_found x m).
Proof. intros Hm. unfold or_not_found. frame. Qed.

#[local] Hint Resolve looked_or_not_found : frame.

(** C24: reading. Whatever they return, errors included, the operations that read a collection
    change nothing of the database but the page cache and the book-keeping of transactions:
    pages, log, catalogue, versions, the queue and the watchers are as they were. *)
Theorem reads_change_nothing doc_id query q field :
  within looked (Collection.find_by_id fuel name doc_id) /\ within looked (Collection.find_all fuel name) /\
  within looked (Collection.count fuel name) /\ within looked (Collection.find fuel name query) /\
  within looked (find_one fuel name query) /\ within looked (count_with_query fuel name q) /\
  within looked (distinct fuel name field) /\ within looked (count_distinct fuel name field).
Proof.
  split_and!; unfold find_one, count_with_query, distinct, count_distinct, distinct; frame.
  apply looked_on_existing; [unfold document_missing; frame|].
  unfold visible_version, get_writes, document_missing, of_text. frame.
Qed.
End frames.

(** ** The entries of a tree *)
Lemma sorted_keys ms : StronglySorted mark_lt ms -> StronglySorted str_lt (key <$> omap mark_entry ms).
Proof.
  induction 1 as [|[k|e] ms Hs IH Hall]; [constructor|exact IH|]. cbn [omap list_omap mark_entry]. rewrite fmap_cons.
  constructor; [done|]. apply Forall_fmap, Forall_forall. intros e' ([k|e''] & Hin & [= ->])%list_elem_of_omap.
  rewrite Forall_forall in Hall. by specialize (Hall _ Hin).
Qed.

Lemma sorted_nodup l : StronglySorted str_lt l -> NoDup l.
Proof.
  induction 1 as [|k l Hs IH Hall]; constructor; [|done]. intros Hin. rewrite Forall_forall in Hall.
  by eapply str_lt_irrefl, Hall.
Qed.

Lemma entries_map_lookup es e : NoDup (key <$> es) -> e ∈ es -> entries_map es !! key e = Some (value e).
Proof.
  intros Hn He. apply elem_of_list_to_map_1.
  - rewrite <- list_fmap_compose. exact Hn.
  - apply list_elem_of_fmap. by exists e.
Qed.

Lemma shown_incl ls : shown ls ⊆ concat ((fun l : N * list LeafEntry * N => l.1.2) <$> ls).
Proof.
  induction ls as [|[[p [|e es]] nx] ls IH]; [done|apply list_subseteq_nil|]. cbn [shown]. rewrite fmap_cons. cbn [concat fst snd].
  intros x. rewrite !elem_of_app. intros [?|?]; [by left|right; by apply IH].
Qed.

Lemma shown_lookup s t e : BTreeSpec.tree_ok s t -> e ∈ shown (leaves t) -> tree_map t !! key e = Some (value e).
Proof.
  intros Hok He. apply entries_map_lookup; [apply sorted_nodup, sorted_keys, Hok|].
  rewrite tree_entries_leaves by apply Hok. by apply shown_incl.
Qed.

(** ** Reading *)
Section reading.
Context {tables : UnicodeTables} {numbers : SerdeNumber} {text : SerdeText} {catalogue : SerdeCatalogue} {bytes : SerdeBytes}
  {messages : Messages} {debug_str : DebugStr} {clock : Clock} {page_order : HashMapOrder N} {name_order : HashMapOrder string}.
Variable fuel : nat.
Variable name : string.
Implicit Types (d : Database) (s : treeworld) (pg : Pager.Pager) (docs : gmap string VersionedDocument) (t : tree).

(** The documents of the collection: its tree, and the versions that its entries name. *)
Record readable pg (root : N) t docs : Prop := {
  re_tree : BTreeSpec.tree_ok (mk_bstate pg (inner_new root)) t;
  re_height : height t <= fuel;
  re_entries : length (tree_entries t) < fuel;
  re_docs id page : tree_map t !! id = Some page -> exists v, docs !! id = Some v /\ stores_version pg page v;
  re_only id : tree_map t !! id = None -> docs !! id = None }.

(** The snapshot of a transaction that begins now. *)
Definition snapshot_now d : N := get_latest_committed_tx_id (Mvcc.begin_transaction (tx_manager d)).2.

(** What a snapshot sees of an entry. *)
Definition version_of (snapshot : N) docs (id : string) : option VersionedDocument :=
  match docs !! id with Some v => if vdoc_is_visible v snapshot then Some v else None | None => None end.

Definition parsed (v : VersionedDocument) : option Value :=
  match value_from_slice (vd_data v) with inl doc => Some doc | inr _ => None end.

(** The versions that the iteration meets, in the order of the keys. *)
Definition versions_met d t docs : list VersionedDocument :=
  omap (fun e => version_of (snapshot_now d) docs (key e)) (shown (leaves t)).

(** The tree of a scope with its pages. *)
Definition tree_of s : bstate Pager.Pager := mk_bstate (pager (w_db (t_world s))) (t_inner s).

Definition store_of s : Pager.Pager := pager (w_db (t_world s)).

(** A step that leaves the transaction alone, and the database but for its pager, and keeps the
    used pages and the room. *)
Definition quiet s s' : Prop :=
  (w_tx (t_world s') = w_tx (t_world s) /\ w_db (t_world s') = with_pager (fun _ => store_of s') (w_db (t_world s)) /\
    forall n, ps_room (store_of s) n -> ps_room (store_of s') n) /\ t_inner s' = t_inner s /\ touches [] (store_of s) (store_of s').

Lemma quiet_refl s : ps_inv (store_of s) -> quiet s s.
Proof. intros Hi. split_and!; [done|unfold store_of; by destruct (w_db (t_world s))|done..]. Qed.

Lemma quiet_trans s1 s2 s3 : quiet s1 s2 -> quiet s2 s3 -> quiet s1 s3.
Proof.
  intros ((H1 & H0 & Hr1) & H2 & H3) ((H4 & H7 & Hr2) & H5 & H6).
  split_and!; [congruence|rewrite H7, H0; by destruct (w_db (t_world s1))|auto|congruence|]. eapply touches_trans; [done..|]. by intros q _ [?|?].
Qed.

Lemma stores_version_touches pg pg' page v : touches [] pg pg' -> stores_version pg page v -> stores_version pg' page v.
Proof.
  intros (_ & Hu & Hv) (ps & Hd & Hp & Hn). exists ps. split_and!; [|by intros q Hq; apply Hu, Hp|done].
  eapply versioned_doc_mono; [exact Hd|]. intros q Hq. apply Hv; [by apply Hp|apply not_elem_of_nil].
Qed.

Lemma same_touches pg pg' : Document.same pg pg' -> touches [] pg pg'.
Proof. intros [Hi Hv Hu Hr]. split_and!; [done|intros q; apply Hu|intros q _ _; apply Hv]. Qed.

Lemma on_tree_quiet {A} (m : ST (bstate Pager.Pager) Error A) s r b :
  m (tree_of s) = (r, b) -> BTreeSpec.calm [] (tree_of s) b ->
  exists s', on_tree m s = (r, s') /\ quiet s s' /\ store_of s' = store b.
Proof.
  intros Hm (Hi & Ht & Hr). unfold on_tree, tree_of in *. rewrite Hm. eexists. split_and!; [reflexivity| |done].
  split_and!; [done|done|exact Hr|done|exact Ht].
Qed.

Lemma in_tx_get {A} (f : Transaction -> A) s : in_tx (get_tx f) s = (Ok (f (w_tx (t_world s))), s).
Proof. by destruct s as [[] ?]. Qed.

Lemma read_version_quiet s page v :
  ps_inv (store_of s) -> stores_version (store_of s) page v ->
  exists s', in_tx (on_db (on_pager (read_versioned_document page ∅))) s = (Ok v, s') /\ quiet s s'.
Proof.
  intros Hi Hv. destruct (read_stored _ _ _ Hi Hv) as (pg' & Hr & Hs). unfold in_tx, on_db, on_pager.
  unfold store_of in Hr. rewrite Hr. eexists. split; [reflexivity|]. pose proof (same_room _ _ Hs).
  split_and!; [done..|by apply same_touches].
Qed.

(** The loop over the entries that the iterator still shows. *)
Lemma visit_tree_spec {A} (visit : VersionedDocument -> A -> A) docs steps s it rest acc :
  idle (tree_of s) -> ps_inv (store_of s) -> writes (w_tx (t_world s)) = ∅ ->
  iter_at (store_of s) it rest -> length rest < steps ->
  (forall e, e ∈ rest -> exists v, docs !! key e = Some v /\ stores_version (store_of s) (value e) v) ->
  exists s', visit_tree steps visit it acc s =
    (Ok (foldl (fun acc v => visit v acc) acc (omap (fun e => version_of (snapshot_id (w_tx (t_world s))) docs (key e)) rest)), s') /\
    quiet s s'.
Proof.
  revert s it rest acc. induction steps as [|steps IH]; intros s it rest acc Hid Hinv Hw Hat Hlen Hdocs; [lia|].
  destruct (iter_next_spec (tree_of s) it rest Hid Hinv Hat) as (it' & b & Hn & Hc & Hsh).
  destruct (on_tree_quiet _ _ _ _ Hn Hc) as (s1 & H1 & Hq1 & Hst). cbn [visit_tree]. rewrite (st_bind_ok _ _ _ _ _ H1).
  destruct rest as [|e rest]; [by exists s1|]. destruct Hsh as [He Hat']. rewrite bool_decide_eq_true_2 by done.
  rewrite He. erewrite st_bind_ok by reflexivity. cbn [entry_pair].
  destruct (Hdocs e) as (v & Hv & Hsv); [by left|]. pose proof Hq1 as ([Hw1 _] & Hi1 & Ht1).
  rewrite (st_bind_ok _ _ _ _ _ (in_tx_get writes s1)), Hw1, Hw.
  destruct (read_version_quiet s1 (value e) v) as (s2 & H2 & Hq2); [apply Ht1|by eapply stores_version_touches|].
  assert (quiet s s2) as Hq by (eapply quiet_trans; [exact Hq1|exact Hq2]). pose proof Hq as ([Hw2 _] & Hi2 & Ht2).
  erewrite st_bind_ok by (unfold st_ok; rewrite H2; reflexivity).
  rewrite (st_bind_ok _ _ _ _ _ (in_tx_get snapshot_id s2)). cbn [omap list_omap].
  destruct (IH s2 it' rest (if vdoc_is_visible v (snapshot_id (w_tx (t_world s2))) then visit v acc else acc)) as (s3 & H3 & Hq3).
  - by destruct Hid as (? & ? & ?); split_and!; simpl; rewrite Hi2.
  - apply Ht2.
  - by rewrite Hw2.
  - eapply iter_at_mono; [apply Hq2|]. by rewrite Hst.
  - simpl in Hlen. lia.
  - intros e' He'. destruct (Hdocs e') as (v' & ? & ?); [by right|]. exists v'. split; [done|by eapply stores_version_touches].
  - exists s3. split; [|by eapply quiet_trans]. rewrite H3. unfold version_of at 2. rewrite Hv. rewrite Hw2.
    destruct (vdoc_is_visible v (snapshot_id (w_tx (t_world s)))); reflexivity.
Qed.
Lemma begin_spec d : exists tx d', begin_db d = (Ok tx, d') /\ pager d' = pager d /\ metadata d' = metadata d /\
  writes tx = ∅ /\ snapshot_id tx = snapshot_now d.
Proof.
  unfold begin_db, transaction_new, snapshot_now, get_metadata, st_bind, st_get, st_ret, st_modify, on_manager.
  cbn -[Mvcc.begin_transaction get_latest_committed_tx_id]. destruct (Mvcc.begin_transaction _) as [id tm].
  by do 2 eexists.
Qed.

Lemma with_tree_spec {A} root (m : ST treeworld Error A) w :
  with_tree root m w = ((m (mk_treeworld _ w (inner_new root))).1, t_world (m (mk_treeworld _ w (inner_new root))).2).
Proof. unfold with_tree. by destruct (m _). Qed.

Lemma existing_root_spec w c : collections (metadata (w_db w)) !! name = Some c -> existing_root name w = (Ok (btree_root c), w).
Proof.
  intros Hc. unfold existing_root, get_metadata, on_db, st_bind, st_get, st_ret. rewrite metadata_clone_id, Hc. by destruct w.
Qed.

Lemma existing_root_missing w : collections (metadata (w_db w)) !! name = None -> existing_root name w = (Err (not_found_error name), w).
Proof.
  intros Hc. unfold existing_root, get_metadata, on_db, st_bind, st_get, st_fail. rewrite metadata_clone_id, Hc. by destruct w.
Qed.

(** The scope in which an operation on an existing collection runs. *)
Lemma existing_scope {A} no_tree (m : ST treeworld Error A) d c :
  collections (metadata d) !! name = Some c -> btree_root c <> 0%N ->
  exists s, store_of s = pager d /\ t_inner s = inner_new (btree_root c) /\ writes (w_tx (t_world s)) = ∅ /\
    snapshot_id (w_tx (t_world s)) = snapshot_now d /\
    on_existing name no_tree m d = ((m s).1, w_db (drop_transaction (t_world (m s).2)).2).
Proof.
  intros Hc Hr. destruct (begin_spec d) as (tx & d1 & Hb & Hp & Hm & Hw & Hs).
  exists (mk_treeworld _ (mk_txworld _ tx d1) (inner_new (btree_root c))). split_and!; [done..|].
  unfold on_existing, with_transaction. rewrite (st_bind_ok _ _ _ _ _ Hb). 
  rewrite (st_bind_ok _ _ _ _ _ (existing_root_spec (mk_txworld _ tx d1) c ltac:(simpl; by rewrite Hm))).
  by rewrite (proj2 (N.eqb_neq _ _) Hr), with_tree_spec.
Qed.

(** A collection that is not there, or has no tree. *)
Lemma no_scope {A} no_tree (m : ST treeworld Error A) d :
  match collections (metadata d) !! name with
  | None => (on_existing name no_tree m d).1 = Err (not_found_error name)
  | Some c => btree_root c = 0%N -> exists w, (on_existing name no_tree m d).1 = (no_tree w).1
  end.
Proof.
  destruct (begin_spec d) as (tx & d1 & Hb & Hp & Hm & Hw & Hs). unfold on_existing, with_transaction.
  rewrite (st_bind_ok _ _ _ _ _ Hb). destruct (collections (metadata d) !! name) as [c|] eqn:Hc.
  - intros Hr. rewrite (st_bind_ok _ _ _ _ _ (existing_root_spec (mk_txworld _ tx d1) c ltac:(simpl; by rewrite Hm))), Hr.
    exists (mk_txworld _ tx d1). simpl. by destruct (no_tree _).
  - by rewrite (st_bind_err _ _ _ _ _ (existing_root_missing (mk_txworld _ tx d1) ltac:(simpl; by rewrite Hm))).
Qed.
(** The loop over the whole tree. *)
Lemma visit_spec {A} (visit : VersionedDocument -> A -> A) s root t docs acc :
  readable (store_of s) root t docs -> t_inner s = inner_new root -> writes (w_tx (t_world s)) = ∅ ->
  exists s', (let! it := on_tree (BTree.iterator fuel) in visit_tree fuel visit it acc) s =
    (Ok (foldl (fun acc v => visit v acc) acc
      (omap (fun e => version_of (snapshot_id (w_tx (t_world s))) docs (key e)) (shown (leaves t)))), s') /\ quiet s s'.
Proof.
  intros [Hok Hh Hn Hdocs _] Hi Hw. assert (mk_bstate (store_of s) (inner_new root) = tree_of s) as Ht by (unfold tree_of, store_of; by rewrite Hi).
  rewrite Ht in Hok. destruct (iterator_spec (tree_of s) t fuel Hok Hh) as (it & b & Hit & Hc & Hat).
  destruct (on_tree_quiet _ _ _ _ Hit Hc) as (s1 & H1 & Hq1 & Hst). rewrite (st_bind_ok _ _ _ _ _ H1).
  pose proof Hq1 as ([Hw1 _] & Hi1 & Ht1). rewrite <- Hw1.
  destruct (visit_tree_spec visit docs fuel s1 it (shown (leaves t)) acc) as (s2 & H2 & Hq2).
  - unfold tree_of. by rewrite Hi1, Hi.
  - apply Ht1.
  - by rewrite Hw1.
  - by rewrite Hst.
  - rewrite tree_entries_leaves in Hn by apply Hok. pose proof (length_shown_entries (leaves t)). lia.
  - intros e He. destruct (Hdocs (key e) (value e)) as (v & ? & ?); [by eapply shown_lookup|].
    exists v. split; [done|by eapply stores_version_touches].
  - exists s2. split; [exact H2|by eapply quiet_trans].
Qed.

Lemma pushed_documents vs acc : foldl (fun acc v => push_document v acc) acc vs = acc ++ omap parsed vs.
Proof.
  revert acc. induction vs as [|v vs IH]; intros acc; simpl; [by rewrite app_nil_r|]. rewrite IH. unfold push_document, parsed, vec_push.
  destruct (value_from_slice _); [by rewrite <- app_assoc|done].
Qed.

Lemma counted_documents (vs : list VersionedDocument) n : foldl (fun acc _ => Datatypes.S acc) n vs = n + length vs.
Proof. revert n. induction vs as [|v vs IH]; intros n; simpl; [lia|]. rewrite IH. lia. Qed.

(** A collection with its tree. *)
Definition collection_at d t docs : Prop := exists c,
  collections (metadata d) !! name = Some c /\ btree_root c <> 0%N /\ readable (pager d) (btree_root c) t docs.

Lemma find_all_lemma d t docs : collection_at d t docs -> (Collection.find_all fuel name d).1 = Ok (omap parsed (versions_met d t docs)).
Proof.
  intros (c & Hc & Hr & Hre). unfold Collection.find_all.
  destruct (existing_scope (st_ret []) (find_all_in_tx fuel) d c Hc Hr) as (s & Hp & Hi & Hw & Hs & ->). simpl.
  unfold find_all_in_tx, versions_met. rewrite <- Hp in Hre. destruct (visit_spec push_document s _ _ _ [] Hre Hi Hw) as (s' & -> & _).
  simpl. by rewrite Hs, pushed_documents.
Qed.

Lemma count_lemma d t docs : collection_at d t docs -> (Collection.count fuel name d).1 = Ok (length (versions_met d t docs)).
Proof.
  intros (c & Hc & Hr & Hre). unfold Collection.count.
  destruct (existing_scope (st_ret 0) (count_in_tx fuel) d c Hc Hr) as (s & Hp & Hi & Hw & Hs & ->). simpl.
  unfold count_in_tx, versions_met. rewrite <- Hp in Hre. destruct (visit_spec (fun _ n => S n) s _ _ _ 0 Hre Hi Hw) as (s' & -> & _).
  simpl. by rewrite Hs, counted_documents.
Qed.
(** A missing document, and one that the snapshot does not see. *)
Definition found_by_id d t docs (doc_id : string) : Result Value :=
  match tree_map t !! doc_id with
  | None => Err NotFound
  | Some _ =>
    match version_of (snapshot_now d) docs doc_id with
    | None => Err (Other "document not found")
    | Some v => match value_from_slice (vd_data v) with inl doc => Ok doc | inr e => Err (json_error e) end
    end
  end.

Lemma find_by_id_lemma d t docs doc_id : collection_at d t docs ->
  (Collection.find_by_id fuel name doc_id d).1 = found_by_id d t docs doc_id.
Proof.
  intros (c & Hc & Hr & Hre). unfold Collection.find_by_id, found_by_id.
  destruct (existing_scope document_missing (let! vdoc := visible_version fuel doc_id in of_text (value_from_slice (vd_data vdoc)))
    d c Hc Hr) as (s & Hp & Hi & Hw & Hs & ->). simpl. rewrite <- Hp in Hre. destruct Hre as [Hok Hh Hn Hdocs _].
  assert (mk_bstate (store_of s) (inner_new (btree_root c)) = tree_of s) as Ht by (unfold tree_of, store_of; by rewrite Hi).
  rewrite Ht in Hok. destruct (BTreeSpec.search_lemma (tree_of s) t fuel doc_id Hok Hh) as (b & Hb & _ & Hcalm).
  destruct (on_tree_quiet _ _ _ _ Hb Hcalm) as (s1 & H1 & ([Hw1 _] & Hi1 & Ht1) & _). unfold visible_version.
  rewrite st_bind_assoc. destruct (tree_map t !! doc_id) as [page|] eqn:Hpage; cbn [of_option] in H1.
  2: { by rewrite (st_bind_err _ _ _ _ _ H1). }
  rewrite (st_bind_ok _ _ _ _ _ H1), st_bind_assoc.
  rewrite (st_bind_ok _ _ _ _ _ (in_tx_get writes s1)), Hw1, Hw, st_bind_assoc.
  destruct (Hdocs doc_id page Hpage) as (v & Hv & Hsv).
  destruct (read_version_quiet s1 page v) as (s2 & H2 & ([Hw2 _] & _)); [apply Ht1|by eapply stores_version_touches|].
  rewrite (st_bind_ok _ _ _ _ _ H2), st_bind_assoc.
  rewrite (st_bind_ok _ _ _ _ _ (in_tx_get snapshot_id s2)), Hw2, Hw1, Hs.
  unfold version_of. rewrite Hv. destruct (vdoc_is_visible v (snapshot_now d)); [|done].
  unfold st_bind, st_ret, of_text, st_lift. by destruct (value_from_slice (vd_data v)).
Qed.

(** C4: what is read of a collection whose tree is well formed and whose entries name versions
    of documents: all documents are the values of the versions that the snapshot of a new
    transaction sees, in the order of their ids (up to the first empty leaf); the count is the
    number of these versions; a query gives the documents that match it, or its parse error;
    by id, a missing entry, a version that is not visible and a document that does not parse
    are told apart by the error. *)
Theorem reads_show_the_snapshot d t docs (Hcoll : collection_at d t docs) query doc_id :
  (Collection.find_all fuel name d).1 = Ok (omap parsed (versions_met d t docs)) /\
  (Collection.count fuel name d).1 = Ok (length (versions_met d t docs)) /\
  (Collection.find fuel name query d).1 =
    (let? ast := parse_or_fail query in Ok (filter (fun doc => matches ast doc = true) (omap parsed (versions_met d t docs)))) /\
  (Collection.find_by_id fuel name doc_id d).1 = found_by_id d t docs doc_id.
Proof.
  pose proof (find_all_lemma d t docs Hcoll) as Hall. split_and!; [done|by apply count_lemma| |by apply find_by_id_lemma].
  unfold Collection.find, st_bind, st_lift, st_ret. destruct (parse_or_fail query) as [ast|e| |]; [|done..].
  destruct (Collection.find_all fuel name d) as [r d']. simpl in *. by rewrite Hall.
Qed.

(** A collection whose visible versions all parse, or one without documents. *)
Definition serves d : Prop :=
  match collections (metadata d) !! name with
  | None => True
  | Some c => btree_root c = 0%N \/
      exists t docs, readable (pager d) (btree_root c) t docs /\ Forall (fun v => is_Some (parsed v)) (versions_met d t docs)
  end.

Lemma omap_parsed vs : Forall (fun v => is_Some (parsed v)) vs -> length (omap parsed vs) = length vs.
Proof. induction 1 as [|v vs [x Hx] _ IH]; [done|]. cbn [omap list_omap]. rewrite Hx. cbn [length]. f_equal. exact IH. Qed.

(** C23: the interface that queries and pipelines are proved against: when the collection is
    missing, has no tree, or has a readable tree whose visible versions all parse, its count is
    the number of its documents, or both fail with the same error. *)
Theorem collection_serves_queries d (Hserves : serves d) : @CollectionReadsLaws _ (collection_reads fuel name d).
Proof.
  unfold CollectionReadsLaws, serves in *. cbn [coll_count QueryBuilder.find_all collection_reads].
  pose proof (no_scope (st_ret []) (find_all_in_tx fuel) d) as H1. pose proof (no_scope (st_ret 0) (count_in_tx fuel) d) as H2.
  unfold Collection.count, Collection.find_all. destruct (collections (metadata d) !! name) as [c|] eqn:Hc; [|by rewrite H1, H2].
  destruct Hserves as [Hz|(t & docs & Hre & Hall)].
  - destruct (H1 Hz) as [w1 ->]. by destruct (H2 Hz) as [w2 ->].
  - destruct (decide (btree_root c = 0%N)) as [Hz|Hz].
    + destruct (H1 Hz) as [w1 ->]. by destruct (H2 Hz) as [w2 ->].
    + assert (collection_at d t docs) as Hat by by exists c.
      pose proof (find_all_lemma d t docs Hat) as Ha. pose proof (count_lemma d t docs Hat) as Hb.
      unfold Collection.count, Collection.find_all in *. rewrite Ha, Hb. by rewrite omap_parsed.
Qed.
End reading.
