(* ===== verification/CollectionTree.v ===== *)
(** * Changing a collection (collection.rs)

    What the operations on the documents of a collection do to its tree and its pages before
    the transaction commits: with the pages of the versions apart from each other and from
    those of the tree, they are the operations of a finite map from ids to versions. *)

From stdpp Require Import base list strings gmap sorting.
From Stdlib Require Import NArith Lia.
From S2P Require Import Prelude Constants Bytes Text PageStore Json QueryParser IndexKey QueryBuilder LruCache Pager Document BTreeNode BTree BTreeSpec.
From S2P Require Import Wal Mvcc Validation TxBTree Metadata Watch DatabaseState Transaction TxCollection Database Errors Collection.
From S2P Require Import Frames CommitSpec CollectionSpec.

#[local] Open Scope nat_scope.

Section layout.
Context {tables : UnicodeTables} {numbers : SerdeNumber} {text : SerdeText} {catalogue : SerdeCatalogue} {bytes : SerdeBytes}
  {messages : Messages} {debug_str : DebugStr} {clock : Clock} {page_order : HashMapOrder N} {name_order : HashMapOrder string}.
Variable fuel : nat.
Variable name : string.
Implicit Types (s : treeworld) (pg : Pager.Pager) (W : gmap N (list byte)) (docs : gmap string VersionedDocument) (t : tree)
  (pages : string -> list N) (id : string) (v : VersionedDocument).

Definition tx_of s : Transaction := w_tx (t_world s).

(** A version on the pages [page :: ps], apart from those of the tree; where the transaction
    buffers one of them, its buffer is what the page holds. *)
Record laid_out pg W (tree_pages : list N) (page : N) (ps : list N) v : Prop := mk_laid_out {
  lo_doc : versioned_doc (ps_view pg) page (vd_id v) (vd_data v) (vd_xmin v) (vd_xmax v) ps;
  lo_nodup : NoDup (page :: ps);
  lo_used q : q ∈ page :: ps -> ps_used pg q /\ q <> 0%N;
  lo_apart q : q ∈ page :: ps -> q ∉ tree_pages;
  lo_buffer q : q ∈ page :: ps -> W !! q = None \/ W !! q = ps_view pg q }.

Lemma laid_out_moved pg W nds pg' W' nds' page ps v :
  laid_out pg W nds page ps v ->
  (forall q, q ∈ page :: ps -> ps_used pg' q /\ ps_view pg' q = ps_view pg q /\ q ∉ nds' /\ W' !! q = W !! q) ->
  laid_out pg' W' nds' page ps v.
Proof.
  intros [Hd Hn Hu Ha Hb] H. split; [|done|intros q Hq; split; [by apply H|by apply Hu]|intros q Hq; by apply H|].
  - eapply versioned_doc_mono; [exact Hd|]. intros q Hq. by apply H.
  - intros q Hq. destruct (H q Hq) as (_ & -> & _ & ->). by apply Hb.
Qed.

(** The tree at hand, the versions its entries name and the pages of each. *)
Record collection_in s t docs pages : Prop := mk_collection_in {
  ci_tree : tree_ok (tree_of s) t;
  ci_active : is_active (tx_of s) = true;
  ci_docs id page : tree_map t !! id = Some page -> exists v ps,
    docs !! id = Some v /\ pages id = page :: ps /\ laid_out (store_of s) (writes (tx_of s)) (nodes t).*1 page ps v;
  ci_only id : tree_map t !! id = None -> docs !! id = None;
  ci_apart id1 id2 : is_Some (docs !! id1) -> is_Some (docs !! id2) -> id1 <> id2 -> pages id1 ## pages id2 }.

Lemma collection_moved s s' t t' docs docs' pages :
  collection_in s t docs pages -> tree_ok (tree_of s') t' -> is_active (tx_of s') = true ->
  (forall id p, tree_map t' !! id = Some p -> tree_map t !! id = Some p /\ docs' !! id = docs !! id /\
    forall q, q ∈ pages id -> ps_used (store_of s) q -> q ∉ (nodes t).*1 ->
      ps_used (store_of s') q /\ ps_view (store_of s') q = ps_view (store_of s) q /\ q ∉ (nodes t').*1 /\
      writes (tx_of s') !! q = writes (tx_of s) !! q) ->
  (forall id, tree_map t' !! id = None -> docs' !! id = None) ->
  collection_in s' t' docs' pages.
Proof.
  intros [Ht Ha Hd Ho Hap] Ht' Ha' H Ho'.
  assert (forall id, is_Some (docs' !! id) -> is_Some (docs !! id)) as Hsub.
  { intros id [v Hv]. destruct (tree_map t' !! id) as [p|] eqn:Hp; [|by rewrite Ho' in Hv].
    destruct (H id p Hp) as (_ & He & _). rewrite <- He. by eexists. }
  split; [done|done| |done|intros; apply Hap; auto].
  intros id page Hp. destruct (H id page Hp) as (Hpt & He & Hq). destruct (Hd id page Hpt) as (v & ps & Hv & Hps & Hlo).
  exists v, ps. rewrite He. split_and!; [done..|]. eapply laid_out_moved; [exact Hlo|].
  intros q Hin. apply Hq; [by rewrite Hps|by eapply lo_used|by eapply lo_apart].
Qed.

(** *** Reading *)
Lemma quiet_tree s s' t : quiet s s' -> tree_ok (tree_of s) t -> tree_ok (tree_of s') t.
Proof.
  intros (_ & Hi & Hinv & Hu & Hv) Ht. eapply tree_ok_moved; [exact Ht|..].
  - unfold idle, tree_of. cbn [inner]. rewrite Hi. apply Ht.
  - unfold tree_of. cbn [inner]. by rewrite Hi.
  - exact Hinv.
  - intros q Hq Hused. split; [by apply Hu|]. apply Hv; [done|apply not_elem_of_nil].
Qed.

Lemma collection_quiet s s' t docs pages : quiet s s' -> collection_in s t docs pages -> collection_in s' t docs pages.
Proof.
  intros Hq Hc. pose proof Hq as ([Hw _] & Hi & Hinv & Hu & Hv). eapply collection_moved; [exact Hc|by eapply quiet_tree, Hc|..].
  - unfold tx_of. rewrite Hw. apply Hc.
  - intros id p Hp. split_and!; [done..|]. intros q _ Hused Hn. split_and!; [by apply Hu|apply Hv; [done|apply not_elem_of_nil]|done|].
    unfold tx_of. by rewrite Hw.
  - apply Hc.
Qed.

Lemma read_laid_out s nds page ps v :
  ps_inv (store_of s) -> laid_out (store_of s) (writes (tx_of s)) nds page ps v ->
  exists s', in_tx (on_db (on_pager (read_versioned_document page (writes (tx_of s))))) s = (Ok v, s') /\ quiet s s'.
Proof.
  intros Hi [Hd Hn Hu _ Hb]. destruct v as [id data x y].
  destruct (read_versioned_ok (store_of s) (writes (tx_of s)) page id data x y ps Hi) as (pg' & Hr & Hs).
  - eapply versioned_doc_mono; [exact Hd|]. intros q Hq. unfold seen. destruct (Hb q Hq) as [->| ->]; [done|]. by destruct (ps_view _ q).
  - intros q Hq. by apply Hu.
  - by apply NoDup_cons in Hn as [_ ?].
  - unfold in_tx, on_db, on_pager. unfold store_of in Hr. rewrite Hr. eexists. split; [reflexivity|].
    pose proof (same_room _ _ Hs). split_and!; [done..|by apply same_touches].
Qed.

Lemma search_quiet s t id : tree_ok (tree_of s) t -> height t <= fuel ->
  exists s', on_tree (BTree.search fuel id) s = (of_option (Err NotFound) (tree_map t !! id), s') /\ quiet s s'.
Proof.
  intros Ht Hh. destruct (search_lemma (tree_of s) t fuel id Ht Hh) as (b & Hb & _ & Hc).
  destruct (on_tree_quiet _ _ _ _ Hb Hc) as (s' & ? & ? & _). by exists s'.
Qed.

(** What the snapshot of the transaction sees of a document, as [visible_version] tells it. *)
Definition seen_version s t docs id : Result VersionedDocument :=
  match tree_map t !! id with
  | None => Err NotFound
  | Some _ => of_option (Err (Other "document not found")) (version_of (snapshot_id (tx_of s)) docs id)
  end.

Lemma visible_version_spec s t docs pages id : collection_in s t docs pages -> height t <= fuel ->
  exists s', visible_version fuel id s = (seen_version s t docs id, s') /\ quiet s s'.
Proof.
  intros Hc Hh. destruct (search_quiet s t id (ci_tree _ _ _ _ Hc) Hh) as (s1 & H1 & Hq1). unfold visible_version, seen_version.
  pose proof Hq1 as ([Hw1 _] & _ & Ht1).
  destruct (tree_map t !! id) as [page|] eqn:Hp; cbn [of_option] in H1; [|rewrite (st_bind_err _ _ _ _ _ H1); by exists s1].
  rewrite (st_bind_ok _ _ _ _ _ H1), (st_bind_ok _ _ _ _ _ (in_tx_get writes s1)).
  pose proof (collection_quiet _ _ _ _ _ Hq1 Hc) as Hc1. destruct (ci_docs _ _ _ _ Hc1 id page Hp) as (v & ps & Hv & _ & Hlo).
  destruct (read_laid_out s1 _ page ps v ltac:(apply Ht1) Hlo) as (s2 & H2 & Hq2). fold (tx_of s1).
  rewrite (st_bind_ok _ _ _ _ _ H2), (st_bind_ok _ _ _ _ _ (in_tx_get snapshot_id s2)). pose proof Hq2 as ([Hw2 _] & _).
  exists s2. split; [|by eapply quiet_trans]. unfold tx_of in *. rewrite Hw2, Hw1. unfold version_of. rewrite Hv.
  by destruct (vdoc_is_visible v (snapshot_id (w_tx (t_world s)))).
Qed.
(** ** Changing *)

(** A step that leaves alone what the operations ask of the transaction, and the database but
    for its pager. *)
Definition continues s s' : Prop :=
  mvcc_tx_id (tx_of s') = mvcc_tx_id (tx_of s) /\ snapshot_id (tx_of s') = snapshot_id (tx_of s) /\
  is_active (tx_of s') = is_active (tx_of s) /\ w_db (t_world s') = with_pager (fun _ => store_of s') (w_db (t_world s)).

Lemma continues_metadata s s' : continues s s' -> metadata (w_db (t_world s')) = metadata (w_db (t_world s)).
Proof. by intros (_ & _ & _ & ->). Qed.

#[export] Instance continues_preorder : PreOrder continues.
Proof.
  split; [intros s; split_and!; [done..|]; unfold store_of; by destruct (w_db (t_world s))|].
  intros s1 s2 s3 (E1 & E2 & E3 & Hd1) (E4 & E5 & E6 & Hd2). split_and!; [congruence..|]. rewrite Hd2, Hd1. by destruct (w_db (t_world s1)).
Qed.

Lemma continues_db s s' :
  mvcc_tx_id (tx_of s') = mvcc_tx_id (tx_of s) -> snapshot_id (tx_of s') = snapshot_id (tx_of s) ->
  is_active (tx_of s') = is_active (tx_of s) -> w_db (t_world s') = w_db (t_world s) -> continues s s'.
Proof. intros ? ? ? Hd. split_and!; [done..|]. unfold store_of. rewrite Hd. by destruct (w_db (t_world s)). Qed.

Lemma quiet_continues s s' : quiet s s' -> continues s s'.
Proof. intros ((Hw & Hm & _) & _). unfold continues, tx_of. by rewrite Hw, Hm. Qed.

(** A version that was just written, not in the tree yet, with the buffers of its pages. *)
Record fresh_version s t docs pages (page : N) (ps : list N) v (ws : gmap N (list byte)) : Prop := mk_fresh_version {
  fv_doc : versioned_doc (ps_view (store_of s)) page (vd_id v) (vd_data v) (vd_xmin v) (vd_xmax v) ps;
  fv_nodup : NoDup (page :: ps);
  fv_used q : q ∈ page :: ps -> ps_used (store_of s) q /\ q <> 0%N;
  fv_tree q : q ∈ page :: ps -> q ∉ (nodes t).*1;
  fv_docs id : is_Some (docs !! id) -> pages id ## page :: ps;
  fv_small : (page < 2 ^ 64)%N;
  fv_buffer q : ws !! q = if decide (q ∈ page :: ps) then ps_view (store_of s) q else None }.

Lemma collection_used s t docs pages id q : collection_in s t docs pages -> is_Some (docs !! id) -> q ∈ pages id ->
  ps_used (store_of s) q /\ q ∉ (nodes t).*1.
Proof.
  intros [Ht Ha Hd Ho Hap] [v Hv] Hq. destruct (tree_map t !! id) as [p|] eqn:Hp; [|by rewrite Ho in Hv].
  destruct (Hd id p Hp) as (v' & ps & _ & Hps & Hlo). rewrite Hps in Hq. split; [by eapply lo_used|by eapply lo_apart].
Qed.

Lemma new_version_spec s t docs pages id data n :
  collection_in s t docs pages -> doc_ok id data -> (mvcc_tx_id (tx_of s) < 2 ^ 64)%N ->
  ps_room (store_of s) (2 + length data / MAX_OVERFLOW_DATA + n) ->
  exists s' page ps ws, new_version id data s = (Ok (page, ws), s') /\ tx_of s' = tx_of s /\ continues s s' /\
    collection_in s' t docs pages /\ fresh_version s' t docs pages page ps (mk_vdoc id data (mvcc_tx_id (tx_of s)) 0) ws /\
    ps_room (store_of s') n.
Proof.
  intros Hc Hok Hx Hroom. pose proof (ci_tree _ _ _ _ Hc) as Ht. pose proof (so_inv _ _ (to_stored _ _ Ht)) as Hinv.
  destruct (write_versioned_ok (store_of s) ∅ id data (mvcc_tx_id (tx_of s)) 0 n Hinv Hok Hx ltac:(done) Hroom)
    as (p & d & ps & pg' & W' & Hw & [Hi Hu Hv Hn Hf] & Hd & _ & HW & Hr).
  assert (forall q, q ∈ (nodes t).*1 -> ps_used (store_of s) q) as Hnodes by (intros q Hq; by apply (holds_used _ (nodes t)); [apply Ht|]).
  unfold new_version. unfold store_of, tx_of in Hw. rewrite Hw.
  eexists _, p, ps, W'. split; [reflexivity|]. split; [done|]. split; [done|]. unfold store_of, tx_of in *. cbn [t_world w_tx w_db] in *.
  split_and!; [|split; cbn [t_world w_tx w_db]|exact Hr].
  - eapply collection_moved; [exact Hc| | | |apply Hc].
    + eapply tree_ok_moved; [exact Ht|apply Ht|done|exact Hi|]. intros q Hq Hus. split; [apply Hu; by left|by apply Hv].
    + apply Hc.
    + intros id' p' Hp'. split_and!; [done..|]. intros q Hq Hus Hnn. unfold store_of in *. cbn [t_world w_tx w_db].
      split_and!; [apply Hu; by left|by apply Hv|done|done].
  - exact Hd.
  - exact Hn.
  - intros q Hq. split; [apply Hu; by right|by apply Hf].
  - intros q Hq Hin. destruct (Hf q Hq) as [_ []]. by apply Hnodes.
  - intros id' Hid' q Hq Hq'. destruct (Hf q Hq') as [_ []]. eapply collection_used; [exact Hc|done|done].
  - eapply ps_used_small; [exact Hi|]. apply Hu. right. by left.
  - intros q. rewrite HW. by rewrite lookup_empty.
Qed.

(** The loop over the buffers. *)
Lemma buffer_each_spec l s :
  is_active (tx_of s) = true ->
  exists s', st_each (fun '(page, data) => in_tx (write_page page data)) l s = (Ok tt, s') /\
    store_of s' = store_of s /\ t_inner s' = t_inner s /\ continues s s' /\
    writes (tx_of s') = foldl (fun W kv => <[kv.1 := kv.2]> W) (writes (tx_of s)) l.
Proof.
  revert s. induction l as [|[q d] l IH]; intros s Ha; [by exists s|]. cbn [st_each].
  set (s1 := mk_treeworld _ (mk_txworld _ (with_writes <[q := d]> (tx_of s)) (w_db (t_world s))) (t_inner s)).
  assert (in_tx (write_page q d) s = (Ok tt, s1)) as H1.
  { unfold in_tx, write_page, guard_active, get_tx, st_get, st_bind, st_ret, on_tx. unfold tx_of in *. by rewrite Ha. }
  rewrite (st_bind_ok _ _ _ _ _ H1). destruct (IH s1) as (s2 & H2 & ? & ? & Hc & Hw); [done|].
  exists s2. split_and!; try done; by apply Hc.
Qed.

Lemma foldl_inserts (l : list (N * list byte)) W q : NoDup l.*1 ->
  foldl (fun W kv => <[kv.1 := kv.2]> W) W l !! q =
    match (list_to_map l : gmap N (list byte)) !! q with Some d => Some d | None => W !! q end.
Proof.
  revert W. induction l as [|[p d] l IH]; intros W Hn; [done|]. rewrite fmap_cons in Hn. apply NoDup_cons in Hn as [Hp Hn].
  cbn [foldl fst snd]. rewrite IH, list_to_map_cons by done. destruct (decide (q = p)) as [->|Hq].
  - by rewrite !lookup_insert_eq, not_elem_of_list_to_map_1.
  - by rewrite !lookup_insert_ne.
Qed.

Lemma buffer_pages_spec ws s : is_active (tx_of s) = true ->
  exists s', buffer_pages ws s = (Ok tt, s') /\ store_of s' = store_of s /\ t_inner s' = t_inner s /\ continues s s' /\
    forall q, writes (tx_of s') !! q = match ws !! q with Some d => Some d | None => writes (tx_of s) !! q end.
Proof.
  intros Ha. destruct (buffer_each_spec (map_iter ws) s Ha) as (s' & ? & ? & ? & ? & Hw). exists s'. split_and!; [done..|].
  intros q. rewrite Hw, foldl_inserts by apply map_iter_nodup.
  rewrite (list_to_map_proper _ (map_to_list ws)), list_to_map_to_list; [done|apply map_iter_nodup|apply map_iter_perm].
Qed.
Lemma on_tree_step {A} (m : ST (bstate Pager.Pager) Error A) s r b :
  m (tree_of s) = (r, b) ->
  exists s', on_tree m s = (r, s') /\ tree_of s' = b /\ tx_of s' = tx_of s /\ continues s s'.
Proof.
  intros Hm. unfold on_tree. unfold tree_of in Hm. rewrite Hm. eexists. split; [reflexivity|]. by destruct b as [[] ?].
Qed.

Lemma tree_of_store s : store (tree_of s) = store_of s.
Proof. done. Qed.

Definition set_pages pages id (ps : list N) : string -> list N := fun k => if decide (k = id) then ps else pages k.

Lemma chain_holds_view look p rest ps q : chain_holds look p rest ps -> q ∈ ps -> is_Some (look q).
Proof. induction 1; [by intros ?%not_elem_of_nil|]. intros [->|?]%elem_of_cons; [by eexists|auto]. Qed.

Lemma fresh_view s t docs pages page ps v ws q :
  fresh_version s t docs pages page ps v ws -> q ∈ page :: ps -> is_Some (ps_view (store_of s) q).
Proof.
  intros [[chunk rest link ?? ?? ? Hv ? Hch] _ _ _ _ _ _] [->|Hq]%elem_of_cons; [by eexists|by eapply chain_holds_view].
Qed.

(** The tree has the entry, the transaction the buffers. *)
Lemma entry_laid_out s s' t t' docs pages id page ps v ws :
  collection_in s t docs pages -> fresh_version s t docs pages page ps v ws ->
  tree_ok (tree_of s') t' -> is_active (tx_of s') = true -> tree_map t' = <[id := page]> (tree_map t) ->
  touches (nodes t).*1 (store_of s) (store_of s') -> grown (tree_of s) (nodes t) (nodes t') ->
  (forall q, writes (tx_of s') !! q = match ws !! q with Some d => Some d | None => writes (tx_of s) !! q end) ->
  collection_in s' t' (<[id := v]> docs) (set_pages pages id (page :: ps)).
Proof.
  intros Hc Hf Ht' Hact Hm (Hinv & Hu & Hv) Hg Hw. pose proof (fun q => fresh_view _ _ _ _ _ _ _ _ q Hf) as Fv. destruct Hf as [Fd Fn Fu Ft Fp Fs Fb].
  assert (forall q, ps_used (store_of s) q -> q ∉ (nodes t).*1 -> q ∉ (nodes t').*1) as Hnew by (intros q ?? Hn; by destruct (Hg q Hn)).
  split; [done|done|..].
  - intros k p Hp. rewrite Hm in Hp. unfold set_pages. destruct (decide (k = id)) as [->|Hne].
    + rewrite lookup_insert_eq in Hp. injection Hp as <-. exists v, ps. rewrite lookup_insert_eq. split_and!; [done..|].
      assert (forall q, q ∈ page :: ps -> ps_view (store_of s') q = ps_view (store_of s) q) as Hvq by (intros q Hq; apply Hv; [by apply Fu|by apply Ft]).
      split; [by eapply versioned_doc_mono|done| |intros q Hq; apply Hnew; [by apply Fu|by apply Ft]|].
      * intros q Hq. split; [by apply Hu, Fu|by apply Fu].
      * intros q Hq. right. rewrite Hw, Fb, decide_True, Hvq by done. by destruct (Fv q Hq) as [d ->].
    + rewrite lookup_insert_ne in Hp by done. destruct (ci_docs _ _ _ _ Hc k p Hp) as (vk & psk & Hvk & Hpk & Hlo).
      exists vk, psk. rewrite lookup_insert_ne by done. split_and!; [done..|]. eapply laid_out_moved; [exact Hlo|].
      intros q Hq. destruct (lo_used _ _ _ _ _ _ Hlo q Hq) as [Hqu _]. pose proof (lo_apart _ _ _ _ _ _ Hlo q Hq) as Hqn.
      split_and!; [by apply Hu|by apply Hv|by apply Hnew|].
      rewrite Hw, Fb, decide_False; [done|]. intros Hq'. apply (Fp k ltac:(by eexists) q); [by rewrite Hpk|done].
  - intros k Hk'. rewrite Hm in Hk'. destruct (decide (k = id)) as [->|Hne]; [by rewrite lookup_insert_eq in Hk'|].
    rewrite lookup_insert_ne in Hk' by done. rewrite lookup_insert_ne by done. by apply Hc.
  - intros k1 k2 H1 H2 Hne. unfold set_pages. destruct (decide (k1 = id)) as [->|?], (decide (k2 = id)) as [->|?]; try done.
    + rewrite lookup_insert_ne in H2 by done. intros q Hq Hq'. by apply (Fp k2 H2 q).
    + rewrite lookup_insert_ne in H1 by done. by apply Fp.
    + rewrite lookup_insert_ne in H1 by done. rewrite lookup_insert_ne in H2 by done. by apply Hc.
Qed.

(** The entry of a new version, its buffers and its record. *)
Lemma put_entry_spec s t docs pages id page ps v ws n :
  collection_in s t docs pages -> fresh_version s t docs pages page ps v ws ->
  height t <= fuel -> key_short id -> ps_room (store_of s) (Datatypes.S (Datatypes.S (height t)) + n) ->
  exists s' t', (let! _ := on_tree (BTree.insert fuel id page) in
      let! _ := buffer_pages ws in in_tx (write_document name id page)) s = (Ok tt, s') /\
    continues s s' /\ collection_in s' t' (<[id := v]> docs) (set_pages pages id (page :: ps)) /\
    tree_map t' = <[id := page]> (tree_map t) /\ height t' <= Datatypes.S (height t) /\ ps_room (store_of s') n.
Proof.
  intros Hc Hf Hh Hk Hroom.
  destruct (insert_lemma (tree_of s) t fuel id page n (ci_tree _ _ _ _ Hc) Hh Hk (fv_small _ _ _ _ _ _ _ _ Hf) Hroom)
    as (b & t' & Hi & Ht' & Hm & Hh' & Hto & Hr & Hg).
  destruct (on_tree_step _ _ _ _ Hi) as (s1 & H1 & Hb & Htx & Hct). rewrite (st_bind_ok _ _ _ _ _ H1). subst b.
  destruct (buffer_pages_spec ws s1) as (s2 & H2 & Hst & Hin & Hct2 & Hw); [rewrite Htx; apply Hc|].
  rewrite (st_bind_ok _ _ _ _ _ H2).
  set (s3 := mk_treeworld _ (mk_txworld _ (with_doc_writes (entry_alter name <[id := page]>) (tx_of s2)) (w_db (t_world s2))) (t_inner s2)).
  assert (is_active (tx_of s2) = true) as Hact.
  { destruct Hct2 as (_ & _ & -> & _). rewrite Htx. apply Hc. }
  assert (tree_of s3 = tree_of s1) as Htr by (unfold tree_of; change (pager (w_db (t_world s3))) with (store_of s2); by rewrite Hst, <-Hin).
  assert (store_of s3 = store_of s1) as Hst3 by done.
  exists s3, t'. split.
  { unfold in_tx, write_document, guard_active, get_tx, st_get, st_bind, st_ret, on_tx. unfold tx_of in Hact. by rewrite Hact. }
  split; [etrans; [exact Hct|]; etrans; [exact Hct2|by apply continues_db]|]. split; [|split_and!; [done|done|by rewrite Hst3]].
  eapply (entry_laid_out s s3 t t' docs pages id page ps v ws); try done.
  - by rewrite Htr.
  - by rewrite Hst3.
  - intros q. change (writes (tx_of s3)) with (writes (tx_of s2)). by rewrite Hw, Htx.
Qed.
Lemma missing_entry s t docs pages id : collection_in s t docs pages -> docs !! id = None -> tree_map t !! id = None.
Proof.
  intros Hc Hn. destruct (tree_map t !! id) as [p|] eqn:Hp; [|done].
  destruct (ci_docs _ _ _ _ Hc id p Hp) as (v & ps & Hv & _). by rewrite Hn in Hv.
Qed.

Lemma present_entry s t docs pages id v : collection_in s t docs pages -> docs !! id = Some v -> exists p, tree_map t !! id = Some p.
Proof.
  intros Hc Hv. destruct (tree_map t !! id) as [p|] eqn:Hp; [by exists p|]. by rewrite (ci_only _ _ _ _ Hc id Hp) in Hv.
Qed.

Lemma check_missing_spec s t docs pages id : collection_in s t docs pages -> height t <= fuel ->
  exists s', check_missing fuel id s =
    (match docs !! id with Some _ => Err (Other ("document with ID " +:+ id +:+ " already exists")) | None => Ok tt end, s') /\ quiet s s'.
Proof.
  intros Hc Hh. destruct (search_quiet s t id (ci_tree _ _ _ _ Hc) Hh) as (s1 & H1 & Hq). exists s1. split; [|done].
  unfold check_missing, st_bind, st_ok. rewrite H1. destruct (docs !! id) as [v|] eqn:Hv.
  - by destruct (present_entry _ _ _ _ _ _ Hc Hv) as [p ->].
  - by rewrite (missing_entry _ _ _ _ _ Hc Hv).
Qed.

Definition text_result {A} (x : A + string) : Result A := match x with inl a => Ok a | inr e => Err (json_error e) end.

(** The id and the text of a document to insert, or what keeps it from being inserted. *)
Definition inserted_text docs (generated : string) (doc : Value) : Result (string * list byte) :=
  match as_object doc with
  | None => Err (Other "document must be an object")
  | Some m =>
    let? '(id, m) := doc_with_id generated m in
    let? _ := match docs !! id with Some _ => Err (Other ("document with ID " +:+ id +:+ " already exists")) | None => Ok tt end in
    let? data := text_result (map_to_vec m) in
    Ok (id, data)
  end.

Lemma execute_insert_spec s t docs pages generated doc n :
  collection_in s t docs pages -> height t <= fuel -> (mvcc_tx_id (tx_of s) < 2 ^ 64)%N ->
  match inserted_text docs generated doc with
  | Ok (id, data) => key_short id -> doc_ok id data ->
      ps_room (store_of s) (2 + length data / MAX_OVERFLOW_DATA + (Datatypes.S (Datatypes.S (height t)) + n)) ->
      exists s' t' pages', execute_insert fuel name generated doc s = (Ok id, s') /\ continues s s' /\
        collection_in s' t' (<[id := mk_vdoc id data (mvcc_tx_id (tx_of s)) 0]> docs) pages' /\
        height t' <= Datatypes.S (height t) /\ ps_room (store_of s') n
  | r => exists s', execute_insert fuel name generated doc s = (obind (fun x => Ok x.1) r, s') /\ quiet s s'
  end.
Proof.
  intros Hc Hh Hx. assert (quiet s s) as Hrefl by apply quiet_refl, Hc.
  unfold inserted_text, execute_insert, insert_version. destruct (as_object doc) as [m|]; [|by exists s].
  destruct (doc_with_id generated m) as [[id m']|e| |]; cbn [obind]; [|by exists s..].
  erewrite st_bind_ok by (unfold st_lift; reflexivity). cbv beta iota.
  destruct (check_missing_spec s t docs pages id Hc Hh) as (s1 & H1 & Hq). pose proof (collection_quiet _ _ _ _ _ Hq Hc) as Hc1.
  destruct (docs !! id) as [v|]; cbn [obind]; [rewrite (st_bind_err _ _ _ _ _ H1); by exists s1|].
  rewrite (st_bind_ok _ _ _ _ _ H1). unfold of_text. fold (text_result (map_to_vec m')).
  destruct (text_result (map_to_vec m')) as [data|e| |]; cbn [obind]; [|exists s1; split; [reflexivity|done]..].
  intros Hk Hok Hroom. erewrite st_bind_ok by (unfold st_lift; reflexivity).
  pose proof Hq as ([Hw _] & _). assert (tx_of s1 = tx_of s) as Htx1 by exact Hw.
  destruct (new_version_spec s1 t docs pages id data (Datatypes.S (Datatypes.S (height t)) + n) Hc1 Hok) as
    (s2 & page & ps & ws & H2 & Htx2 & Hct2 & Hc2 & Hf & Hr2); [by rewrite Htx1|by apply Hq|].
  rewrite st_bind_assoc, (st_bind_ok _ _ _ _ _ H2). cbv beta iota.
  destruct (put_entry_spec s2 t docs pages id page ps _ ws n Hc2 Hf Hh Hk Hr2) as (s3 & t' & H3 & Hct3 & Hc3 & Hm & Hh' & Hr3).
  rewrite (st_bind_ok _ _ _ _ _ H3). exists s3, t', (set_pages pages id (page :: ps)).
  split; [done|]. split; [etrans; [by eapply quiet_continues|]; etrans; [exact Hct2|exact Hct3]|].
  rewrite Htx1 in Hc3. split_and!; [exact Hc3|exact Hh'|exact Hr3].
Qed.

(** *** Removing an entry *)
Lemma remove_entry_spec s s0 t docs pages id page :
  collection_in s0 t docs pages -> height t <= fuel -> tree_map t !! id = Some page ->
  tree_ok (tree_of s) t -> tx_of s = tx_of s0 ->
  (forall k q, k <> id -> is_Some (docs !! k) -> q ∈ pages k ->
    ps_used (store_of s) q /\ ps_view (store_of s) q = ps_view (store_of s0) q) ->
  exists s' t', on_tree (BTree.delete fuel id) s = (Ok tt, s') /\ tx_of s' = tx_of s /\ continues s s' /\
    collection_in s' t' (base.delete id docs) pages /\ height t' = height t /\
    (nodes t').*1 ≡ₚ (nodes t).*1 /\ touches (nodes t).*1 (store_of s) (store_of s') /\
    (forall n, ps_room (store_of s) n -> ps_room (store_of s') n) /\ t_inner s' = t_inner s.
Proof.
  intros Hc Hh Hp Ht Htx Hkeep. pose proof (delete_lemma (tree_of s) t fuel id Ht Hh) as Hd. rewrite Hp in Hd.
  destruct Hd as (b & t' & Hb & Ht' & Hm & Hh' & Hto & Hperm & Hr & Hin).
  destruct (on_tree_step _ _ _ _ Hb) as (s' & H1 & <- & Htx' & Hct). exists s', t'.
  split; [done|]. split; [done|]. split; [done|]. split; [|split_and!; [done|done|exact Hto|exact Hr|exact Hin]].
  destruct Hto as (Hinv & Hu & Hv). change (store (tree_of s')) with (store_of s') in *. change (store (tree_of s)) with (store_of s) in *.
  eapply collection_moved; [exact Hc|exact Ht'|rewrite Htx', Htx; apply Hc|..].
  - intros k p Hk. rewrite Hm in Hk. destruct (decide (k = id)) as [->|Hne]; [by rewrite lookup_delete_eq in Hk|].
    rewrite lookup_delete_ne in Hk by done. rewrite lookup_delete_ne by done. split_and!; [done..|]. intros q Hq Hused Hnn.
    destruct (ci_docs _ _ _ _ Hc k p Hk) as (v & ps & Hdk & _). destruct (Hkeep k q Hne ltac:(by eexists) Hq) as [Huq Hvq].
    split_and!; [by apply Hu|by rewrite Hv|by rewrite Hperm|by rewrite Htx', Htx].
  - intros k Hk. rewrite Hm in Hk. destruct (decide (k = id)) as [->|Hne]; [by rewrite lookup_delete_eq|].
    rewrite lookup_delete_ne in Hk by done. rewrite lookup_delete_ne by done. by apply Hc.
Qed.

(** The deletion of a document frees its pages. *)
Lemma execute_delete_spec s t docs pages id :
  collection_in s t docs pages -> height t <= fuel ->
  match docs !! id with
  | None => exists s', execute_delete_by_id fuel id s = (Err NotFound, s') /\ quiet s s'
  | Some _ => exists s' t', execute_delete_by_id fuel id s = (Ok tt, s') /\ continues s s' /\
      collection_in s' t' (base.delete id docs) pages /\ height t' = height t /\
      (forall n, ps_room (store_of s) n -> ps_room (store_of s') n) /\ tx_of s' = tx_of s /\ t_inner s' = t_inner s
  end.
Proof.
  intros Hc Hh. destruct (search_quiet s t id (ci_tree _ _ _ _ Hc) Hh) as (s1 & H1 & Hq). unfold execute_delete_by_id.
  destruct (docs !! id) as [v|] eqn:Hv; [|rewrite (missing_entry _ _ _ _ _ Hc Hv) in H1; rewrite (st_bind_err _ _ _ _ _ H1); by exists s1].
  destruct (present_entry _ _ _ _ _ _ Hc Hv) as [page Hp]. rewrite Hp in H1. rewrite (st_bind_ok _ _ _ _ _ H1).
  pose proof (collection_quiet _ _ _ _ _ Hq Hc) as Hc1. destruct (ci_docs _ _ _ _ Hc1 id page Hp) as (v' & ps & _ & Hps & Hlo).
  destruct (delete_document_ok (store_of s1) page ps) as (pg & Hdel & Hsh);
    [apply Hq|by eapply versioned_doc_linked, Hlo|apply Hlo|apply Hlo|].
  set (s2 := mk_treeworld _ (mk_txworld _ (tx_of s1) (with_pager (fun _ => pg) (w_db (t_world s1)))) (t_inner s1)).
  assert (in_tx (on_db (on_pager (delete_document page))) s1 = (Ok tt, s2)) as H2.
  { unfold in_tx, on_db, on_pager. unfold store_of in Hdel. by rewrite Hdel. }
  rewrite (st_bind_ok _ _ _ _ _ H2). destruct Hsh as [Hi Hu Hview Hroom].
  destruct (remove_entry_spec s2 s1 t docs pages id page Hc1 Hh Hp) as (s3 & t' & H3 & Htx & Hct & Hc3 & Hh' & _ & _ & Hr & Hin).
  - eapply tree_ok_moved; [apply Hc1|apply Hc1|done|exact Hi|]. intros q Hn Hused.
    assert (q ∉ page :: ps) as Hnot by (intros Hin; by eapply (lo_apart _ _ _ _ _ _ Hlo q)).
    split; [by apply Hu|by apply Hview].
  - done.
  - intros k q Hne Hk Hin. assert (q ∉ page :: ps) as Hnot.
    { rewrite <-Hps. intros Hin'. eapply (ci_apart _ _ _ _ Hc1 k id Hk ltac:(by eexists) Hne); done. }
    split; [|by apply Hview]. apply Hu. split; [|done]. by eapply collection_used.
  - pose proof Hq as ((Hwq & _) & Hiq & _). exists s3, t'. split; [done|].
    split_and!; [|exact Hc3|done| |rewrite Htx; exact Hwq|rewrite Hin; exact Hiq].
    + etrans; [by eapply quiet_continues|]. etrans; [|exact Hct]. done.
    + intros n Hn. apply Hr. apply Hroom. by apply Hq.
Qed.
Lemma fresh_moved s s' t t' docs docs' pages page ps v ws :
  fresh_version s t docs pages page ps v ws -> touches (nodes t).*1 (store_of s) (store_of s') ->
  (nodes t').*1 ≡ₚ (nodes t).*1 -> (forall id, is_Some (docs' !! id) -> is_Some (docs !! id)) ->
  fresh_version s' t' docs' pages page ps v ws.
Proof.
  intros [Fd Fn Fu Ft Fp Fs Fb] (Hinv & Hu & Hv) Hperm Hsub.
  assert (forall q, q ∈ page :: ps -> ps_view (store_of s') q = ps_view (store_of s) q) as Hvq
    by (intros q Hq; apply Hv; [by apply Fu|by apply Ft]).
  split; [by eapply versioned_doc_mono|done| | |intros id Hid; by apply Fp, Hsub|done|].
  - intros q Hq. split; [by apply Hu, Fu|by apply Fu].
  - intros q Hq. rewrite Hperm. by apply Ft.
  - intros q. rewrite Fb. by case_decide; [rewrite Hvq|].
Qed.

(** *** Replacing a version *)
Definition schema_check (md : Metadata) (doc : Map) : Result unit :=
  match collections md !! name ≫= schema with Some s => validate s (Object doc) | None => Ok tt end.

(** The text of the updated document, or what keeps it from being written: the version is
    looked for, parsed, merged with the updates, and checked against the schema. *)
Definition updated_text s t docs id (updates : Map) : Result (list byte) :=
  let? v := seen_version s t docs id in
  let? doc := text_result (map_from_slice (vd_data v)) in
  let? _ := schema_check (metadata (w_db (t_world s))) (merged id updates doc) in
  text_result (map_to_vec (merged id updates doc)).

Lemma check_schema_spec doc s :
  in_tx (on_db (check_schema name doc)) s = (schema_check (metadata (w_db (t_world s))) doc, s).
Proof.
  destruct s as [[tx d] inn]. unfold in_tx, on_db, check_schema, get_metadata, schema_check, st_bind, st_get. cbn [t_world w_db w_tx].
  rewrite metadata_clone_id. by destruct (collections (metadata d) !! name ≫= schema).
Qed.

(** A computation that stops at its first step. *)
Lemma bind_stops {A B} (m : ST treeworld Error A) (k : A -> ST treeworld Error B) (f : A -> Result B) s r s' :
  m s = (r, s') -> (forall a, r <> Ok a) -> st_bind k m s = (obind f r, s').
Proof. intros Hm Hr. unfold st_bind. rewrite Hm. destruct r; [by edestruct Hr|done..]. Qed.

Lemma replace_version_spec s t docs pages id updates n :
  collection_in s t docs pages -> height t <= fuel -> (mvcc_tx_id (tx_of s) < 2 ^ 64)%N ->
  match updated_text s t docs id updates with
  | Ok data => key_short id -> doc_ok id data ->
      ps_room (store_of s) (2 + length data / MAX_OVERFLOW_DATA + (Datatypes.S (Datatypes.S (height t)) + n)) ->
      exists s' t' pages', replace_version fuel name id updates s = (Ok tt, s') /\ continues s s' /\
        collection_in s' t' (<[id := mk_vdoc id data (mvcc_tx_id (tx_of s)) 0]> docs) pages' /\
        height t' <= Datatypes.S (height t) /\ ps_room (store_of s') n
  | r => exists s', replace_version fuel name id updates s = (obind (fun _ => Ok tt) r, s') /\ quiet s s'
  end.
Proof.
  intros Hc Hh Hx. destruct (visible_version_spec s t docs pages id Hc Hh) as (s1 & H1 & Hq). unfold updated_text, replace_version.
  destruct (seen_version s t docs id) as [v|e| |] eqn:Hseen; cbn [obind];
    [|exists s1; split; [rewrite (bind_stops _ _ (fun _ => Ok tt) _ _ _ H1) by done; done|done]..].
  rewrite (st_bind_ok _ _ _ _ _ H1). unfold of_text. fold (text_result (map_from_slice (vd_data v))).
  destruct (text_result (map_from_slice (vd_data v))) as [doc|e| |]; cbn [obind];
    [|exists s1; split; [by unfold st_bind, st_lift|done]..].
  erewrite st_bind_ok by (unfold st_lift; reflexivity). pose proof Hq as ((Hw & Hm & _) & _).
  assert (tx_of s1 = tx_of s) as Htx1 by exact Hw.
  pose proof (check_schema_spec (merged id updates doc) s1) as Hcheck.
  assert (metadata (w_db (t_world s1)) = metadata (w_db (t_world s))) as Hmd by by rewrite Hm. rewrite Hmd in Hcheck.
  destruct (schema_check (metadata (w_db (t_world s))) (merged id updates doc)) as [[]|e| |]; cbn [obind];
    [|exists s1; split; [rewrite (bind_stops _ _ (fun _ => Ok tt) _ _ _ Hcheck) by done; done|done]..].
  rewrite (st_bind_ok _ _ _ _ _ Hcheck). fold (text_result (map_to_vec (merged id updates doc))).
  destruct (text_result (map_to_vec (merged id updates doc))) as [data|e| |]; cbn [obind];
    [|exists s1; split; [by unfold st_bind, st_lift|done]..].
  intros Hk Hok Hroom. erewrite st_bind_ok by (unfold st_lift; reflexivity).
  pose proof (collection_quiet _ _ _ _ _ Hq Hc) as Hc1.
  destruct (new_version_spec s1 t docs pages id data (Datatypes.S (Datatypes.S (height t)) + n) Hc1 Hok) as
    (s2 & page & ps & ws & H2 & Htx2 & Hct2 & Hc2 & Hf & Hr2); [by rewrite Htx1|by apply Hq|].
  rewrite (st_bind_ok _ _ _ _ _ H2). cbv beta iota.
  assert (exists p, tree_map t !! id = Some p) as [p Hp].
  { unfold seen_version in Hseen. destruct (tree_map t !! id) as [p|]; [by exists p|done]. }
  destruct (remove_entry_spec s2 s2 t docs pages id p Hc2 Hh Hp) as (s3 & t3 & H3 & Htx3 & Hct3 & Hc3 & Hh3 & Hperm & Hto & Hr3 & _);
    [apply Hc2|done|intros; split; [by eapply collection_used|done]|].
  rewrite (st_bind_ok _ _ _ _ _ H3).
  assert (fresh_version s3 t3 (base.delete id docs) pages page ps (mk_vdoc id data (mvcc_tx_id (tx_of s1)) 0) ws) as Hf3.
  { eapply fresh_moved; [exact Hf|done|done|]. intros k Hin. destruct (decide (k = id)) as [->|Hne];
      [rewrite lookup_delete_eq in Hin; by destruct Hin|by rewrite lookup_delete_ne in Hin]. }
  destruct (put_entry_spec s3 t3 (base.delete id docs) pages id page ps _ ws n Hc3 Hf3) as (s4 & t' & H4 & Hct4 & Hc4 & _ & Hh4 & Hr4);
    [by rewrite Hh3|done|rewrite Hh3; by apply Hr3|].
  exists s4, t', (set_pages pages id (page :: ps)). split; [exact H4|]. rewrite insert_delete_eq, Htx1 in Hc4.
  split; [|split_and!; [exact Hc4|lia|exact Hr4]].
  etrans; [by eapply quiet_continues|]. etrans; [exact Hct2|]. etrans; [exact Hct3|exact Hct4].
Qed.
(** ** The operations of a finite map *)
Inductive doc_op := DInsert (generated : string) (doc : Value) | DUpdate (id : string) (updates : Map) | DDelete (id : string) | DFind (id : string).

Inductive doc_result :=
| RInserted (r : Result string) | RUpdated (r : Result unit) | RDeleted (r : Result unit) | RFound (r : Result VersionedDocument).

(** The code, one operation after the other in the scope of a transaction. *)
Definition run_doc_op (o : doc_op) s : doc_result * treeworld :=
  match o with
  | DInsert generated doc => let '(r, s) := execute_insert fuel name generated doc s in (RInserted r, s)
  | DUpdate id updates => let '(r, s) := replace_version fuel name id updates s in (RUpdated r, s)
  | DDelete id => let '(r, s) := execute_delete_by_id fuel id s in (RDeleted r, s)
  | DFind id => let '(r, s) := visible_version fuel id s in (RFound r, s)
  end.

Fixpoint run_doc_ops (os : list doc_op) s : list doc_result * treeworld :=
  match os with
  | [] => ([], s)
  | o :: os => let '(r, s) := run_doc_op o s in let '(rs, s) := run_doc_ops os s in (r :: rs, s)
  end.

(** The specification, for the transaction [x] with its snapshot, under a catalogue. *)
Section specification.
Variables (x snapshot : N) (md : Metadata).

Definition spec_find docs id : Result VersionedDocument :=
  match docs !! id with
  | None => Err NotFound
  | Some _ => of_option (Err (Other "document not found")) (version_of snapshot docs id)
  end.

(** What is to be written: the id and the text of the document. *)
Definition spec_text (o : doc_op) docs : Result (string * list byte) :=
  match o with
  | DInsert generated doc => inserted_text docs generated doc
  | DUpdate id updates =>
    let? v := spec_find docs id in
    let? doc := text_result (map_from_slice (vd_data v)) in
    let? _ := schema_check md (merged id updates doc) in
    let? data := text_result (map_to_vec (merged id updates doc)) in
    Ok (id, data)
  | DDelete _ | DFind _ => Err NotFound
  end.

Definition spec_write (o : doc_op) docs : gmap string VersionedDocument :=
  match spec_text o docs with Ok (id, data) => <[id := mk_vdoc id data x 0]> docs | _ => docs end.

Definition spec_doc_op (o : doc_op) docs : doc_result * gmap string VersionedDocument :=
  match o with
  | DInsert _ _ => (RInserted (let? '(id, _) := spec_text o docs in Ok id), spec_write o docs)
  | DUpdate _ _ => (RUpdated (let? _ := spec_text o docs in Ok tt), spec_write o docs)
  | DDelete id => (RDeleted match docs !! id with Some _ => Ok tt | None => Err NotFound end, base.delete id docs)
  | DFind id => (RFound (spec_find docs id), docs)
  end.

Fixpoint spec_doc_ops (os : list doc_op) docs : list doc_result * gmap string VersionedDocument :=
  match os with
  | [] => ([], docs)
  | o :: os => let '(r, docs) := spec_doc_op o docs in let '(rs, docs) := spec_doc_ops os docs in (r :: rs, docs)
  end.

(** The keys and texts that are written have sizes that the code can store. *)
Definition op_fits (o : doc_op) docs : Prop :=
  match spec_text o docs with Ok (id, data) => key_short id /\ doc_ok id data | _ => True end.

Fixpoint ops_fit (os : list doc_op) docs : Prop :=
  match os with [] => True | o :: os => op_fits o docs /\ ops_fit os (spec_doc_op o docs).2 end.

(** The pages that the operations may take, for a tree of height at most [h]. *)
Definition op_cost (o : doc_op) docs : nat :=
  match spec_text o docs with Ok (_, data) => 2 + length data / MAX_OVERFLOW_DATA | _ => 0 end.

Fixpoint ops_cost (h : nat) (os : list doc_op) docs : nat :=
  match os with
  | [] => 0
  | o :: os => op_cost o docs + (Datatypes.S (Datatypes.S h) + ops_cost (Datatypes.S h) os (spec_doc_op o docs).2)
  end.
End specification.

Lemma seen_version_find s t docs pages id : collection_in s t docs pages ->
  seen_version s t docs id = spec_find (snapshot_id (tx_of s)) docs id.
Proof.
  intros Hc. unfold seen_version, spec_find. destruct (docs !! id) as [v|] eqn:Hv.
  - by destruct (present_entry _ _ _ _ _ _ Hc Hv) as [p ->].
  - by rewrite (missing_entry _ _ _ _ _ Hc Hv).
Qed.

Lemma collection_find s t docs pages id : collection_in s t docs pages -> height t <= fuel ->
  exists s', visible_version fuel id s = (spec_find (snapshot_id (tx_of s)) docs id, s') /\ quiet s s'.
Proof. intros Hc Hh. rewrite <-(seen_version_find s t docs pages id Hc). by eapply visible_version_spec. Qed.

Lemma spec_text_update s t docs pages id updates : collection_in s t docs pages ->
  spec_text (snapshot_id (tx_of s)) (metadata (w_db (t_world s))) (DUpdate id updates) docs =
    (let? data := updated_text s t docs id updates in Ok (id, data)).
Proof.
  intros Hc. cbn [spec_text]. unfold updated_text. rewrite (seen_version_find s t docs pages id Hc).
  destruct (spec_find _ docs id) as [v|e| |]; [|done..]. cbn [obind]. destruct (text_result _) as [doc|e| |]; [|done..]. cbn [obind].
  by destruct (schema_check _ _) as [[]|e| |].
Qed.

(** One operation, on a tree of height at most [h]. *)
Lemma run_doc_op_spec o s t docs pages h n :
  let x := mvcc_tx_id (tx_of s) in let snapshot := snapshot_id (tx_of s) in let md := metadata (w_db (t_world s)) in
  collection_in s t docs pages -> height t <= h -> h <= fuel -> (x < 2 ^ 64)%N -> op_fits snapshot md o docs ->
  ps_room (store_of s) (op_cost snapshot md o docs + (Datatypes.S (Datatypes.S h) + n)) ->
  exists s' t' pages', run_doc_op o s = ((spec_doc_op x snapshot md o docs).1, s') /\ continues s s' /\
    collection_in s' t' (spec_doc_op x snapshot md o docs).2 pages' /\ height t' <= Datatypes.S h /\ ps_room (store_of s') n.
Proof.
  intros x snapshot md Hc Hth Hh Hx Hfit Hroom. assert (height t <= fuel) as Hf by lia.
  assert (forall s', quiet s s' -> continues s s' /\ collection_in s' t docs pages /\ height t <= Datatypes.S h /\ ps_room (store_of s') n) as Hquiet.
  { intros s' Hq. split_and!; [by apply quiet_continues|by eapply collection_quiet|lia|].
    apply Hq. eapply ps_room_le; [exact Hroom|lia]. }
  destruct o as [generated doc|id updates|id|id]; cbn [run_doc_op spec_doc_op].
  - pose proof (execute_insert_spec s t docs pages generated doc n Hc Hf Hx) as Hr.
    unfold spec_write, op_fits, op_cost in *. cbn [spec_text] in *.
    destruct (inserted_text docs generated doc) as [[id data]|e| |];
      [|destruct Hr as (s' & -> & Hq); exists s', t, pages; split; [done|by apply Hquiet]..].
    destruct Hr as (s' & t' & pages' & -> & Hct & Hc' & Hh' & Hr'); [by apply Hfit..|eapply ps_room_le; [exact Hroom|lia]|].
    exists s', t', pages'. split_and!; [done|done..|exact Hc'|lia|done].
  - pose proof (replace_version_spec s t docs pages id updates n Hc Hf Hx) as Hr.
    unfold spec_write, op_fits, op_cost in *. unfold snapshot, md in *. rewrite (spec_text_update s t docs pages id updates Hc) in *.
    destruct (updated_text s t docs id updates) as [data|e| |]; cbn [obind] in *;
      [|destruct Hr as (s' & -> & Hq); exists s', t, pages; split; [done|by apply Hquiet]..].
    destruct Hr as (s' & t' & pages' & -> & Hct & Hc' & Hh' & Hr'); [by apply Hfit..|eapply ps_room_le; [exact Hroom|lia]|].
    exists s', t', pages'. split_and!; [done|done..|exact Hc'|lia|done].
  - pose proof (execute_delete_spec s t docs pages id Hc Hf) as Hd. destruct (docs !! id) as [v|] eqn:Hv.
    + destruct Hd as (s' & t' & -> & Hct & Hc' & Hh' & Hr & _). exists s', t', pages. split_and!; [done|done..|lia|].
      apply Hr. eapply ps_room_le; [exact Hroom|lia].
    + destruct Hd as (s' & -> & Hq). exists s', t, pages. split; [done|]. rewrite delete_id by done. by apply Hquiet.
  - destruct (collection_find s t docs pages id Hc Hf) as (s' & -> & Hq). exists s', t, pages. split; [done|by apply Hquiet].
Qed.
Lemma run_doc_ops_spec os : forall s t docs pages h,
  let x := mvcc_tx_id (tx_of s) in let snapshot := snapshot_id (tx_of s) in let md := metadata (w_db (t_world s)) in
  collection_in s t docs pages -> height t <= h -> h + length os <= fuel -> (x < 2 ^ 64)%N -> ops_fit x snapshot md os docs ->
  ps_room (store_of s) (ops_cost x snapshot md h os docs) ->
  exists s' t' pages', run_doc_ops os s = ((spec_doc_ops x snapshot md os docs).1, s') /\ continues s s' /\
    collection_in s' t' (spec_doc_ops x snapshot md os docs).2 pages' /\ height t' <= h + length os.
Proof.
  induction os as [|o os IH]; intros s t docs pages h x snapshot md Hc Hth Hh Hx Hfit Hroom.
  { exists s, t, pages. split_and!; [done..|simpl; lia]. }
  cbn [ops_fit ops_cost run_doc_ops spec_doc_ops length] in *. destruct Hfit as [Hfit1 Hfit].
  destruct (run_doc_op_spec o s t docs pages h _ Hc Hth ltac:(lia) Hx Hfit1 Hroom) as (s1 & t1 & pages1 & -> & Hct & Hc1 & Hh1 & Hr1).
  fold x snapshot md in Hc1 |- *. destruct (spec_doc_op x snapshot md o docs) as [r docs1]. cbn [fst snd] in *.
  assert (mvcc_tx_id (tx_of s1) = x /\ snapshot_id (tx_of s1) = snapshot /\ metadata (w_db (t_world s1)) = md) as (Ex & Es & Em).
  { split_and!; [apply Hct|apply Hct|by apply continues_metadata]. }
  destruct (IH s1 t1 docs1 pages1 (Datatypes.S h)) as (s2 & t2 & pages2 & H2 & Hct2 & Hc2 & Hh2);
    rewrite ?Ex, ?Es, ?Em; [done|done|lia|done|done|done|]. rewrite Ex, Es, Em in H2, Hc2. rewrite H2.
  destruct (spec_doc_ops x snapshot md os docs1) as [rs docs2]. exists s2, t2, pages2.
  split_and!; [done|by etrans|exact Hc2|lia].
Qed.

(** C3: a collection is a finite map from ids to versions. In the scope of a transaction, on any
    tree whose entries name versions laid out apart from each other and from the tree, every
    sequence of insertions, updates, deletions and look-ups by id gives the results of the
    specification on the map, errors included, and ends with the map of the specification in
    the same layout: inserting fails on an id that is taken, updating on a version that the
    snapshot does not see or a document that fails the schema; both write a version of the
    transaction; deleting takes any version. The keys have at most 71 bytes, and there is
    room for the pages. *)
Theorem collection_refines_map s t docs pages os
    (Hcoll : collection_in s t docs pages) (Hheight : height t + length os <= fuel) (Htx : (mvcc_tx_id (tx_of s) < 2 ^ 64)%N)
    (Hfit : ops_fit (mvcc_tx_id (tx_of s)) (snapshot_id (tx_of s)) (metadata (w_db (t_world s))) os docs)
    (Hroom : ps_room (store_of s)
      (ops_cost (mvcc_tx_id (tx_of s)) (snapshot_id (tx_of s)) (metadata (w_db (t_world s))) (height t) os docs)) :
  let spec := spec_doc_ops (mvcc_tx_id (tx_of s)) (snapshot_id (tx_of s)) (metadata (w_db (t_world s))) os docs in
  exists s' t' pages', run_doc_ops os s = (spec.1, s') /\ collection_in s' t' spec.2 pages' /\ continues s s'.
Proof.
  destruct (run_doc_ops_spec os s t docs pages (height t) Hcoll) as (s' & t' & pages' & ? & ? & ? & _); [done..|].
  by exists s', t', pages'.
Qed.

(** A collection whose tree was just made. *)
Lemma new_collection_in s p : tree_ok (tree_of s) (TLeaf p [] 0) -> is_active (tx_of s) = true ->
  collection_in s (TLeaf p [] 0) ∅ (fun _ => []).
Proof.
  intros Ht Ha. split; [done|done| |intros; apply lookup_empty|intros ? ? [? H]; by rewrite lookup_empty in H].
  intros id page H. by apply (lookup_empty_Some (M := gmap string) id page) in H.
Qed.

Lemma collection_size s t docs pages : collection_in s t docs pages -> length (tree_entries t) = size docs.
Proof.
  intros Hc. assert (dom (tree_map t) = dom docs) as Hdom.
  { apply set_eq. intros id. rewrite !elem_of_dom. split; intros [x Hx].
    - destruct (ci_docs _ _ _ _ Hc id x Hx) as (v & ps & -> & _). by exists v.
    - destruct (present_entry _ _ _ _ _ _ Hc Hx) as [p Hp]. by exists p. }
  rewrite <-size_dom, <-Hdom, size_dom. unfold tree_map, entries_map. rewrite map_size_list_to_map; [by rewrite length_fmap|].
  rewrite <-list_fmap_compose. apply sorted_nodup, sorted_keys, Hc.
Qed.

(** What the readers of the collection rely on. *)
Lemma collection_readable s t docs pages : collection_in s t docs pages -> height t <= fuel -> size docs < fuel ->
  readable fuel (store_of s) (root_page (t_inner s)) t docs.
Proof.
  intros Hc Hh Hn. pose proof (ci_tree _ _ _ _ Hc) as Ht. rewrite <-(collection_size _ _ _ _ Hc) in Hn. split; [|done|done| |apply Hc].
  - eapply tree_ok_moved; [exact Ht|by split_and!|done|apply Ht|by intros].
  - intros id page Hp. destruct (ci_docs _ _ _ _ Hc id page Hp) as (v & ps & Hv & _ & Hlo). exists v. split; [done|].
    exists ps. split_and!; [apply Hlo|intros q Hq; by eapply lo_used|]. apply lo_nodup in Hlo. by apply NoDup_cons in Hlo as [_ ?].
Qed.
End layout.
