(* ===== verification/CollectionCommit.v ===== *)
(** * Whole operations on a collection (collection.rs)

    The operations with the transaction that they begin, commit and drop. *)

From stdpp Require Import base list strings gmap sorting.
From Stdlib Require Import NArith Lia.
From S2P Require Import Prelude Constants Bytes Text PageStore Json QueryParser IndexKey QueryBuilder LruCache Pager Document BTreeNode BTree BTreeSpec.
From S2P Require Import Wal Mvcc Validation TxBTree Metadata Watch DatabaseState Transaction TxCollection Database Errors Collection.
From S2P Require Import Frames CommitSpec CollectionSpec CollectionTree.

#[local] Open Scope nat_scope.

Section whole.
Context {tables : UnicodeTables} {numbers : SerdeNumber} {text : SerdeText} {catalogue : SerdeCatalogue} {bytes : SerdeBytes}
  {messages : Messages} {debug_str : DebugStr} {clock : Clock} {page_order : HashMapOrder N} {name_order : HashMapOrder string}.
Variable fuel : nat.
Variable name : string.
Implicit Types (d : Database) (s : treeworld) (docs : gmap string VersionedDocument) (t : tree) (pages : string -> list N) (id : string).

(** What the pager and the catalogue hold of the collection: in the scope of a transaction that
    has written nothing, it is laid out as the operations need it. *)
Definition stored_collection d t docs pages : Prop := exists c s,
  collections (metadata d) !! name = Some c /\ btree_root c <> 0%N /\
  store_of s = pager d /\ t_inner s = inner_new (btree_root c) /\ writes (tx_of s) = ∅ /\ collection_in s t docs pages.

(** Another transaction finds it the same. *)
Lemma collection_scope s s' t docs pages :
  store_of s' = store_of s -> t_inner s' = t_inner s -> writes (tx_of s) = ∅ -> writes (tx_of s') = ∅ -> is_active (tx_of s') = true ->
  collection_in s t docs pages -> collection_in s' t docs pages.
Proof.
  intros Hst Hin Hw Hw' Ha Hc. assert (tree_of s' = tree_of s) as Ht by (unfold tree_of; fold (store_of s') (store_of s); by rewrite Hst, Hin).
  eapply collection_moved; [exact Hc|rewrite Ht; apply Hc|done| |apply Hc].
  intros k p Hk. split_and!; [done..|]. intros q _ Hu Hn. by rewrite Hst, Hw, Hw'.
Qed.

(** The tree of a collection at its root in the catalogue, after a step that kept the root. *)
Lemma stored_after d s t docs pages c :
  collections (metadata d) !! name = Some c -> btree_root c <> 0%N -> store_of s = pager d ->
  root_page (t_inner s) = btree_root c -> writes (tx_of s) = ∅ -> collection_in s t docs pages -> stored_collection d t docs pages.
Proof.
  intros Hc Hr Hp Hroot Hw Hcoll. exists c, (mk_treeworld _ (t_world s) (inner_new (btree_root c))). split_and!; [done..|].
  eapply (collection_moved s); [exact Hcoll| |apply Hcoll| |apply Hcoll].
  - eapply tree_ok_moved; [apply Hcoll|by split_and!|by rewrite <-Hroot|apply Hcoll|]. by intros.
  - intros k p Hk. split_and!; [done..|]. by intros.
Qed.

(** What beginning, finishing and dropping a transaction leave alone. *)
Definition same_data d d' : Prop := exists n m, d' = with_tx_id_counter (fun _ => n) (with_tx_manager (fun _ => m) d).

#[export] Instance same_data_preorder : PreOrder same_data.
Proof.
  split; [intros d; exists (tx_id_counter d), (tx_manager d); by destruct d|].
  intros d1 d2 d3 (n1 & m1 & ->) (n2 & m2 & ->). by exists n2, m2.
Qed.

Lemma begin_scope d : exists tx d', begin_db d = (Ok tx, d') /\ same_data d d' /\
  writes tx = ∅ /\ snapshot_id tx = snapshot_now d /\ is_active tx = true /\ mvcc_tx_id tx = next_tx_id (tx_manager d).
Proof.
  unfold begin_db, transaction_new, snapshot_now, get_metadata, st_bind, st_get, st_ret, st_modify, on_manager.
  cbn. eexists _, _. split; [reflexivity|]. split; [|done]. do 2 eexists. by destruct d.
Qed.

Lemma drop_same w : same_data (w_db w) (w_db (drop_transaction w).2).
Proof.
  unfold drop_transaction, st_bind, get_tx, st_get. cbn. destruct (is_active (w_tx w)); cbn; [|reflexivity].
  exists (tx_id_counter (w_db w)). exists (abort_transaction (mvcc_tx_id (w_tx w)) (tx_manager (w_db w))).
  by destruct (w_db w).
Qed.

Lemma stored_same d d' t docs pages : same_data d d' -> stored_collection d t docs pages -> stored_collection d' t docs pages.
Proof. intros (n & m & ->) (c & s & H). by exists c, s. Qed.

Lemma stored_readable d t docs pages : stored_collection d t docs pages -> height t <= fuel -> size docs < fuel ->
  collection_at fuel name d t docs.
Proof.
  intros (c & s & Hc & Hr & Hp & Hi & Hw & Hcoll) Hh Hn. exists c. split_and!; [done..|].
  pose proof (collection_readable fuel s t docs pages Hcoll Hh Hn) as Hre. by rewrite Hp, Hi in Hre.
Qed.

(** The scope of a change of an existing collection, up to the commit. *)
Lemma change_scope (m : ST treeworld Error unit) d t docs pages :
  stored_collection d t docs pages ->
  exists c s, collections (metadata d) !! name = Some c /\ collection_in s t docs pages /\ writes (tx_of s) = ∅ /\
    same_data d (w_db (t_world s)) /\ t_inner s = inner_new (btree_root c) /\ btree_root c <> 0%N /\
    mvcc_tx_id (tx_of s) = next_tx_id (tx_manager d) /\ snapshot_id (tx_of s) = snapshot_now d /\
    change_existing fuel name m d =
      let '(r, s') := (let! _ := m in track_root name) s in
      let '(r, w) := match r with Ok _ => commit fuel (t_world s') | r => (r, t_world s') end in
      (r, w_db (drop_transaction w).2).
Proof.
  intros (c & s & Hc & Hr & Hp & Hi & Hw & Hcoll). destruct (begin_scope d) as (tx & d1 & Hb & Hd & Hwt & Hsn & Ha & Hx).
  pose proof Hd as (n1 & m1 & E1).
  set (w0 := mk_txworld _ tx d1). set (s0 := mk_treeworld _ w0 (inner_new (btree_root c))).
  exists c, s0. split_and!; [done| |done|done|done|done|done|done|].
  - eapply (collection_scope s); try done. unfold store_of, s0, w0. simpl. rewrite E1. by symmetry.
  - unfold change_existing, with_transaction. rewrite (st_bind_ok _ _ _ _ _ Hb).
    rewrite (st_bind_ok _ _ _ _ _ (existing_root_spec name w0 c ltac:(simpl; by rewrite E1))).
    rewrite (proj2 (N.eqb_neq _ _) Hr). unfold st_bind at 1. rewrite with_tree_spec. fold s0.
    destruct ((let! _ := m in track_root name) s0) as [[[]|e| |] s']; cbn [fst snd]; done.
Qed.
Lemma track_root_spec s : exists s', track_root name s = (Ok tt, s') /\ w_db (t_world s') = w_db (t_world s) /\
  t_inner s' = t_inner s /\ continues s s' /\ writes (tx_of s') = writes (tx_of s) /\ doc_writes (tx_of s') = doc_writes (tx_of s) /\
  updated_roots (tx_of s') = <[name := if (BTree.modified_root (t_inner s) =? 0)%N then BTree.root_page (t_inner s) else BTree.modified_root (t_inner s)]>
    (updated_roots (tx_of s)) /\ modified_collections (tx_of s') = {[name]} ∪ modified_collections (tx_of s).
Proof.
  destruct s as [[tx d] i]. unfold track_root, get_root_page, on_tree, in_tx, set_collection_root, on_tx, st_bind, st_get. cbn.
  eexists. split; [reflexivity|]. unfold tx_of. cbn. assert (with_pager (fun _ => pager d) d = d) as E by by destruct d.
  split_and!; [exact E|done| |done..]. apply continues_db; [done..|exact E].
Qed.

(** A commit of a transaction that has written no page. *)
Lemma commit_nothing w : is_active (w_tx w) = true -> writes (w_tx w) = ∅ ->
  exists w', commit fuel w = (Ok tt, w') /\ is_active (w_tx w') = false /\ same_data (w_db w) (w_db w').
Proof.
  intros Ha Hw. unfold commit, st_bind, get_tx, st_get, on_tx. cbn. rewrite Ha. cbn. rewrite decide_True by done.
  eexists. split; [reflexivity|]. split; [done|]. exists (tx_id_counter (w_db w)), (commit_transaction (mvcc_tx_id (w_tx w)) (tx_manager (w_db w))).
  by destruct (w_db w).
Qed.

Lemma same_data_fields d d' : same_data d d' -> pager d' = pager d /\ metadata d' = metadata d /\ wal d' = wal d.
Proof. by intros (n & m & ->). Qed.

Lemma removed_not_found d t docs pages id : stored_collection d t (base.delete id docs) pages -> height t <= fuel -> size docs < fuel ->
  (Collection.find_by_id fuel name id d).1 = Err NotFound.
Proof.
  intros Hst Hh Hn. rewrite (find_by_id_lemma fuel name d t (base.delete id docs) id).
  - unfold found_by_id. destruct (tree_map t !! id) as [p|] eqn:Hp; [|done].
    destruct Hst as (_ & s & _ & _ & _ & _ & _ & Hcoll). destruct (ci_docs _ _ _ _ Hcoll id p Hp) as (v & ps & Hv & _).
    by rewrite lookup_delete_eq in Hv.
  - apply (stored_readable _ _ _ pages); [done|done|]. eapply Nat.le_lt_trans; [|exact Hn].
    apply map_subseteq_size, delete_subseteq.
Qed.

(** The buffers of a transaction can be forgotten: the pages hold what they hold. *)
Lemma collection_flushed s s' t docs pages :
  collection_in s t docs pages -> store_of s' = store_of s -> idle (tree_of s') -> root_page (t_inner s') = root_page (t_inner s) ->
  writes (tx_of s') = ∅ -> is_active (tx_of s') = true -> collection_in s' t docs pages.
Proof.
  intros [Ht Ha Hd Ho Hap] Hst Hid Hroot Hw Ha'. split; [|done| |done|done].
  - eapply tree_ok_moved; [exact Ht|done|exact Hroot|unfold tree_of; fold (store_of s'); rewrite Hst; apply Ht|].
    intros q _ Hq. unfold tree_of. cbn [store]. fold (store_of s') (store_of s). by rewrite Hst.
  - intros k p Hp. destruct (Hd k p Hp) as (v & ps & Hv & Hps & [Ld Ln Lu La _]). exists v, ps. split_and!; [done..|].
    rewrite Hst, Hw. split; [done..|]. intros q _. by left.
Qed.

(** C22: a deletion by id, from beginning to end. On a collection whose versions lie apart from each
    other and from the tree, it fails with [NotFound] when the id has no version; otherwise it
    succeeds, whoever sees the version, the collection is stored without it, and a look-up by id
    does not find it. In both cases the log and the catalogue stay as they were: nothing of a
    deletion is logged. *)
Theorem delete_by_id_removes d t docs pages id
    (Hstored : stored_collection d t docs pages) (Hheight : height t <= fuel) (Hsize : size docs < fuel) :
  exists r d' t', Collection.delete_by_id fuel name id d = (r, d') /\ wal d' = wal d /\ metadata d' = metadata d /\
    r = match docs !! id with Some _ => Ok tt | None => Err NotFound end /\
    stored_collection d' t' (base.delete id docs) pages /\ height t' = height t /\
    (Collection.find_by_id fuel name id d').1 = Err NotFound.
Proof.
  destruct (change_scope (execute_delete_by_id fuel id) d t docs pages Hstored)
    as (c & s & Hc & Hcoll & Hw & Hd & Hi & Hr & _ & _ & Hrun).
  destruct (same_data_fields _ _ Hd) as (Hdp & Hdm & Hdw). unfold Collection.delete_by_id. rewrite Hrun.
  pose proof (execute_delete_spec fuel s t docs pages id Hcoll Hheight) as Hx.
  destruct (docs !! id) as [v|] eqn:Hv.
  - destruct Hx as (s1 & t' & H1 & Hct & Hc1 & Hh & _ & Htx & Hin). destruct (track_root_spec s1) as (s2 & H2 & Hd2 & Hi2 & Hct2 & Hw2 & _).
    rewrite (st_bind_ok _ _ _ _ _ H1), H2. cbv beta iota.
    destruct (commit_nothing (t_world s2)) as (w & H3 & Ha & Hsd).
    { change (is_active (tx_of s2) = true). destruct Hct2 as (_ & _ & -> & _). apply Hc1. }
    { change (writes (tx_of s2) = ∅). by rewrite Hw2, Htx. }
    rewrite H3. pose proof (drop_same w) as Hdr. pose proof (same_data_fields _ _ (transitivity Hsd Hdr)) as (Ep & Em & Ew).
    set (d' := w_db (drop_transaction w).2) in *. rewrite Hd2 in Ep, Em, Ew. destruct Hct as (_ & _ & _ & Hdb).
    rewrite Hdb in Em, Ew, Ep. cbn in Em, Ew, Ep.
    assert (stored_collection d' t' (base.delete id docs) pages) as Hst.
    { apply (stored_after d' s1 t' _ pages c); [by rewrite Em, Hdm|done|by rewrite Ep|by rewrite Hin, Hi|by rewrite Htx|done]. }
    exists (Ok tt), d', t'. split_and!; [done|by rewrite Ew, Hdw|by rewrite Em, Hdm|done|done|done|eapply removed_not_found; [done|lia|done]].
  - destruct Hx as (s1 & H1 & Hq). rewrite (st_bind_err _ _ _ _ _ H1). cbv beta iota.
    pose proof (drop_same (t_world s1)) as Hdr. pose proof (same_data_fields _ _ Hdr) as (Ep & Em & Ew).
    set (d' := w_db (drop_transaction (t_world s1)).2) in *. pose proof Hq as ((Htx & Hdb & _) & Hin & _).
    rewrite Hdb in Em, Ew, Ep. cbn in Em, Ew, Ep.
    assert (stored_collection d' t (base.delete id docs) pages) as Hst.
    { rewrite delete_id by done. apply (stored_after d' s1 t _ pages c); [by rewrite Em, Hdm|done|by rewrite Ep|by rewrite Hin, Hi| |by eapply collection_quiet].
      unfold tx_of. by rewrite Htx. }
    exists (Err NotFound), d', t. split_and!; [done|by rewrite Ew, Hdw|by rewrite Em, Hdm|done|done|done|eapply removed_not_found; [done|lia|done]].
Qed.
End whole.
