(* ===== verification/WebServerSpec.v ===== *)
(** * What requests do (web_server.rs)

    The table of routes; the requests that leave no trace; what the requests about collections
    do to the catalogue. *)

From stdpp Require Import base list strings gmap.
From Stdlib Require Import NArith Lia Strings.Byte Ascii.
From S2P Require Import Prelude Constants Bytes Text Order PageStore Json IndexKey QueryBuilder LruCache Pager Document BTreeNode BTree.
From S2P Require Import Wal Mvcc Validation TxBTree Metadata Watch DatabaseState Transaction TxCollection Database Errors Collection Metrics WebServer.
From S2P Require Import Frames CommitSpec CollectionSpec CollectionTree CollectionCommit.

#[local] Open Scope nat_scope.

Section server.
Context {tables : UnicodeTables} {numbers : SerdeNumber} {text : SerdeText} {catalogue : SerdeCatalogue} {bytes : SerdeBytes}
  {messages : Messages} {debug : DebugText} {str_debug : DebugStr} {web : SerdeWeb}
  {clock : Clock} {page_order : HashMapOrder N} {name_order : HashMapOrder string}.
Variable web_ui_html : string.
Variable fuel : nat.
Implicit Types (d : Database) (w : txworld) (s : collworld) (req : Request).

(** ** Routes *)
Definition base_path : string := "/api/collections/".

(** A part of a path that names something. *)
Definition segment (x : string) : Prop := x <> "" /\ contains_char "/" x = false.

Inductive route (metrics : Metrics) (generated : string) (req : Request) : ST Database Error Response -> Prop :=
  | dashboard_route : method req = "GET" -> url req = "/" -> route metrics generated req (st_ret (serve_dashboard web_ui_html))
  | metrics_route : method req = "GET" -> url req = "/metrics" -> route metrics generated req (st_ret (serve_metrics metrics))
  | health_route : method req = "GET" -> url req = "/health" -> route metrics generated req (st_ret serve_health)
  | list_route : method req = "GET" -> url req = "/api/collections" -> route metrics generated req serve_collections_list
  | create_route : method req = "POST" -> url req = "/api/collections" -> route metrics generated req (serve_create_collection fuel req)
  | documents_route x : method req = "GET" -> url req = base_path +:+ x -> segment x ->
      route metrics generated req (serve_collection_documents fuel x)
  | insert_route x : method req = "POST" -> url req = base_path +:+ x -> segment x ->
      route metrics generated req (serve_create_document fuel generated x req)
  | update_route x id : method req = "PUT" -> url req = base_path +:+ x +:+ "/" +:+ id -> segment x -> segment id ->
      route metrics generated req (serve_update_document fuel x id req)
  | rename_route x : method req = "PATCH" -> url req = base_path +:+ x -> segment x ->
      route metrics generated req (serve_rename_collection fuel x req)
  | drop_route x : method req = "DELETE" -> url req = base_path +:+ x -> segment x ->
      route metrics generated req (serve_drop_collection fuel x)
  | delete_route x id : method req = "DELETE" -> url req = base_path +:+ x +:+ "/" +:+ id -> segment x -> segment id ->
      route metrics generated req (serve_delete_document fuel x id).

Lemma strip_prefix_app p rest : strip_prefix p (p +:+ rest) = Some rest.
Proof. induction p as [|a p IH]; [done|].
  change (String a p +:+ rest) with (String a (p +:+ rest)). cbn [strip_prefix]. by rewrite decide_True. Qed.

Lemma strip_prefix_inv p path rest : strip_prefix p path = Some rest -> path = p +:+ rest.
Proof.
  revert path. induction p as [|a p IH]; intros path H; [by injection H|]. destruct path as [|b path]; [done|]. cbn [strip_prefix] in H.
  case_decide; [|done]. subst b. change (String a p +:+ rest) with (String a (p +:+ rest)). f_equal. by apply IH.
Qed.

Lemma parts_one x : segment x -> parts (base_path +:+ x) = Some [x].
Proof. intros [_ Hx]. unfold parts, base_path. by rewrite strip_prefix_app; cbn [fmap option_fmap option_map]; rewrite split_at_none. Qed.

Lemma parts_two x y : segment x -> segment y -> parts (base_path +:+ x +:+ "/" +:+ y) = Some [x; y].
Proof.
  intros [_ Hx] [_ Hy]. unfold parts, base_path. rewrite strip_prefix_app. cbn [fmap option_fmap option_map].
  change ("/" +:+ y) with (String "/" y). by rewrite split_at_app, split_at_none.
Qed.

Lemma split_no_sep c (x : string) : Forall (fun p => contains_char c p = false) (split_at c x).
Proof.
  induction x as [|a x IH]; [by constructor|]. cbn [split_at]. destruct (split_at_cons c x) as (p & ps & E). rewrite E in *.
  case_decide as Ha; [by constructor|]. apply Forall_cons in IH as [H1 H2]. constructor; [|done]. cbn [contains_char].
  by rewrite bool_decide_eq_false_2.
Qed.

Lemma parts_inv path ps : parts path = Some ps ->
  path = base_path +:+ join "/" ps /\ Forall (fun p => contains_char "/" p = false) ps.
Proof.
  unfold parts. destruct (strip_prefix _ path) as [rest|] eqn:E; [|done]. intros [= <-].
  apply strip_prefix_inv in E as ->. change "/" with (String "/" ""). by rewrite join_split; split; [|apply split_no_sep].
Qed.

Lemma fixed_path path p : is_Some (parts path) -> parts p = None -> bool_decide (path = p) = false.
Proof. intros [ps H] Hp. apply bool_decide_eq_false. intros ->. by rewrite H in Hp. Qed.

Lemma handle_route metrics generated req h :
  route metrics generated req h -> handle web_ui_html fuel metrics generated req = h.
Proof.
  intros Hr. unfold handle. destruct Hr as [Hm Hu|Hm Hu|Hm Hu|Hm Hu|Hm Hu|x Hm Hu Hx|x Hm Hu Hx|x id Hm Hu Hx Hi|x Hm Hu Hx|x Hm Hu Hx|x id Hm Hu Hx Hi].
  1-5: by rewrite Hm, Hu.
  all: first [pose proof (parts_two x id Hx Hi) as Hp|pose proof (parts_one x Hx) as Hp]; rewrite <- Hu in Hp.
  all: rewrite !(fixed_path (url req)) by done; rewrite !andb_false_r, Hp, Hm; cbn.
  all: destruct Hx as [Hx _]; rewrite (bool_decide_eq_false_2 (x = "")) by done; try done.
  all: destruct Hi as [Hi _]; by rewrite (bool_decide_eq_false_2 (id = "")).
Qed.

(** The test of one route of a fixed path. *)
Lemma exact_case {P : Prop} req m p (h h' : ST Database Error Response) :
  (method req = m -> url req = p -> P) -> ((if bool_decide (method req = m) && bool_decide (url req = p) then h else h') = h' -> P) -> P.
Proof. intros H1 H2. destruct (bool_decide (method req = m)) eqn:E1, (bool_decide (url req = p)) eqn:E2; [|by apply H2..].
  apply H1; by eapply bool_decide_eq_true. Qed.

Lemma handle_cases metrics generated req :
  (exists h, route metrics generated req h) \/ handle web_ui_html fuel metrics generated req = st_ret serve_404.
Proof.
  unfold handle.
  do 5 (eapply exact_case; [left; eexists; by econstructor|intros ->]).
  destruct (parts (url req)) as [ps|] eqn:Hp; [|by right]. apply parts_inv in Hp as [Hu Hf].
  destruct ps as [|x [|id [|z ps]]]; [right; by repeat case_bool_decide| | |right; by repeat case_bool_decide].
  - rewrite Forall_singleton in Hf. cbn [join] in Hu.
    repeat case_bool_decide; try (by right); assert (segment x) by done; left; eexists; econstructor; done.
  - apply Forall_cons in Hf as [Hx Hi]. rewrite Forall_singleton in Hi. cbn [join] in Hu.
    repeat case_bool_decide; try (by right); assert (segment x) by done; assert (segment id) by done; left; eexists; econstructor; done.
Qed.

(** C16: the table of routes. A request of the table is answered by its handler, for every name of
    a collection and every id that are not empty and have no slash; every other request, be it
    for its method, an unknown path, an empty name or a part too many, with 404. *)
Theorem requests_are_routed metrics generated req :
  (forall h, route metrics generated req h -> handle web_ui_html fuel metrics generated req = h) /\
  ((forall h, ~ route metrics generated req h) -> handle web_ui_html fuel metrics generated req = st_ret serve_404).
Proof.
  split; [apply handle_route|]. intros Hno. destruct (handle_cases metrics generated req) as [[h Hr]|H]; [destruct (Hno h Hr)|exact H].
Qed.

(** ** What a scope leaves

    Pages may be allocated and read, ids used up; the log, the catalogue, the versions, the
    queue, the watchers and the settings are as they were. *)
Definition unsaved d d' : Prop := exists p n m,
  d' = with_pager (fun _ => p) (with_tx_id_counter (fun _ => n) (with_tx_manager (fun _ => m) d)).

(** The transactions that run are those that ran before. *)
Definition none_left d d' : Prop :=
  active_txs (tx_manager d) !! next_tx_id (tx_manager d) = None -> active_txs (tx_manager d') = active_txs (tx_manager d).

Definition no_trace d d' : Prop := unsaved d d' /\ none_left d d'.

Lemma no_trace_refl d : no_trace d d.
Proof. split; [|done]. exists (DatabaseState.pager d), (tx_id_counter d), (tx_manager d). by destruct d. Qed.

(** A transaction that has done no more than to write its buffers and to use the pager. *)
Definition scoped w w' : Prop :=
  (exists p, w_db w' = with_pager (fun _ => p) (w_db w)) /\ state (w_tx w') = state (w_tx w) /\ mvcc_tx_id (w_tx w') = mvcc_tx_id (w_tx w).

#[export] Instance scoped_preorder : PreOrder scoped.
Proof.
  split.
  - intros w. split; [|done]. exists (pager (w_db w)). by destruct (w_db w).
  - intros w1 w2 w3 ([p1 H1] & H2 & H3) ([p4 H4] & H5 & H6). split_and!; [exists p4; by rewrite H4, H1|congruence..].
Qed.

Definition coll_scoped s s' : Prop := scoped (c_world s) (c_world s').

#[export] Instance coll_scoped_preorder : PreOrder coll_scoped.
Proof. split; unfold coll_scoped; [by intros ?|]. intros a b c. by etrans. Qed.

Lemma scoped_get {A} (f : Transaction -> A) : within scoped (get_tx f).
Proof. by intros w. Qed.

Lemma scoped_on_tx f : (forall t, state (f t) = state t /\ mvcc_tx_id (f t) = mvcc_tx_id t) -> within scoped (on_tx f).
Proof. intros Hf w. split; [|apply Hf]. exists (pager (w_db w)). cbn. by destruct (w_db w). Qed.

Lemma scoped_on_pager {A} (m : ST Pager.Pager Error A) : within scoped (on_db (on_pager m)).
Proof.
  intros w. unfold on_db, on_pager. destruct (m (pager (w_db w))) as [r p]. split; [|done]. by exists p.
Qed.

Lemma scoped_get_db {A} (f : Database -> A) : within scoped (on_db (st_get f)).
Proof. intros w. split; [|done]. exists (pager (w_db w)). cbn. by destruct (w_db w). Qed.

#[local] Hint Resolve scoped_get scoped_on_pager scoped_get_db : frame.
#[local] Hint Extern 1 (within scoped (on_tx _)) => by apply scoped_on_tx : frame.

Lemma scoped_own_tree {A} t (m : ST (txstate Pager.Pager) Error A) : within scoped (run_own_tree t m).
Proof. intros w. unfold run_own_tree. destruct (m _) as [r x]. split; [|done]. cbn. by eexists. Qed.

#[local] Hint Resolve scoped_own_tree : frame.

Lemma scoped_open_tree root : within scoped (open_tree root).
Proof. unfold open_tree. frame. Qed.

#[local] Hint Resolve scoped_open_tree : frame.

Lemma scoped_open_indexes l trees : within scoped (open_indexes l trees).
Proof. revert trees. induction l as [|[k im] l IH]; intros trees; simpl; frame. Qed.

#[local] Hint Resolve scoped_open_indexes : frame.

Lemma scoped_collection nm : within scoped (collection nm).
Proof. unfold collection, collection_open, expect_db, get_metadata. frame. Qed.

Lemma coll_on_world {A} (m : ST txworld Error A) : within scoped m -> within coll_scoped (on_world m).
Proof. intros Hm s. specialize (Hm (c_world s)). unfold on_world. by destruct (m (c_world s)). Qed.

Lemma coll_get {A} (f : TxCollection -> A) : within coll_scoped (get_coll f).
Proof. intros s. unfold get_coll, st_get. done. Qed.

Lemma coll_the_tx {A} (f : Transaction -> A) : within coll_scoped (the_tx f).
Proof. apply coll_on_world. frame. Qed.

Lemma coll_on_btree {A} (m : ST (txstate Pager.Pager) Error A) : within coll_scoped (on_btree m).
Proof. intros s. unfold on_btree. destruct (m _) as [r x]. split; [|done]. cbn. by eexists. Qed.

Lemma coll_on_index {A} nm (m : ST (txstate Pager.Pager) Error A) : within coll_scoped (on_index nm m).
Proof.
  intros s. unfold on_index. destruct (_ !! nm); [|done]. destruct (m _) as [r x]. split; [|done]. by eexists.
Qed.

Lemma coll_write_version doc_id data : within coll_scoped (write_version doc_id data).
Proof. intros s. unfold write_version. destruct (write_versioned_document _ _ _ _ _) as [r [p ws]]. split; [|done]. by eexists. Qed.

#[local] Hint Resolve scoped_collection coll_on_world coll_get coll_the_tx coll_on_btree coll_on_index coll_write_version : frame.

Lemma within_try {S A} (R : relation S) (m : ST S Error A) : within R m -> within R (st_try m).
Proof. intros Hm x. specialize (Hm x). unfold st_try. by destruct (m x) as [[a|e| |] x1]. Qed.

Lemma coll_visit {A} (visit : VersionedDocument -> A -> A) steps it acc : within coll_scoped (visit_documents fuel steps visit it acc).
Proof. revert it acc. induction steps as [|steps IH]; intros it acc; simpl; frame. Qed.

Lemma coll_find_all : within coll_scoped (TxCollection.find_all fuel).
Proof. unfold TxCollection.find_all. frame. apply coll_visit. Qed.

Lemma coll_guard : within coll_scoped guard_tx_active.
Proof. unfold guard_tx_active. frame. Qed.

Lemma coll_find_version doc_id : within coll_scoped (find_version fuel doc_id).
Proof. unfold find_version, doc_not_found. frame. Qed.

Lemma scoped_guard : within scoped guard_active.
Proof. unfold guard_active. frame. Qed.

#[local] Hint Resolve scoped_guard : frame.

Lemma scoped_writes :
  (forall p data, within scoped (write_page p data)) /\ (forall nm doc_id p, within scoped (write_document nm doc_id p)) /\
  (forall nm root, within scoped (set_collection_root nm root)) /\ (forall nm doc_id v, within scoped (add_old_version nm doc_id v)) /\
  (forall nm doc_id b, within scoped (track_doc_existed_in_snapshot nm doc_id b)) /\
  (forall nm doc_id x, within scoped (track_doc_original_xmin nm doc_id x)).
Proof.
  unfold write_page, write_document, set_collection_root, add_old_version, track_doc_existed_in_snapshot, track_doc_original_xmin.
  split_and!; frame.
Qed.

#[local] Hint Extern 1 (within scoped _) => apply scoped_writes : frame.

Lemma coll_keep_old doc_id page vdoc own : within coll_scoped (keep_old_version doc_id page vdoc own).
Proof. unfold keep_old_version. frame. Qed.

Lemma coll_write_pages ws : within coll_scoped (write_pages ws).
Proof. unfold write_pages. frame. Qed.

Lemma coll_record doc_id page : within coll_scoped (record_document doc_id page).
Proof. unfold record_document. frame. Qed.

Lemma coll_insert_into_index doc_map doc_id page k : within coll_scoped (insert_into_index fuel doc_map doc_id page k).
Proof. unfold insert_into_index, check_unique. frame. Qed.

#[local] Hint Resolve coll_guard coll_find_version coll_keep_old coll_write_pages coll_record
  coll_insert_into_index coll_find_all : frame.

Lemma coll_insert generated v : within coll_scoped (TxCollection.insert fuel generated v).
Proof. unfold TxCollection.insert, invalid_format, with_id, of_text. frame. Qed.

Lemma coll_update doc_id v : within coll_scoped (TxCollection.update_by_id fuel doc_id v).
Proof. unfold TxCollection.update_by_id, invalid_format, of_text. frame. Qed.

Lemma coll_delete doc_id : within coll_scoped (TxCollection.delete_by_id fuel doc_id).
Proof. unfold TxCollection.delete_by_id. frame. Qed.

(** ** Handlers *)
Lemma scoped_in_coll {A} c (m : ST collworld Error A) : within coll_scoped m -> within scoped (in_coll c m).
Proof. intros Hm w. specialize (Hm (mk_collworld _ c w)). unfold in_coll. by destruct (m _). Qed.

Definition commit_failed (e : Error) : Response := failed "Failed to commit" e.

(** A body that begins no commit leaves its scope alone; one that does answers as if it
    succeeded, or that the commit failed. *)
Definition answers_with (ok : Response -> Prop) (body : ST txworld Error Response) : Prop :=
  forall w, scoped w (body w).2 \/
    (forall resp, (body w).1 = Ok resp -> ok resp \/ exists e, resp = commit_failed e) /\ forall e, (body w).1 <> Err e.

Lemma scoped_answers ok body : within scoped body -> answers_with ok body.
Proof. intros H w. left. apply H. Qed.

Lemma answers_bind {A} ok (m : ST txworld Error A) k :
  within scoped m -> (forall a, answers_with ok (k a)) -> answers_with ok (let! a := m in k a).
Proof.
  intros Hm Hk w. specialize (Hm w). unfold st_bind. destruct (m w) as [[a|e| |] w1]; try by left.
  destruct (Hk a w1) as [H|H]; [left; by etrans|by right].
Qed.

Lemma commit_answers (ok : Response -> Prop) answer w : ok answer ->
  (forall resp, (then_commit fuel answer w).1 = Ok resp -> ok resp \/ exists e, resp = commit_failed e) /\
  forall e, (then_commit fuel answer w).1 <> Err e.
Proof.
  intros Ha. unfold then_commit, st_bind, st_try.
  destruct (commit fuel w) as [[u|e| |] w1]; cbn; split; try done; intros resp [= <-]; [by left|right; by exists e].
Qed.

Lemma unsaved_trans d1 d2 d3 : unsaved d1 d2 -> unsaved d2 d3 -> unsaved d1 d3.
Proof. intros (p1 & n1 & m1 & ->) (p2 & n2 & m2 & ->). by exists p2, n2, m2. Qed.

Lemma begin_trace d : exists tx d1, begin_db d = (Ok tx, d1) /\ unsaved d d1 /\ state tx = Transaction.Active /\
  mvcc_tx_id tx = next_tx_id (tx_manager d) /\
  exists i, active_txs (tx_manager d1) = <[next_tx_id (tx_manager d) := i]> (active_txs (tx_manager d)).
Proof.
  unfold begin_db, transaction_new, get_metadata, st_bind, st_get, st_ret, st_modify, on_manager. cbn.
  do 2 eexists. split; [reflexivity|]. split_and!; [|done|done|by eexists].
  exists (DatabaseState.pager d), (wrap_u64 (tx_id_counter d + 1)), (begin_transaction (tx_manager d)).2. by destruct d.
Qed.

Lemma drop_trace w : state (w_tx w) = Transaction.Active -> let d' := w_db (drop_transaction w).2 in
  unsaved (w_db w) d' /\ active_txs (tx_manager d') = base.delete (mvcc_tx_id (w_tx w)) (active_txs (tx_manager (w_db w))).
Proof.
  intros Ha. unfold drop_transaction, st_bind, get_tx, st_get. cbn. unfold is_active. rewrite bool_decide_eq_true_2 by done. cbn. split.
  - exists (DatabaseState.pager (w_db w)), (tx_id_counter (w_db w)), (abort_transaction (mvcc_tx_id (w_tx w)) (tx_manager (w_db w))).
    by destruct (w_db w).
  - apply abort_active.
Qed.

(** A handler runs its body in a new scope; when the scope is left alone, there is no trace. *)
Lemma with_begin_run (body : ST txworld Error Response) begin_failed d : exists w,
  with_begin begin_failed body d =
    (match (body w).1 with Err e => Ok (begin_failed e) | r => r end, w_db (drop_transaction (body w).2).2) /\
  (scoped w (body w).2 -> no_trace d (w_db (drop_transaction (body w).2).2)).
Proof.
  destruct (begin_trace d) as (tx & d1 & Hb & Hu & Hact & Hid & i & Hins). exists (mk_txworld _ tx d1).
  unfold with_begin, st_catch, with_transaction. rewrite (st_bind_ok _ _ _ _ _ Hb).
  destruct (body (mk_txworld _ tx d1)) as [r1 w1]. cbn [fst snd]. split; [by destruct r1|].
  intros ([p Hp] & Hst & Hmv). cbn in Hp, Hst, Hmv. destruct (drop_trace w1) as [Hd Hact1]; [congruence|]. split.
  - eapply unsaved_trans; [exact Hu|]. eapply unsaved_trans; [|exact Hd]. exists p, (tx_id_counter d1), (tx_manager d1).
    rewrite Hp. by destruct d1.
  - intros Hno. rewrite Hact1, Hmv, Hid, Hp. cbn. rewrite Hins. by rewrite delete_insert_id.
Qed.

(** An answer that is neither a success nor a failed commit. *)
Definition refused (resp : Response) : Prop :=
  status_code resp <> 200%N /\ status_code resp <> 201%N /\ String.prefix "Failed to commit" (body resp) = false.

Definition success (resp : Response) : Prop := status_code resp = 200%N \/ status_code resp = 201%N.

Lemma refused_no_trace handler begin_failed d resp d' : answers_with success handler ->
  with_begin begin_failed handler d = (Ok resp, d') -> refused resp -> no_trace d d'.
Proof.
  intros Ha H (H1 & H2 & H3). destruct (with_begin_run handler begin_failed d) as (w & Hrun & Ht). rewrite Hrun in H. injection H as Hr <-.
  destruct (Ha w) as [Hs|[Hok Herr]]; [by apply Ht|]. destruct ((handler w).1) as [x|e| |]; [|by destruct (Herr e)|done..].
  injection Hr as ->. destruct (Hok resp eq_refl) as [[?|?]|[e ->]]; [done..|]. cbn in H3. by destruct (error_to_string e).
Qed.

Lemma documents_no_trace nm d : no_trace d (serve_collection_documents fuel nm d).2.
Proof.
  unfold serve_collection_documents. edestruct with_begin_run as (w & Hrun & Ht). rewrite Hrun. apply Ht. clear.
  revert w. change (within scoped (let! coll := st_try (collection nm) in
    match coll with
    | inl coll =>
      let! docs := in_coll coll (st_try (TxCollection.find_all fuel)) in
      match docs with
      | inl docs => st_ret (json_response (unwrap_or "[]" (values_to_string_pretty docs)))
      | inr _ => st_ret (serve_500 "Failed to read documents")
      end
    | inr _ => st_ret serve_404
    end)).
  apply within_bind; [apply _|apply within_try, scoped_collection|]. intros [c|e]; [|by apply within_ret, _].
  apply within_bind; [apply _|apply scoped_in_coll, within_try, coll_find_all|]. intros [docs|e]; by apply within_ret, _.
Qed.

Lemma change_documents_no_trace {A} nm what (m : ST collworld Error A) answer d resp d' :
  within coll_scoped m -> (forall a, success (answer a)) ->
  change_documents fuel nm what m answer d = (Ok resp, d') -> refused resp -> no_trace d d'.
Proof.
  intros Hm Hok. apply refused_no_trace.
  apply answers_bind; [apply within_try, scoped_collection|]. intros [c|e]; [|by apply scoped_answers, within_ret, _].
  apply answers_bind; [by apply scoped_in_coll, within_try|]. intros [a|e]; [|by apply scoped_answers, within_ret, _].
  intros w. right. by apply commit_answers.
Qed.

(** A change to the catalogue that fails leaves it alone. *)
Definition fails_early (m : ST txworld Error unit) : Prop := forall w e, (m w).1 = Err e -> scoped w (m w).2.

Lemma change_catalogue_no_trace what m answer d resp d' : fails_early m -> success answer ->
  change_catalogue fuel what m answer d = (Ok resp, d') -> refused resp -> no_trace d d'.
Proof.
  intros Hm Hok. apply refused_no_trace. intros w. unfold st_bind, st_try.
  specialize (Hm w). destruct (m w) as [[u|e| |] w1]; cbn.
  - right. by apply commit_answers.
  - left. by apply (Hm e).
  - by right.
  - by right.
Qed.

Lemma create_fails_early nm : fails_early (create_collection nm).
Proof.
  intros w e. unfold create_collection, guard_active, expect_db, get_metadata, st_bind, get_tx, on_db, st_get. cbn.
  destruct (is_active (w_tx w)); cbn; [|done]. destruct (has_db (w_tx w)); cbn; [|done].
  case_decide; cbn; [|done]. intros _. apply (scoped_get_db id w).
Qed.

Lemma drop_fails_early nm : fails_early (drop_collection nm).
Proof.
  intros w e. unfold drop_collection, guard_active, expect_db, get_metadata, st_bind, get_tx, on_db, st_get. cbn.
  destruct (is_active (w_tx w)); cbn; [|done]. destruct (has_db (w_tx w)); cbn; [|done].
  case_decide; cbn; [|done]. intros _. apply (scoped_get_db id w).
Qed.

Lemma rename_fails_early old_name new_name : fails_early (rename_collection old_name new_name).
Proof.
  intros w e. unfold rename_collection, guard_active, expect_db, get_metadata, st_bind, get_tx, on_db, st_get. cbn.
  destruct (is_active (w_tx w)); cbn; [|done]. destruct (has_db (w_tx w)); cbn; [|done].
  case_decide; cbn; [intros _; apply (scoped_get_db id w)|]. case_decide; cbn; [intros _; apply (scoped_get_db id w)|done].
Qed.

Lemma with_body_no_trace {A} (parse : string -> A + string) req k d resp d' :
  (forall v, k v d = (Ok resp, d') -> no_trace d d') -> with_body parse req k d = (Ok resp, d') -> no_trace d d'.
Proof.
  intros Hk. unfold with_body. destruct (content req) as [text_|]; [|intros [= _ <-]; apply no_trace_refl].
  destruct (parse text_); [apply Hk|intros [= _ <-]; apply no_trace_refl].
Qed.

(** C14: requests without a trace. A GET request, whatever its answer, and any request that is
    answered with an error other than that of a failed commit, leave the log, the catalogue,
    the versions, the queue, the watchers and the settings as they were; no transaction is
    left running. *)
Theorem failed_requests_leave_no_trace metrics generated req d r d'
    (Hrun : handle web_ui_html fuel metrics generated req d = (r, d'))
    (Hfailed : method req = "GET" \/ exists resp, r = Ok resp /\ refused resp) : no_trace d d'.
Proof.
  destruct (handle_cases metrics generated req) as [[h Hr]|H]; [|rewrite H in Hrun; injection Hrun as _ <-; apply no_trace_refl].
  rewrite (handle_route _ _ _ _ Hr) in Hrun.
  destruct Hr as [Hm _|Hm _|Hm _|Hm _|Hm _|x Hm _ _|x Hm _ _|x id Hm _ _ _|x Hm _ _|x Hm _ _|x id Hm _ _ _].
  1-4: injection Hrun as _ <-; apply no_trace_refl.
  2: pose proof (documents_no_trace x d) as Hd; by rewrite Hrun in Hd.
  all: destruct Hfailed as [Hg|(resp & -> & Href)]; [by rewrite Hm in Hg|].
  - eapply with_body_no_trace; [|exact Hrun]. intros v Hk.
    eapply change_catalogue_no_trace; [apply create_fails_early| |exact Hk|done]; by right.
  - eapply with_body_no_trace; [|exact Hrun]. intros v Hk.
    eapply change_documents_no_trace; [apply coll_insert| |exact Hk|done]; intros ?; by right.
  - eapply with_body_no_trace; [|exact Hrun]. intros v Hk.
    eapply change_documents_no_trace; [apply coll_update| |exact Hk|done]; intros ?; by left.
  - eapply with_body_no_trace; [|exact Hrun]. intros v Hk.
    eapply change_catalogue_no_trace; [apply rename_fails_early| |exact Hk|done]; by left.
  - eapply change_catalogue_no_trace; [apply drop_fails_early| |exact Hrun|done]; by left.
  - eapply change_documents_no_trace; [apply coll_delete| |exact Hrun|done]; intros ?; by left.
Qed.

(** ** Requests about collections *)
Inductive catalogue_request := Create (nm : string) | Rename (old_name new_name : string) | Drop (nm : string).

(** What they are to do to the catalogue. *)
Definition administer (q : catalogue_request) (cs : gmap string CollectionMeta) : gmap string CollectionMeta + Error :=
  match q with
  | Create nm => if decide (is_Some (cs !! nm)) then inr (CollectionAlreadyExists nm) else inl (<[nm := collection_new]> cs)
  | Rename old_name new_name =>
    if decide (is_Some (cs !! new_name)) then inr (CollectionAlreadyExists new_name) else
    match cs !! old_name with
    | Some c => inl (<[new_name := c]> (base.delete old_name cs))
    | None => inr (CollectionDoesNotExist old_name)
    end
  | Drop nm => match cs !! nm with Some _ => inl (base.delete nm cs) | None => inr (CollectionDoesNotExist nm) end
  end.

Definition operation_for (q : catalogue_request) : ST txworld Error unit :=
  match q with
  | Create nm => create_collection nm
  | Rename old_name new_name => rename_collection old_name new_name
  | Drop nm => drop_collection nm
  end.

(** A handler answers so, changes the catalogue so, and leaves the pager and the log alone. *)
Definition administers (q : catalogue_request) (what : string) (answer : Response) d (run : Result Response * Database) : Prop :=
  exists d', DatabaseState.pager d' = DatabaseState.pager d /\ wal d' = wal d /\
    match administer q (collections (metadata d)) with
    | inl cs => run = (Ok answer, d') /\ collections (metadata d') = cs
    | inr e => run = (Ok (failed what e), d') /\ metadata d' = metadata d
    end.

Lemma operation_spec q w : is_active (w_tx w) = true -> has_db (w_tx w) = true -> exists d',
  DatabaseState.pager d' = DatabaseState.pager (w_db w) /\ wal d' = wal (w_db w) /\
  match administer q (collections (metadata (w_db w))) with
  | inl cs => operation_for q w = (Ok tt, mk_txworld _ (w_tx w) d') /\ collections (metadata d') = cs
  | inr e => operation_for q w = (Err e, mk_txworld _ (w_tx w) d') /\ metadata d' = metadata (w_db w)
  end.
Proof.
  intros Ha Hb. destruct q as [nm|old_name new_name|nm]; cbn [operation_for administer];
    unfold create_collection, rename_collection, drop_collection, guard_active, expect_db, get_metadata, st_bind, get_tx, on_db, st_get;
    cbn -[metadata_clone]; rewrite Ha; cbn -[metadata_clone]; rewrite Hb; cbn -[metadata_clone]; rewrite metadata_clone_id; cbn.
  - case_decide as He; cbn; [by exists (w_db w)|]. eexists. split_and!; [| |reflexivity|]; [done..|].
    cbn. unfold get_collection. cbn. by apply eq_None_not_Some in He as ->.
  - case_decide as He; cbn; [by exists (w_db w)|]. destruct (collections (metadata (w_db w)) !! old_name) as [c|] eqn:Ec; cbn.
    + rewrite decide_False by done. cbn. eexists. split_and!; [| |reflexivity|]; [done..|]. cbn. by rewrite Ec.
    + rewrite decide_True by done. by exists (w_db w).
  - destruct (collections (metadata (w_db w)) !! nm) as [c|] eqn:Ec; cbn.
    + rewrite decide_False by done. cbn. eexists. split_and!; [| |reflexivity|]; done.
    + rewrite decide_True by done. by exists (w_db w).
Qed.

Lemma administers_run q what answer d : administers q what answer d (change_catalogue fuel what (operation_for q) answer d).
Proof.
  destruct (begin_scope d) as (tx & d1 & Hb & Hsame & Hw & _ & Ha & _).
  assert (has_db tx = true) as Hh by by injection Hb as <- _.
  unfold administers, change_catalogue, with_begin, st_catch, with_transaction. rewrite (st_bind_ok _ _ _ _ _ Hb).
  destruct (same_data_fields _ _ Hsame) as (Ep & Em & Ew).
  destruct (operation_spec q (mk_txworld _ tx d1) Ha Hh) as (d2 & Hp & Hl & Hop). cbn [w_db w_tx] in *. rewrite Em in Hop.
  destruct (administer q (collections (metadata d))) as [cs|e]; destruct Hop as [Hop Hm].
  - unfold st_bind at 1, st_try. rewrite Hop. unfold then_commit, st_bind, st_try.
    destruct (commit_nothing fuel (mk_txworld _ tx d2) Ha Hw) as (w3 & -> & _ & Hs3). cbn -[drop_transaction]. eexists.
    pose proof (same_data_fields _ _ (transitivity Hs3 (drop_same w3))) as (E1 & E2 & E3).
    cbn [w_db] in *. split_and!; [| |reflexivity|]; congruence.
  - unfold st_bind at 1, st_try. rewrite Hop. cbn -[drop_transaction]. eexists.
    pose proof (same_data_fields _ _ (drop_same (mk_txworld _ tx d2))) as (E1 & E2 & E3).
    cbn [w_db] in *. split_and!; [| |reflexivity|]; congruence.
Qed.

(** C15: the requests about collections, from begin to commit. To create, to rename and to drop
    change the catalogue as a map, or are answered with the error that says why not and
    change nothing. Neither the pager nor the log is touched: what the commit is said to
    persist is in memory only. *)
Theorem collection_requests_change_catalogue req text_ nm new_name d (Hbody : content req = Some text_) :
  (create_request_from_str text_ = inl nm ->
    administers (Create nm) "Failed to create collection"
      (with_header json_header (with_status_code 201 (from_string (json_object [("status", "created"); ("name", nm)]))))
      d (serve_create_collection fuel req d)) /\
  (rename_request_from_str text_ = inl new_name ->
    administers (Rename nm new_name) "Failed to rename collection"
      (json_response (json_object [("status", "renamed"); ("old_name", nm); ("new_name", new_name)]))
      d (serve_rename_collection fuel nm req d)) /\
  administers (Drop nm) "Failed to delete collection" (json_response (json_object [("status", "deleted"); ("name", nm)]))
    d (serve_drop_collection fuel nm d).
Proof.
  unfold serve_create_collection, serve_rename_collection, with_body. rewrite Hbody.
  split_and!; [intros ->; apply (administers_run (Create nm))|intros ->; apply (administers_run (Rename nm new_name))|].
  apply (administers_run (Drop nm)).
Qed.
End server.
