(* ===== verification/CommandLineSpec.v ===== *)
(** * What commands do (cli/src)

    The queries that commands pass on are those of the query language, and a JSON object is
    none: what that means for the documented commands and for the interactive shell. *)

From stdpp Require Import base list strings gmap sorting.
From Stdlib Require Import NArith Lia Strings.Byte Ascii.
From S2P Require Import Prelude Constants Bytes Text Order PageStore Json QueryLexer QueryParser IndexKey QueryBuilder LruCache Pager Document BTreeNode BTree.
From S2P Require Import Wal Mvcc Validation TxBTree Metadata Watch DatabaseState Transaction TxCollection Database Errors Collection TextSearch Metrics Aggregation CommandLine.

#[local] Open Scope nat_scope.

Section cli.
Context {tables : UnicodeTables} {numbers : SerdeNumber} {text : SerdeText} {catalogue : SerdeCatalogue} {bytes : SerdeBytes}
  {messages : Messages} {debug : DebugText} {debug_fields : DebugFields} {str_debug : DebugStr} {cli_text : CliText}
  {words : Segmentation} {logarithm : LogF32} {postings : SerdePostings} {hashing : HashOrder (list Value)}
  {clock : Clock} {page_order : HashMapOrder N} {name_order : HashMapOrder string}.
Variable fuel : nat.
Variable db_path : string.
Variable metrics : MetricsSnapshot.
Variable generated : nat -> string.
Implicit Types (s : shell) (d : Database) (coll line q : string).

(** ** JSON is not the query language *)
Definition json_object_text q : Prop := exists rest, q = String "{" rest.

Lemma json_query_refused q : json_object_text q -> exists e, parse_or_fail q = Err e.
Proof.
  intros [rest ->]. unfold parse_or_fail, parse_query.
  pose proof (tokenize_scan (String "{" rest)) as H.
  assert (scan_all (S (length (chars (String "{" rest)))) (chars (String "{" rest)) = None) as E by done.
  rewrite E in H. destruct H as [msg ->]. by eexists.
Qed.

Lemma find_refused q coll d : json_object_text q -> exists e, Collection.find fuel coll q d = (Err e, d).
Proof. intros [e He]%json_query_refused. exists e. unfold Collection.find. by rewrite He. Qed.

Lemma with_db_same s : with_db (fun _ => db s) s = s.
Proof. by destruct s. Qed.

Lemma lib_refused {A} (m : ST Database Error A) s e : m (db s) = (Err e, db s) -> exists msg, lib m s = (Err msg, s).
Proof. intros H. unfold lib. rewrite H, with_db_same. by eexists. Qed.

(** A computation that fails and leaves everything as it is. *)
Definition refused {A} (m : ST shell string A) s : Prop := exists e, m s = (Err e, s).

Lemma refused_bind {A B} (m : ST shell string A) (k : A -> ST shell string B) s : refused m s -> refused (let! a := m in k a) s.
Proof. intros [e H]. exists e. by rewrite (st_bind_err _ _ _ _ _ H). Qed.

Lemma refused_lib {A B} (m : ST Database Error A) (k : A -> ST shell string B) s :
  (exists e, m (db s) = (Err e, db s)) -> refused (let! a := lib m in k a) s.
Proof. intros [e H]. by apply refused_bind, (lib_refused _ _ e). Qed.

Lemma delete_refused q coll s : json_object_text q -> refused (document_delete fuel coll q) s.
Proof.
  intros Hq. apply refused_lib. destruct (find_refused q coll (db s) Hq) as [e He]. exists e.
  unfold Collection.delete. by rewrite (st_bind_err _ _ _ _ _ He).
Qed.

Lemma update_refused q update coll s : json_object_text q -> refused (document_update fuel coll q update) s.
Proof.
  intros Hq. unfold document_update, parse_json. destruct (json_from_str update) as [v|e]; [|by exists "Failed to parse JSON"].
  apply (refused_lib (Collection.update fuel coll q v) (fun n => say (Success ("Updated " +:+ number_text n +:+ " document(s)")))).
  unfold Collection.update. destruct (as_object v) as [m|]; [|by eexists].
  destruct (find_refused q coll (db s) Hq) as [e He]. exists e. by rewrite (st_bind_err _ _ _ _ _ He).
Qed.

Lemma not_all q : json_object_text q -> q <> "{}" -> all_query q = false.
Proof. intros [r ->] H. unfold all_query. apply orb_false_intro; [done|by apply String.eqb_neq]. Qed.

Lemma find_json_refused q coll limit skip s : json_object_text q -> q <> "{}" -> refused (document_find fuel coll q limit skip) s.
Proof. intros Hq Hne. unfold document_find. rewrite (not_all q) by done. by apply refused_lib, find_refused. Qed.

Lemma find_one_json_refused q coll s : json_object_text q -> q <> "{}" -> refused (document_find_one fuel coll q) s.
Proof.
  intros Hq Hne. unfold document_find_one. rewrite (not_all q) by done. apply refused_lib.
  destruct (find_refused q coll (db s) Hq) as [e He]. exists e. unfold Collection.find_one. by rewrite (st_bind_err _ _ _ _ _ He).
Qed.

Lemma count_json_refused q coll s : json_object_text q -> q <> "{}" -> refused (document_count fuel coll q) s.
Proof.
  intros Hq Hne. unfold document_count. rewrite (not_all q) by done. apply refused_lib.
  destruct (find_refused q coll (db s) Hq) as [e He]. exists e. by rewrite (st_bind_err _ _ _ _ _ He).
Qed.

Lemma run_json_refused q coll sort order limit skip s : json_object_text q -> q <> "{}" ->
  refused (query_run fuel coll q sort order limit skip) s.
Proof.
  intros Hq Hne. destruct (json_query_refused q Hq) as [e He]. unfold query_run. apply refused_bind.
  unfold refused, reading, QueryBuilder.execute, filtered_docs.
  destruct (String.eqb_spec q "{}"); [done|].
  exists (error_to_string e). by destruct sort, limit, skip; cbn; rewrite He.
Qed.

(** C18: a JSON object is no query. Every command of the program that takes a filter refuses one
    that is written as a JSON object, as the help and the manual tell to write it, whatever the
    object, the database and the other arguments: an error, no output and no change. The only
    exception is the empty object, which the commands that read take for all documents;
    updating and deleting refuse it as well. *)
Theorem json_filters_are_refused q coll update order s (Hjson : json_object_text q) :
  let run c := execute_command fuel db_path metrics generated c in
  refused (run (DocUpdate coll q update)) s /\ refused (run (DocDelete coll q)) s /\
  (q <> "{}" -> forall sort limit skip,
    refused (run (DocFind coll q limit skip)) s /\ refused (run (DocFindOne coll q)) s /\
    refused (run (DocCount coll q)) s /\ refused (run (QueryRun coll q sort order limit skip)) s).
Proof.
  cbn zeta. cbn [execute_command]. split_and!; [by apply update_refused|by apply delete_refused|]. intros Hne sort limit skip.
  split_and!; [by apply find_json_refused|by apply find_one_json_refused|by apply count_json_refused|by apply run_json_refused].
Qed.

(** ** The shell *)
Lemma from_brace_json line q : from_brace line = Some q -> json_object_text q.
Proof.
  induction line as [|c line IH]; [done|]. cbn [from_brace]. destruct (Ascii.eqb_spec c "{") as [->|]; [|done].
  intros [= <-]. by exists line.
Qed.

Lemma repl_query_json parts line : json_object_text (repl_query parts line).
Proof.
  unfold repl_query. destruct (1 <? length parts); [|by exists "}"].
  destruct (from_brace line) as [q|] eqn:E; [by apply from_brace_json in E|by exists "}"].
Qed.

(** A line that is answered with a complaint, or refused: the shell goes on as it was. *)
Definition complains (m : ST shell string bool) s : Prop :=
  refused m s \/ exists msg, m s = (Ok false, with_printed (fun ls => vec_push ls (Failure msg)) s).

(** A line about the selected collection. *)
Lemma selected_complains (k : string -> ST shell string unit) s :
  (forall coll, refused (k coll) s \/ exists msg, k coll s = (Ok tt, with_printed (fun ls => vec_push ls (Failure msg)) s)) ->
  complains (let! _ := selected k in st_ret false) s.
Proof.
  intros Hk. unfold selected, st_bind at 2, st_get. unfold complains, refused, st_bind at 1 2.
  destruct (current_collection s) as [coll|]; [|by right; eexists].
  destruct (Hk coll) as [[e He]|[msg Hm]]; [left; exists e; by rewrite He|right; exists msg; by rewrite Hm].
Qed.

(** A command that refuses all JSON filters but the empty one, with what the shell passes on. *)
Lemma selected_reads (k : string -> string -> ST shell string unit) parts line s :
  (forall coll q, json_object_text q -> q <> "{}" -> refused (k coll q) s) ->
  let run := (let! _ := selected (fun coll => k coll (repl_query parts line)) in st_ret false) in
  complains run s \/ exists coll, current_collection s = Some coll /\ run s = (let! _ := k coll "{}" in st_ret false) s.
Proof.
  intros Hk. cbn zeta. pose proof (repl_query_json parts line) as Hq. destruct (decide (repl_query parts line = "{}")) as [->|Hne].
  - unfold complains, selected, st_bind, st_get. destruct (current_collection s) as [coll|]; [right; by exists coll|left; right; by eexists].
  - left. apply selected_complains. intros coll. left. by apply Hk.
Qed.

(** C19: what the interactive shell does with filters. A line update or delete never changes
    anything: it is refused or answered with a complaint. A line find or count shows all
    documents of the collection, as if no filter were given, or is refused: there is no line
    that filters. *)
Theorem shell_never_filters line cmd args s (Hwords : split_whitespace line = cmd :: args) :
  let run := execute_repl_command fuel db_path metrics generated line in
  (cmd = "update" \/ cmd = "delete" -> complains run s) /\
  (cmd = "find" -> complains run s \/ exists coll, current_collection s = Some coll /\
    run s = (let! _ := document_find fuel coll "{}" None None in st_ret false) s) /\
  (cmd = "count" -> complains run s \/ exists coll, current_collection s = Some coll /\
    run s = (let! _ := document_count fuel coll "{}" in st_ret false) s).
Proof.
  cbn zeta. unfold execute_repl_command. rewrite Hwords. split_and!.
  - intros [->| ->].
    + change (complains (let! _ := selected (repl_update fuel line) in st_ret false) s). apply selected_complains. intros coll.
      unfold repl_update. destruct (split_at "{" line) as [|? [|q [|u us]]]; try (right; by eexists).
      left. apply update_refused. by exists q.
    + change (complains (let! _ := selected (fun coll => document_delete fuel coll (repl_query ("delete" :: args) line)) in st_ret false) s).
      apply selected_complains. intros coll. left. apply delete_refused, repl_query_json.
  - intros ->. apply (selected_reads (fun coll q => document_find fuel coll q None None) ("find" :: args) line s).
    intros coll q. apply find_json_refused.
  - intros ->. apply (selected_reads (document_count fuel) ("count" :: args) line s).
    intros coll q. apply count_json_refused.
Qed.
End cli.
