(* ===== verification/TextSearchSpec.v ===== *)
(** * What a text search returns (text_search.rs)

    The documents that the postings of the terms of the query name, once each, ranked by the
    sum of their scores; and the frequencies that the postings are made of. *)

From stdpp Require Import base list strings gmap sorting.
From Stdlib Require Import NArith ZArith Lia Ascii Strings.Byte Floats.SpecFloat.
From S2P Require Import Prelude Constants Bytes BufferPool Text Order PageStore Json IndexKey LruCache Pager Document BTreeNode BTree BTreeSpec BTreeOnPager.
From S2P Require Import Metadata DatabaseState TextSearch.

#[local] Open Scope nat_scope.

(** ** Terms *)
Section terms.
Context {tables : UnicodeTables} {words : Segmentation} {ln : LogF32} {name_order : HashMapOrder string}.
Implicit Types (m : gmap string f32) (tokens : list string).

(** [n] times [+= x]. *)
Definition added (n : nat) (x : f32) : f32 := Nat.iter n (fun acc => f32_add acc x) f32_zero.

Definition occurrences (token : string) tokens : nat := length (filter (fun t => t = token) tokens).

Lemma counts_spec tokens token m n :
  m !! token = (if decide (n = 0) then None else Some (added n f32_one)) ->
  foldl (fun counts token => add_to f32_one token counts) m tokens !! token =
    let n := n + occurrences token tokens in if decide (n = 0) then None else Some (added n f32_one).
Proof.
  unfold occurrences. revert m n. induction tokens as [|t tokens IH]; intros m n Hm; cbn [foldl]; [by rewrite Nat.add_0_r|].
  rewrite filter_cons. destruct (decide (t = token)) as [->|Hne].
  - rewrite (IH _ (S n)); [cbn [length]; by rewrite Nat.add_succ_r|]. rewrite decide_False by done.
    unfold add_to. rewrite lookup_insert_eq, Hm. by destruct n.
  - apply IH. unfold add_to. by rewrite lookup_insert_ne.
Qed.

(** The frequency of a term in a text is the number of its occurrences, added up in binary32,
    over the number of all tokens; a term that does not occur has none. *)
Theorem term_frequency_counts tokens token :
  calculate_term_frequency tokens !! token =
    let n := occurrences token tokens in
    if decide (n = 0) then None else Some (f32_div (added n f32_one) (f32_of_usize (length tokens))).
Proof.
  unfold calculate_term_frequency. rewrite lookup_fmap, (counts_spec tokens token ∅ 0) by done. simpl. by case_decide.
Qed.

(** What was stored is what is left of the page when its zeros are trimmed, unless the data
    ends with a zero. *)
Lemma trim_padding data n : last data <> Some Byte.x00 -> trim_nulls (data ++ replicate n Byte.x00) = data.
Proof.
  intros Hl. unfold trim_nulls. rewrite rev_app_distr.
  assert (forall l, skip_zeros (rev (replicate n Byte.x00) ++ l) = skip_zeros l) as Hs.
  { intros l. assert (rev (replicate n Byte.x00) = replicate n Byte.x00) as ->.
    { induction n as [|n IH]; [done|]. simpl. rewrite IH. symmetry. apply (replicate_cons_app n). }
    by induction n. }
  rewrite Hs. rewrite <-(rev_involutive data) at 2. f_equal. rewrite <-(rev_involutive data) in Hl. rewrite <-(rev_involutive data).
  destruct (rev data) as [|b l] eqn:Hd; [by rewrite rev_involutive|]. rewrite rev_involutive.
  simpl in Hl. rewrite last_snoc in Hl. cbn [skip_zeros]. by rewrite decide_False by congruence.
Qed.

Lemma by_score_order : total_order (fun r => not_nan (score r)) by_score.
Proof.
  intros a Ha. apply (ord_at_ext _ (fun x y => CompOpp (f64_cmp (score x) (score y)))); [done| |].
  - apply ord_at_rev; [|done]. intros b Hb. by apply (ord_at_map not_nan _ score f64_cmp b); [|apply f64_total_order].
  - intros x y Hx Hy. symmetry. apply (ord_antisym _ _ _ (f64_total_order _ Hx) _ Hy).
Qed.
End terms.

(** ** Searching *)
Section searching.
Context {tables : UnicodeTables} {words : Segmentation} {ln : LogF32} {postings_text : SerdePostings}
  {name_order : HashMapOrder string}.
Variable fuel : nat.
Variable fields : list string.
Implicit Types (b : bstate Pager.Pager) (t : tree) (m scores : gmap string f32).

(** The postings that the index has for a key, from the pages of its tree. *)
Definition postings_at b t (key : string) : gmap string f32 :=
  match tree_map t !! key ≫= ps_view (store b) with Some page => parse_postings page | None => ∅ end.

(** The tree, and that the pages that it names can be read. *)
Definition index_ok b t : Prop :=
  tree_ok b t /\ height t <= fuel /\
  forall key page, tree_map t !! key = Some page -> ps_used (store b) page /\ is_Some (ps_view (store b) page).

Definition add_scores (idf : f32) (ps : gmap string f32) scores : gmap string f32 :=
  foldl (fun scores posting => add_to (f32_mul posting.2 idf) posting.1 scores) scores (map_iter ps).

(** The scores of the documents: for each term and field, its postings add to them. *)
Definition scores_of b t (total_docs : nat) (tfs : list (string * string)) scores : gmap string f32 :=
  foldl (fun scores tf =>
    let ps := postings_at b t (term_key tf.1 tf.2) in add_scores (calculate_idf total_docs (size ps)) ps scores) scores tfs.

Lemma index_ok_calm b b' t : calm [] b b' -> index_ok b t -> index_ok b' t /\ forall key, postings_at b' t key = postings_at b t key.
Proof.
  intros Hc (Ht & Hh & Hp). pose proof Hc as (_ & (_ & Hu & Hv) & _).
  assert (forall key page, tree_map t !! key = Some page -> ps_view (store b') page = ps_view (store b) page) as Hview.
  { intros key page Hk. apply Hv; [by eapply Hp|apply not_elem_of_nil]. }
  split.
  - split; [by eapply calm_tree_ok|split; [done|]]. intros key page Hk. rewrite (Hview key page Hk).
    split; [apply Hu; by eapply Hp|by eapply Hp].
  - intros key. unfold postings_at. destruct (tree_map t !! key) as [page|] eqn:Hk; [|done]. cbn [mbind option_bind].
    by rewrite (Hview key page Hk).
Qed.

Lemma score_term_spec b t n scores tf : index_ok b t ->
  exists b', score_term fuel n scores tf b =
    (Ok (let ps := postings_at b t (term_key tf.1 tf.2) in add_scores (calculate_idf n (size ps)) ps scores), b') /\ calm [] b b'.
Proof.
  intros (Ht & Hh & Hp). destruct (search_lemma b t fuel (term_key tf.1 tf.2) Ht Hh) as (b1 & Hs & _ & Hc1).
  unfold score_term, postings_at.
  destruct (tree_map t !! term_key tf.1 tf.2) as [page|] eqn:Hk; cbn [of_option mbind option_bind] in *;
    erewrite st_bind_ok by (unfold st_ok; rewrite Hs; reflexivity).
  - destruct (Hp _ _ Hk) as [Hu [data Hv]]. pose proof Hc1 as (_ & (Hi1 & Hu1 & Hv1) & _).
    destruct (ps_read_law (store b1) page data Hi1) as (pg & Hr & Hi2 & Hv2 & Hus2 & Hr2);
      [by apply Hu1|rewrite Hv1; [done|done|apply not_elem_of_nil]|].
    exists (mk_bstate pg (inner b1)). rewrite Hv. split.
    + unfold read_postings, on_store. rewrite st_bind_assoc. unfold st_bind at 1. change (Pager.read_page page) with (ps_read (S := Pager.Pager) page).
      rewrite Hr. done.
    + eapply calm_trans; [exact Hc1| |by intros q _ [?|?]]. split_and!; [done| |exact Hr2].
      split_and!; [done|intros q; by apply Hus2|intros q _ _; apply Hv2].
  - exists b1. split; [|done]. unfold add_scores. by rewrite map_iter_empty.
Qed.

Lemma scores_of_ext b b' t n tfs scores :
  (forall key, postings_at b' t key = postings_at b t key) -> scores_of b' t n tfs scores = scores_of b t n tfs scores.
Proof. intros Heq. unfold scores_of. revert scores. induction tfs as [|tf tfs IH]; intros scores; cbn [foldl]; [done|]. rewrite Heq. apply IH. Qed.

Lemma score_terms_spec tfs : forall b t n scores, index_ok b t ->
  exists b', score_terms fuel n scores tfs b = (Ok (scores_of b t n tfs scores), b') /\ calm [] b b'.
Proof.
  induction tfs as [|tf tfs IH]; intros b t n scores Hok.
  { exists b. split; [done|]. apply calm_refl, Hok. }
  destruct (score_term_spec b t n scores tf Hok) as (b1 & H1 & Hc1). cbn [score_terms]. rewrite (st_bind_ok _ _ _ _ _ H1).
  destruct (index_ok_calm _ _ _ Hc1 Hok) as [Hok1 Heq].
  match goal with |- context [score_terms fuel n ?m tfs b1] => destruct (IH b1 t n m Hok1) as (b2 & H2 & Hc2) end.
  exists b2. split; [|eapply calm_trans; [done..|]; by intros q _ [?|?]]. rewrite H2. by rewrite (scores_of_ext b b1).
Qed.

(** The documents with a score are those of the postings. *)
Lemma add_scores_dom idf ps scores doc : is_Some (add_scores idf ps scores !! doc) <-> is_Some (scores !! doc) \/ is_Some (ps !! doc).
Proof.
  assert (forall l scores, is_Some (foldl (fun scores (posting : string * f32) => add_to (f32_mul posting.2 idf) posting.1 scores) scores l !! doc)
    <-> is_Some (scores !! doc) \/ doc ∈ l.*1) as H.
  { induction l as [|[d f] l IH]; intros m; [rewrite elem_of_nil; tauto|]. cbn [foldl]. rewrite fmap_cons, elem_of_cons, IH. unfold add_to. cbn [fst].
    destruct (decide (doc = d)) as [->|Hne]; [rewrite lookup_insert_eq; split; [intros _; right; by left|intros _; left; by eexists]|].
    rewrite lookup_insert_ne by done. tauto. }
  unfold add_scores. rewrite H. f_equiv. rewrite list_elem_of_fmap. split.
  - intros ([d f] & -> & Hin). apply map_iter_elem in Hin. by exists f.
  - intros [f Hf]. exists (doc, f). split; [done|]. by apply map_iter_elem.
Qed.

Lemma scores_of_dom b t n tfs scores doc :
  is_Some (scores_of b t n tfs scores !! doc) <->
    is_Some (scores !! doc) \/ exists term field, (term, field) ∈ tfs /\ is_Some (postings_at b t (term_key term field) !! doc).
Proof.
  unfold scores_of. revert scores. induction tfs as [|[term field] tfs IH]; intros scores; cbn [foldl fst snd].
  { split; [by left|intros [?|(? & ? & ?%not_elem_of_nil & _)]; done]. }
  rewrite IH, add_scores_dom. split.
  - intros [[?|?]|(term' & field' & ? & ?)]; [by left|right; exists term, field; split; [left|done]|].
    right. exists term', field'. split; [by right|done].
  - intros [?|(term' & field' & [[= -> ->]|?]%elem_of_cons & ?)]; [by left; left|by left; right|].
    right. by exists term', field'.
Qed.

Lemma term_fields_elem terms term field : (term, field) ∈ term_fields fields terms <-> term ∈ terms /\ field ∈ fields.
Proof.
  unfold term_fields. rewrite list_elem_of_bind. split.
  - intros (t & (f & [= -> ->] & ?)%list_elem_of_fmap & ?). done.
  - intros [? ?]. exists term. split; [|done]. apply list_elem_of_fmap. by exists field.
Qed.

(** C25: a search finds the documents that the index has under a term of the query in an indexed
    field, each once, by descending score: for every term and field, the frequency times the
    logarithm of all documents over those with the term. It changes nothing but the page
    cache. The scores are taken to be numbers. *)
Theorem search_ranks_documents b t query total_docs
    (Hindex : index_ok b t)
    (Hscores : map_Forall (fun _ s => not_nan s) (scores_of b t total_docs (term_fields fields (tokenize query)) ∅)) :
  exists results b', TextSearch.search fuel fields query total_docs b = (Ok results, b') /\ calm [] b b' /\
    NoDup (r_doc_id <$> results) /\ Sorted (fun r1 r2 => by_score r1 r2 <> Gt) results /\
    (forall doc s, mk_result doc s ∈ results <-> scores_of b t total_docs (term_fields fields (tokenize query)) ∅ !! doc = Some s) /\
    (forall doc, doc ∈ r_doc_id <$> results <-> exists term field,
      term ∈ tokenize query /\ field ∈ fields /\ is_Some (postings_at b t (term_key term field) !! doc)).
Proof.
  set (scores := scores_of b t total_docs (term_fields fields (tokenize query)) ∅) in *.
  set (l := (fun '(doc_id, s) => mk_result doc_id s) <$> map_iter scores).
  assert (exists b', TextSearch.search fuel fields query total_docs b = (Ok (stable_sort by_score l), b') /\ calm [] b b') as (b' & Hs & Hc).
  { unfold TextSearch.search. case_decide as Hq.
    - exists b. split; [|apply calm_refl, Hindex]. unfold l, scores. rewrite Hq. cbn. by rewrite map_iter_empty.
    - destruct (score_terms_spec (term_fields fields (tokenize query)) b t total_docs ∅ Hindex) as (b1 & H1 & Hc).
      rewrite (st_bind_ok _ _ _ _ _ H1). exists b1. split; [|done]. unfold st_lift.
      rewrite (sort_by_ok _ _ by_score_order); [done|]. apply Forall_fmap, Forall_forall.
      intros [doc s] Hin%map_iter_elem. by apply (Hscores doc s). }
  pose proof (stable_sort_Permutation by_score l) as Hperm. exists (stable_sort by_score l), b'.
  assert (forall doc s, mk_result doc s ∈ stable_sort by_score l <-> scores !! doc = Some s) as Hin.
  { intros doc s. rewrite Hperm. unfold l. rewrite list_elem_of_fmap. split.
    - intros ([d f] & [= -> ->] & H). by apply map_iter_elem in H.
    - intros H. exists (doc, s). split; [done|]. by apply map_iter_elem. }
  split; [exact Hs|]. split; [exact Hc|]. split; [|split; [|split; [exact Hin|]]].
  - rewrite Hperm. unfold l. rewrite <-list_fmap_compose. erewrite list_fmap_ext; [apply (map_iter_nodup scores)|]. by intros ? [].
  - apply (stable_sort_sorted _ _ by_score_order). apply Forall_fmap, Forall_forall.
    intros [doc s] H%map_iter_elem. by apply (Hscores doc s).
  - intros doc. rewrite list_elem_of_fmap. transitivity (is_Some (scores !! doc)).
    + split; [intros ([d s] & -> & H); apply Hin in H; by exists s|intros [s H]; exists (mk_result doc s); split; [done|by apply Hin]].
    + unfold scores. rewrite scores_of_dom. split.
      * intros [[? ?%lookup_empty_Some]|(term & field & [? ?]%term_fields_elem & ?)]; [done|by exists term, field].
      * intros (term & field & ? & ? & ?). right. exists term, field. by rewrite term_fields_elem.
Qed.
End searching.
