(* ===== verification/DatabaseRuns.v ===== *)
(** * Runs of the whole database

    Concrete runs under the parameters of [Samples.v]: the theorems about commits at concrete
    inputs, and histories in which the code does not do what it means to. *)

From stdpp Require Import base list strings gmap.
From Stdlib Require Import NArith Lia.
From S2P Require Import Prelude Constants Bytes Text PageStore Json IndexKey QueryBuilder LruCache Pager Document BTreeNode BTree BTreeSpec.
From S2P Require Import Wal Mvcc Validation TxBTree TxBTreeSpec TxBTreeInsert TxBTreeRuns Metadata Watch DatabaseState TxCollection Transaction Database.
From S2P Require Import Frames TransactionSpec CommitSpec Samples.

#[local] Open Scope nat_scope.

(** A computation on a new database. *)
Definition on_new {A} (m : DM A) : Result A := let? d := open_sample None None in (m d).1.

(** The result as a value: the run goes on after an error. *)
Definition caught {A} (m : DM A) : DM (Result A) := fun d => let '(r, d) := m d in (Ok r, d).

(** ** Histories *)

(** Two transactions begin, the second one updates z and commits; a third begins and reads y;
    then the first one updates y and commits, and so does the third. *)
Definition lost_update_run : DM (option string * option string) :=
  let! _ := run1 (let! _ := put_doc "y" "0" in put_doc "z" "0") in
  let! t1 := begin_db in
  let! t2 := begin_db in
  let! '(_, t2) := tx_run (let! _ := set_doc "z" "2" in do_commit) t2 in
  let! t3 := begin_db in
  let! '(seen, t3) := tx_run (get_doc "y") t3 in
  let! '(_, t1) := tx_run (let! _ := set_doc "y" "1" in do_commit) t1 in
  let! '(_, t3) := tx_run (let! _ := set_doc "y" "3" in do_commit) t3 in
  let! final := run1 (get_doc "y") in
  st_ret (seen, final).

(** The transaction with the larger id commits first; then the database is closed and opened,
    a transaction begins, and another one looks for z and puts z. *)
Definition reopened_run : DM (Result (option string) * (Result (option string) * Result string)) :=
  let! _ := run1 (let! _ := put_doc "y" "0" in put_doc "z" "0") in
  let! t1 := begin_db in
  let! t2 := begin_db in
  let! _ := tx_run (let! _ := set_doc "z" "2" in do_commit) t2 in
  let! _ := tx_run (let! _ := set_doc "y" "1" in do_commit) t1 in
  let! before := caught (run1 (get_doc "z")) in
  let! d := reopen in
  st_lift ((let! _ := begin_db in
    let! found := caught (run1 (get_doc "z")) in
    let! put := caught (run1 (put_doc "z" "4")) in
    st_ret (before, (found, put))) d).1.

(** An index is dropped after a commit; then the database is closed and opened. *)
Definition dropped_index_run : DM (list string * list string) :=
  let! _ := create_index sample_fuel "users" "by_v" "v" false in
  let! _ := run1 (put_doc "y" "0") in
  let! _ := drop_index "users" "by_v" in
  let! before := list_indexes "users" in
  let! d := reopen in
  st_lift ((let! after := list_indexes "users" in st_ret (ii_name <$> before, ii_name <$> after)) d).1.

(** Two transactions begin; the document d is deleted; one inserts x, the other deletes d, and
    both wait when the first one leads; then x is looked for. *)
Definition failed_batch_run : DM (Result TxState * Result TxState * Result (option string)) :=
  let! _ := run1 (put_doc "d" "0") in
  let! t1 := begin_db in
  let! t2 := begin_db in
  let! _ := run1 (del_doc "d") in
  let! '(c1, t1) := tx_run (let! _ := put_doc "x" "1" in submit) t1 in
  let! '(c2, t2) := tx_run (let! _ := del_doc "d" in submit) t2 in
  let! r1 := caught (tx_run (lead sample_fuel c1) t1) in
  let! r2 := caught (tx_run (lead sample_fuel c2) t2) in
  let! found := caught (run1 (get_doc "x")) in
  st_ret (obind (fun x => Ok (state x.2)) r1, obind (fun x => Ok (state x.2)) r2, found).

(** Two documents with the same value of a unique index, in two transactions. *)
Definition unique_run : DM (Result string * Result string) :=
  let! _ := create_index sample_fuel "users" "by_v" "v" true in
  let! r1 := caught (run1 (put_doc "x" "1")) in
  let! r2 := caught (run1 (put_doc "y" "1")) in
  st_ret (r1, r2).

(** A unique index on two documents with the same value. *)
Definition unique_late_run : DM (Result unit) :=
  let! _ := run1 (let! _ := put_doc "x" "1" in put_doc "y" "1") in
  caught (create_index sample_fuel "users" "by_v" "v" true).

(** A unique index on two documents with different values, one in each of two leaves. *)
Definition put_version (id v : string) : DM N := fun d =>
  let data := match map_to_vec [("v", Str v)] with inl b => b | inr _ => [] end in
  let '(r, (p, _)) := write_versioned_document id data 1 0 (pager d, ∅) in
  (let? '(page, _) := r in Ok page, with_pager (fun _ => p) d).

Definition put_tree_node (n : BTreeNode) : DM unit :=
  let! b := st_lift (of_option Panic (serialize_node_into n (replicate PAGE_SIZE Byte.x00))) in
  on_pager (Pager.write_page_transfer (BTreeNode.page_num n) b).

Definition two_leaves_run : DM (Result unit) :=
  let! p1 := put_version "x" "1" in
  let! p2 := put_version "y" "2" in
  let! root := on_pager Pager.alloc_page in
  let! l1 := on_pager Pager.alloc_page in
  let! l2 := on_pager Pager.alloc_page in
  let! _ := put_tree_node (leaf_node l1 [mk_entry "x" p1] l2) in
  let! _ := put_tree_node (leaf_node l2 [mk_entry "y" p2] 0) in
  let! _ := put_tree_node (internal_node root ["y"] [l1; l2]) in
  let! _ := update_metadata_no_flush (Metadata.get_collection "users" (set_btree_root root)) in
  caught (create_index sample_fuel "users" "by_v" "v" true).

(** An update is lost. The conflict of a write is decided by the id of the transaction that
    wrote the committed version, which has to be above the snapshot. The third transaction of
    the run reads y = 0 and its commit overwrites y = 1, which the first transaction committed
    in between with an id below the third one's snapshot. *)
Theorem update_with_smaller_id_is_lost : on_new lost_update_run = Ok (Some "0", Some "3").
Proof. vm_compute. reflexivity. Qed.

(** A batch that fails is not undone. The deletion of a document that is gone fails when its
    tree is rebased; both transactions of the batch are told so, but the root with the
    insertion of the first is in the catalogue already, and others find the document. *)
Theorem failed_batch_is_half_applied :
  on_new failed_batch_run = Ok (Err (DocumentNotFound "" "d"), Err (DocumentNotFound "" "d"), Ok (Some "1")).
Proof. vm_compute. reflexivity. Qed.

(** The header keeps the successor of the id that committed last, not of the largest one: after
    the database is opened again a committed document is not found, and it cannot be put. *)
Theorem committed_document_not_found_after_open :
  on_new reopened_run = Ok (Ok (Some "2"), (Err (DocumentNotFound "users" "z"), Err (DocumentAlreadyExists "users" "z"))).
Proof. vm_compute. reflexivity. Qed.

(** The catalogue that [drop_index] writes is not in the log: the frame of an earlier commit
    replaces it when the database is opened. *)
Theorem dropped_index_returns : on_new dropped_index_run = Ok ([], ["by_v"]).
Proof. vm_compute. reflexivity. Qed.

(** Transactions do not save the roots of index trees, so that no later one finds the keys. *)
Theorem unique_index_accepts_duplicates :
  on_new unique_run = Ok (Ok "x", Ok "y") /\ on_new unique_late_run = Ok (Ok tt).
Proof. vm_compute. done. Qed.

(** The scan goes through the second leaf twice, and finds the keys it has just put there. *)
Theorem unique_index_rejects_two_leaves :
  on_new two_leaves_run = Ok (Err (Other "unique constraint violation on fields : duplicate value found")).
Proof. vm_compute. reflexivity. Qed.

(** ** The theorems about commits, at concrete inputs *)

(** A transaction that has put x, and another one that has put y, both waiting. *)
Definition waiting_run : DM (N * Transaction) :=
  let! t1 := begin_db in
  let! t2 := begin_db in
  let! '(c1, t1) := tx_run (let! _ := put_doc "x" "1" in submit) t1 in
  let! _ := tx_run (let! _ := put_doc "y" "2" in submit) t2 in
  st_ret (c1, t1).

Definition waiting : Result (N * txworld) :=
  let? d := open_sample None None in
  let '(r, d) := waiting_run d in
  let? '(c, t) := r in
  Ok (c, mk_txworld _ t d).

Lemma waiting_ok : exists c w, waiting = Ok (c, w) /\ has_db (w_tx w) = true /\ state (w_tx w) = Active /\
  completions (w_db w) !! c = Some None /\ c ∈ completion <$> pending_writes (w_db w) /\
  length (pending_writes (w_db w)) = 2 /\ (lead sample_fuel c w).1 = Ok tt.
Proof.
  assert (match waiting with
    | Ok (c, w) => has_db (w_tx w) && match state (w_tx w) with Active => true | _ => false end
        && match completions (w_db w) !! c with Some None => true | _ => false end
        && existsb (fun p => completion p =? c)%N (pending_writes (w_db w)) && (length (pending_writes (w_db w)) =? 2)
        && match (lead sample_fuel c w).1 with Ok tt => true | _ => false end
    | _ => false
    end = true) as H by (vm_compute; reflexivity).
  destruct waiting as [[c w]|e| |]; [|discriminate H..]. exists c, w.
  apply andb_prop in H as [H H6]. apply andb_prop in H as [H H5%Nat.eqb_eq]. apply andb_prop in H as [H H4].
  apply andb_prop in H as [H H3]. apply andb_prop in H as [H1 H2]. split_and!; try done.
  - by destruct (state (w_tx w)).
  - by destruct (completions (w_db w) !! c) as [[r|]|].
  - apply existsb_exists in H4 as (p & Hp%list_elem_of_In & <-%N.eqb_eq). apply list_elem_of_fmap. by exists p.
  - by destruct (lead sample_fuel c w).1 as [[]|e| |].
Qed.

Lemma batch_is_conflict_free_prefix_witness : exists w batch w',
  length (pending_writes (w_db w)) = 2 /\ collect_batch w = (Ok batch, w') /\ batch <> [] /\ check_batch_conflicts batch = Ok tt.
Proof.
  destruct waiting_ok as (c & w & _ & Hdb & _ & _ & _ & Hlen & _).
  destruct (batch_is_conflict_free_prefix w) as (batch & used & w' & H1 & _ & H2 & _ & _ & _ & H3); [exact Hdb|by destruct (pending_writes (w_db w))|].
  exists w, batch, w'. by split_and!.
Defined.

Lemma leader_serves_all_witness : exists w c w' h used,
  length (pending_writes (w_db w)) = 2 /\ lead sample_fuel c w = (Ok tt, w') /\ pending_writes (w_db w') = [] /\
  concat h.*1 = pending_writes (w_db w) ++ arrivals used /\ answer h c = Some (Ok tt) /\ state (w_tx w') = Committed.
Proof.
  destruct waiting_ok as (c & w & _ & Hdb & Hact & Hopen & Hin & Hlen & Hr).
  pose proof (leader_serves_all sample_fuel w c Hdb Hact Hopen Hin) as H.
  destruct (lead sample_fuel c w) as [r w'] eqn:E. cbn [fst] in Hr. subst r.
  destruct H as (h & w1 & used & _ & H1 & H2 & _ & H3 & H4 & H5 & _).
  exists w, c, w', h, used. split_and!; [done|exact E|exact (eq_trans (f_equal pending_writes H2) H1)|done|done|by apply H5].
Defined.

Lemma transaction_life_witness : exists w w', rollback w = (Ok tt, w') /\ state (w_tx w) = Active /\ state (w_tx w') = RolledBack /\
  rollback w' = (Err TxAlreadyDone, w') /\ commit sample_fuel w' = (Err TxAlreadyDone, w').
Proof.
  destruct waiting_ok as (c & w & _ & _ & Hact & _). exists w.
  destruct (transaction_life sample_fuel w) as (_ & Hroll & _). destruct (Hroll Hact) as (w' & H1 & H2 & _).
  exists w'. destruct (transaction_life sample_fuel w') as (_ & _ & Hdone).
  destruct Hdone as (H3 & H4 & _); [unfold tx_state in *; rewrite H2; discriminate|]. by split_and!.
Defined.

(** The document d is deleted by another transaction before the one that updates it commits. *)
Definition stale_pending : PendingWrite :=
  mk_pending ∅ {["users" := {["d" := 9%N]}]} {["users" := 3%N]} ∅ ∅ {["users"]} {["users" := {["d" := true]}]}
    {["users" := {["d" := 1%N]}]} 2 2 2 0.

(** A database whose collection users has its tree at page [q]. *)
Definition users_at (q : N) (p : Pager.Pager) (w : Wal.WALInner) : Database :=
  with_metadata (get_collection "users" (set_btree_root q)) (database_new sample_options w p).

Lemma users_at_root q p w nm : nm ∈ ({["users"]} : gset string) -> root_of nm (metadata (users_at q p w)) = q.
Proof. intros ->%elem_of_singleton. vm_compute. reflexivity. Qed.

Lemma validation_decides_conflicts_witness : exists d d',
  validate_pending_write sample_fuel stale_pending d = (Err TxConflict, d') /\ reads_only d d'.
Proof.
  destruct (wal_open None (Some 1%N) (Some 2%N)) as [rw w].
  destruct (snapshot_on_pager 2 500 ltac:(vm_compute; discriminate)) as (p & q & Hsnap & _).
  destruct (validation_decides_conflicts sample_fuel (users_at q p w) stale_pending (fun _ => ∅)) as (r & d' & H1 & H2 & H3).
  { intros nm Hnm. rewrite users_at_root by exact Hnm. exists 1, (TLeaf q [] 0). split_and!; [exact Hsnap|done|simpl; unfold sample_fuel; lia| |done].
    intros id page Hp. vm_compute in Hp. discriminate Hp. }
  exists (users_at q p w), d'. split; [|done]. rewrite H1. f_equal. exact H3.
Defined.

(** A database in which d was put and deleted. *)
Definition deleted : Result Database :=
  let? d := open_sample None None in
  let '(r, d) := (let! _ := run1 (put_doc "d" "0") in run1 (del_doc "d")) d in
  let? _ := r in
  Ok d.

Lemma stale_pending_fails : exists d d', validate_pending_write sample_fuel stale_pending d = (Err TxConflict, d').
Proof.
  assert (match deleted with
    | Ok d => match (validate_pending_write sample_fuel stale_pending d).1 with Err TxConflict => true | _ => false end
    | _ => false
    end = true) as H by (vm_compute; reflexivity).
  destruct deleted as [d|e| |]; [|discriminate H..]. exists d.
  destruct (validate_pending_write sample_fuel stale_pending d) as [[b|[]| |] d']; try discriminate H. by exists d'.
Qed.

Lemma failed_validation_changes_nothing_witness : exists d d',
  run_batch sample_fuel 1 [stale_pending] d = (Err TxConflict, d') /\ reads_only d d'.
Proof.
  destruct stale_pending_fails as (d & d' & H). exists d, d'. apply (failed_validation_changes_nothing sample_fuel 1 [stale_pending] d).
  cbn [st_each]. apply st_bind_err, st_bind_err. exact H.
Defined.

Lemma rebase_replays_writes_witness : exists d pending' d' B' t',
  rebase_single_collection sample_fuel "users" (root_of "users" (metadata d)) stale_pending d = (Ok pending', d') /\
  snapshot B' (pager d') t' /\ tree_map t' !! "d" = Some 9%N.
Proof.
  destruct (snapshot_on_pager 2 500 ltac:(vm_compute; discriminate)) as (p & q & Hsnap & Hroom).
  assert (default ∅ (p_doc_writes stale_pending !! "users") = {["d" := 9%N]}) as Hd by by vm_compute.
  destruct (wal_open None (Some 1%N) (Some 2%N)) as [rw w].
  pose proof (rebase_replays_writes sample_fuel (users_at q p w) stale_pending "users" 1 (TLeaf q [] 0) Hsnap) as H.
  rewrite Hd in H. destruct H as (pending' & d' & B' & t' & H1 & _ & H2 & H3 & _).
  - apply Forall_singleton. intros [H _]. discriminate H.
  - intros k b Hk. vm_compute in Hk. discriminate Hk.
  - intros k n [<- <-]%lookup_singleton_Some. by apply (bool_decide_unpack _).
  - intros k [_ ?]%lookup_singleton_Some. done.
  - vm_compute. lia.
  - vm_compute. lia.
  - refine (ps_room_le _ 500 _ Hroom _). vm_compute. lia.
  - exists (users_at q p w), pending', d', B', t'. split_and!; [|exact H2|].
    + rewrite (users_at_root q p w "users") by set_solver. exact H1.
    + rewrite H3. by vm_compute.
Defined.
