(* ===== verification/CollectionRuns.v ===== *)
(** * Runs of collections

    The theorems about collections at concrete inputs, under the parameters of [Samples.v], and
    histories in which the operations outside a transaction of the caller do not do what they
    mean to. *)

From stdpp Require Import base list strings gmap.
From Stdlib Require Import NArith Lia.
From S2P Require Import Prelude Constants Bytes Text PageStore Json IndexKey QueryBuilder LruCache Pager Document BTreeNode BTree BTreeSpec BTreeOnPager.
From S2P Require Import Wal Mvcc Validation TxBTree Metadata Watch DatabaseState TxCollection Transaction Database Errors Collection.
From S2P Require Import Samples CommitSpec CollectionSpec CollectionTree CollectionCommit.

#[local] Open Scope nat_scope.

#[export] Instance sample_debug_str : DebugStr := fun s => s.

(** ** Histories *)
Definition on_new_database {A} (m : DM A) : Result A := let? d := open_sample None None in (m d).1.

(** The result as a value: the run goes on after an error. *)
Definition tried {A} (m : DM A) : DM (Result A) := fun d => let '(r, d) := m d in (Ok r, d).

Definition ins (id v : string) : DM string := Collection.insert sample_fuel "users" "g" (doc [("_id", id); ("v", v)]).
Definition get (id : string) : DM (option string) :=
  let! v := Collection.find_by_id sample_fuel "users" id in st_ret (value_get "v" v ≫= as_str).
Definition upd (id v : string) : DM unit := Collection.update_by_id sample_fuel "users" id (doc [("v", v)]).
Definition del (id : string) : DM unit := Collection.delete_by_id sample_fuel "users" id.

(** The files as they are, read by a later [open]. *)
Definition crash : DM Database := fun d => (open_sample (Some (Pager.file (pager d))) (Some (Wal.file (wal d))), d).

(** An ordered bulk write inserts b and fails on a; b is looked for, c is inserted, b is looked
    for again. *)
Definition failed_bulk_run : DM (Result nat * Result (option string) * Result (option string) * nat) :=
  let! _ := ins "a" "1" in
  let! r := tried (let! r := bulk_execute sample_fuel "users" (fun _ => "g")
      (bulk_insert (doc [("_id", "a")]) (bulk_insert (doc [("_id", "b"); ("v", "7")]) bulk_new)) in
    st_ret (inserted_count r)) in
  let! before := tried (get "b") in
  let! _ := ins "c" "1" in
  let! after := tried (get "b") in
  let! n := Collection.count sample_fuel "users" in
  st_ret (r, before, after, n).

(** The same with [insert_many]. *)
Definition failed_insert_many_run : DM (Result (list string) * nat) :=
  let! _ := ins "a" "1" in
  let! r := tried (Collection.insert_many sample_fuel "users" [("", doc [("_id", "b")]); ("", doc [("_id", "a")])]) in
  let! _ := ins "c" "1" in
  let! n := Collection.count sample_fuel "users" in
  st_ret (r, n).

(** An update and a deletion; then the process ends without closing the database. *)
Definition crash_run : DM (Result (option string) * (Result (option string) * Result (option string))) :=
  let! _ := ins "a" "1" in
  let! _ := ins "b" "1" in
  let! _ := upd "b" "2" in
  let! _ := del "a" in
  let! before := tried (get "a") in
  let! d := crash in
  st_lift ((let! a := tried (get "a") in let! b := tried (get "b") in st_ret (before, (a, b))) d).1.

(** A transaction begins; a is updated, and b deleted, outside it; then it reads both. *)
Definition snapshot_run : DM (Result (option string) * Result (option string)) :=
  let! _ := ins "a" "1" in
  let! _ := ins "b" "1" in
  let! t := begin_db in
  let! _ := upd "a" "2" in
  let! _ := del "b" in
  let! a := tried (let! '(x, _) := tx_run (get_doc "a") t in st_ret x) in
  let! b := tried (let! '(x, _) := tx_run (get_doc "b") t in st_ret x) in
  st_ret (a, b).

(** A failed bulk write is not undone. The tree of the collection is changed in place and its
    root saved before the transaction commits; when an ordered bulk write fails, its insertion
    of b is invisible for as long as no later transaction commits, and is part of the
    collection after the next commit of anything. *)
Theorem failed_bulk_write_appears : on_new_database failed_bulk_run =
  Ok (Err (Other "bulk write failed at operation 1: document with ID a already exists"),
    Err (Other "document not found"), Ok (Some "7"), 3).
Proof. vm_compute. reflexivity. Qed.

Theorem failed_insert_many_appears : on_new_database failed_insert_many_run =
  Ok (Err (Other "document with ID a already exists"), 3).
Proof. vm_compute. reflexivity. Qed.

(** A deletion is not durable. It changes the page of the tree in the cache and frees those of
    the document, and logs none of them; recovery brings them back: after a crash the deleted
    document is there again, while the update that was committed before it has survived. *)
Theorem deletion_is_lost_in_a_crash : on_new_database crash_run = Ok (Err NotFound, (Ok (Some "1"), Ok (Some "2"))).
Proof. vm_compute. reflexivity. Qed.

(** A transaction does not keep the documents of its snapshot when they are updated or deleted
    outside it. *)
Theorem snapshot_loses_documents : on_new_database snapshot_run =
  Ok (Err (DocumentNotFound "users" "a"), Err (DocumentNotFound "" "b")).
Proof. vm_compute. reflexivity. Qed.

(** ** The theorems at concrete inputs *)

(** A transaction of a new database, on a given tree. *)
Definition world_on (b : bstate Pager.Pager) (w : WALInner) : treeworld :=
  mk_treeworld _ (mk_txworld _ (mk_transaction 1 1 1 Active ∅ ∅ ∅ ∅ ∅ ∅ true ∅ ∅) (database_new sample_options w (store b))) (inner b).

Lemma world_on_tree b w : tree_of (world_on b w) = b.
Proof. by destruct b. Qed.

Definition sample_doc_ops : list (@doc_op _) :=
  [DInsert "" (doc [("_id", "a"); ("v", "1")]); DInsert "g" (doc [("v", "2")]); DInsert "" (doc [("_id", "a")]);
   DUpdate "a" [("v", Str "3")]; DDelete "g"; DDelete "g"; DFind "b"].

Definition sample_spec := spec_doc_ops "users" 1 1 metadata_new sample_doc_ops ∅.

(** An id of at most 71 bytes with a text, as a check. *)
Definition storable (id : string) (data : list byte) : bool :=
  bool_decide (rust_string id) && (1 <=? length (as_bytes id)) && (length (as_bytes id) <=? 71) && (N.of_nat (length data) <=? data_limit)%N.

Lemma storable_ok id data : storable id data = true -> key_short id /\ doc_ok id data.
Proof.
  unfold storable. rewrite !andb_true_iff, !Nat.leb_le, N.leb_le, bool_decide_eq_true. intros [[[? ?] ?] ?].
  split; split; try done; lia.
Qed.

Fixpoint all_storable (os : list (@doc_op _)) (docs : gmap string VersionedDocument) : bool :=
  match os with
  | [] => true
  | o :: os => match spec_text "users" 1 metadata_new o docs with Ok (id, data) => storable id data | _ => true end &&
      all_storable os (spec_doc_op "users" 1 1 metadata_new o docs).2
  end.

Lemma all_storable_fit os docs : all_storable os docs = true -> ops_fit "users" 1 1 metadata_new os docs.
Proof.
  revert docs. induction os as [|o os IH]; intros docs; [done|]. cbn [all_storable ops_fit]. intros [H1 H2]%andb_prop.
  split; [|by apply IH]. unfold op_fits. destruct (spec_text "users" 1 metadata_new o docs) as [[id data]|e| |]; [by apply storable_ok|done..].
Qed.

Lemma sample_collection_run : exists s s' t pages,
  run_doc_ops sample_fuel "users" sample_doc_ops s = (sample_spec.1, s') /\
  collection_in s' t sample_spec.2 pages /\ height t <= 8.
Proof.
  destruct (new_tree_on_pager 2 100 ltac:(vm_compute; discriminate)) as (p & b & _ & Hok & Hroom).
  destruct (wal_open None (Some 1%N) (Some 2%N)) as [rw w].
  assert (collection_in (world_on b w) (TLeaf p [] 0) ∅ (fun _ => [])) as Hc
    by (apply new_collection_in; [by rewrite world_on_tree|done]).
  destruct (run_doc_ops_spec sample_fuel "users" sample_doc_ops (world_on b w) _ _ _ 1 Hc) as (s' & t & pages & H1 & _ & H2 & H3).
  - simpl. lia.
  - vm_compute. lia.
  - done.
  - apply all_storable_fit. vm_compute. reflexivity.
  - refine (ps_room_le _ 100 _ Hroom _). vm_compute. lia.
  - by exists (world_on b w), s', t, pages.
Qed.

Lemma collection_refines_map_witness : exists s s' t pages,
  run_doc_ops sample_fuel "users" sample_doc_ops s =
    ([RInserted (Ok "a"); RInserted (Ok "g"); RInserted (Err (Other "document with ID a already exists"));
      RUpdated (Ok tt); RDeleted (Ok tt); RDeleted (Err NotFound); RFound (Err NotFound)], s') /\
  collection_in s' t sample_spec.2 pages.
Proof.
  destruct (new_tree_on_pager 2 100 ltac:(vm_compute; discriminate)) as (p & b & _ & Hok & Hroom).
  destruct (wal_open None (Some 1%N) (Some 2%N)) as [rw w].
  assert (collection_in (world_on b w) (TLeaf p [] 0) ∅ (fun _ => [])) as Hc
    by (apply new_collection_in; [by rewrite world_on_tree|done]).
  destruct (collection_refines_map sample_fuel "users" (world_on b w) _ _ _ sample_doc_ops Hc) as (s' & t & pages & H1 & H2 & _).
  - vm_compute. lia.
  - done.
  - apply all_storable_fit. vm_compute. reflexivity.
  - refine (ps_room_le _ 100 _ Hroom _). vm_compute. lia.
  - exists (world_on b w), s', t, pages. split; [exact H1|exact H2].
Defined.

(** A database with the collection of the run, after a commit of its transaction. *)
Definition committed_world (s : treeworld) : Database :=
  with_tx_manager (fun _ => mk_manager 2 1 ∅) (with_metadata
    (fun _ => Metadata.get_collection "users" (set_btree_root (root_page (t_inner s))) metadata_new)
    (w_db (t_world s))).

Definition sample_version : VersionedDocument :=
  mk_vdoc "a" (match map_to_vec [("_id", Str "a"); ("v", Str "3")] with inl b => b | inr _ => [] end) 1 0.

Lemma sample_docs_a : sample_spec.2 = {["a" := sample_version]}.
Proof. vm_compute. reflexivity. Qed.

Lemma sample_collection_at : exists d t, collection_at sample_fuel "users" d t sample_spec.2 /\ snapshot_now d = 1%N.
Proof.
  destruct sample_collection_run as (_ & s & t & pages & _ & Hc & Hh). exists (committed_world s), t. split; [|done].
  eexists. split; [unfold committed_world, Metadata.get_collection; reflexivity|]. split.
  - assert (tpage t <> 0%N) as H0.
    { pose proof (so_nonzero _ _ (to_stored _ _ (ci_tree _ _ _ _ Hc))) as Hz. rewrite Forall_forall in Hz. apply (Hz _ (nodes_head t)). }
    rewrite <-(to_root _ _ (ci_tree _ _ _ _ Hc)) in H0. exact H0.
  - apply (collection_readable sample_fuel s t _ pages Hc); [unfold sample_fuel; lia|]. rewrite sample_docs_a, map_size_singleton. unfold sample_fuel. lia.
Qed.

Lemma sample_version_reads : value_from_slice (vd_data sample_version) = inl (doc [("_id", "a"); ("v", "3")]).
Proof. vm_cast_no_check (eq_refl (value_from_slice (vd_data sample_version))). Qed.

Lemma reads_show_the_snapshot_witness : exists d t,
  (Collection.find_by_id sample_fuel "users" "a" d).1 = Ok (doc [("_id", "a"); ("v", "3")]) /\
  (Collection.find_by_id sample_fuel "users" "g" d).1 = Err NotFound /\
  (Collection.count sample_fuel "users" d).1 = Ok (length (versions_met d t sample_spec.2)).
Proof.
  destruct sample_collection_at as (d & t & Hat & Hsnap). exists d, t.
  destruct (reads_show_the_snapshot sample_fuel "users" d t sample_spec.2 Hat "v is '3'" "a") as (_ & Hcount & _ & Ha).
  destruct (reads_show_the_snapshot sample_fuel "users" d t sample_spec.2 Hat "v is '3'" "g") as (_ & _ & _ & Hg).
  destruct Hat as (c & _ & _ & [_ _ _ Hdocs Honly]). split_and!; [etrans; [exact Ha|]|etrans; [exact Hg|]|exact Hcount]; unfold found_by_id.
  - destruct (tree_map t !! "a") as [p|] eqn:Hp.
    + unfold version_of. rewrite Hsnap, sample_docs_a, lookup_singleton_eq.
      replace (vdoc_is_visible sample_version 1) with true by reflexivity. cbv beta iota.
      match goal with |- match ?x with _ => _ end = _ => replace x with (inl (B := string) (doc [("_id", "a"); ("v", "3")])) by (symmetry; exact sample_version_reads) end. reflexivity.
    + apply Honly in Hp. by rewrite sample_docs_a, lookup_singleton_eq in Hp.
  - destruct (tree_map t !! "g") as [p|] eqn:Hp; [|done].
    destruct (Hdocs "g" p Hp) as (v & Hv & _). by rewrite sample_docs_a, lookup_singleton_ne in Hv.
Defined.

Lemma collection_serves_queries_witness : exists d, @CollectionReadsLaws _ (collection_reads sample_fuel "users" d).
Proof.
  destruct sample_collection_at as (d & t & Hat & Hsnap). exists d. apply collection_serves_queries.
  unfold serves. destruct Hat as (c & Hc & _ & Hre).
  match goal with |- match ?x with _ => _ end => replace x with (Some c) by (symmetry; exact Hc) end. right. exists t, sample_spec.2. split; [exact Hre|].
  apply Forall_forall. intros v (e & _ & Hv)%list_elem_of_omap. unfold version_of in Hv. rewrite sample_docs_a in Hv.
  destruct (decide (key e = "a")) as [Hk|Hk].
  - rewrite Hk, lookup_singleton_eq in Hv. destruct (vdoc_is_visible sample_version _); [|done]. injection Hv as <-. by eexists.
  - by rewrite lookup_singleton_ne in Hv.
Defined.

Lemma delete_by_id_removes_witness : exists d d',
  Collection.delete_by_id sample_fuel "users" "a" d = (Ok tt, d') /\ wal d' = wal d /\
  (Collection.find_by_id sample_fuel "users" "a" d').1 = Err NotFound.
Proof.
  destruct sample_collection_run as (_ & s & t & pages & _ & Hc & Hh).
  assert (stored_collection "users" (committed_world s) t sample_spec.2 pages) as Hst.
  { eexists _, (mk_treeworld _ (mk_txworld _ (mk_transaction 1 1 1 Active ∅ ∅ ∅ ∅ ∅ ∅ true ∅ ∅) (committed_world s))
      (inner_new (BTree.root_page (t_inner s)))).
    split; [unfold committed_world, Metadata.get_collection; reflexivity|]. split.
    - pose proof (so_nonzero _ _ (to_stored _ _ (ci_tree _ _ _ _ Hc))) as Hz. rewrite Forall_forall in Hz.
      pose proof (Hz _ (nodes_head t)) as H0. rewrite <-(to_root _ _ (ci_tree _ _ _ _ Hc)) in H0. exact H0.
    - split_and!; [done..|]. by eapply collection_flushed; [exact Hc|..]. }
  destruct (delete_by_id_removes sample_fuel "users" (committed_world s) t sample_spec.2 pages "a" Hst) as (r & d' & t' & H1 & H2 & _ & H3 & _ & _ & H4).
  - unfold sample_fuel. lia.
  - rewrite sample_docs_a, map_size_singleton. unfold sample_fuel. lia.
  - exists (committed_world s), d'. rewrite sample_docs_a, lookup_singleton_eq in H3. rewrite H3 in H1. split_and!; [exact H1|exact H2|exact H4].
Defined.
