(* ===== verification/TextSearchRuns.v ===== *)
(** * Runs of text search

    A text index of a database that is built and searched by evaluation, and the theorems about
    searches at concrete inputs. *)

From stdpp Require Import base list strings gmap sorting.
From Stdlib Require Import NArith ZArith Lia Ascii Strings.Byte Floats.SpecFloat.
From S2P Require Import Prelude Constants Bytes BufferPool Text Order PageStore Json IndexKey LruCache Pager Document BTreeNode BTree BTreeSpec BTreeOnPager.
From S2P Require Import Wal Mvcc Validation TxBTree Metadata Watch DatabaseState Transaction TxCollection Database Errors Collection.
From S2P Require Import TextSearch Samples CollectionRuns TextSearchSpec.

#[local] Open Scope nat_scope.

(** Words between spaces, no logarithm, and postings as pairs of an id and a positive finite
    number. *)
#[export] Instance sample_words : Segmentation := split_at " "%char.
#[export] Instance sample_ln : LogF32 := fun x => x.

Definition posting_code : Code (list (string * (N * N))) := list_code (pair_code string_code (pair_code N_code N_code)).

Definition f32_pair (x : f32) : option (N * N) :=
  match x with S754_finite false m e => Some (Npos m, Z.to_N (e + 1000)) | _ => None end.

Definition f32_of_pair (p : N * N) : f32 := binary_normalize 24 128 (Z.of_N p.1) (Z.of_N p.2 - 1000) false.

#[export] Instance sample_postings : SerdePostings := {|
  postings_to_vec l := match mapM (fun kv => (fun p => (kv.1, p)) <$> f32_pair kv.2) l with
    | Some l => inl (put posting_code l)
    | None => inr "not a positive number"
    end;
  postings_from_slice data := match take_code posting_code data with
    | Some (l, _) => inl (list_to_map ((fun kv => (kv.1, f32_of_pair kv.2)) <$> l))
    | None => inr "no postings"
    end |}.

Definition create_sample_index : DM unit := create_text_index sample_fuel "users" "by_v" ["v"].

Definition search_users (query : string) : DM (list string) :=
  let! results := search_collection sample_fuel "users" query in st_ret (r_doc_id <$> results).

(** Three documents, an index, and searches. *)
Definition search_run : DM (list (list string)) :=
  let! _ := ins "a" "Rust is fast" in
  let! _ := ins "b" "slow rust" in
  let! _ := ins "c" "fast" in
  let! _ := create_sample_index in
  let! r1 := search_users "FAST" in
  let! r2 := search_users "rust" in
  let! r3 := search_users "slow fast" in
  let! r4 := search_users "x" in
  st_ret [r1; r2; r3; r4].

Example searches_rank_documents : on_new_database search_run = Ok [["c"; "a"]; ["b"; "a"]; ["c"; "b"; "a"]; []].
Proof. vm_compute. reflexivity. Qed.

(** Two documents, an index; then one is deleted and another one inserted. *)
Definition stale_index_run : DM (list string) :=
  let! _ := ins "a" "Rust is fast" in
  let! _ := ins "b" "fast" in
  let! _ := create_sample_index in
  let! _ := del "a" in
  let! _ := ins "c" "fast" in
  search_users "fast".

(** A text index is not kept up to date. The documents that are there when it is created are
    indexed and nothing else ever is: a search does not find the document that was inserted
    afterwards, and still finds the one that was deleted. *)
Theorem text_index_goes_stale : on_new_database stale_index_run = Ok ["b"; "a"].
Proof. vm_compute. reflexivity. Qed.

(** ** A search at a concrete index *)
Definition sample_posting_text : list byte := put posting_code [("a", (1, 1000)%N); ("b", (1, 999)%N)].

Definition sample_page : list byte := sample_posting_text ++ replicate (PAGE_SIZE - length sample_posting_text) Byte.x00.

Lemma sample_page_length : length sample_page = PAGE_SIZE.
Proof. vm_compute. reflexivity. Qed.

Definition sample_post : gmap string f32 := {["a" := f32_one; "b" := f32_div f32_one (f32_of_usize 2)]}.

Lemma sample_page_postings : parse_postings sample_page = sample_post.
Proof. vm_compute. reflexivity. Qed.

Lemma sample_index : exists (b : bstate Pager.Pager) t, index_ok 5 b t /\ postings_at b t "fast:v" = sample_post.
Proof.
  destruct (new_tree_on_pager 2 20 ltac:(vm_compute; discriminate)) as (p & b & _ & Hok & Hroom).
  destruct (ps_alloc_law (store b) 19 (so_inv _ _ (to_stored _ _ Hok)) Hroom) as (q & s1 & _ & Hi1 & Hnew & Hq & Hq0 & Hu1 & Hv1 & Hr1).
  destruct (ps_write_law s1 q sample_page Hi1 Hq sample_page_length) as (s2 & _ & Hi2 & Hv2 & Hu2 & Hr2).
  assert (tree_ok (mk_bstate s2 (inner b)) (TLeaf p [] 0)) as Hok2.
  { eapply tree_ok_moved; [exact Hok|apply Hok|done|exact Hi2|]. intros x Hx Hux. split; [by apply Hu2, Hu1|]. simpl.
    etrans; [apply Hv2|]. rewrite decide_False; [by apply Hv1|]. by intros ->. }
  destruct (insert_lemma (mk_bstate s2 (inner b)) _ 5 "fast:v" q 10 Hok2) as (b' & t' & _ & Hok' & Hm & Hh & (_ & Hu & Hv) & _).
  { simpl. lia. } { split; [done|vm_compute; lia]. } { exact (ps_used_small s1 q Hi1 Hq). }
  { refine (ps_room_le _ 19 _ (Hr2 _ Hr1) _). simpl. lia. }
  assert (ps_view (store b') q = Some sample_page) as Hview.
  { etrans; [apply Hv; [by apply Hu2|]|etrans; [apply Hv2|by rewrite decide_True]].
    cbn [nodes tpage fmap list_fmap fst]. rewrite list_elem_of_singleton. intros ->.
    apply Hnew. eapply holds_used; [apply Hok|simpl; by left]. }
  exists b', t'. split; [split; [done|split; [simpl in Hh; lia|]]|].
  - intros k page Hk. rewrite Hm in Hk. destruct (decide (k = "fast:v")) as [->|Hne].
    + rewrite lookup_insert_eq in Hk. injection Hk as <-. split; [by apply Hu, Hu2|by rewrite Hview].
    + rewrite lookup_insert_ne in Hk by done. by apply (lookup_empty_Some (M := gmap string) k page) in Hk.
  - unfold postings_at. rewrite Hm, lookup_insert_eq. cbn [mbind option_bind]. rewrite Hview. exact sample_page_postings.
Qed.

Lemma search_ranks_documents_witness : exists (b : bstate Pager.Pager) results b',
  TextSearch.search 5 ["v"] "Fast x" 4 b = (Ok results, b') /\ "a" ∈ r_doc_id <$> results /\ NoDup (r_doc_id <$> results).
Proof.
  destruct sample_index as (b & t & Hix & Hp).
  assert (scores_of b t 4 (term_fields ["v"] (tokenize "Fast x")) ∅ = add_scores (calculate_idf 4 2) sample_post ∅) as Hsc.
  { change (term_fields ["v"] (tokenize "Fast x")) with [("fast", "v")]. unfold scores_of. cbn [foldl fst snd].
    change (term_key "fast" "v") with "fast:v". rewrite Hp. done. }
  destruct (search_ranks_documents 5 ["v"] b t "Fast x" 4 Hix) as (results & b' & H1 & _ & H2 & _ & _ & H3).
  - rewrite Hsc. apply map_Forall_to_list. vm_compute. repeat constructor.
  - exists b, results, b'. split; [exact H1|]. split; [|exact H2]. apply H3. exists "fast", "v". split_and!.
    + vm_compute. left.
    + by left.
    + change (term_key "fast" "v") with "fast:v". rewrite Hp. by eexists.
Defined.
