(* ===== verification/WebServerRuns.v ===== *)
(** * Requests to a server

    The theorems about requests at concrete inputs, under the parameters of [Samples.v], and
    what the requests of the web interface do to a whole database, one after the other. *)

From stdpp Require Import base list strings gmap.
From Stdlib Require Import NArith Lia.
From S2P Require Import Prelude Constants Bytes Text Order PageStore Json IndexKey QueryBuilder LruCache Pager Document BTreeNode BTree.
From S2P Require Import Wal Mvcc Validation TxBTree Metadata Watch DatabaseState Transaction TxCollection Database Errors Collection Metrics WebServer.
From S2P Require Import Samples WebServerSpec.

#[local] Open Scope nat_scope.

#[local] Instance web_debug_str : DebugStr := fun s => s.

(** A document is sent as the text of its field v; answers separate what they list by commas. *)
#[local] Instance web_text : @SerdeText float_numbers := {|
  value_to_string v := match v with Str s => s | _ => "" end;
  json_to_string v := match v with Object m => inl (join "," ((fun kv => kv.1 +:+ ":" +:+ default "" (as_str kv.2)) <$> m)) | _ => inr "" end;
  json_from_str s := if String.eqb s "" then inr "EOF" else inl (doc [("v", s)]) |}.

#[local] Instance sample_web : @SerdeWeb float_numbers := {|
  values_to_string_pretty vs := inl (join "," ((fun v => default "" (value_get "v" v ≫= as_str)) <$> vs));
  names_to_string_pretty names := inl (join "," names);
  metrics_to_string_pretty _ := inl "";
  create_request_from_str s := if String.eqb s "" then inr "EOF" else inl s;
  rename_request_from_str s := if String.eqb s "" then inr "EOF" else inl s |}.

(** The status and the body of the answer to a request. *)
Definition ask (method url body : string) : DM (N * string) :=
  let! r := handle "html" sample_fuel Metrics.new "g1" (mk_request method url (Some body)) in
  st_ret (status_code r, WebServer.body r).

Definition from_new {A} (m : DM A) : Result A := let? d := open_sample None None in (m d).1.

(** The database closed in order and opened again. *)
Definition after_reopen {A} (m : DM A) : DM A :=
  let! d := reopen in st_lift (m d).1.

(** A document is created, changed, listed and deleted. *)
Definition documents_run : DM (list (N * string)) :=
  let! a := ask "POST" "/api/collections/users" "1" in
  let! b := ask "GET" "/api/collections/users" "" in
  let! c := ask "PUT" "/api/collections/users/g1" "2" in
  let! d := ask "GET" "/api/collections/users" "" in
  let! e := ask "DELETE" "/api/collections/users/g1" "" in
  let! f := ask "GET" "/api/collections/users" "" in
  let! g := ask "DELETE" "/api/collections/users/g1" "" in
  let! h := ask "POST" "/api/collections/users/g1" "3" in
  st_ret [a; b; c; d; e; f; g; h].

(** A collection is created, listed, and listed again after the database was reopened. *)
Definition created_run : DM (list (N * string)) :=
  let! a := ask "POST" "/api/collections" "users" in
  let! b := ask "GET" "/api/collections" "" in
  let! c := after_reopen (ask "GET" "/api/collections" "") in
  st_ret [a; b; c].

(** A collection with a document is dropped, and listed after the database was reopened. *)
Definition dropped_run : DM (list (N * string)) :=
  let! _ := ask "POST" "/api/collections/users" "1" in
  let! a := ask "DELETE" "/api/collections/users" "" in
  let! b := ask "GET" "/api/collections" "" in
  let! c := after_reopen (ask "GET" "/api/collections/users" "") in
  st_ret [a; b; c].

(** A collection that does not exist is read three times. *)
Definition missing_run : DM (list (N * string) * list N) :=
  let pages := on_pager (st_get num_pages) in
  let! p0 := pages in
  let! a := ask "GET" "/api/collections/nobody" "" in
  let! p1 := pages in
  let! b := ask "GET" "/api/collections/nobody" "" in
  let! p2 := pages in
  let! c := ask "GET" "/api/collections" "" in
  st_ret ([a; b; c], [p0; p1; p2]).

(** The document is there from its creation to its deletion; a second deletion fails, and a path
    with an id is not one to create at. *)
Theorem documents_are_served : from_new documents_run = Ok [
  (201%N, "id:g1"); (200%N, "1"); (200%N, "status:updated"); (200%N, "2"); (200%N, "status:deleted"); (200%N, "");
  (500%N, "Failed to delete document: document not found: collection=, id=g1"); (404%N, "Not Found")].
Proof. vm_compute. reflexivity. Qed.

(** A collection that was created and answered with 201 is gone when the database was closed in
    order and is opened again. *)
Theorem created_collection_is_lost : from_new created_run = Ok [(201%N, "name:users,status:created"); (200%N, "users"); (200%N, "")].
Proof. vm_compute. reflexivity. Qed.

(** A collection that was dropped is there again, with its document. *)
Theorem dropped_collection_returns : from_new dropped_run = Ok [(200%N, "name:users,status:deleted"); (200%N, ""); (200%N, "1")].
Proof. vm_compute. reflexivity. Qed.

(** Reading a collection that does not exist is answered with 200 and no documents, and takes a
    page for a tree that nobody keeps, each time. *)
Theorem reading_takes_pages : from_new missing_run = Ok ([(200%N, ""); (200%N, ""); (200%N, "")], [2%N; 3%N; 4%N]).
Proof. vm_compute. reflexivity. Qed.

(** ** Witnesses *)
Lemma requests_are_routed_witness :
  handle "html" sample_fuel Metrics.new "g1" (mk_request "PUT" "/api/collections/users/a" None) =
    serve_update_document sample_fuel "users" "a" (mk_request "PUT" "/api/collections/users/a" None) /\
  handle "html" sample_fuel Metrics.new "g1" (mk_request "PUT" "/api/collections//a" None) = st_ret serve_404.
Proof.
  split.
  - apply (requests_are_routed "html" sample_fuel Metrics.new "g1"). by apply update_route.
  - apply (requests_are_routed "html" sample_fuel Metrics.new "g1").
    intros h [H H'|H H'|H H'|H H'|H H'|x H _ _|x H _ _|x id _ H' [Hx Hs] _|x H _ _|x H _ _|x id H _ _ _]; try done.
    destruct x as [|a x]; [done|]. cbn in H', Hs. injection H' as <- _. done.
Defined.

Lemma failed_requests_leave_no_trace_witness : exists d resp d', open_sample None None = Ok d /\
  handle "html" sample_fuel Metrics.new "g1" (mk_request "DELETE" "/api/collections/users/a" None) d = (Ok resp, d') /\ no_trace d d'.
Proof.
  assert (from_new (handle "html" sample_fuel Metrics.new "g1" (mk_request "DELETE" "/api/collections/users/a" None)) =
    Ok (mk_response 500 [] "Failed to delete document: document not found: collection=, id=a")) as Hrun by (vm_compute; reflexivity).
  unfold from_new in Hrun. destruct (open_sample None None) as [d|e| |]; try discriminate Hrun.
  change ((handle "html" sample_fuel Metrics.new "g1" (mk_request "DELETE" "/api/collections/users/a" None) d).1 =
    Ok (mk_response 500 [] "Failed to delete document: document not found: collection=, id=a")) in Hrun.
  destruct (handle "html" sample_fuel Metrics.new "g1" (mk_request "DELETE" "/api/collections/users/a" None) d) as [r d'] eqn:E.
  cbn [fst] in Hrun. exists d. eexists. exists d'. split; [reflexivity|]. split; [rewrite <- Hrun; exact E|].
  apply (failed_requests_leave_no_trace _ _ _ _ _ _ _ _ E). right. eexists. split; [exact Hrun|]. by split_and!.
Defined.

Lemma collection_requests_change_catalogue_witness : exists d, open_sample None None = Ok d /\
  administers (Rename "users" "people") "Failed to rename collection"
    (json_response (json_object [("status", "renamed"); ("old_name", "users"); ("new_name", "people")])) d
    (serve_rename_collection sample_fuel "users" (mk_request "PATCH" "/api/collections/users" (Some "people")) d).
Proof.
  assert (is_ok (open_sample None None) = true) as Hok by (vm_compute; reflexivity).
  destruct (open_sample None None) as [d|e| |]; try discriminate Hok. exists d. split; [reflexivity|].
  apply (collection_requests_change_catalogue sample_fuel (mk_request "PATCH" "/api/collections/users" (Some "people")) "people" "users" "people" d);
    reflexivity.
Defined.
