(* ===== verification/CommandLineRuns.v ===== *)
(** * Sessions of the command line

    A session of the interactive shell on a whole database, and the theorems about commands at
    concrete inputs, under the parameters of [Samples.v]. *)

From stdpp Require Import base list strings gmap sorting.
From Stdlib Require Import NArith Lia Ascii.
From S2P Require Import Prelude Constants Bytes Text Order PageStore Json QueryParser IndexKey QueryBuilder LruCache Pager Document BTreeNode BTree.
From S2P Require Import Wal Mvcc Validation TxBTree Metadata Watch DatabaseState Transaction TxCollection Database Errors Collection TextSearch Metrics Aggregation CommandLine.
From S2P Require Import Samples TextSearchRuns CommandLineSpec.

#[local] Open Scope nat_scope.

#[local] Instance cli_debug_str : DebugStr := fun s => s.
#[local] Instance cli_hashing : HashOrder (list (@Value float_numbers)) := {| hash_iter l := l; hash_iter_perm l := reflexivity l |}.

(** A document is written as its one field v between braces, and shown as the value of v. *)
Definition braces_text (s : string) : option string :=
  match s with
  | String c rest => if Ascii.eqb c "{" then match split_at "}" rest with [v; ""] => Some v | _ => None end else None
  | EmptyString => None
  end.

Definition value_text (v : @Value float_numbers) : string := default "" (value_get "v" v ≫= as_str).

#[local] Instance cli_json : @SerdeText float_numbers := {|
  value_to_string _ := "";
  json_to_string v := match v with Array vs => inl (join "," (value_text <$> vs)) | _ => inl "object" end;
  json_from_str s := match braces_text s with Some v => inl (doc [("v", v)]) | None => inr "EOF" end |}.

#[local] Instance sample_cli : @CliText float_numbers := {|
  to_string_pretty _ := inl "";
  array_to_string_pretty vs := inl (join "," (value_text <$> vs));
  array_from_str s := inl ((fun v => doc [("v", v)]) <$> split_at "," s);
  schema_from_value _ := inr "not a schema";
  schema_to_value _ := inr "not a value";
  to_colored_json_auto s := inl s;
  draw_table _ _ := "";
  dimmed s := s;
  percent _ := "";
  from_u64 n := f64_of_Z (Z.of_N n);
  from_f32 _ := Null |}.

Definition sample_ids (n : nat) : string := match n with 0 => "g1" | 1 => "g2" | _ => "g3" end.

Definition new_shell (d : Database) : shell := mk_shell _ d FmtJson None [] ∅ ∅.

(** The lines that a session prints, after those of the greeting. *)
Definition session (lines : list string) : Result (list Line) :=
  let? d := open_sample None None in
  let '(r, s) := start sample_fuel "sample.db" (snapshot Metrics.new) sample_ids (ReadLine <$> lines) (new_shell d) in
  match r with Ok _ => Ok (drop 3 (printed s)) | _ => Panic end.

(** The documented session: the collection is not created, the filter of find is not heeded or
    refused, update and delete do nothing, drop and show collections are no commands. *)
Theorem documented_session : session
  ["create users"; "insert {1}"; "collections"; "use users"; " insert {1} "; "find"; "find v is '9'"; "find {v: 9}";
   "update {1} {2}"; "delete {1}"; "find"; "drop"; "show collections"; "exit"; "find"] = Ok
  [Success "Collection 'users' created";
   Failure "No collection selected. Use 'use <collection>' first";
   Plain "";
   Success "Now using collection 'users'";
   Success "Document inserted with ID: g1";
   Plain "1";
   Plain "1";
   Failure "failed to parse query: illegal token at position 0: {";
   Failure "Failed to parse JSON";
   Failure "failed to parse query: illegal token at position 0: {";
   Plain "1";
   Failure "Dropping collections is not supported. Collection 'users' will remain in metadata.";
   Failure "Unknown command: 'show'. Type 'help' for available commands"].
Proof. vm_compute. reflexivity. Qed.

(** ** Witnesses *)
Lemma json_filters_are_refused_witness : exists d, open_sample None None = Ok d /\
  refused (execute_command sample_fuel "sample.db" (snapshot Metrics.new) sample_ids (DocDelete "users" "{v: 1}")) (new_shell d) /\
  refused (execute_command sample_fuel "sample.db" (snapshot Metrics.new) sample_ids (DocCount "users" "{v: 1}")) (new_shell d).
Proof.
  assert (is_ok (open_sample None None) = true) as Hok by (vm_compute; reflexivity).
  destruct (open_sample None None) as [d|e| |]; try discriminate Hok. exists d. split; [reflexivity|].
  destruct (json_filters_are_refused sample_fuel "sample.db" (snapshot Metrics.new) sample_ids "{v: 1}" "users" "" "" (new_shell d))
    as (_ & Hdelete & Hread); [eexists; reflexivity|]. split; [exact Hdelete|].
  destruct (Hread ltac:(done) None None None) as (_ & _ & Hcount & _). exact Hcount.
Defined.

Lemma shell_never_filters_witness : exists d, open_sample None None = Ok d /\
  let s := CommandLine.with_collection (Some "users") (new_shell d) in
  let run := execute_repl_command sample_fuel "sample.db" (snapshot Metrics.new) sample_ids in
  complains (run "delete v is '1'") s /\
  (complains (run "find v is '1'") s \/ exists coll, current_collection s = Some coll /\
    run "find v is '1'" s = (let! _ := document_find sample_fuel coll "{}" None None in st_ret false) s).
Proof.
  assert (is_ok (open_sample None None) = true) as Hok by (vm_compute; reflexivity).
  destruct (open_sample None None) as [d|e| |]; try discriminate Hok. exists d. split; [reflexivity|]. cbn zeta. split.
  - apply (shell_never_filters sample_fuel "sample.db" (snapshot Metrics.new) sample_ids "delete v is '1'" "delete" ["v"; "is"; "'1'"]);
      [vm_compute; reflexivity|by right].
  - apply (shell_never_filters sample_fuel "sample.db" (snapshot Metrics.new) sample_ids "find v is '1'" "find" ["v"; "is"; "'1'"]);
      [vm_compute; reflexivity|done].
Defined.
